(* ===== verification/_CoqProject ===== *)
-Q . S2P
Prelude.v
Effects.v
Leadership.v
Envelope.v
Credentials.v
GcpCredentials.v
Float.v
Encoding.v
Placement.v
Admission.v
Recovery.v
Resources.v
Allocation.v
Lifecycle.v
LifecycleProps.v
LifecycleSafety.v
LifecycleProgress.v
State.v
StateProps.v
System.v
SystemExample.v
Overlay.v
Peers.v
Agent.v
Provider.v
Command.v
Cloud.v
Tunnel.v
GithubJobs.v
Health.v
AgentRun.v
Register.v
Fleet.v
Operator.v
Queue.v
Tick.v
FleetProps.v
OperatorProps.v
DemandProps.v
PruneProps.v
Control.v
RetryProps.v
TickProps.v
OperatorExample.v
Api.v
ConfigCheck.v
Scope.v
Compile.v
Construct.v
Main.v
CompileProps.v
Aws.v
AwsProps.v
AwsSafety.v
AwsExample.v
Gcp.v
GcpProps.v
GcpSafety.v
GcpExample.v
Azure.v
Prices.v
PricesProps.v
PriceFeed.v
AzureOps.v
AzureProps.v
AzureSafety.v
AzureCreate.v
AzureExample.v
EndToEnd.v
Clouds.v
Cluster.v
Checkpoint.v
CheckpointProps.v
Load.v
LoadProps.v
Runtime.v
RuntimeProps.v
SessionProps.v
ConfigExample.v
RuntimeExample.v
