(* ===== verification/Prelude.v ===== *)
(** * RunnerScout: a verification library

    RunnerScout is a Kubernetes controller that runs GitHub Actions jobs on
    short-lived cloud machines.  This library models its own logic (the Go code
    under src/internal, src/api and src/cmd) and proves the properties that make it
    correct.  The code is translated as it is written: records for structs,
    inductive types for enums, one definition per function, [option error] and
    [error + A] for Go's error results, 64-bit arithmetic where it can
    overflow, and trees of calls ([prog], Effects.v) for code that talks to
    other systems.

    ** The program and its parts

    A scale set is configured by objects of the API group runnerscout.io.  The
    configuration runtime loads them with their Secrets, checkpoints what it
    accepts and runs one worker, an operator, for it.  The operator turns
    demand messages of GitHub into allocations within limits, budget and
    placement, and on every tick steps each allocation through the lifecycle:
    intent is stored, a cloud machine is created, observed and deleted, and
    interrupted jobs may be rerun.  Allocations are ConfigMaps.  Machines of a
    wireguard network poll the controller for their peers.

    - Placement.v: internal/placement ([Validate], [Choose]).
    - Admission.v, Recovery.v: internal/admission and internal/recovery, the
      admission counter and the rules for reruns.
    - Allocation.v, Resources.v, Lifecycle.v: internal/lifecycle, the record,
      [MergeResources] and [Controller.Step] in every phase.  LifecycleProps.v,
      LifecycleSafety.v and LifecycleProgress.v hold its theorems.
    - State.v, StateProps.v: internal/state, the ConfigMap store over the
      semantics of the API server (class [ConfigMapAPI]).
    - System.v: any number of controllers stepping over one store, interleaved
      call by call with each other and with other writers (an inductive step
      relation).  SystemExample.v is a concrete store and runs it.
    - Fleet.v, Operator.v, Tick.v: internal/operator, configuration, binding,
      fleet record, budget, demand, price refresh, ticks, reruns, pruning and
      draining.  FleetProps.v, OperatorProps.v, DemandProps.v, PruneProps.v,
      RetryProps.v, TickProps.v and OperatorExample.v hold theorems and runs.
      Control.v: the loops of a worker, [runLeader], [RunCleanup] and
      [RunRecovery].
    - Leadership.v: internal/operator/leadership.go, [WithLease] as a step
      relation of its two goroutines, and runners.go.
    - Overlay.v, Peers.v, Agent.v, Tunnel.v: internal/wireguard,
      internal/health's peer endpoint, the reconciliation of
      internal/wireguard/agent and internal/wireguard/tunnel.
    - Health.v: internal/health/health.go, the probes and routes of the health
      server.  AgentRun.v: the agent's whole lifetime and its poll request
      ([Run], [Poll]) over the device's calls, and a poll answered by the server over
      the records.
    - Construct.v: [New] and [NewWithCredentials] of internal/operator.  Main.v:
      cmd/runnerscout, options, modes, clients and observers, the health server
      around the controller, the exit status.  Register.v:
      cmd/e2e-register-scale-set.
    - Provider.v, Command.v: internal/provider/command.go, validation, boot
      script and the dispatch to the cloud adapters.
    - Aws.v: internal/provider/aws.go, aws_inventory.go and the session of
      aws_sdk.go over EC2 requests; AwsProps.v, AwsSafety.v and AwsExample.v
      hold theorems and runs.  Cloud.v: what the adapters share.
    - Gcp.v: internal/provider/gcp_sdk.go over Compute requests; GcpProps.v,
      GcpSafety.v and GcpExample.v.
    - Azure.v, AzureOps.v: the azure*.go files of internal/provider over ARM
      requests; AzureProps.v, AzureSafety.v, AzureCreate.v, AzureExample.v.
    - EndToEnd.v: what the lifecycle needs of a cloud adapter (class
      [AdapterLaws]), with an instance per cloud, and a lifecycle step with its
      provider calls answered by [Command] and the adapters; Clouds.v proves and
      runs it.
    - Envelope.v: the check of EC2's XML responses, internal/provider/
      aws_response.go and the same in internal/prices/aws.go.
    - Credentials.v, GcpCredentials.v, Scope.v: aws_credentials.go,
      gcp_credentials.go and credentials.go of internal/provider.
    - Float.v, Prices.v, PricesProps.v: internal/prices, the three price clients
      and the float64 arithmetic they use.  PriceFeed.v: the observers of
      internal/provider that carry out the operator's price refresh.
    - GithubJobs.v, Queue.v: internal/githubjobs, internal/azurequeue and
      internal/azureevents.  Encoding.v: base64 and hexadecimal.
    - Api.v, ConfigCheck.v, Compile.v: api/v1alpha1, [Config.Validate] and
      internal/configapi/compile.go; CompileProps.v, ConfigExample.v.
    - Cluster.v, Checkpoint.v, Load.v, Runtime.v: the rest of
      internal/configapi; CheckpointProps.v, LoadProps.v, RuntimeProps.v,
      SessionProps.v and RuntimeExample.v.

    ** What the theorems show

    - Cloud effects (System, LifecycleProps, LifecycleSafety): every create
      follows a stored intent; an ambiguous create is never repeated; the create
      calls of all controllers together stay within an allocation's attempts;
      terminal records are justified and no dependency is dropped; the store
      refines the contract the lifecycle is proved against.  Progress
      (LifecycleProgress): against a store and a cloud that cooperate, a retired
      allocation is cleaned up in a bounded number of steps.
    - Durable state (StateProps): no lost update, round trip, retained
      obligations.
    - Admission (DemandProps, OperatorProps, Admission, Placement): a demand
      message admits only within limits, budget and placement, keeps the fleet
      invariant and gives each slot back once.
    - Ticks (TickProps, PruneProps, RetryProps, Recovery): no admission is lost,
      lifetimes are enforced, records are pruned only after confirmed cleanup,
      reruns are bounded and justified.
    - Networking (Overlay, Peers, Health, AgentRun): addresses are free and
      usable, a peer list needs the right token, a poll with the issued token
      returns the allocation's own snapshot, a device converges to the other
      members whatever failed before, the agent contacts its own controller only
      and closes its device.
    - The process (Main, Construct, Register): no controller runs outside the
      health server, a check reports success only when it passed, a failed cleanup
      is not hidden by a cancellation, credentials stay with their provider,
      registering a scale set is idempotent.
    - Configuration (CompileProps, ConfigCheck, CheckpointProps, LoadProps,
      RuntimeProps, SessionProps): compiled configurations are valid and closed,
      a load is a snapshot of one instant, a checkpoint keeps its scale set and
      binding, a session starts only under a saved checkpoint and the cleanup
      finalizer, one worker runs at a time, and the finalizer goes only after
      confirmed cleanup.
    - Clients (Command, GithubJobs, Queue): creates and deletes are gated, pages
      are complete, only well-formed preemption events count.
    - AWS (AwsProps, AwsSafety): an allocation is reported gone only
      when nothing of it is left, a delete makes one change at most and only to
      a proven and recorded resource, a create makes one request at most when
      nothing exists and its errors tell what happened.  The account that
      answers is a contract ([ec2_answers]: complete listings, honest "not
      found"; [sdk_answers]).
    - GCP and Azure (GcpProps, GcpSafety, AzureProps, AzureSafety, AzureCreate):
      the same for the other two, with the settlement of operations and
      deployments and the ownership of an untagged disk.
    - The whole (Clouds): for each of the three clouds, a lifecycle step releases
      an allocation only when the cloud has nothing of it, and goes back to
      Pending only when the create had no effect.
    - One controller (Leadership): [WithLease] joins the controller before it
      returns, returns its result, and does not deadlock.
    - Workers (Control): ready means a running listener and a successful tick, the
      listener is joined before its session is closed, and cleanup ends only
      when everything is resolved.
    - Responses and credentials (Envelope, Credentials, GcpCredentials): an EC2
      response passes exactly when it is a complete envelope; credentials come
      from the selected sources only, a command has one identity, and a token
      belongs to the bytes in its file.
    - Prices (PriceFeed, PricesProps, Float): every refreshed price of the catalog
      has one unambiguous source among the calls made, and a price of whole micros
      survives two roundings of float64.

    ** Interfaces and parameters

    Effectful code is proved against every answer ([no_contract]) or against a
    contract of the called interface; [wp] follows a program call by call.
    Parameters, each a class with the laws the code relies on and a concrete
    instance in an example file: JSON codecs ([AllocationCodec], [FleetCodec],
    [SnapshotCodec], [ObjectCodec], [AzureJSON], [PriceJSON], [GcpJSON],
    [PeersJSON], [PayloadJSON], [ConfigJSON]), XML
    tokens ([XMLTokens]), the text form of addresses ([NetText], [PortText]),
    name grammars and URLs ([NameRules], [URLs], [RequestURL], [ArmIDs]), case folding
    ([CaseFold]), UUIDs ([UUIDs], [UUIDHash]), the parsing of floats
    ([ParseFloats]) and what Go leaves to the target ([GoTarget]), hashes and
    keys, and the API server.
    The order in which a Go map is ranged over is an answer of a call
    ([RangeKeys], [RangeOrder]); in [Compile] it only selects among errors.

    ** Bounds and fuel

    [int] is 64 bits wide; [wrap64] is written where a bound does not exclude
    overflow.  The scan of a prefix has one unit of fuel per address and one
    more, trimming one per byte, the pages of a job list one per hundred jobs
    and one more; the theorems prove that this suffices.  A listing of EC2 has
    the 100 further pages the code allows, the SKU catalog its 64 pages.  The
    wait for a GCP operation polls once a second within its 300 or 60 seconds,
    which are its fuel; running out is the code's own timeout.  The loop of the
    envelope check has one unit per token and one more, and any larger fuel
    gives the same result.  An execution of [WithLease] has at most 18
    operations.  The timer loops of a worker and of the agent take fuel and
    their theorems hold for every amount of it.

    ** Concurrency

    The operator serialises its handlers by a mutex, so each is one program;
    other writers appear as arbitrary answers of the store.  [Reconcile] of the
    runtime runs under a Lease and never concurrently; workers run on their own
    and appear as calls with arbitrary answers.  System.v interleaves the
    lifecycle steps of several controllers.  Leadership.v interleaves the caller
    of [WithLease] and the elector's goroutine at the level of mutex, wait group
    and channel operations.  The gate of the GCP token source admits one call at
    a time, so a call is one program.  The goroutine of the health server appears
    as the error it may have sent by the time the controller returns.

    ** Not modelled

    The time budget of adapter operations (a request that runs out of time
    fails, which every answer includes); the constructors of SDK and HTTP clients
    and their transports; client-go's leader elector; the listener of the scaleset
    library; the wireguard device; net/http beyond the routes (redirects of paths
    that are not clean, timeouts of the server); reading of flags and signals;
    generated deep copies and scheme registration; test helpers; logging.  These
    call a library and nothing else, or are generated, or have no logic of their
    own. *)
From stdpp Require Export base tactics option list gmap strings sorting.
From Stdlib Require Export ZArith Lia Ascii.

Set Default Proof Using "Type".

#[global] Open Scope string_scope.
#[global] Open Scope list_scope.
#[global] Open Scope Z_scope.

Declare Scope go_scope.
Delimit Scope go_scope with go.
#[global] Open Scope go_scope.

(** ** Strings.  A Go string is a byte string, as is [String.string]. *)

Notation "s =s t" := (String.eqb s t) (at level 70) : go_scope.
Notation "s <>s t" := (negb (String.eqb s t)) (at level 70) : go_scope.

(** [len(s)] *)
Definition strlen (s : string) : Z := Z.of_nat (String.length s).

(** [slices.Contains(l, s)] for a slice of strings. *)
Definition slices_contains (l : list string) (s : string) : bool :=
  existsb (String.eqb s) l.

Fixpoint drop_while {A} (f : A → bool) (l : list A) : list A :=
  match l with
  | [] => []
  | x :: l' => if f x then drop_while f l' else l
  end.

Definition in_cutset (cutset : string) (c : ascii) : bool :=
  existsb (Ascii.eqb c) (String.list_ascii_of_string cutset).

(** [strings.Trim(s, cutset)] for an ASCII cutset. *)
Definition strings_trim (s cutset : string) : string :=
  String.string_of_list_ascii
    (rev (drop_while (in_cutset cutset)
      (rev (drop_while (in_cutset cutset) (String.list_ascii_of_string s))))).

(** [strings.ContainsAny(s, chars)] for ASCII chars. *)
Definition strings_contains_any (s chars : string) : bool :=
  existsb (in_cutset chars) (String.list_ascii_of_string s).

(** [strings.HasPrefix(s, p)] *)
Definition strings_has_prefix (s p : string) : bool := String.prefix p s.

(** The UTF-8 encodings of the code points for which [unicode.IsSpace] holds. *)
Definition bytes (l : list N) : list ascii := map ascii_of_N l.

Definition unicode_spaces : list (list ascii) :=
  map bytes
    ([[9]; [10]; [11]; [12]; [13]; [32]; [194; 133]; [194; 160];
      [225; 154; 128]; [226; 128; 168]; [226; 128; 169]; [226; 128; 175];
      [226; 129; 159]; [227; 128; 128]]
     ++ map (λ n, [226; 128; 128 + n]) [0; 1; 2; 3; 4; 5; 6; 7; 8; 9; 10])%N.

Fixpoint strip_prefix (p l : list ascii) : option (list ascii) :=
  match p, l with
  | [], _ => Some l
  | x :: p', y :: l' => if Ascii.eqb x y then strip_prefix p' l' else None
  | _ :: _, [] => None
  end.

Fixpoint strip_first (ps : list (list ascii)) (l : list ascii) : option (list ascii) :=
  match ps with
  | [] => None
  | p :: ps' =>
      match strip_prefix p l with Some l' => Some l' | None => strip_first ps' l end
  end.

(** One round removes one leading code point, so [length l] rounds reach the
    fixed point. *)
Fixpoint trim_left (ps : list (list ascii)) (fuel : nat) (l : list ascii) : list ascii :=
  match fuel with
  | O => l
  | S fuel' =>
      match strip_first ps l with Some l' => trim_left ps fuel' l' | None => l end
  end.

(** [strings.TrimSpace(s)] *)
Definition strings_trim_space (s : string) : string :=
  let l := String.list_ascii_of_string s in
  let l1 := trim_left unicode_spaces (length l) l in
  String.string_of_list_ascii
    (rev (trim_left (map (@rev ascii) unicode_spaces) (length l1) (rev l1))).

(** Byte-wise lexicographic order, Go's [<] on strings. *)
Definition str_ltb (s t : string) : bool := String.ltb s t.

(** ** Machine integers.  [int] is 64 bits wide. *)

Definition min_int64 : Z := - 2 ^ 63.
Definition max_int64 : Z := 2 ^ 63 - 1.
Definition wrap64 (x : Z) : Z := (x + 2 ^ 63) mod 2 ^ 64 - 2 ^ 63.
Definition wrapU64 (x : Z) : Z := x mod 2 ^ 64.
Definition in_int64 (x : Z) : Prop := min_int64 ≤ x ≤ max_int64.

Lemma wrap64_id x : in_int64 x → wrap64 x = x.
Proof.
  unfold in_int64, wrap64, min_int64, max_int64. intros H.
  rewrite Z.mod_small; lia.
Qed.

Lemma wrap64_range x : in_int64 (wrap64 x).
Proof.
  unfold in_int64, wrap64, min_int64, max_int64.
  pose proof (Z.mod_pos_bound (x + 2 ^ 63) (2 ^ 64)). lia.
Qed.

Lemma wrapU64_id x : 0 ≤ x < 2 ^ 64 → wrapU64 x = x.
Proof. apply Z.mod_small. Qed.

(** ** Time.  [time.Time] is an instant in nanoseconds since the zero Time
    (midnight UTC, 1 January of year 1); [time.Duration] is an int64 count of
    nanoseconds. *)

Abbreviation time := Z (only parsing).
Abbreviation duration := Z (only parsing).

Definition zero_time : time := 0.
Definition is_zero (t : time) : bool := t =? zero_time.
Definition before (t u : time) : bool := t <? u.
Definition after (t u : time) : bool := u <? t.

Definition Second : duration := 1000000000.
Definition Minute : duration := 60 * Second.
Definition Hour : duration := 60 * Minute.

(** [t.Sub(u)] saturates at the ends of [Duration]. *)
Definition time_sub (t u : time) : duration := Z.max min_int64 (Z.min max_int64 (t - u)).
(** [t.Add(d)] *)
Definition time_add (t : time) (d : duration) : time := t + d.
(** [time.Duration(n) * time.Second] *)
Definition seconds (n : Z) : duration := wrap64 (n * Second).

(** [t.UTC().Date()], as the number of the civil day; year, month and day of
    two instants agree exactly when their day numbers do. *)
Definition utc_day (t : time) : Z := t / (24 * Hour).

(** ** Errors.  A Go error is its text and the sentinels [errors.Is] finds in
    its chain. *)

Inductive sentinel :=
  | ErrConflict | ErrCapacity | ErrNoEffect
  | ErrIncomplete | ErrExhausted
  | ErrAttemptNotFound | ErrRerunRejected
  | ErrOverlayAddressesExhausted
  | APINotFound | APIConflict | APIAlreadyExists
  | ErrUnsupported | ErrCheckpointOwnership | ErrBindingChange | ErrChanged.

#[export] Instance sentinel_eq_dec : EqDecision sentinel.
Proof. solve_decision. Defined.

Record error := Err { err_text : string; err_chain : list sentinel }.

Definition errors_new (s : string) : error := Err s [].
Definition errors_is (e : error) (s : sentinel) : bool := bool_decide (s ∈ err_chain e).
(** [errors.Is] on an [error] value that may be nil. *)
Definition is_err (e : option error) (s : sentinel) : bool :=
  match e with Some e => errors_is e s | None => false end.

Definition errors_join (es : list error) : option error :=
  match es with
  | [] => None
  | _ => Some (Err (String.concat (String (ascii_of_N 10) "") (map err_text es))
                   (es ≫= err_chain))
  end.

Abbreviation result A := (error + A)%type.

Definition isNone {A} (o : option A) : bool := match o with None => true | _ => false end.
Definition isSome {A} (o : option A) : bool := negb (isNone o).

(** Reading a Go map yields the zero value for an absent key. *)
Definition map_get {V} (zero : V) (m : gmap string V) (k : string) : V :=
  default zero (m !! k).

(** ** Automation *)

Create Rewrite HintDb go_bool.
#[export] Hint Rewrite orb_true_iff orb_false_iff andb_true_iff andb_false_iff
  negb_true_iff negb_false_iff Z.ltb_lt Z.ltb_ge Z.leb_le Z.leb_gt Z.eqb_eq Z.eqb_neq
  String.eqb_eq String.eqb_neq Nat.eqb_eq Nat.eqb_neq Bool.eqb_true_iff
  bool_decide_eq_true bool_decide_eq_false : go_bool.

Lemma length_ltb_true {A} (l : list A) : (0 <? length l)%nat = true ↔ l ≠ [].
Proof. rewrite Nat.ltb_lt. destruct l; simpl; [naive_solver lia|]. split; [done|lia]. Qed.
Lemma length_ltb_false {A} (l : list A) : (0 <? length l)%nat = false ↔ l = [].
Proof. rewrite Nat.ltb_ge. destruct l; simpl; [naive_solver lia|]. split; [lia|done]. Qed.
Lemma isNone_true {A} (o : option A) : isNone o = true ↔ o = None.
Proof. by destruct o. Qed.
Lemma isSome_false {A} (o : option A) : isSome o = false ↔ o = None.
Proof. by destruct o. Qed.
#[export] Hint Rewrite @length_ltb_true @length_ltb_false @isNone_true @isSome_false
  @length_zero_iff_nil : go_bool.

(** Turn boolean guards into propositions. *)
Tactic Notation "reflect" "in" hyp(H) := autorewrite with go_bool in H.
Tactic Notation "reflect" := autorewrite with go_bool.
Tactic Notation "reflect" "*" := autorewrite with go_bool in *.

(** Case on every scrutinee of a match in [H], dropping impossible cases. *)
Ltac cases H :=
  repeat (match type of H with
          | context [match ?x with _ => _ end] => let E := fresh "Hc" in destruct x eqn:E
          end; simplify_eq H || simplify_eq/=; try discriminate).

Lemma slices_contains_spec l s : slices_contains l s = true ↔ s ∈ l.
Proof.
  unfold slices_contains. rewrite existsb_exists, list_elem_of_In.
  split; [intros (x & Hx & ->%String.eqb_eq); done|].
  intros Hs. exists s. by rewrite String.eqb_refl.
Qed.

Lemma slices_contains_false l s : slices_contains l s = false ↔ s ∉ l.
Proof. rewrite <- slices_contains_spec. by destruct (slices_contains l s). Qed.
#[export] Hint Rewrite slices_contains_spec slices_contains_false : go_bool.

Lemma list_filter_In {A} (f : A → bool) l x : x ∈ List.filter f l ↔ x ∈ l ∧ f x = true.
Proof. rewrite !list_elem_of_In. apply filter_In. Qed.

Lemma existsb_elem {A} (f : A → bool) l : existsb f l = true ↔ ∃ x, x ∈ l ∧ f x = true.
Proof. rewrite existsb_exists. by setoid_rewrite list_elem_of_In. Qed.

Lemma existsb_none {A} (f : A → bool) l : existsb f l = false ↔ ∀ x, x ∈ l → f x = false.
Proof.
  rewrite <- not_true_iff_false, existsb_elem. split.
  - intros Hn x Hx. destruct (f x) eqn:?; [|done]. naive_solver.
  - intros Hn (x & Hx & Hf). by rewrite Hn in Hf.
Qed.

Lemma forallb_elem {A} (f : A → bool) l : forallb f l = true ↔ ∀ x, x ∈ l → f x = true.
Proof. rewrite forallb_forall. by setoid_rewrite list_elem_of_In. Qed.

(** The byte order on strings is a total order. *)
Lemma str_ltb_irrefl s : str_ltb s s = false.
Proof.
  unfold str_ltb, String.ltb. pose proof (String.compare_antisym s s) as H.
  by destruct (String.compare s s).
Qed.

Lemma str_ltb_antisym s t : str_ltb s t = false → str_ltb t s = false → s = t.
Proof.
  unfold str_ltb, String.ltb. rewrite (String.compare_antisym t s).
  destruct (String.compare s t) eqn:Hc; simpl; try done.
  intros _ _. by apply String.compare_eq_iff.
Qed.

Lemma str_ltb_nle s t : str_ltb s t = false ↔ String.le t s.
Proof.
  unfold str_ltb, String.le, String.ltb, String.leb.
  rewrite (String.compare_antisym s t). by destruct (String.compare t s).
Qed.

Lemma str_ltb_le s t : str_ltb s t = true → String.le s t.
Proof. unfold str_ltb, String.le, String.ltb, String.leb. by destruct (String.compare s t). Qed.

Lemma str_ltb_asym s t : str_ltb s t = true → str_ltb t s = false.
Proof.
  unfold str_ltb, String.ltb. rewrite (String.compare_antisym t s).
  by destruct (String.compare s t).
Qed.
