(* ===== verification/Effects.v ===== *)
(** * Effectful code as trees of calls

    Code that talks to Kubernetes, a cloud or GitHub is a [prog E R]: it
    returns a value or makes a call of the signature [E] and continues with
    the answer.  Three readings are used by the component files:

    - [trace_of]: the finite histories of calls and answers, for every answer
      the environment may give;
    - [wp]: what holds of every history whose answers satisfy a contract [G]
      of the called interface (the client's theorems are proved with it);
    - [run]: execution against a handler with a state (an implementation of
      the interface). *)
From S2P Require Import Prelude.

Inductive prog (E : Type → Type) (R : Type) : Type :=
  | Ret (r : R)
  | Vis (X : Type) (e : E X) (k : X → prog E R).
Arguments Ret {E R} r.
Arguments Vis {E R X} e k.

#[export] Instance prog_ret {E} : MRet (prog E) := λ R r, Ret r.
#[export] Instance prog_bind {E} : MBind (prog E) := λ A B f,
  fix go p := match p with Ret r => f r | Vis e k => Vis e (λ x, go (k x)) end.

Definition call {E : Type → Type} {X} (e : E X) : prog E X := Vis e Ret.

(** A call together with its answer. *)
Definition event (E : Type → Type) : Type := {X : Type & (E X * X)%type}.
Definition ev {E : Type → Type} {X} (e : E X) (x : X) : event E := existT X (e, x).

Section semantics.
Context {E : Type → Type}.

Inductive trace_of {R} : prog E R → list (event E) → R → Prop :=
  | trace_ret r : trace_of (Ret r) [] r
  | trace_vis X (e : E X) k x h r :
      trace_of (k x) h r → trace_of (Vis e k) (ev e x :: h) r.

(** A contract of the called interface: which answers a call may get. *)
Definition contract := ∀ X, E X → X → Prop.
Definition no_contract : contract := λ _ _ _, True.
Definition respects (G : contract) (v : event E) : Prop :=
  G (projT1 v) (fst (projT2 v)) (snd (projT2 v)).

Fixpoint wp {R} (G : contract) (Q : list (event E) → R → Prop)
    (h : list (event E)) (p : prog E R) : Prop :=
  match p with
  | Ret r => Q h r
  | Vis e k => ∀ x, G _ e x → wp G Q (h ++ [ev e x]) (k x)
  end.

Lemma wp_sound {R} G (Q : list (event E) → R → Prop) p h0 h r :
  wp G Q h0 p → trace_of p h r → Forall (respects G) h → Q (h0 ++ h) r.
Proof.
  intros Hwp Ht. revert h0 Hwp. induction Ht as [r|X e k x h r Ht IH]; intros h0 Hwp Hh.
  - by rewrite app_nil_r.
  - inversion Hh as [|?? Hx Hh']; subst.
    rewrite (cons_middle (ev e x)), app_assoc. apply IH; [|done].
    by apply Hwp.
Qed.

Lemma wp_traces {R} G (Q : list (event E) → R → Prop) p h0 :
  (∀ h r, trace_of p h r → Forall (respects G) h → Q (h0 ++ h) r) → wp G Q h0 p.
Proof.
  revert h0. induction p as [r|X e k IH]; intros h0 HQ; simpl.
  - specialize (HQ [] r). rewrite app_nil_r in HQ. apply HQ; constructor.
  - intros x Hx. apply IH. intros h r Ht Hh. rewrite <- app_assoc. apply HQ; by constructor.
Qed.

Lemma wp_mono {R} G (Q Q' : list (event E) → R → Prop) p h :
  wp G Q h p → (∀ h r, Q h r → Q' h r) → wp G Q' h p.
Proof.
  revert h. induction p as [r|X e k IH]; simpl; intros h Hp HQ; [by apply HQ|].
  intros x Hx. apply IH; [by apply Hp|done].
Qed.

Lemma wp_bind {R S} G (Q : list (event E) → S → Prop) (p : prog E R) (f : R → prog E S) h :
  wp G (λ h' r, wp G Q h' (f r)) h p → wp G Q h (p ≫= f).
Proof.
  revert h. induction p as [r|X e k IH]; simpl; intros h Hp; [done|].
  intros x Hx. apply IH. by apply Hp.
Qed.

(** Every history of [p] whose answers keep to [G] satisfies [Q]. *)
Definition ensures {R} (G : contract) (p : prog E R) (Q : list (event E) → R → Prop) : Prop :=
  ∀ h r, trace_of p h r → Forall (respects G) h → Q h r.

Lemma wp_ensures {R} G (p : prog E R) Q : wp G Q [] p → ensures G p Q.
Proof. intros Hp h r Ht Hh. by apply (wp_sound G Q p [] h r). Qed.

(** ** Programs stopped part way *)

(** [p] has made the calls of [h] and [p'] is left to do. *)
Inductive follows {R} (p : prog E R) : list (event E) → prog E R → Prop :=
  | follows_nil : follows p [] p
  | follows_snoc h X (e : E X) k x : follows p h (Vis e k) → follows p (h ++ [ev e x]) (k x).

Lemma follows_trace {R} (p p' : prog E R) h h' r :
  follows p h p' → trace_of p' h' r → trace_of p (h ++ h') r.
Proof.
  intros Hf. revert h'. induction Hf as [|h X e k x _ IH]; intros h' Ht; [done|].
  rewrite <- app_assoc. apply IH. by constructor.
Qed.

(** Some answer is allowed to every call. *)
Definition answerable (G : contract) : Prop := ∀ X (e : E X), ∃ x, G X e x.

Lemma trace_exists {R} G (p : prog E R) :
  answerable G → ∃ h r, trace_of p h r ∧ Forall (respects G) h.
Proof.
  intros HG. induction p as [r|X e k IH]; [exists [], r; split; constructor|].
  destruct (HG X e) as [x Hx]. destruct (IH x) as (h & r & Ht & Hh).
  exists (ev e x :: h), r. split; by constructor.
Qed.

Lemma ensures_weaken {R} G (p : prog E R) Q : ensures no_contract p Q → ensures G p Q.
Proof. intros Hp h r Ht _. apply Hp; [done|]. by apply Forall_true. Qed.

Section run.
Context {W : Type} (H : ∀ X, E X → W → W * X).

Fixpoint run {R} (p : prog E R) (w : W) : W * R :=
  match p with
  | Ret r => (w, r)
  | Vis e k => let '(w', x) := H _ e w in run (k x) w'
  end.

(** The history of [run]. *)
Fixpoint run_history {R} (p : prog E R) (w : W) : list (event E) :=
  match p with
  | Ret _ => []
  | Vis e k => let '(w', x) := H _ e w in ev e x :: run_history (k x) w'
  end.

Lemma run_trace {R} (p : prog E R) w :
  trace_of p (run_history p w) (snd (run p w)).
Proof.
  revert w. induction p as [r|X e k IH]; intros w; simpl; [constructor|].
  destruct (H X e w) as [w' x]. constructor. apply IH.
Qed.

Lemma run_bind {R S} (p : prog E R) (f : R → prog E S) w :
  run (p ≫= f) w = let '(w', r) := run p w in run (f r) w'.
Proof.
  revert w. induction p as [r|X e k IH]; intros w; simpl; [done|].
  destruct (H X e w) as [w' x]. apply IH.
Qed.

(** The handler implements the contract in states satisfying [I], which
    every call preserves. *)
Definition implements (I : W → Prop) (G : contract) : Prop :=
  ∀ X (e : E X) w w' x, I w → H X e w = (w', x) → I w' ∧ G X e x.

Lemma run_respects {R} I G (p : prog E R) w :
  implements I G → I w →
  Forall (respects G) (run_history p w) ∧ I (fst (run p w)).
Proof.
  intros HI. revert w. induction p as [r|X e k IH]; intros w Hw; simpl; [done|].
  destruct (H X e w) as [w' x] eqn:Hx.
  destruct (HI X e w w' x Hw Hx) as [Hw' HG].
  destruct (IH x w' Hw') as [Hh HI']. split; [|done]. by constructor.
Qed.

(** A client theorem proved against the contract holds of every run of the
    client on the implementation. *)
Lemma run_ensures {R} I G (p : prog E R) Q w :
  implements I G → I w → ensures G p Q →
  Q (run_history p w) (snd (run p w)).
Proof.
  intros HI Hw HQ. apply HQ; [apply run_trace|]. by eapply run_respects.
Qed.
End run.
End semantics.
Arguments contract : clear implicits.

Lemma wp_ret {E R} (G : contract E) Q h (r : R) : Q h r → wp G Q h (mret r).
Proof. done. Qed.

Lemma wp_call {E X} (G : contract E) Q h (e : E X) :
  (∀ x, G X e x → Q (h ++ [ev e x]) x) → wp G Q h (call e).
Proof. done. Qed.

Lemma wp_call_bind {E X R} (G : contract E) Q h (e : E X) (f : X → prog E R) :
  (∀ x, G X e x → wp G Q (h ++ [ev e x]) (f x)) → wp G Q h (call e ≫= f).
Proof. done. Qed.

(** ** Programs that make only certain calls *)

Section emits.
Context {E : Type → Type} (P : event E → Prop).

Definition emits {R} (p : prog E R) : Prop :=
  ∀ h (Q : list (event E) → R → Prop), (∀ h' x, Forall P h' → Q (h ++ h') x) → wp no_contract Q h p.

Lemma emits_ret {R} (x : R) : emits (mret x).
Proof. intros h Q HQ. apply wp_ret. specialize (HQ [] x). rewrite app_nil_r in HQ. by apply HQ. Qed.

Lemma emits_call {X} (e : E X) : (∀ x, P (ev e x)) → emits (call e).
Proof. intros HP h Q HQ. apply wp_call. intros x _. apply HQ. by constructor. Qed.

Lemma emits_bind {A R} (p : prog E A) (f : A → prog E R) : emits p → (∀ x, emits (f x)) → emits (p ≫= f).
Proof.
  intros Hp Hf h Q HQ. apply wp_bind, Hp. intros h1 x H1. apply Hf. intros h2 y H2.
  rewrite <- app_assoc. apply HQ. by apply Forall_app_2.
Qed.

Lemma emits_trace {R} (p : prog E R) h x : emits p → trace_of p h x → Forall P h.
Proof.
  intros Hp Ht. apply (wp_sound no_contract (λ h _, Forall P h) p [] h x); [|done|by apply Forall_true].
  by apply Hp.
Qed.
End emits.

Lemma emits_weaken {E} (P P' : event E → Prop) {R} (p : prog E R) :
  (∀ v, P v → P' v) → emits P p → emits P' p.
Proof. intros HP Hp h Q HQ. apply Hp. intros h' x Hh. apply HQ. by eapply Forall_impl. Qed.

(** What holds of the histories of [p] by [wp] holds of each of them. *)
Lemma trace_wp {E R} (Q : list (event E) → R → Prop) (p : prog E R) h x :
  trace_of p h x → wp no_contract Q [] p → Q h x.
Proof. intros Ht Hp. apply (wp_sound _ _ _ _ _ _ Hp Ht). by apply Forall_true. Qed.

(** Sequence a fallible call: stop with its error or go on with its value. *)
Definition try {E A R} (onerr : error → prog E R) (m : prog E (result A)) (k : A → prog E R) : prog E R :=
  r ← m; match r with inl e => onerr e | inr x => k x end.

Lemma wp_try {E A R} (G : contract E) (Q : list (event E) → R → Prop) onerr (m : prog E (result A)) k h :
  wp G (λ h' r, match r with inl e => wp G Q h' (onerr e) | inr x => wp G Q h' (k x) end) h m →
  wp G Q h (try onerr m k).
Proof. intros Hm. apply wp_bind. eapply wp_mono; [exact Hm|]. by intros h' [e|x]. Qed.

Lemma emits_try {E} (P : event E → Prop) {A R} (onerr : error → prog E R) (m : prog E (result A)) k :
  emits P m → (∀ e, emits P (onerr e)) → (∀ x, emits P (k x)) → emits P (try onerr m k).
Proof. intros Hm He Hk. apply emits_bind; [done|]. by intros [e|x]. Qed.

(** What holds under no contract holds under any; two postconditions combine. *)
Lemma wp_any {E R} (G : contract E) (Q : list (event E) → R → Prop) (p : prog E R) h :
  wp no_contract Q h p → wp G Q h p.
Proof.
  intros Hp. apply wp_traces. intros h' r Ht _. apply (wp_sound _ _ _ _ _ _ Hp Ht). by apply Forall_true.
Qed.

Lemma wp_and {E R} (G : contract E) (Q Q' : list (event E) → R → Prop) (p : prog E R) h :
  wp G Q h p → wp G Q' h p → wp G (λ h r, Q h r ∧ Q' h r) h p.
Proof. intros Hp Hp'. apply wp_traces. intros h' r Ht Hh. split; by eapply wp_sound. Qed.

Lemma wp_true {E R} (G : contract E) (p : prog E R) h : wp G (λ _ _, True) h p.
Proof. by apply wp_traces. Qed.

Lemma emits_wp {E} (P : event E → Prop) {R} (G : contract E) (p : prog E R) h :
  emits P p → wp G (λ h' _, ∃ k, h' = h ++ k ∧ Forall P k) h p.
Proof. intros Hp. apply wp_any, Hp. eauto. Qed.

(** Follow a program call by call; what is left are the recursive parts. *)
Ltac emit :=
  repeat (cbv beta zeta;
    match goal with
    | |- emits _ (mret _) => apply emits_ret
    | |- emits _ (call _) => apply emits_call; intros; exact I
    | |- emits _ (try _ _ _) => apply emits_try; intros
    | |- emits _ (mbind _ _) => apply emits_bind; intros
    | |- emits _ (match ?x with _ => _ end) => destruct x
    | |- emits _ _ => solve [auto with emits]
    end).
Create HintDb emits.

(** ** Implementing the calls of a client

    [interp f p] runs [p] with every call answered by a program of another
    signature. *)
Fixpoint interp {E F : Type → Type} {R} (f : ∀ X, E X → prog F X) (p : prog E R) : prog F R :=
  match p with
  | Ret r => Ret r
  | Vis e k => f _ e ≫= λ x, interp f (k x)
  end.

(** The refinement rule: if every implementation of a call answers within the
    contract [G] and keeps [T] between the client's history and the
    implementation's, what the client guarantees under [G] holds of the whole. *)
Lemma wp_interp {E F R} (G : contract E) (G' : contract F) (f : ∀ X, E X → prog F X)
    (T : list (event E) → list (event F) → Prop) (Q : list (event E) → R → Prop) (p : prog E R) h h' :
  (∀ X (e : E X) h h', T h h' → wp G' (λ h2 x, G X e x ∧ T (h ++ [ev e x]) h2) h' (f X e)) →
  T h h' → wp G Q h p → wp G' (λ h' r, ∃ h, T h h' ∧ Q h r) h' (interp f p).
Proof.
  intros Hf. revert h h'. induction p as [r|X e k IH]; intros h h' HT Hp; cbn [interp].
  - cbn. eauto.
  - apply wp_bind. eapply wp_mono; [by apply Hf|]. intros h2 x [HG HT2]. eapply IH; [exact HT2|]. by apply Hp.
Qed.

(** What holds of the histories of [p] holds of what they add to a history. *)
Lemma wp_shift {E R} (G : contract E) (Q : list (event E) → R → Prop) (p : prog E R) h :
  wp G Q [] p → wp G (λ h' r, ∃ k, h' = h ++ k ∧ Q k r) h p.
Proof. intros Hp. apply wp_traces. intros k r Ht Hk. exists k. split; [done|]. by apply (wp_sound G Q p [] k r). Qed.

(** If every call [v] of the client is realised by a segment [R v], a history of
    the whole is the concatenation of segments that realise a client history. *)
Lemma wp_realised {E F S} (G : contract E) (G' : contract F) (f : ∀ X, E X → prog F X)
    (R : event E → list (event F) → Prop) (Q : list (event E) → S → Prop) (p : prog E S) h0 :
  (∀ X (e : E X) h, wp G' (λ h' x, ∃ k, h' = h ++ k ∧ G X e x ∧ R (ev e x) k) h (f X e)) →
  wp G Q [] p →
  wp G' (λ h' r, ∃ h ks, h' = h0 ++ concat ks ∧ Forall2 R h ks ∧ Q h r) h0 (interp f p).
Proof.
  intros Hf Hp. eapply wp_mono; [apply (wp_interp G G' f (λ h h', ∃ ks, h' = h0 ++ concat ks ∧ Forall2 R h ks) Q p []);
    [|exists []; cbn; by rewrite app_nil_r|exact Hp]|].
  - intros X e h h' (ks & -> & Hks). eapply wp_mono; [apply Hf|]. intros h2 x (k & -> & HG & Hk). split; [done|].
    exists (ks ++ [k]). split; [by rewrite concat_app, <- app_assoc; cbn; rewrite app_nil_r|].
    by apply Forall2_app; [|repeat constructor].
  - intros h' r (h & (ks & -> & Hks) & HQ). eauto.
Qed.

(** ** Positions of a history *)

Section positions.
Context {E : Type → Type}.

(** [P pre v] holds of each event [v] of [h] with the events [pre] before it. *)
Definition at_every (P : list (event E) → event E → Prop) (h : list (event E)) : Prop :=
  ∀ pre v post, h = pre ++ v :: post → P pre v.

Fixpoint at_every_from (P : list (event E) → event E → Prop) (pre h : list (event E)) : Prop :=
  match h with
  | [] => True
  | v :: h' => P pre v ∧ at_every_from P (pre ++ [v]) h'
  end.

Lemma at_every_from_spec P pre h :
  at_every_from P pre h → ∀ pre' v post, h = pre' ++ v :: post → P (pre ++ pre') v.
Proof.
  revert pre. induction h as [|w h IH]; intros pre; simpl.
  - intros _ pre' v post ?%eq_sym. by destruct pre'.
  - intros [Hw Hh] [|w' pre'] v post; simpl; intros [= -> Heq].
    + by rewrite app_nil_r.
    + rewrite (cons_middle w'), app_assoc. by eapply IH.
Qed.

Lemma at_every_snoc P h v : at_every P h → P h v → at_every P (h ++ [v]).
Proof.
  intros Hh Hv pre w post Heq. apply app_eq_inv in Heq as [(k & -> & Hk)|(k & -> & Hk)].
  - destruct k as [|w' k]; simplify_eq/=; [by rewrite app_nil_r in Hv|]. by eapply Hh.
  - destruct k as [|w' [|w2 k]]; simplify_eq/=; by rewrite ?app_nil_r.
Qed.

Lemma at_every_nil P : at_every P [].
Proof. intros [|??] v post; done. Qed.

Lemma at_every_app P (R : event E → Prop) h k :
  (∀ pre v, R v → P pre v) → at_every P h → Forall R k → at_every P (h ++ k).
Proof.
  intros HR Hh Hk. revert h Hh. induction Hk as [|v k Hv _ IH]; intros h Hh; [by rewrite app_nil_r|].
  rewrite (cons_middle v), app_assoc. apply IH, at_every_snoc; auto.
Qed.

Lemma at_every_only P (R : event E → Prop) h : (∀ pre v, R v → P pre v) → Forall R h → at_every P h.
Proof. intros HR. apply (at_every_app P R []); [done|apply at_every_nil]. Qed.

Lemma at_every_compute P h : at_every_from P [] h → at_every P h.
Proof. intros H pre v post Heq. by apply (at_every_from_spec P [] h H pre v post). Qed.
End positions.

(** What holds at every position of the complete histories holds at every
    position of the partial ones. *)
Lemma follows_every {E R} (G : contract E) (P : list (event E) → event E → Prop)
    (p p' : prog E R) h :
  answerable G → ensures G p (λ h _, at_every P h) →
  follows p h p' → Forall (respects G) h → at_every P h.
Proof.
  intros HG Hp Hf Hh pre v post ->.
  destruct (trace_exists G p' HG) as (h' & r & Ht & Hh').
  apply (Hp _ r (follows_trace _ _ _ _ _ Hf Ht) (Forall_app_2 _ _ _ Hh Hh') pre v (post ++ h')).
  by rewrite <- app_assoc.
Qed.

(** [wp_step] follows one call, return or branch of a program in a [wp] goal;
    [wp_explore] follows them all.  Answers and conditions become hypotheses. *)
Ltac wp_destruct x :=
  tryif is_var x then destruct x else (let E := fresh "Hc" in destruct x eqn:E).

Ltac wp_step :=
  match goal with
  | |- wp _ _ _ (mret _) => apply wp_ret
  | |- wp _ _ _ (mbind _ (call _)) =>
      apply wp_call_bind; let x := fresh "ans" in let H := fresh "Hans" in intros x H
  | |- wp _ _ _ (call _) =>
      apply wp_call; let x := fresh "ans" in let H := fresh "Hans" in intros x H
  | |- wp _ _ _ (mbind _ _) => apply wp_bind
  | |- wp _ _ _ (match ?x with _ => _ end) => wp_destruct x
  end.
Ltac wp_explore := repeat (cbv beta zeta; wp_step); cbv beta.
