(* ===== verification/Leadership.v ===== *)
(** * One controller at a time
    (internal/operator/leadership.go, runners.go)

    [WithLease] runs a controller as the callback of client-go's leader
    elector.  The elector starts the callback in a goroutine and does not join
    it, so the function does: a mutex, a flag, a wait group and a buffered
    channel.  The two goroutines are modelled at the granularity of these
    operations; a state is what they share and where each of them is.

    The elector is a library: of it, the model uses that [Run] starts the
    callback at most once and only before it returns, and that it may return
    at any time. *)
From S2P Require Import Prelude.
From S2P Require Import Effects.

(** ** The two goroutines *)

(** What [run] or [WithLease] returns. *)
Abbreviation outcome := (option error).

(** The caller: before the elector is built, inside [elector.Run], at
    [gate.Lock], at the assignment, at [gate.Unlock], at [workers.Wait], at the
    select, returned. *)
Inductive main_pc := MStart | MRun | MLock | MSet | MUnlock | MWait | MSelect | MReturned (r : outcome).

(** The callback: not started, at [gate.Lock], at the test of [stopping], at the
    [gate.Unlock] of the early return, at [workers.Add], at [gate.Unlock], in
    [run], at the send, at [cancel], at the deferred [workers.Done], ended. *)
Inductive callback_pc :=
  | CNone | CLock | CCheck | CRefused | CAdd | CUnlock | CRun | CSend (r : outcome) | CCancel | CDone | CEnd.

Inductive goroutine := Caller | Callback.

Record lease := {
  main : main_pc;
  callback : callback_pc;
  gate : option goroutine;               (* who holds the mutex *)
  stopping : bool;
  workers : Z;                           (* the counter of the wait group *)
  errCh : list outcome;                  (* capacity 1 *)
  cancelled : bool;                      (* [leaderCtx] *)
  result_of_run : option outcome         (* what [run] returned, for the statements *)
}.

Definition lease_start : lease :=
  {| main := MStart; callback := CNone; gate := None; stopping := false; workers := 0; errCh := [];
     cancelled := false; result_of_run := None |}.

Definition at_main (pc : main_pc) (s : lease) : lease :=
  {| main := pc; callback := callback s; gate := gate s; stopping := stopping s; workers := workers s;
     errCh := errCh s; cancelled := cancelled s; result_of_run := result_of_run s |}.
Definition at_callback (pc : callback_pc) (s : lease) : lease :=
  {| main := main s; callback := pc; gate := gate s; stopping := stopping s; workers := workers s;
     errCh := errCh s; cancelled := cancelled s; result_of_run := result_of_run s |}.
Definition with_gate (g : option goroutine) (s : lease) : lease :=
  {| main := main s; callback := callback s; gate := g; stopping := stopping s; workers := workers s;
     errCh := errCh s; cancelled := cancelled s; result_of_run := result_of_run s |}.
Definition with_stopping (s : lease) : lease :=
  {| main := main s; callback := callback s; gate := gate s; stopping := true; workers := workers s;
     errCh := errCh s; cancelled := cancelled s; result_of_run := result_of_run s |}.
Definition with_workers (n : Z) (s : lease) : lease :=
  {| main := main s; callback := callback s; gate := gate s; stopping := stopping s; workers := n;
     errCh := errCh s; cancelled := cancelled s; result_of_run := result_of_run s |}.
Definition with_errCh (l : list outcome) (s : lease) : lease :=
  {| main := main s; callback := callback s; gate := gate s; stopping := stopping s; workers := workers s;
     errCh := l; cancelled := cancelled s; result_of_run := result_of_run s |}.
Definition with_cancelled (s : lease) : lease :=
  {| main := main s; callback := callback s; gate := gate s; stopping := stopping s; workers := workers s;
     errCh := errCh s; cancelled := true; result_of_run := result_of_run s |}.
Definition with_result (r : outcome) (s : lease) : lease :=
  {| main := main s; callback := callback s; gate := gate s; stopping := stopping s; workers := workers s;
     errCh := errCh s; cancelled := cancelled s; result_of_run := Some r |}.

Definition leadership_ended : error := errors_new "leadership ended; state retained".

(** One operation of one goroutine. *)
Inductive lease_step : lease → lease → Prop :=
  (* the caller *)
  | step_invalid s e : main s = MStart → lease_step s (at_main (MReturned (Some e)) s)
  | step_elect s : main s = MStart → lease_step s (at_main MRun s)
  | step_elector_returns s : main s = MRun → lease_step s (with_cancelled (at_main MLock s))
  | step_lock s : main s = MLock → gate s = None → lease_step s (with_gate (Some Caller) (at_main MSet s))
  | step_stopping s : main s = MSet → lease_step s (with_stopping (at_main MUnlock s))
  | step_unlock s : main s = MUnlock → lease_step s (with_gate None (at_main MWait s))
  | step_wait s : main s = MWait → workers s = 0 → lease_step s (at_main MSelect s)
  | step_receive s r l : main s = MSelect → errCh s = r :: l → lease_step s (with_errCh l (at_main (MReturned r) s))
  | step_ctx s e : main s = MSelect → errCh s = [] → lease_step s (at_main (MReturned (Some e)) s)
  | step_ended s : main s = MSelect → errCh s = [] → lease_step s (at_main (MReturned (Some leadership_ended)) s)
  (* the elector starts the callback *)
  | step_started_leading s : main s = MRun → callback s = CNone → lease_step s (at_callback CLock s)
  (* the callback *)
  | step_cb_lock s : callback s = CLock → gate s = None → lease_step s (with_gate (Some Callback) (at_callback CCheck s))
  | step_cb_refused s : callback s = CCheck → stopping s = true → lease_step s (at_callback CRefused s)
  | step_cb_return s : callback s = CRefused → lease_step s (with_gate None (at_callback CEnd s))
  | step_cb_admitted s : callback s = CCheck → stopping s = false → lease_step s (at_callback CAdd s)
  | step_cb_add s : callback s = CAdd → lease_step s (with_workers (workers s + 1) (at_callback CUnlock s))
  | step_cb_unlock s : callback s = CUnlock → lease_step s (with_gate None (at_callback CRun s))
  | step_run_returns s r : callback s = CRun → lease_step s (with_result r (at_callback (CSend r) s))
  | step_cb_send s r : callback s = CSend r → errCh s = [] → lease_step s (with_errCh [r] (at_callback CCancel s))
  | step_cb_cancel s : callback s = CCancel → lease_step s (with_cancelled (at_callback CDone s))
  | step_cb_done s : callback s = CDone → lease_step s (with_workers (workers s - 1) (at_callback CEnd s)).

Definition reachable (s : lease) : Prop := rtc lease_step lease_start s.

(** ** The invariant *)

(** The callback is counted in the wait group. *)
Definition counted (pc : callback_pc) : bool :=
  match pc with CUnlock | CRun | CSend _ | CCancel | CDone => true | _ => false end.
Definition callback_holds (pc : callback_pc) : bool :=
  match pc with CCheck | CRefused | CAdd | CUnlock => true | _ => false end.
Definition main_holds (pc : main_pc) : bool := match pc with MSet | MUnlock => true | _ => false end.
Definition main_stopped (pc : main_pc) : bool :=
  match pc with MUnlock | MWait | MSelect | MReturned _ => true | _ => false end.
Definition main_joined (pc : main_pc) : bool := match pc with MSelect | MReturned _ => true | _ => false end.

(** What [run] returned and what is on its way to the caller. *)
Definition result_inv (s : lease) : Prop :=
  match callback s with
  | CSend r => result_of_run s = Some r ∧ errCh s = []
  | CCancel | CDone => ∃ r, result_of_run s = Some r ∧ errCh s = [r]
  | CEnd => (result_of_run s = None ∧ errCh s = [])
            ∨ ∃ r, result_of_run s = Some r ∧ (errCh s = [r] ∨ errCh s = [] ∧ main s = MReturned r)
  | _ => result_of_run s = None ∧ errCh s = []
  end.

Record control_inv (s : lease) : Prop := {
  inv_gate : gate s = (if main_holds (main s) then Some Caller else if callback_holds (callback s) then Some Callback else None);
  inv_exclusive : main_holds (main s) = true → callback_holds (callback s) = false;
  inv_workers : workers s = if counted (callback s) then 1 else 0;
  inv_start : main s = MStart → callback s = CNone;
  inv_stopping : stopping s = true → main_stopped (main s) = true;
  inv_stopped : main_stopped (main s) = true → stopping s = true ∨ callback s = CNone;
  inv_admitted : callback s = CAdd → main_stopped (main s) = false;
  inv_joined : main_joined (main s) = true → counted (callback s) = false
}.

Definition outcome_inv (s : lease) : Prop :=
  result_inv s ∧ ∀ v, main s = MReturned v → match result_of_run s with Some r => v = r | None => v ≠ None end.

Lemma control_inv_step s s' : lease_step s s' → control_inv s → control_inv s'.
Proof.
  intros Hstep [Hg Hx Hw Hs Hst Hsd Ha Hj].
  destruct Hstep; destruct s as [m c g st w ch x res]; cbn in *; subst; split; cbn in *;
    try done; try (intuition (congruence || lia)).
  all: try (destruct m; cbn in *; try done; intuition (congruence || lia)).
  all: destruct c; cbn in *; intuition (congruence || lia).
Qed.

Lemma outcome_inv_step s s' : lease_step s s' → control_inv s → outcome_inv s → outcome_inv s'.
Proof.
  intros Hstep [_ _ _ Hs _ _ _ Hj] [Hr Hv]. unfold result_inv in Hr.
  destruct Hstep; destruct s as [m c g st w ch x res]; cbn in *; subst; split; unfold result_inv; cbn in *; try done.
  all: try (destruct m; cbn in *; try done; intuition (congruence || lia)).
  all: try (destruct c; cbn in *; try done; naive_solver).
  all: naive_solver.
Qed.

Definition lease_inv (s : lease) : Prop := control_inv s ∧ outcome_inv s.

Lemma lease_inv_reachable s : reachable s → lease_inv s.
Proof.
  intros Hs. eapply (rtc_ind_r lease_inv); [|intros x y _ Hstep [Hc Ho]|exact Hs].
  - repeat split; cbn; try done.
  - split; [by eapply control_inv_step|by eapply outcome_inv_step].
Qed.

(** ** Progress *)

Definition main_left (pc : main_pc) : nat :=
  match pc with MStart => 8 | MRun => 7 | MLock => 6 | MSet => 5 | MUnlock => 4 | MWait => 3 | MSelect => 2 | MReturned _ => 0 end.
Definition callback_left (pc : callback_pc) : nat :=
  match pc with
  | CNone => 10 | CLock => 9 | CCheck => 8 | CAdd => 7 | CUnlock => 6 | CRun => 5 | CSend _ => 4 | CCancel => 3 | CDone => 2
  | CRefused => 1 | CEnd => 0
  end.
(** The operations the two goroutines have left, at most. *)
Definition lease_left (s : lease) : nat := main_left (main s) + callback_left (callback s).

Lemma lease_left_step s s' : lease_step s s' → (lease_left s' < lease_left s)%nat.
Proof. unfold lease_left. destruct 1; destruct s; cbn in *; subst; cbn; lia. Qed.

Lemma lease_left_steps n s s' : nsteps lease_step n s s' → (n + lease_left s' ≤ lease_left s)%nat.
Proof. induction 1 as [|n x y z Hstep _ IH]; [lia|]. apply lease_left_step in Hstep. lia. Qed.

(** The callback can go on, unless it has not started, has ended, or waits for the mutex. *)
Lemma callback_moves s : lease_inv s → callback s ∉ [CNone; CEnd; CLock] → ∃ s', lease_step s s'.
Proof.
  intros [_ [Hr _]] Hc. unfold result_inv in Hr.
  destruct (callback s) eqn:E; try (exfalso; apply Hc; set_solver);
    try (eexists; by apply (step_run_returns s None)); try (eexists; by constructor).
  - destruct (stopping s) eqn:Hs; eexists; [by apply step_cb_refused|by apply step_cb_admitted].
  - eexists. apply (step_cb_send s r E). tauto.
Qed.

Lemma lease_stuck s : lease_inv s → (∀ s', ¬ lease_step s s') → ∃ r, main s = MReturned r ∧ callback s ∈ [CNone; CEnd].
Proof.
  intros Hinv Hstuck. pose proof Hinv as [[Hg _ Hw _ _ _ _ _] _].
  assert (Hno : ¬ ∃ s', lease_step s s') by naive_solver.
  assert (Hc : callback s ∈ [CNone; CEnd; CLock]).
  { destruct (callback s) eqn:E; rewrite !elem_of_cons; try tauto; exfalso; apply Hno, callback_moves; try done;
      rewrite E, !not_elem_of_cons; repeat split; try done; apply not_elem_of_nil. }
  assert (Hfree : callback_holds (callback s) = false ∧ counted (callback s) = false).
  { rewrite !elem_of_cons in Hc. destruct Hc as [E|[E|[E|[]%elem_of_nil]]]; by rewrite E. }
  destruct Hfree as [Hh Hn]. rewrite Hh in Hg. rewrite Hn in Hw.
  destruct (main s) eqn:Hm; cbn in Hg; try (exfalso; apply Hno; eexists; by apply step_elect);
    try (exfalso; apply Hno; eexists; by constructor).
  - destruct (errCh s) eqn:Hch; exfalso; apply Hno; eexists; [by apply step_ended|by eapply step_receive].
  - eexists. split; [done|]. assert (callback s ≠ CLock); [|set_solver].
    intros Hl. apply Hno. eexists. by apply step_cb_lock.
Qed.

Lemma returned_stays s s' r : main s = MReturned r → rtc lease_step s s' → main s' = MReturned r.
Proof.
  intros Hm Hs. revert Hm. induction Hs as [|x y z Hstep _ IH]; [done|]. intros Hm. apply IH.
  destruct Hstep; cbn; congruence.
Qed.

(** C29: a controller is joined before its lease is given up.  Once [WithLease] has
    returned, no operation of either goroutine is left that runs the
    controller: it is not running and never starts later, however late the
    elector's goroutine is scheduled.  What is returned is what the controller
    returned, or an error when it never ran.  And [WithLease] does return: an
    execution is at most 18 operations long, the elector's and the
    controller's own return among them, and one that can go no further has
    returned, with the callback not started or ended; no deadlock on the
    mutex, the wait group or the channel. *)
Theorem lease_joined s :
  reachable s →
  (∀ r, main s = MReturned r →
     (∀ s', rtc lease_step s s' → callback s' ≠ CRun ∧ main s' = MReturned r)
     ∧ match result_of_run s with Some v => r = v | None => r ≠ None end)
  ∧ (∀ n, nsteps lease_step n lease_start s → (n ≤ 18)%nat)
  ∧ ((∀ s', ¬ lease_step s s') → ∃ r, main s = MReturned r ∧ callback s ∈ [CNone; CEnd]).
Proof.
  intros Hs. pose proof (lease_inv_reachable s Hs) as Hinv. split_and!.
  - intros r Hr. split; [|by apply (proj2 (proj2 Hinv))]. intros s' Hs'.
    pose proof (returned_stays s s' r Hr Hs') as Hr'. split; [|done]. intros Hrun.
    assert (Hinv' : lease_inv s') by (apply lease_inv_reachable; unfold reachable; etrans; eassumption).
    assert (Hj : counted (callback s') = false) by (apply (inv_joined _ (proj1 Hinv')); by rewrite Hr'). by rewrite Hrun in Hj.
  - intros n Hn. apply lease_left_steps in Hn. cbn in Hn. lia.
  - by apply lease_stuck.
Qed.

(** A controller that runs, fails and is joined. *)
Definition worked : lease :=
  {| main := MReturned (Some (errors_new "stopped")); callback := CEnd; gate := None; stopping := true; workers := 0;
     errCh := []; cancelled := true; result_of_run := Some (Some (errors_new "stopped")) |}.

Lemma worked_reachable : reachable worked.
Proof.
  unfold reachable. eapply rtc_l; [by apply step_elect|]. eapply rtc_l; [by apply step_started_leading|].
  eapply rtc_l; [by apply step_cb_lock|]. eapply rtc_l; [by apply step_cb_admitted|]. eapply rtc_l; [by apply step_cb_add|].
  eapply rtc_l; [by apply step_cb_unlock|]. eapply rtc_l; [by apply step_elector_returns|]. eapply rtc_l; [by apply step_lock|].
  eapply rtc_l; [by apply (step_run_returns _ (Some (errors_new "stopped")))|]. eapply rtc_l; [by apply step_stopping|].
  eapply rtc_l; [by eapply step_cb_send|]. eapply rtc_l; [by apply step_unlock|]. eapply rtc_l; [by apply step_cb_cancel|].
  eapply rtc_l; [by apply step_cb_done|]. eapply rtc_l; [by apply step_wait|]. eapply rtc_l; [by eapply step_receive|]. apply rtc_refl.
Qed.

Lemma lease_joined_witness :
  main worked = MReturned (Some (errors_new "stopped")) ∧ ∀ s', rtc lease_step worked s' → callback s' ≠ CRun.
Proof.
  split; [reflexivity|]. intros s' Hs'. destruct (lease_joined worked worked_reachable) as [Hj _].
  destruct (Hj _ eq_refl) as [Hj' _]. exact (proj1 (Hj' s' Hs')).
Defined.

(** ** Removing a runner's registration

    [DeregisterRunner] over the agent endpoints of the scale-set client. *)
Inductive runnersE : Type → Type :=
  | GetRunnerByName (name : string) : runnersE (result (option Z))       (* its ID, if there is one *)
  | RemoveRunner (id : Z) : runnersE (option error).

Definition DeregisterRunner (client : bool) (id : string) : prog runnersE (option error) :=
  if negb client then mret None
  else
    ref ← call (GetRunnerByName id);
    match ref with
    | inl err => mret (Some err)
    | inr None => mret None
    | inr (Some runner) => call (RemoveRunner runner)
    end.

(** Success means that no runner of that name was registered, or that the one
    that was registered has been removed; nothing else is ever removed. *)
Lemma deregister_named id :
  ensures no_contract (DeregisterRunner true id) (λ h r,
    (∃ e, h = [ev (GetRunnerByName id) (inl e)] ∧ r = Some e)
    ∨ (h = [ev (GetRunnerByName id) (inr None)] ∧ r = None)
    ∨ ∃ runner, h = [ev (GetRunnerByName id) (inr (Some runner)); ev (RemoveRunner runner) r]).
Proof.
  apply wp_ensures. unfold DeregisterRunner. cbn [negb]. apply wp_call_bind. intros [e|[runner|]] _; cbn; eauto 6.
Qed.
