(* ===== verification/Envelope.v ===== *)
(** * The envelope of an AWS response
    (internal/provider/aws_response.go; the same check of internal/prices/aws.go)

    The SDK reads an omitted result set as an empty list.  The code therefore
    checks the tokens of a response before the SDK sees it.  Tokenising XML is
    a parameter: the tokens of a text, and whether they end it or an error does. *)
From S2P Require Import Prelude.

Inductive xml_token :=
  | XStart (local space : string)
  | XEnd
  | XText (s : string)
  | XOther.                                        (* comments, instructions, directives *)

(** ** The check *)

(** [decoder.DecodeElement] into a string: the text directly inside an element
    whose start was read, and what follows its end. *)
Fixpoint decode_text (depth : nat) (tokens : list xml_token) : option (string * list xml_token) :=
  match tokens with
  | [] => None
  | XStart _ _ :: rest => decode_text (S depth) rest
  | XEnd :: rest => match depth with O => Some ("", rest) | S d => decode_text d rest end
  | XText s :: rest =>
      match depth with
      | O => match decode_text O rest with Some (text, rest) => Some (s +:+ text, rest) | None => None end
      | S _ => decode_text depth rest
      end
  | XOther :: rest => decode_text depth rest
  end.

Record envelope := {
  env_depth : Z;
  env_roots : Z;
  env_fields : gmap string Z;
  env_requestID : string;
  env_accepted : bool
}.

Definition set_depth (d : Z) (st : envelope) : envelope :=
  {| env_depth := d; env_roots := env_roots st; env_fields := env_fields st; env_requestID := env_requestID st;
     env_accepted := env_accepted st |}.
Definition set_roots (n : Z) (st : envelope) : envelope :=
  {| env_depth := env_depth st; env_roots := n; env_fields := env_fields st; env_requestID := env_requestID st;
     env_accepted := env_accepted st |}.
Definition set_field (name : string) (n : Z) (st : envelope) : envelope :=
  {| env_depth := env_depth st; env_roots := env_roots st; env_fields := <[name := n]> (env_fields st);
     env_requestID := env_requestID st; env_accepted := env_accepted st |}.
(** A field whose text was decoded. *)
Definition set_text (name text : string) (st : envelope) : envelope :=
  {| env_depth := env_depth st; env_roots := env_roots st; env_fields := env_fields st;
     env_requestID := if name =s "requestId" then strings_trim_space text else env_requestID st;
     env_accepted := if name =s "requestId" then env_accepted st else strings_trim_space text =s "true" |}.

Definition ec2_namespace : string := "http://ec2.amazonaws.com/doc/2016-11-15".
(** [strings.TrimSuffix(s, "/")] *)
Fixpoint trim_slash (s : string) : string :=
  match s with
  | "" => ""
  | String ch "" => if Ascii.eqb ch "/" then "" else s
  | String ch s' => String ch (trim_slash s')
  end.

Section check.
Context (root : string) (decoded : string → bool).

(** A start element, once [depth] is counted: the next state and tokens. *)
Definition start_element (local space : string) (rest : list xml_token) (st : envelope) : option (envelope * list xml_token) :=
  if env_depth st =? 1 then
    let st := set_roots (env_roots st + 1) st in
    if negb (env_roots st =? 1) || (local <>s root) || (trim_slash space <>s ec2_namespace) then None else Some (st, rest)
  else if env_depth st =? 2 then
    let n := map_get 0 (env_fields st) local + 1 in
    let st := set_field local n st in
    if 1 <? n then None
    else if decoded local then
      match decode_text 0 rest with
      | None => None
      | Some (text, rest) => Some (set_text local text (set_depth (env_depth st - 1) st), rest)
      end
    else Some (st, rest)
  else Some (st, rest).

(** The loop over the tokens; every round reads one at least, so the fuel is
    their number and one more. *)
Fixpoint envelope_loop (fuel : nat) (tokens : list xml_token) (ended : bool) (st : envelope) : option envelope :=
  match fuel with
  | O => None
  | S fuel =>
      match tokens with
      | [] => if ended then Some st else None
      | XStart local space :: rest =>
          match start_element local space rest (set_depth (env_depth st + 1) st) with
          | None => None
          | Some (st, rest) => envelope_loop fuel rest ended st
          end
      | XEnd :: rest => envelope_loop fuel rest ended (set_depth (env_depth st - 1) st)
      | XText s :: rest =>
          if (env_depth st =? 0) && (strings_trim_space s <>s "") then None else envelope_loop fuel rest ended st
      | XOther :: rest => envelope_loop fuel rest ended st
      end
  end.

Definition envelope_start : envelope :=
  {| env_depth := 0; env_roots := 0; env_fields := ∅; env_requestID := ""; env_accepted := false |}.

(** The request ID of an accepted envelope. *)
Definition check_envelope (required : string) (tokens : list xml_token) (ended : bool) : option string :=
  match envelope_loop (S (length tokens)) tokens ended envelope_start with
  | None => None
  | Some st =>
      if negb (env_depth st =? 0) || negb (env_roots st =? 1) || (env_requestID st =s "")
         || negb (map_get 0 (env_fields st) required =? 1) || ((required =s "return") && negb (env_accepted st))
      then None else Some (env_requestID st)
  end.
End check.

(** The result set an operation's response must have. *)
Definition required_field (operation : string) : option string :=
  if operation =s "DescribeInstances" then Some "reservationSet"
  else if operation =s "DescribeVolumes" then Some "volumeSet"
  else if operation =s "DescribeNetworkInterfaces" then Some "networkInterfaceSet"
  else if operation =s "DescribeImages" then Some "imagesSet"
  else if operation =s "RunInstances" then Some "instancesSet"
  else if operation =s "TerminateInstances" then Some "instancesSet"
  else if operation =s "DeleteVolume" then Some "return"
  else if operation =s "DeleteNetworkInterface" then Some "return"
  else None.

(** [awsEC2Envelope] *)
Definition awsEC2Envelope (tokens : list xml_token) (ended : bool) (operation : string) : result string :=
  match required_field operation with
  | None => inl (errors_new "unsupported AWS response operation")
  | Some required =>
      match check_envelope (operation +:+ "Response") (λ name, (name =s "requestId") || (name =s "return")) required tokens ended with
      | None => inl (errors_new "AWS response envelope incomplete or invalid")
      | Some id => inr id
      end
  end.

(** [awsSpotPriceEnvelope] *)
Definition awsSpotPriceEnvelope (tokens : list xml_token) (ended : bool) : result string :=
  match check_envelope "DescribeSpotPriceHistoryResponse" (λ name, name =s "requestId") "spotPriceHistorySet" tokens ended with
  | None => inl (errors_new "AWS spot price response envelope incomplete or invalid")
  | Some id => inr id
  end.

(** ** The HTTP clients under the SDK

    [awsEC2HTTPClient.Do] and [awsSpotHTTPClient.Do] on the reply of the client
    below them.  A body is its text or a failure to read it. *)
Definition status_ok (code : Z) : bool := negb ((code <? 200) || (300 <=? code)).
(** [io.ReadAll] of at most 8 MiB and one byte, refused when longer than 8 MiB. *)
Definition body_limit : Z := 8388608.
Definition read_limited (body : result string) : option string :=
  match body with
  | inl _ => None
  | inr data => if body_limit <? Z.of_nat (String.length data) then None else Some data
  end.

Record Reply := { rp_StatusCode : Z; rp_Body : result string; rp_Header : gmap string string }.
Class XMLTokens := { xml_tokens : string → list xml_token * bool }.

Definition checked_reply (excessive : string) (check : list xml_token → bool → result string)
    `{XMLTokens} (base : result (option Reply)) : result (option Reply) :=
  match base with
  | inr (Some response) =>
      if negb (status_ok (rp_StatusCode response)) then base
      else
        match read_limited (rp_Body response) with
        | None => inl (errors_new excessive)
        | Some data =>
            let '(tokens, ended) := xml_tokens data in
            match check tokens ended with
            | inl err => inl err
            | inr requestID =>
                let header := rp_Header response in
                inr (Some {| rp_StatusCode := rp_StatusCode response; rp_Body := inr data;
                             rp_Header := if (map_get "" header "X-Amzn-Requestid" =s "") && (map_get "" header "X-Amz-Requestid" =s "")
                                          then <["X-Amzn-Requestid" := requestID]> header else header |})
            end
        end
  | _ => base
  end.

Definition EC2_Do `{XMLTokens} (operation : string) : result (option Reply) → result (option Reply) :=
  checked_reply "AWS response unavailable or excessive" (λ tokens ended, awsEC2Envelope tokens ended operation).
Definition Spot_Do `{XMLTokens} : result (option Reply) → result (option Reply) :=
  checked_reply "AWS spot price response unavailable or excessive" awsSpotPriceEnvelope.

(** ** Documents

    What a well-formed text says, as trees, and their tokens in the order the
    decoder reads them. *)
Inductive node :=
  | Elem (local space : string) (children : list node)
  | Chars (s : string)
  | Misc.

Fixpoint tokens_of (n : node) : list xml_token :=
  match n with
  | Elem local space children => XStart local space :: flat_map tokens_of children ++ [XEnd]
  | Chars s => [XText s]
  | Misc => [XOther]
  end.
Definition tokens_in (ns : list node) : list xml_token := flat_map tokens_of ns.

(** The text directly inside an element. *)
Definition text_of (children : list node) : string :=
  foldr (λ n text, match n with Chars s => s +:+ text | _ => text end) "" children.
(** The names of the elements of a list, in order. *)
Definition names (ns : list node) : list string :=
  omap (λ n, match n with Elem local _ _ => Some local | _ => None end) ns.
Definition blank (n : node) : Prop :=
  match n with Elem _ _ _ => False | Chars s => strings_trim_space s = "" | Misc => True end.
(** A child of that name has that text, up to blanks around it. *)
Definition has_text (children : list node) (name text : string) : Prop :=
  ∃ space inside, Elem name space inside ∈ children ∧ strings_trim_space (text_of inside) = text.

(** What the check promises of a document: one root, of the operation's name
    and of the namespace, blanks around it; no field of the root twice; the
    required result set and a request ID among them; for a deletion, its
    result is "true". *)
Definition complete_envelope (root required : string) (doc : list node) (id : string) : Prop :=
  ∃ before space children after,
    doc = before ++ Elem root space children :: after
    ∧ Forall blank before ∧ Forall blank after
    ∧ trim_slash space = ec2_namespace
    ∧ NoDup (names children)
    ∧ required ∈ names children
    ∧ has_text children "requestId" id ∧ id ≠ ""
    ∧ (required = "return" → has_text children "return" "true").

(** Trees carry lists of trees: the principle that gives the hypothesis for each. *)
Lemma node_ind' (P : node → Prop) :
  (∀ local space children, Forall P children → P (Elem local space children)) →
  (∀ s, P (Chars s)) → P Misc → ∀ n, P n.
Proof.
  intros HE HC HM. fix IH 1. intros [local space children|s|]; [|apply HC|apply HM].
  apply HE. induction children as [|n ns IHns]; constructor; [apply IH|exact IHns].
Qed.

(** ** The loop on a document *)

(** Decoding the text of an element leaves what follows it. *)
Lemma decode_nested n d rest : decode_text (S d) (tokens_of n ++ rest) = decode_text (S d) rest.
Proof.
  revert d rest. induction n as [local space children IH|s|] using node_ind'; intros d rest; [|reflexivity..].
  cbn [tokens_of app decode_text]. rewrite <-app_assoc. cbn [app].
  enough (Hall : ∀ rest, decode_text (S (S d)) (tokens_in children ++ rest) = decode_text (S (S d)) rest)
    by apply Hall.
  clear rest. unfold tokens_in. induction IH as [|n ns Hn _ IHns]; intros rest; [done|].
  cbn. rewrite <-app_assoc, Hn. apply IHns.
Qed.

Lemma decode_children children rest :
  decode_text 0 (tokens_in children ++ XEnd :: rest) = Some (text_of children, rest).
Proof.
  unfold tokens_in. induction children as [|[local space cs|s|] ns IH]; cbn; [done|..].
  - rewrite <-!app_assoc. cbn.
    assert (Hin : ∀ ms rest, decode_text 1 (tokens_in ms ++ rest) = decode_text 1 rest).
    { intros ms. unfold tokens_in. induction ms as [|m ms IHms]; intros r; [done|].
      cbn. rewrite <-app_assoc, decode_nested. apply IHms. }
    setoid_rewrite Hin. exact IH.
  - rewrite IH. done.
  - exact IH.
Qed.

Lemma decode_shorter d tokens text rest : decode_text d tokens = Some (text, rest) → (length rest < length tokens)%nat.
Proof.
  revert d text. induction tokens as [|[| |s|] tokens IH]; intros d text; cbn; [done|..].
  - intros H%IH. lia.
  - destruct d; [intros [= _ ->]; lia|intros H%IH; lia].
  - destruct d; [destruct (decode_text 0 tokens) as [[t r]|] eqn:E; [|done]; intros [= _ ->]; apply IH in E; lia|].
    intros H%IH. lia.
  - intros H%IH. lia.
Qed.

Lemma set_depth_same d st : env_depth st = d → set_depth d st = st.
Proof. destruct st; cbn. by intros <-. Qed.
Lemma set_depth_twice d e st : set_depth d (set_depth e st) = set_depth d st.
Proof. done. Qed.

Section document.
Context (root : string) (decoded : string → bool).
Notation start_element' := (start_element root decoded).
Notation envelope_loop' := (envelope_loop root decoded).

Lemma start_shorter local space tokens st st' rest :
  start_element' local space tokens st = Some (st', rest) → (length rest ≤ length tokens)%nat.
Proof.
  unfold start_element. intros H. repeat case_match; simplify_eq; try lia.
  match goal with E : decode_text _ _ = Some _ |- _ => apply decode_shorter in E end. lia.
Qed.

(** Any fuel above the number of tokens gives the same result. *)
Lemma loop_fuel f g tokens ended st :
  (length tokens < f)%nat → (length tokens < g)%nat →
  envelope_loop' f tokens ended st = envelope_loop' g tokens ended st.
Proof.
  revert g tokens st. induction f as [|f IH]; intros g tokens st Hf Hg; [lia|].
  destruct g as [|g]; [lia|]. destruct tokens as [|[local space| |s|] tokens]; cbn in *; [done|..].
  - destruct (start_element' _ _ _ _) as [[st' rest]|] eqn:E; [|done].
    apply start_shorter in E. apply IH; lia.
  - apply IH; lia.
  - case_match; [done|]. apply IH; lia.
  - apply IH; lia.
Qed.

(** The loop with the fuel the code gives it. *)
Definition run_tokens (tokens : list xml_token) (ended : bool) (st : envelope) : option envelope :=
  envelope_loop' (S (length tokens)) tokens ended st.
#[local] Arguments run_tokens : simpl never.

Lemma run_cons t tokens ended st :
  run_tokens (t :: tokens) ended st =
    match t with
    | XStart local space =>
        match start_element' local space tokens (set_depth (env_depth st + 1) st) with
        | None => None
        | Some (st, rest) => run_tokens rest ended st
        end
    | XEnd => run_tokens tokens ended (set_depth (env_depth st - 1) st)
    | XText s => if (env_depth st =? 0) && (strings_trim_space s <>s "") then None else run_tokens tokens ended st
    | XOther => run_tokens tokens ended st
    end.
Proof.
  destruct t as [local space| | |]; try done. unfold run_tokens at 1.
  change (length (XStart local space :: tokens)) with (S (length tokens)).
  remember (S (length tokens)) as f eqn:Hf. cbn [envelope_loop].
  destruct (start_element' _ _ _ _) as [[st' rest]|] eqn:E; [|done].
  apply start_shorter in E. apply loop_fuel; lia.
Qed.

(** A node below the fields is passed over. *)
Lemma run_deep n rest ended st : 2 ≤ env_depth st → run_tokens (tokens_of n ++ rest) ended st = run_tokens rest ended st.
Proof.
  revert rest st. induction n as [local space children IH|s|] using node_ind'; intros rest st Hd.
  - cbn [tokens_of app]. rewrite run_cons, <-app_assoc. unfold start_element. cbn [env_depth set_depth].
    rewrite (proj2 (Z.eqb_neq _ _)), (proj2 (Z.eqb_neq (_ + _) 2)) by lia.
    assert (Hall : ∀ st rest, 2 ≤ env_depth st → run_tokens (tokens_in children ++ rest) ended st = run_tokens rest ended st).
    { clear -IH. unfold tokens_in. induction IH as [|n ns Hn _ IHns]; intros st rest Hd; [done|].
      cbn. rewrite <-app_assoc, Hn by done. by apply IHns. }
    setoid_rewrite Hall; [|cbn; lia]. cbn [app]. rewrite run_cons, set_depth_twice. cbn [env_depth set_depth].
    by rewrite set_depth_same by lia.
  - cbn [tokens_of app]. rewrite run_cons, (proj2 (Z.eqb_neq _ _)) by lia. done.
  - cbn [tokens_of app]. by rewrite run_cons.
Qed.

Lemma run_deep_list ns rest ended st : 2 ≤ env_depth st → run_tokens (tokens_in ns ++ rest) ended st = run_tokens rest ended st.
Proof.
  intros Hd. unfold tokens_in. induction ns as [|n ns IH]; [done|].
  cbn. by rewrite <-app_assoc, run_deep.
Qed.

(** A node directly inside the root. *)
Definition field_step (n : node) (st : envelope) : option envelope :=
  match n with
  | Elem local _ inside =>
      let k := map_get 0 (env_fields st) local + 1 in
      if 1 <? k then None
      else Some (let st := set_field local k st in if decoded local then set_text local (text_of inside) st else st)
  | _ => Some st
  end.

Lemma run_field n rest ended st :
  env_depth st = 1 →
  run_tokens (tokens_of n ++ rest) ended st =
    match field_step n st with None => None | Some st' => run_tokens rest ended st' end.
Proof.
  intros Hd. destruct n as [local space inside|s|]; cbn [tokens_of app field_step].
  - rewrite run_cons, <-app_assoc. unfold start_element. cbn [env_depth env_fields set_depth].
    rewrite Hd. change (1 + 1 =? 1) with false. change (1 + 1 =? 2) with true. cbn [app].
    destruct (1 <? _); [done|]. destruct (decoded local).
    + setoid_rewrite decode_children. f_equal. destruct st; cbn in *. by subst.
    + setoid_rewrite run_deep_list; [|done]. rewrite run_cons. f_equal. destruct st; cbn in *. by subst.
  - rewrite run_cons, Hd. done.
  - by rewrite run_cons.
Qed.

Lemma field_step_depth n st st' :
  field_step n st = Some st' → env_depth st' = env_depth st ∧ env_roots st' = env_roots st.
Proof. destruct n; cbn; repeat case_match; intros [= <-]; done. Qed.

Fixpoint fields_step (ns : list node) (st : envelope) : option envelope :=
  match ns with
  | [] => Some st
  | n :: ns => match field_step n st with None => None | Some st => fields_step ns st end
  end.

Lemma fields_step_depth ns st st' :
  fields_step ns st = Some st' → env_depth st' = env_depth st ∧ env_roots st' = env_roots st.
Proof.
  revert st. induction ns as [|n ns IH]; intros st; cbn; [by intros [= ->]|].
  destruct (field_step n st) as [st1|] eqn:E; [|done]. intros H%IH. apply field_step_depth in E.
  destruct H, E. split; congruence.
Qed.

Lemma run_fields ns rest ended st :
  env_depth st = 1 →
  run_tokens (tokens_in ns ++ rest) ended st =
    match fields_step ns st with None => None | Some st' => run_tokens rest ended st' end.
Proof.
  unfold tokens_in. revert st. induction ns as [|n ns IH]; intros st Hd; [done|].
  cbn. rewrite <-app_assoc, run_field by done. destruct (field_step n st) as [st'|] eqn:E; [|done].
  apply IH. apply field_step_depth in E. lia.
Qed.

(** ** The fields that were read *)

(** The state after fields that are all distinct, and of the start. *)
Definition fields_read (ns : list node) (st : envelope) : Prop :=
  (∀ name, map_get 0 (env_fields st) name = if bool_decide (name ∈ names ns) then 1 else 0)
  ∧ (decoded "requestId" = true → ∀ id, id ≠ "" → env_requestID st = id ↔ has_text ns "requestId" id)
  ∧ (decoded "return" = true → env_accepted st = true ↔ has_text ns "return" "true").

Lemma names_app ns ms : names (ns ++ ms) = names ns ++ names ms.
Proof. apply omap_app. Qed.
Lemma has_text_name ns name text : has_text ns name text → name ∈ names ns.
Proof.
  intros (space & inside & Hin & _). apply list_elem_of_omap. by exists (Elem name space inside).
Qed.
Lemma has_text_snoc ns local space inside name text :
  has_text (ns ++ [Elem local space inside]) name text
  ↔ has_text ns name text ∨ (local = name ∧ strings_trim_space (text_of inside) = text).
Proof.
  unfold has_text. setoid_rewrite elem_of_app. setoid_rewrite list_elem_of_singleton. naive_solver.
Qed.
Lemma has_text_other ns n name text :
  names [n] = [] → has_text (ns ++ [n]) name text ↔ has_text ns name text.
Proof.
  intros Hn. unfold has_text. setoid_rewrite elem_of_app. setoid_rewrite list_elem_of_singleton.
  destruct n; [done|naive_solver..].
Qed.

Hypothesis decoded_fields : ∀ name, decoded name = true → name = "requestId" ∨ name = "return".

Lemma field_step_read seen n st :
  fields_read seen st → NoDup (names seen) →
  match field_step n st with
  | Some st' => NoDup (names (seen ++ [n])) ∧ fields_read (seen ++ [n]) st'
  | None => ¬ NoDup (names (seen ++ [n]))
  end.
Proof.
  intros Hread Hnd. pose proof Hread as (Hf & Hid & Hacc).
  destruct n as [local space inside|s|]; cbn [field_step].
  2,3: unfold fields_read; rewrite names_app; cbn [names omap list_omap]; rewrite app_nil_r;
    repeat split; [done|exact Hf|..]; intros; rewrite has_text_other in * by done; naive_solver.
  rewrite Hf, names_app. change (names [Elem local space inside]) with [local].
  case_bool_decide as Hin.
  { change (1 <? 1 + 1) with true. cbv iota. intros (_ & Hno & _)%NoDup_app. apply (Hno local Hin). set_solver. }
  change (1 <? 0 + 1) with false. cbv iota zeta. change (0 + 1) with 1. split.
  { apply NoDup_app. split_and!; [done|set_solver|apply NoDup_singleton]. }
  assert (Hnew : ∀ text, ¬ has_text seen local text) by (intros text Ht%has_text_name; done).
  split_and!.
  - intros name. rewrite names_app. change (names [Elem local space inside]) with [local].
    transitivity (map_get 0 (<[local := 1]> (env_fields st)) name); [by destruct (decoded local)|].
    unfold map_get. destruct (decide (name = local)) as [->|Hne].
    + rewrite lookup_insert_eq, (bool_decide_eq_true_2 _); [done|set_solver].
    + rewrite lookup_insert_ne by done. change (map_get 0 (env_fields st) name = if bool_decide (name ∈ names seen ++ [local]) then 1 else 0).
      rewrite Hf. erewrite (bool_decide_ext (name ∈ names seen ++ [local])); [done|set_solver].
  - intros Hd id Hne. rewrite has_text_snoc. destruct (decide (local = "requestId")) as [->|Hother].
    + rewrite Hd. cbn. naive_solver.
    + transitivity (env_requestID st = id); [|rewrite Hid by done; naive_solver].
      destruct (decoded local); cbn; [|done]. by rewrite (proj2 (String.eqb_neq _ _)).
  - intros Hd. rewrite has_text_snoc. destruct (decide (local = "return")) as [->|Hother].
    + rewrite Hd. cbn. rewrite String.eqb_eq. naive_solver.
    + transitivity (env_accepted st = true); [|rewrite Hacc by done; naive_solver].
      destruct (decoded local) eqn:Hl; cbn; [|done].
      destruct (decoded_fields local Hl) as [->| ->]; done.
Qed.

Lemma fields_step_read seen ns st :
  fields_read seen st → NoDup (names seen) →
  match fields_step ns st with
  | Some st' => NoDup (names (seen ++ ns)) ∧ fields_read (seen ++ ns) st'
  | None => ¬ NoDup (names (seen ++ ns))
  end.
Proof.
  revert seen st. induction ns as [|n ns IH]; intros seen st Hread Hnd; cbn; [by rewrite app_nil_r|].
  pose proof (field_step_read seen n st Hread Hnd) as Hn. rewrite cons_middle, app_assoc.
  destruct (field_step n st) as [st'|]; [destruct Hn; by apply IH|].
  intros Hall. apply Hn. rewrite names_app, NoDup_app in Hall. tauto.
Qed.

(** ** The whole document *)

Lemma run_outside n rest ended st :
  env_depth st = 0 → names [n] = [] →
  (blank n ∧ run_tokens (tokens_of n ++ rest) ended st = run_tokens rest ended st)
  ∨ (¬ blank n ∧ run_tokens (tokens_of n ++ rest) ended st = None).
Proof.
  intros Hd Hn. destruct n as [| s|]; [done| |]; cbn [tokens_of app blank]; rewrite run_cons; [|by left].
  rewrite Hd. change (0 =? 0) with true. cbn [andb]. destruct (String.eqb_spec (strings_trim_space s) ""); [left|right]; done.
Qed.

(** Nodes without an element, outside the root. *)
Lemma run_blank ns ended st st' :
  env_depth st = 0 → env_roots st = 1 →
  run_tokens (tokens_in ns) ended st = Some st' ↔ Forall blank ns ∧ ended = true ∧ st' = st.
Proof.
  intros Hd Hr. unfold tokens_in. induction ns as [|n ns IH]; cbn [flat_map].
  { unfold run_tokens. cbn. destruct ended; naive_solver. }
  rewrite Forall_cons. destruct n as [local space inside|s|].
  - cbn [tokens_of app blank]. rewrite run_cons. unfold start_element. cbn. rewrite Hd, Hr. cbn. naive_solver.
  - destruct (run_outside (Chars s) (flat_map tokens_of ns) ended st Hd eq_refl) as [[? ->]|[? ->]]; naive_solver.
  - destruct (run_outside Misc (flat_map tokens_of ns) ended st Hd eq_refl) as [[? ->]|[? ->]]; naive_solver.
Qed.

(** The root, entered. *)
Definition entered : envelope := set_roots 1 (set_depth 1 envelope_start).

Lemma run_root space children rest ended :
  run_tokens (tokens_of (Elem root space children) ++ rest) ended envelope_start =
    if trim_slash space <>s ec2_namespace then None
    else match fields_step children entered with
         | None => None
         | Some st => run_tokens rest ended (set_depth 0 st)
         end.
Proof.
  cbn [tokens_of app]. rewrite run_cons, <-app_assoc. unfold start_element. cbn [env_depth set_depth envelope_start env_roots set_roots].
  change (0 + 1 =? 1) with true. cbn [negb orb]. rewrite String.eqb_refl. cbn [negb orb].
  destruct (trim_slash space =s ec2_namespace); cbn [negb]; [|done].
  change (set_roots (0 + 1) (set_depth (0 + 1) envelope_start)) with entered.
  setoid_rewrite run_fields; [|done]. destruct (fields_step children entered) as [st|] eqn:E; [|done].
  cbn [app]. rewrite run_cons.
  by rewrite (proj1 (fields_step_depth _ _ _ E)).
Qed.

(** A document the loop accepts has one root. *)
Definition one_root (doc : list node) (st : envelope) : Prop :=
  ∃ before space children after,
    doc = before ++ Elem root space children :: after
    ∧ Forall blank before ∧ Forall blank after
    ∧ trim_slash space = ec2_namespace ∧ fields_step children entered = Some st.

Lemma one_root_cons n doc st :
  names [n] = [] → one_root (n :: doc) st ↔ blank n ∧ one_root doc st.
Proof.
  intros Hn. split.
  - intros ([|m before] & space & children & after & Heq & Hb & Ha & Hs & Hf); simplify_eq/=.
    rewrite Forall_cons in Hb. destruct Hb. split; [done|]. by exists before, space, children, after.
  - intros [Hblank (before & space & children & after & -> & Hb & Ha & Hs & Hf)].
    exists (n :: before), space, children, after. rewrite Forall_cons. done.
Qed.

Lemma one_root_elem local space children doc st :
  one_root (Elem local space children :: doc) st
  ↔ local = root ∧ Forall blank doc ∧ trim_slash space = ec2_namespace ∧ fields_step children entered = Some st.
Proof.
  split.
  - intros ([|m before] & sp & cs & after & Heq & Hb & Ha & Hs & Hf); simplify_eq/=; [done|].
    by apply Forall_cons in Hb as [? _].
  - intros (-> & Ha & Hs & Hf). by exists [], space, children, doc.
Qed.

Lemma run_document doc st' :
  (run_tokens (tokens_in doc) true envelope_start = Some st' ∧ env_roots st' = 1)
  ↔ ∃ st, one_root doc st ∧ st' = set_depth 0 st.
Proof.
  induction doc as [|n doc IH].
  { unfold run_tokens, tokens_in; cbn. split; [by intros [[= <-] ?]|]. intros (? & ([] & ? & ? & ? & ? & _) & _); done. }
  change (tokens_in (n :: doc)) with (tokens_of n ++ tokens_in doc).
  destruct n as [local space children|s|].
  - setoid_rewrite one_root_elem. destruct (decide (local = root)) as [->|Hne].
    + rewrite run_root. destruct (String.eqb_spec (trim_slash space) ec2_namespace) as [Hs|Hs]; cbn [negb]; [|naive_solver].
      destruct (fields_step children entered) as [st|] eqn:E; [|naive_solver].
      pose proof (fields_step_depth _ _ _ E) as [_ Hr].
      rewrite run_blank; [|done|done]. split; [naive_solver|].
      intros (? & (_ & ? & _ & [= <-]) & ->). done.
    + cbn [tokens_of app]. rewrite run_cons. unfold start_element. cbn.
      rewrite (proj2 (String.eqb_neq local root)) by done. cbn. naive_solver.
  - setoid_rewrite one_root_cons; [|done].
    destruct (run_outside (Chars s) (tokens_in doc) true envelope_start eq_refl eq_refl) as [[? ->]|[? ->]]; naive_solver.
  - setoid_rewrite one_root_cons; [|done].
    destruct (run_outside Misc (tokens_in doc) true envelope_start eq_refl eq_refl) as [[? ->]|[? ->]]; naive_solver.
Qed.

Lemma entered_read : fields_read [] entered.
Proof.
  split_and!; cbn.
  - intros name. done.
  - intros _ id Hne. split; [done|]. intros H%has_text_name. by apply elem_of_nil in H.
  - intros _. split; [done|]. intros H%has_text_name. by apply elem_of_nil in H.
Qed.

Hypothesis decoded_id : decoded "requestId" = true.
Context (required : string).
Hypothesis decoded_return : required = "return" → decoded "return" = true.

(** The check on the tokens of a document, and what it promises. *)
Lemma check_envelope_exact doc id :
  check_envelope root decoded required (tokens_in doc) true = Some id
  ↔ complete_envelope root required doc id.
Proof.
  unfold check_envelope. fold (run_tokens (tokens_in doc) true envelope_start). split.
  - destruct (run_tokens (tokens_in doc) true envelope_start) as [st'|] eqn:Hrun; [|done].
    destruct (_ || _) eqn:Hno; [done|]. intros [= Hid]. reflect in Hno.
    destruct Hno as ((((_ & Hr) & Hne) & Hreq) & Hret).
    destruct (proj1 (run_document doc st') (conj Hrun Hr)) as (st & (before & space & children & after & -> & Hb & Ha & Hs & Hf) & ->).
    pose proof (fields_step_read [] children entered entered_read (NoDup_nil_2)) as Hread.
    rewrite Hf in Hread. destruct Hread as (Hnd & Hm & Hi & Hacc). cbn in *.
    exists before, space, children, after. split_and!; try done.
    + rewrite Hm in Hreq. by case_bool_decide.
    + apply Hi; congruence.
    + congruence.
    + intros ->. apply Hacc; [auto|]. destruct Hret; [done|]. done.
  - intros (before & space & children & after & -> & Hb & Ha & Hs & Hnd & Hreq & Hid & Hne & Hret).
    pose proof (fields_step_read [] children entered entered_read (NoDup_nil_2)) as Hread.
    destruct (fields_step children entered) as [st|] eqn:E; [|done]. destruct Hread as (_ & Hm & Hi & Hacc). cbn in *.
    destruct (proj2 (run_document (before ++ Elem root space children :: after) (set_depth 0 st))) as [-> Hr].
    { exists st. split; [|done]. by exists before, space, children, after. }
    apply Hi in Hid; [|done..]. cbn. change (env_roots st = 1) in Hr.
    rewrite Hr, Hid, Hm, bool_decide_eq_true_2 by done. cbn.
    rewrite (proj2 (String.eqb_neq id "")) by done. cbn.
    destruct (String.eqb_spec required "return"); cbn; [|done].
    by rewrite (proj2 (Hacc ltac:(auto)) (Hret ltac:(auto))).
Qed.
End document.

(** A text that does not end well is never accepted. *)
Lemma loop_truncated root decoded fuel tokens st : envelope_loop root decoded fuel tokens false st = None.
Proof.
  revert tokens st. induction fuel as [|fuel IH]; intros [|[local space| |s|] tokens] st; cbn; try done; repeat case_match; auto.
Qed.

(** C30: the check of an EC2 response and the shape it exists for are the same
    thing.  On the tokens of any document, the check returns a request ID
    exactly when the operation is one the adapter uses and the document is a
    complete envelope of it: one root, named after the operation and in EC2's
    namespace, only blanks around it, no field of the root twice, the result
    set of the operation present (a reply that omits it cannot pass for an
    empty list), a request ID that is not blank, and "true" as the result of
    a deletion.  A text whose tokens stop with an error is never accepted. *)
Theorem envelope_exact operation doc id :
  (awsEC2Envelope (tokens_in doc) true operation = inr id
   ↔ ∃ required, required_field operation = Some required
                 ∧ complete_envelope (operation +:+ "Response") required doc id)
  ∧ ∀ tokens, ∃ e, awsEC2Envelope tokens false operation = inl e.
Proof.
  unfold awsEC2Envelope. destruct (required_field operation) as [required|] eqn:Hop.
  2: { split; [|eauto]. split; [done|]. by intros (? & [=] & _). }
  split.
  - set (decoded := λ name : string, (name =s "requestId") || (name =s "return")).
    assert (Hd : ∀ name, decoded name = true → name = "requestId" ∨ name = "return").
    { intros name. unfold decoded. reflect. tauto. }
    pose proof (check_envelope_exact (operation +:+ "Response") decoded Hd eq_refl required (λ _, eq_refl) doc id) as Hex.
    destruct (check_envelope _ _ _ _ _); naive_solver.
  - intros tokens. unfold check_envelope. rewrite loop_truncated. eauto.
Qed.

Lemma spot_envelope_exact doc id :
  awsSpotPriceEnvelope (tokens_in doc) true = inr id
  ↔ complete_envelope "DescribeSpotPriceHistoryResponse" "spotPriceHistorySet" doc id.
Proof.
  unfold awsSpotPriceEnvelope.
  assert (Hd : ∀ name, (name =s "requestId") = true → name = "requestId" ∨ name = "return") by (intros name; reflect; tauto).
  pose proof (check_envelope_exact "DescribeSpotPriceHistoryResponse" (λ name, name =s "requestId") Hd eq_refl "spotPriceHistorySet") as Hex.
  specialize (Hex ltac:(done) doc id). destruct (check_envelope _ _ _ _ _); naive_solver.
Qed.

(** What the SDK sees of a success has passed the check and names its request. *)
Lemma reply_checked `{XMLTokens} excessive check base response :
  checked_reply excessive check base = inr (Some response) → status_ok (rp_StatusCode response) = true →
  (∀ tokens ended id, check tokens ended = inr id → id ≠ "") →
  ∃ data tokens ended id, rp_Body response = inr data ∧ xml_tokens data = (tokens, ended) ∧ check tokens ended = inr id
    ∧ (map_get "" (rp_Header response) "X-Amzn-Requestid" ≠ "" ∨ map_get "" (rp_Header response) "X-Amz-Requestid" ≠ "").
Proof.
  intros Hdo Hok Hid. unfold checked_reply in Hdo. destruct base as [err|[r|]]; [done| |done].
  destruct (status_ok (rp_StatusCode r)) eqn:Hs; cbn [negb] in Hdo; [|by simplify_eq; congruence].
  destruct (read_limited (rp_Body r)) as [data|]; [|done]. destruct (xml_tokens data) as [tokens ended] eqn:Ht.
  destruct (check tokens ended) as [err|id] eqn:Hc; [done|]. injection Hdo as <-. cbn [rp_Body rp_Header].
  exists data, tokens, ended, id. split_and!; try done. destruct (_ && _) eqn:Hb; reflect in Hb; [|tauto].
  left. unfold map_get. rewrite lookup_insert_eq. by eapply Hid.
Qed.

(** A reply that lists no instance is an envelope; one that omits the list is not. *)
Example empty_list_accepted :
  awsEC2Envelope (tokens_in
    [Misc; Elem "DescribeInstancesResponse" "http://ec2.amazonaws.com/doc/2016-11-15/"
             [Chars " "; Elem "requestId" "" [Chars " 59dbff89 "]; Elem "reservationSet" "" []]; Chars " "])
    true "DescribeInstances" = inr "59dbff89".
Proof. vm_compute. reflexivity. Qed.
Example omitted_list_refused :
  awsEC2Envelope (tokens_in
    [Elem "DescribeInstancesResponse" "http://ec2.amazonaws.com/doc/2016-11-15/" [Elem "requestId" "" [Chars "59dbff89"]]])
    true "DescribeInstances" = inl (errors_new "AWS response envelope incomplete or invalid").
Proof. vm_compute. reflexivity. Qed.
