(* ===== verification/Credentials.v ===== *)
(** * Where credentials come from
    (internal/provider/aws_credentials.go, gcp_credentials.go)

    The sources read only the selected configuration.  The SDKs' profile
    loader, token exchanges and file reads are calls; the two JSON documents
    are trees; SHA-256 is the class [Digest].  Clients, their timeouts and
    transports are left out. *)
From S2P Require Import Prelude.
From S2P Require Import Effects.

(** ** AWS *)

Record awsCredentials := {
  AccessKeyID : string;
  SecretAccessKey : string;
  SessionToken : string;
  ac_Expires : option time
}.
Definition no_credentials : awsCredentials :=
  {| AccessKeyID := ""; SecretAccessKey := ""; SessionToken := ""; ac_Expires := None |}.
Definition HasKeys (c : awsCredentials) : bool := (AccessKeyID c <>s "") && (SecretAccessKey c <>s "").

(** [awsconfig.SharedConfig], what the code reads of it. *)
Inductive SharedConfig := {
  sc_Credentials : awsCredentials;
  sc_CredentialProcess : string;
  sc_CredentialSource : string;
  sc_SSOSessionName : string;
  sc_SSOStartURL : string;
  sc_SSOAccountID : string;
  sc_MFASerial : string;
  sc_WebIdentityTokenFile : string;
  sc_RoleARN : string;
  sc_RoleSessionName : string;
  sc_ExternalID : string;
  sc_RoleDurationSeconds : option Z;
  sc_Source : option SharedConfig
}.

Inductive awsCredE : Type → Type :=
  | CredCtxErr : awsCredE (option error)
  | CredNow : awsCredE time
  | Stat (file : string) : awsCredE (option error)
  | LoadSharedConfigProfile (profile : string) (files credentials : list string) : awsCredE (result SharedConfig)
  | WebIdentity (region role file session : string) : awsCredE (result awsCredentials)
  | AssumeRole (region : string) (base : awsCredentials) (role session externalID : string) (duration : option Z)
      : awsCredE (result awsCredentials).

Abbreviation credM := (prog awsCredE).
Definition cred_error {A} (text : string) : credM (result A) := mret (inl (errors_new text)).

(** The exchange, the check of the context, the result. *)
Definition exchanged (unavailable : string) (m : credM (result awsCredentials)) : credM (result awsCredentials) :=
  value ← m;
  ctx ← call CredCtxErr;
  match ctx with
  | Some err => mret (inl err)
  | None => match value with inl _ => cred_error unavailable | inr v => mret (inr v) end
  end.

Definition web (region role file session : string) : credM (result awsCredentials) :=
  if (role =s "") || (file =s "") then cred_error "AWS web identity configuration incomplete"
  else exchanged "AWS web identity exchange unavailable" (call (WebIdentity region role file session)).

(** A profile that needs a process, an instance, a browser or a device. *)
Definition unsupported_source (c : SharedConfig) : bool :=
  (sc_CredentialProcess c <>s "") || (sc_CredentialSource c <>s "") || (sc_SSOSessionName c <>s "")
  || (sc_SSOStartURL c <>s "") || (sc_SSOAccountID c <>s "") || (sc_MFASerial c <>s "").

Definition assume_role (region : string) (c : SharedConfig) (base : awsCredentials) : credM (result awsCredentials) :=
  if negb (HasKeys base) then cred_error "AWS role source credentials unavailable"
  else exchanged "AWS role exchange unavailable"
         (call (AssumeRole region base (sc_RoleARN c) (sc_RoleSessionName c) (sc_ExternalID c) (sc_RoleDurationSeconds c))).

Fixpoint shared (region : string) (c : SharedConfig) (depth : Z) : credM (result awsCredentials) :=
  if (8 <? depth) || unsupported_source c then cred_error "unsupported AWS credential profile source"
  else if sc_WebIdentityTokenFile c <>s "" then web region (sc_RoleARN c) (sc_WebIdentityTokenFile c) (sc_RoleSessionName c)
  else if sc_RoleARN c =s "" then
    if negb (HasKeys (sc_Credentials c)) then cred_error "AWS profile credentials unavailable" else mret (inr (sc_Credentials c))
  else
    match sc_Source c with
    | None => assume_role region c (sc_Credentials c)
    | Some source =>
        base ← shared region source (depth + 1);
        match base with inl err => mret (inl err) | inr base => assume_role region c base end
    end.

(** Every selected file exists. *)
Fixpoint stat_all (files : list string) : credM bool :=
  match files with
  | [] => mret true
  | file :: files =>
      missing ← call (Stat file);
      match missing with Some _ => mret false | None => stat_all files end
  end.

Definition nonempty (s : string) : list string := if s <>s "" then [s] else [].

Definition retrieve (values : gmap string string) (profile region : string) : credM (result awsCredentials) :=
  let value := map_get "" values in
  ctx ← call CredCtxErr;
  match ctx with
  | Some err => mret (inl err)
  | None =>
      if value "AWS_ACCESS_KEY_ID" <>s "" then
        mret (inr {| AccessKeyID := value "AWS_ACCESS_KEY_ID"; SecretAccessKey := value "AWS_SECRET_ACCESS_KEY";
                     SessionToken := value "AWS_SESSION_TOKEN"; ac_Expires := None |})
      else if value "AWS_WEB_IDENTITY_TOKEN_FILE" <>s "" then
        web region (value "AWS_ROLE_ARN") (value "AWS_WEB_IDENTITY_TOKEN_FILE") "runnerscout"
      else
        let profile := if profile =s "" then "default" else profile in
        let files := nonempty (value "AWS_CONFIG_FILE") in
        let credentials := nonempty (value "AWS_SHARED_CREDENTIALS_FILE") in
        if (length files + length credentials =? 0)%nat
        then cred_error "AWS credentials require explicit files, static keys or web identity"
        else
          present ← stat_all (files ++ credentials);
          if negb present then cred_error "AWS credential file unavailable"
          else
            config ← call (LoadSharedConfigProfile profile files credentials);
            match config with
            | inl _ => cred_error "AWS credential profile invalid"
            | inr config => shared region config 0
            end
  end.

(** [frozenAWSCredentials]: the provider STS and EC2 share. *)
Definition frozen (value : awsCredentials) : credM (result awsCredentials) :=
  ctx ← call CredCtxErr;
  match ctx with
  | Some err => mret (inl err)
  | None =>
      now ← call CredNow;
      if negb (HasKeys value) || match ac_Expires value with Some t => negb (now <? t) | None => false end
      then cred_error "AWS credentials unavailable or expired"
      else mret (inr value)
  end.

(** *** What a profile may be *)

(** A profile that asks for no process, no instance metadata, no browser login
    and no device. *)
Definition supported (c : SharedConfig) : Prop :=
  sc_CredentialProcess c = "" ∧ sc_CredentialSource c = "" ∧ sc_SSOSessionName c = ""
  ∧ sc_SSOStartURL c = "" ∧ sc_SSOAccountID c = "" ∧ sc_MFASerial c = "".

Lemma supported_spec c : unsupported_source c = false → supported c.
Proof. unfold unsupported_source, supported. intros Hu. reflect in Hu. tauto. Qed.

(** The chain of profiles that credentials were taken from: none of them asks
    for a process, an instance, a browser or a device, each role is assumed
    with the credentials of the next, and the last has keys or a token file. *)
Inductive explicit_chain : nat → SharedConfig → Prop :=
  | chain_web n c : supported c → sc_WebIdentityTokenFile c ≠ "" → sc_RoleARN c ≠ "" → explicit_chain n c
  | chain_keys n c : supported c → sc_RoleARN c = "" → HasKeys (sc_Credentials c) = true → explicit_chain n c
  | chain_role n c : supported c → sc_RoleARN c ≠ "" → sc_Source c = None →
      HasKeys (sc_Credentials c) = true → explicit_chain n c
  | chain_source n c source : supported c → sc_RoleARN c ≠ "" → sc_Source c = Some source →
      explicit_chain n source → explicit_chain (S n) c.

(** Only exchanges and reads of the context. *)
Definition is_exchange (v : event awsCredE) : Prop :=
  match v with
  | existT _ (e, _) => match e with CredCtxErr | WebIdentity _ _ _ _ | AssumeRole _ _ _ _ _ _ => True | _ => False end
  end.

Lemma emits_exchanged unavailable m : emits is_exchange m → emits is_exchange (exchanged unavailable m).
Proof. intros Hm. unfold exchanged, cred_error. emit. Qed.
#[export] Hint Resolve emits_exchanged : emits.

Lemma emits_web region role file session : emits is_exchange (web region role file session).
Proof. unfold web. case_match; [apply emits_ret|apply emits_exchanged; by apply emits_call]. Qed.
Lemma emits_assume_role region c base : emits is_exchange (assume_role region c base).
Proof. unfold assume_role. case_match; [apply emits_ret|apply emits_exchanged; by apply emits_call]. Qed.
#[export] Hint Resolve emits_web emits_assume_role : emits.

Lemma shared_config_ind (P : SharedConfig → Prop) :
  (∀ c, match sc_Source c with Some source => P source | None => True end → P c) → ∀ c, P c.
Proof.
  intros Hstep. fix IH 1. intros c. apply Hstep. destruct c as [? ? ? ? ? ? ? ? ? ? ? ? [source|]]; cbn; [apply IH|exact I].
Qed.

Lemma wp_exchange {R} (Q : list (event awsCredE) → R → Prop) (p : credM R) h :
  emits is_exchange p → (∀ h' r, Forall is_exchange h' → Q (h ++ h') r) → wp no_contract Q h p.
Proof. intros Hp HQ. by apply Hp. Qed.

Lemma wp_exchanged unavailable m h (Q : list (event awsCredE) → result awsCredentials → Prop) :
  emits is_exchange m → (∀ h' r, Forall is_exchange h' → Q (h ++ h') r) → wp no_contract Q h (exchanged unavailable m).
Proof. intros Hm HQ. apply wp_exchange; [by apply emits_exchanged|done]. Qed.

Lemma wp_assume_role region c base h (Q : list (event awsCredE) → result awsCredentials → Prop) :
  (∀ h' r, Forall is_exchange h' → (∀ v, r = inr v → HasKeys base = true) → Q (h ++ h') r) →
  wp no_contract Q h (assume_role region c base).
Proof.
  intros HQ. unfold assume_role. destruct (HasKeys base); cbn [negb].
  - apply wp_exchanged; [by apply emits_call|]. intros h' r Hh. by apply HQ.
  - apply wp_ret. rewrite <-(app_nil_r h). by apply HQ.
Qed.

Lemma shared_unfold region c depth :
  shared region c depth =
    if (8 <? depth) || unsupported_source c then cred_error "unsupported AWS credential profile source"
    else if sc_WebIdentityTokenFile c <>s "" then web region (sc_RoleARN c) (sc_WebIdentityTokenFile c) (sc_RoleSessionName c)
    else if sc_RoleARN c =s "" then
      if negb (HasKeys (sc_Credentials c)) then cred_error "AWS profile credentials unavailable" else mret (inr (sc_Credentials c))
    else
      match sc_Source c with
      | None => assume_role region c (sc_Credentials c)
      | Some source =>
          base ← shared region source (depth + 1);
          match base with inl err => mret (inl err) | inr base => assume_role region c base end
      end.
Proof. by destruct c. Qed.

(** A profile that gives credentials is an explicit chain of at most nine. *)
Lemma wp_shared region c depth h (Q : list (event awsCredE) → result awsCredentials → Prop) :
  (∀ h' r, Forall is_exchange h' →
     (∀ v, r = inr v → ∃ n, Z.of_nat n + depth ≤ 8 ∧ explicit_chain n c) → Q (h ++ h') r) →
  wp no_contract Q h (shared region c depth).
Proof.
  revert depth h Q. induction c as [c IH] using shared_config_ind. intros depth h Q HQ.
  assert (Hrefuse : ∀ text, wp no_contract Q h (cred_error text)).
  { intros text. apply wp_ret. rewrite <-(app_nil_r h). by apply HQ. }
  rewrite shared_unfold. destruct (8 <? depth) eqn:Hd; [apply Hrefuse|]. reflect in Hd. cbn [orb].
  destruct (unsupported_source c) eqn:Hu; [apply Hrefuse|]. apply supported_spec in Hu.
  destruct (sc_WebIdentityTokenFile c =s "") eqn:Hw; cbn [negb]; reflect in Hw.
  2: { unfold web. destruct (_ || _) eqn:Hr; [apply Hrefuse|]. reflect in Hr. destruct Hr as [Hr _]. apply wp_exchanged; [by apply emits_call|].
       intros h' r Hh. apply HQ; [done|]. intros v _. exists O. split; [lia|]. by apply chain_web. }
  destruct (sc_RoleARN c =s "") eqn:Hrole; reflect in Hrole.
  { destruct (HasKeys (sc_Credentials c)) eqn:Hk; cbn [negb]; [|apply Hrefuse].
    apply wp_ret. rewrite <-(app_nil_r h). apply HQ; [done|]. intros v _. exists O. split; [lia|]. by apply chain_keys. }
  destruct (sc_Source c) as [source|] eqn:Hs.
  - apply wp_bind, IH. intros h1 base H1 Hchain. destruct base as [err|base].
    { apply wp_ret. by apply HQ. }
    apply wp_assume_role. intros h2 r H2 Hkeys. rewrite <-app_assoc. apply HQ; [by apply Forall_app_2|].
    intros v _. destruct (Hchain base eq_refl) as (n & Hn & Hc). exists (S n). split; [lia|]. by eapply chain_source.
  - apply wp_assume_role. intros h' r Hh Hkeys. apply HQ; [done|]. intros v Hv. exists O. split; [lia|].
    apply chain_role; auto. by eapply Hkeys.
Qed.

Lemma wp_stat_all files h (Q : list (event awsCredE) → bool → Prop) :
  (∀ h' b, (b = true → h' = (λ f, ev (Stat f) None) <$> files) → Q (h ++ h') b) →
  wp no_contract Q h (stat_all files).
Proof.
  revert h Q. induction files as [|file files IH]; intros h Q HQ; cbn [stat_all].
  { apply wp_ret. rewrite <-(app_nil_r h). by apply HQ. }
  apply wp_call_bind. intros [err|] _; [apply wp_ret; by apply HQ|].
  apply IH. intros h' b Hb. rewrite <-app_assoc. apply HQ. intros Ht. cbn. by rewrite Hb.
Qed.

(** The files a scope selects. *)
Definition selected (values : gmap string string) : list string :=
  nonempty (map_get "" values "AWS_CONFIG_FILE") ++ nonempty (map_get "" values "AWS_SHARED_CREDENTIALS_FILE").

