(* ===== verification/GcpCredentials.v ===== *)
(** * GCP credential files
    (internal/provider/gcp_credentials.go)

    The document check, and the token source that reads its file at every use
    and caches the token of those exact bytes.  SHA-256 is a parameter;
    reading the file, building a token source and exchanging a token are
    calls; the validity of a token is asked of the clock.  Transports and
    timeouts are left out. *)
From S2P Require Import Prelude.
From S2P Require Import Effects.
From S2P Require Import Credentials.

(** ** Documents *)

(** Decoded JSON: objects, texts, anything else. *)
Inductive json :=
  | JObject (fields : list (string * json))
  | JString (s : string)
  | JOther.

Fixpoint field (name : string) (fields : list (string * json)) : option json :=
  match fields with
  | [] => None
  | (k, v) :: fields => if k =s name then Some v else field name fields
  end.
(** [document[name].(map[string]any)] *)
Definition object_field (name : string) (fields : list (string * json)) : option (list (string * json)) :=
  match field name fields with Some (JObject o) => Some o | _ => None end.

(** [gcpCredentialDocument] with [levels] levels left: [depth] is 4 - [levels]. *)
Fixpoint document_ok (levels : nat) (document : list (string * json)) : bool :=
  match levels with
  | O => false
  | S levels =>
      if match object_field "credential_source" document with
         | Some source => isSome (field "executable" source)
         | None => false
         end
      then false
      else
        match object_field "source_credentials" document with
        | Some source => document_ok levels source
        | None => true
        end
  end.
Definition gcpCredentialDocument (document : list (string * json)) (depth : Z) : bool :=
  document_ok (Z.to_nat (4 - depth)) document.

Definition credential_types : list string :=
  ["service_account"; "authorized_user"; "external_account"; "impersonated_service_account"].

(** The checks of [parseGCPCredential]: the type of the credential, or an error. *)
Class GcpJSON := { unmarshal_document : string → option (list (string * json)) }.
Definition credential_type `{GcpJSON} (data : string) : result string :=
  match unmarshal_document data with
  | Some document =>
      if negb (gcpCredentialDocument document 0) then inl (errors_new "unsupported GCP credential configuration")
      else
        let kind := match field "type" document with Some (JString s) => s | _ => "" end in
        if slices_contains credential_types kind then inr kind else inl (errors_new "unsupported GCP credential type")
  | None => inl (errors_new "unsupported GCP credential configuration")
  end.

(** ** The token source *)

Record Token := { AccessToken : string; tk_Expiry : option time }.

Class Digest := { sha256 : string → list Z }.

Inductive gcpCredE : Type → Type :=
  | Gate : gcpCredE (option error)                      (* the gate, or the context's end *)
  | TokenCtxErr : gcpCredE (option error)
  | ReadFile (file : string) : gcpCredE (option string) (* nothing when it cannot be opened *)
  | TokenValid (t : Token) : gcpCredE bool
  | FromJSON (data kind : string) : gcpCredE bool       (* google.CredentialsFromJSONWithType accepts it *)
  | Exchange (data : string) : gcpCredE (result Token). (* Token of the source built from these bytes *)

Abbreviation tokenM := (prog gcpCredE).

Definition file_limit : Z := 1048576.
Definition readGCPCredential (file : string) : tokenM (result string) :=
  data ← call (ReadFile file);
  mret (match data with
        | None => inl (errors_new "GCP credential file unavailable")
        | Some data => if file_limit <? Z.of_nat (String.length data) then inl (errors_new "GCP credential file invalid") else inr data
        end).

(** [parseGCPCredential]; the token source it returns is the bytes it was built from. *)
Definition parseGCPCredential `{GcpJSON} (data : string) : tokenM (result string) :=
  match credential_type data with
  | inl err => mret (inl err)
  | inr kind =>
      accepted ← call (FromJSON data kind);
      mret (if accepted : bool then inr data else inl (errors_new "GCP credential configuration invalid"))
  end.

Record gcpFileCredential := { fc_file : string; fc_fingerprint : list Z; fc_token : option Token }.

Section token.
Context `{GcpJSON} `{Digest}.

Definition no_token (s : gcpFileCredential) (err : error) : tokenM (gcpFileCredential * result Token) := mret (s, inl err).

(** The exchange for [data] and the new cache. *)
Definition exchange_token (s : gcpFileCredential) (data : string) : tokenM (gcpFileCredential * result Token) :=
  source ← parseGCPCredential data;
  match source with
  | inl err => no_token s err
  | inr source =>
      token ← call (Exchange source);
      ctx ← call TokenCtxErr;
      match ctx with
      | Some err => no_token s err
      | None =>
          valid ← match token with inl _ => mret false | inr t => call (TokenValid t) end;
          match token with
          | inr t =>
              if negb valid then no_token s (errors_new "GCP token exchange unavailable")
              else
                ctx ← call TokenCtxErr;
                match ctx with
                | Some err => no_token s err
                | None => mret ({| fc_file := fc_file s; fc_fingerprint := sha256 data; fc_token := Some t |}, inr t)
                end
          | inl _ => no_token s (errors_new "GCP token exchange unavailable")
          end
      end
  end.

(** The cached token, when the bytes are the same and it is still valid. *)
Definition cached_token (s : gcpFileCredential) (data : string) : tokenM (option Token) :=
  if negb (bool_decide (sha256 data = fc_fingerprint s)) then mret None
  else
    match fc_token s with
    | None => mret None
    | Some t => valid ← call (TokenValid t); mret (if valid : bool then Some t else None)
    end.

Definition TokenContext (s : gcpFileCredential) : tokenM (gcpFileCredential * result Token) :=
  gate ← call Gate;
  match gate with
  | Some err => no_token s err
  | None =>
      ctx ← call TokenCtxErr;
      match ctx with
      | Some err => no_token s err
      | None =>
          data ← readGCPCredential (fc_file s);
          match data with
          | inl err => no_token s err
          | inr data =>
              cached ← cached_token s data;
              match cached with
              | Some t => mret (s, inr t)
              | None => exchange_token s data
              end
          end
      end
  end.
End token.

(** [gcpCredential]: the token source of an environment; none is the metadata
    server's. *)
Definition gcpCredential `{GcpJSON} (environment : gmap string string) : tokenM (result (option gcpFileCredential)) :=
  let file := map_get "" environment "GOOGLE_APPLICATION_CREDENTIALS" in
  let alias := map_get "" environment "CLOUDSDK_AUTH_CREDENTIAL_FILE_OVERRIDE" in
  if (file <>s "") && (alias <>s "") && (file <>s alias) then mret (inl (errors_new "ambiguous GCP credential files"))
  else
    let file := if file =s "" then alias else file in
    if file =s "" then mret (inr None)
    else
      data ← readGCPCredential file;
      match data with
      | inl err => mret (inl err)
      | inr data =>
          parsed ← parseGCPCredential data;
          match parsed with
          | inl err => mret (inl err)
          | inr _ => mret (inr (Some {| fc_file := file; fc_fingerprint := replicate 32 0; fc_token := None |}))
          end
      end.

(** ** What a document may ask for *)

(** No level of the chain names an executable, and there are at most [n]. *)
Inductive no_executable : nat → list (string * json) → Prop :=
  | level n d :
      (∀ source, object_field "credential_source" d = Some source → field "executable" source = None) →
      (∀ source, object_field "source_credentials" d = Some source → no_executable n source) →
      no_executable (S n) d.

Lemma document_ok_spec n d : document_ok n d = true ↔ no_executable n d.
Proof.
  revert d. induction n as [|n IH]; intros d; [split; [done|by inversion 1]|]. cbn [document_ok]. split.
  - intros Hok. destruct (match object_field "credential_source" d with Some _ => _ | None => _ end) eqn:He; [done|].
    constructor.
    + intros source Hs. rewrite Hs in He. by reflect in He.
    + intros source Hs. rewrite Hs in Hok. by apply IH.
  - inversion 1 as [? ? He Hs]; subst. destruct (object_field "credential_source" d) as [source|].
    + rewrite (He source eq_refl). cbn [isSome isNone negb].
      destruct (object_field "source_credentials" d) as [next|]; [|done]. apply IH. by apply Hs.
    + destruct (object_field "source_credentials" d) as [next|]; [|done]. apply IH. by apply Hs.
Qed.

(** ** Tokens belong to the bytes that are in the file *)

Section cache.
Context `{GcpJSON} `{Digest}.

(** The exchanges of a history that gave a token. *)
Definition issued (h : list (event gcpCredE)) (data : string) (t : Token) : Prop := ev (Exchange data) (inr t) ∈ h.

(** The cache holds a token that was issued for bytes of its fingerprint. *)
Definition cache_ok (past : list (event gcpCredE)) (s : gcpFileCredential) : Prop :=
  ∀ t, fc_token s = Some t → ∃ data, sha256 data = fc_fingerprint s ∧ issued past data t.

(** What a call of [TokenContext] after the calls of [past] guarantees. *)
Definition token_bound (past : list (event gcpCredE)) (s : gcpFileCredential)
    (h : list (event gcpCredE)) (out : gcpFileCredential * result Token) : Prop :=
  cache_ok (past ++ h) (fst out) ∧ fc_file (fst out) = fc_file s
  ∧ match snd out with
    | inl _ => fst out = s
    | inr t => ∃ now, ev (ReadFile (fc_file s)) (Some now) ∈ h ∧ ev (TokenValid t) true ∈ h
                 ∧ ((∃ data, sha256 data = sha256 now ∧ issued past data t ∧ fst out = s)
                    ∨ (issued h now t ∧ ∃ kind, credential_type now = inr kind))
    end.

Lemma cache_ok_app past h s : cache_ok past s → cache_ok (past ++ h) s.
Proof. intros Hs t Ht. destruct (Hs t Ht) as (data & Hd & Hi). exists data. split; [done|]. unfold issued in *. set_solver. Qed.

Lemma no_token_bound past s h err : cache_ok past s → token_bound past s h (s, inl err).
Proof. intros Hs. split; [by apply cache_ok_app|done]. Qed.
#[local] Hint Resolve no_token_bound : core.

Lemma wp_exchange_token past s h now :
  cache_ok past s → ev (ReadFile (fc_file s)) (Some now) ∈ h →
  wp no_contract (token_bound past s) h (exchange_token s now).
Proof.
  intros Hs Hread. unfold exchange_token, parseGCPCredential. apply wp_bind.
  destruct (credential_type now) as [err|kind] eqn:Hkind; [apply wp_ret, wp_ret; auto|].
  apply wp_call_bind. intros [] _; apply wp_ret; [|apply wp_ret; auto].
  apply wp_call_bind. intros token _. apply wp_call_bind. intros [err|] _; [apply wp_ret; auto|].
  destruct token as [err|t]; [apply wp_bind, wp_ret, wp_ret; auto|].
  apply wp_call_bind. intros [] _; cbn [negb]; [|apply wp_ret; auto].
  apply wp_call_bind. intros [err|] _; apply wp_ret; [auto|].
  split_and!; cbn [fst snd fc_token fc_fingerprint fc_file]; [|done|].
  - intros t' [= <-]. exists now. split; [done|]. unfold issued. set_solver.
  - exists now. unfold issued. split_and!; [set_solver..|]. right. split; [set_solver|eauto].
Qed.

End cache.

(** ** Authenticated requests *)

Inductive transportE : Type → Type :=
  | RequestCtxErr : transportE (option error)
  | SourceToken : transportE (result Token)          (* [TokenContext] or [Token] of the source *)
  | BearerValid (t : Token) : transportE bool
  | CloseBody : transportE unit
  | Forward (t : Token) : transportE (result Z).     (* the base transport, with the authorization set *)

(** [gcpAuthTransport.RoundTrip]; the body of a request that is not forwarded is closed. *)
Definition refused (err : error) : prog transportE (result Z) := _ ← call CloseBody; mret (inl err).
Definition RoundTrip : prog transportE (result Z) :=
  ctx ← call RequestCtxErr;
  match ctx with
  | Some err => refused err
  | None =>
      token ← call SourceToken;
      ctx ← call RequestCtxErr;
      match ctx with
      | Some err => refused err
      | None =>
          match token with
          | inl _ => refused (errors_new "GCP authentication unavailable")
          | inr t =>
              valid ← call (BearerValid t);
              if negb valid then refused (errors_new "GCP authentication unavailable")
              else
                ctx ← call RequestCtxErr;
                match ctx with
                | Some err => refused err
                | None => call (Forward t)
                end
          end
      end
  end.

(** A request is forwarded once, with a token of the source that was valid, or
    not at all, and then its body is closed. *)
Lemma forwarded_valid :
  ensures no_contract RoundTrip (λ h r,
    (∃ t answer, last h = Some (ev (Forward t) answer) ∧ r = answer
       ∧ ev SourceToken (inr t) ∈ h ∧ ev (BearerValid t) true ∈ h)
    ∨ (last h = Some (ev CloseBody ()) ∧ ∃ err, r = inl err)).
Proof.
  apply wp_ensures. unfold RoundTrip, refused. wp_explore;
    try (right; match goal with x : () |- _ => destruct x end; split; [apply last_snoc|eauto]).
  match goal with H : negb ?b = false |- _ => destruct b; [|done] end.
  left. eexists _, _. split_and!; [apply last_snoc|done|..]; rewrite !elem_of_app, !list_elem_of_singleton; tauto.
Qed.

(** ** An instance *)

(** A file whose content changes from one identity to another and back to
    nothing; exchanges answer with the identity's name. *)
Definition example_document : list (string * json) := [("type", JString "service_account")].
Definition example_gcp_json : GcpJSON :=
  {| unmarshal_document := λ s, if s =s "junk" then None else Some example_document |}.
Definition example_digest : Digest := {| sha256 := λ s, Z.of_N ∘ N_of_ascii <$> String.list_ascii_of_string s |}.
Definition example_gcp (X : Type) (e : gcpCredE X) (contents : list string) : list string * X :=
  match e in gcpCredE X return list string * X with
  | Gate => (contents, None)
  | TokenCtxErr => (contents, None)
  | ReadFile _ => match contents with [] => ([], None) | c :: contents => (contents, Some c) end
  | TokenValid _ => (contents, true)
  | FromJSON _ _ => (contents, true)
  | Exchange data => (contents, inr {| AccessToken := "token of " +:+ data; tk_Expiry := None |})
  end.
Definition fresh_file : gcpFileCredential := {| fc_file := "/credentials"; fc_fingerprint := replicate 32 0; fc_token := None |}.
Definition use (s : gcpFileCredential) (contents : list string) : list string * (gcpFileCredential * result Token) :=
  run example_gcp (@TokenContext example_gcp_json example_digest s) contents.

Example tokens_follow_file :
  let '(c1, (s1, r1)) := use fresh_file ["alice"; "alice"; "bob"; "junk"] in
  let '(c2, (s2, r2)) := use s1 c1 in
  let '(c3, (s3, r3)) := use s2 c2 in
  let '(c4, (s4, r4)) := use s3 c3 in
  r1 = inr {| AccessToken := "token of alice"; tk_Expiry := None |} ∧ r2 = r1
  ∧ r3 = inr {| AccessToken := "token of bob"; tk_Expiry := None |}
  ∧ r4 = inl (errors_new "unsupported GCP credential configuration").
Proof. vm_compute. auto. Qed.

