(* ===== verification/Float.v ===== *)
(** * float64 as the price clients use it
    (the arithmetic of internal/prices/aws.go, azure.go and gcp.go)

    A float64 is a binary64 number of the Standard Library's [SpecFloat], its
    operations round to nearest even.  [math.Round] rounds halves away from
    zero; the conversion of a value that int64 cannot hold, which Go leaves to
    the implementation, is the class [GoTarget], with the sum of two products,
    which Go lets an implementation fuse.

    The second half is the error analysis of a price scaled to micros. *)
From Stdlib Require Import SpecFloat.
From S2P Require Import Prelude.

Definition float64 : Type := spec_float.
Definition float_mul : float64 → float64 → float64 := SFmul 53 1024.
Definition float_add : float64 → float64 → float64 := SFadd 53 1024.
Definition float_div : float64 → float64 → float64 := SFdiv 53 1024.
Definition float_le : float64 → float64 → bool := SFleb.
(** [float64(n)] of an integer. *)
Definition float_of (n : Z) : float64 := binary_normalize 53 1024 n 0 false.

Definition signed (s : bool) (n : Z) : Z := if s then - n else n.

(** [math.Round] *)
Definition math_Round (x : float64) : float64 :=
  match x with
  | S754_finite s m e =>
      if 0 <=? e then x
      else
        let q := (Z.pos m + 2 ^ (- e - 1)) / 2 ^ (- e) in
        if q =? 0 then S754_zero s else float_of (signed s q)
  | _ => x
  end.

Class GoTarget := {
  out_of_range : float64 → Z;
  sum_products : float64 → float64 → float64 → float64 → float64   (* a*b + c*d *)
}.

(** [int64(x)] *)
Definition int64_of `{GoTarget} (x : float64) : Z :=
  match x with
  | S754_zero _ => 0
  | S754_finite s m e =>
      let n := signed s (if 0 <=? e then Z.pos m * 2 ^ e else Z.pos m / 2 ^ (- e)) in
      if (- 2 ^ 63 <=? n) && (n <? 2 ^ 63) then n else out_of_range x
  | _ => out_of_range x
  end.

(** [int64(math.Round(value * 1e6))] *)
Definition micros `{GoTarget} (value : float64) : Z := int64_of (math_Round (float_mul value (float_of 1000000))).

(** ** Rounding *)

Lemma digits_log m : Zdigits2 (Z.pos m) = Z.log2 (Z.pos m) + 1.
Proof.
  assert (Hs : ∀ p, digits2_pos p = Pos.size p) by (induction p; cbn; congruence).
  cbn [Zdigits2]. rewrite Hs. destruct m; cbn; lia.
Qed.

Lemma iter_pos_nat {A} (f : A → A) p x : SpecFloat.iter_pos f p x = Nat.iter (Pos.to_nat p) f x.
Proof.
  revert x. induction p as [p IH|p IH|]; intros x; cbn [SpecFloat.iter_pos]; [..|done].
  - rewrite !IH, <-Nat.iter_add, Pos2Nat.inj_xI, Nat.iter_succ_r. f_equal. lia.
  - rewrite !IH, <-Nat.iter_add, Pos2Nat.inj_xO. f_equal. lia.
Qed.

(** The record of a shift holds the quotient by [P] of [M] and where the rest lies. *)
Definition shifted (M P : Z) (mrs : shr_record) : Prop :=
  0 ≤ shr_m mrs ∧
  match loc_of_shr_record mrs with
  | loc_Exact => M = shr_m mrs * P
  | loc_Inexact Lt => 0 < 2 * (M - shr_m mrs * P) < P
  | loc_Inexact Eq => 2 * (M - shr_m mrs * P) = P
  | loc_Inexact Gt => P < 2 * (M - shr_m mrs * P) < 2 * P
  end.

Lemma shifted_step M P mrs : 0 < P → shifted M P mrs → shifted M (2 * P) (shr_1 mrs).
Proof.
  intros HP [Hq HM]. destruct mrs as [[|[q|q|]|q] r s]; cbn [shr_m] in *; [| | | |lia];
    destruct r, s; cbn in *; unfold shifted; cbn; lia.
Qed.

Lemma shifted_iter M n : 0 ≤ M → shifted M (2 ^ Z.of_nat n) (Nat.iter n shr_1 (Build_shr_record M false false)).
Proof.
  intros HM. induction n as [|n IH]; [unfold shifted; cbn; lia|].
  rewrite Nat.iter_succ, Nat2Z.inj_succ, Z.pow_succ_r by lia. apply shifted_step; [lia|done].
Qed.

Lemma shr_shifted M e s : 0 ≤ M → 0 ≤ s →
  ∃ mrs, shr (shr_record_of_loc M loc_Exact) e s = (mrs, e + s) ∧ shifted M (2 ^ s) mrs.
Proof.
  intros HM Hs. destruct s as [|p|p]; [| |lia]; cbn [shr shr_record_of_loc].
  - eexists. rewrite Z.add_0_r. split; [done|]. unfold shifted; cbn; lia.
  - eexists. split; [done|]. rewrite iter_pos_nat. rewrite <-(positive_nat_Z p) at 1. by apply shifted_iter.
Qed.

(** Rounding a shifted record to nearest even errs by half a unit at most. *)
Lemma round_shifted M P mrs : 0 < P → shifted M P mrs →
  let q := round_nearest_even (shr_m mrs) (loc_of_shr_record mrs) in
  0 ≤ q ∧ 2 * Z.abs (q * P - M) ≤ P.
Proof.
  intros HP [Hq HM]. unfold round_nearest_even. destruct (loc_of_shr_record mrs) as [|[]]; try destruct (Z.even _); nia.
Qed.

Lemma shr_fexp_normal m e : 0 < m → -1074 ≤ Zdigits2 m + e - 53 →
  shr_fexp 53 1024 m e loc_Exact = shr (shr_record_of_loc m loc_Exact) e (Zdigits2 m - 53).
Proof. intros Hm He. unfold shr_fexp, fexp, emin. f_equal. lia. Qed.

Lemma digits_range m d : 0 < m → 2 ^ (d - 1) ≤ m < 2 ^ d → 1 ≤ d → Zdigits2 m = d.
Proof.
  intros Hm Hr Hd. destruct m as [|p|]; [lia| |lia]. rewrite digits_log, (Z.log2_unique (Z.pos p) (d - 1)); [lia..|].
  replace (Z.succ (d - 1)) with d by lia. done.
Qed.

(** A product with more bits than a float64 holds, rounded. *)
Lemma round_normal M ex : 0 < M → 53 ≤ Zdigits2 M → -1074 ≤ Zdigits2 M + ex - 53 → Zdigits2 M + ex - 52 ≤ 971 →
  ∃ m e, binary_round_aux 53 1024 false M ex loc_Exact = S754_finite false m e
         ∧ 2 ^ 52 ≤ Z.pos m ∧ ex ≤ e
         ∧ 2 * Z.abs (Z.pos m * 2 ^ (e - ex) - M) ≤ 2 ^ (Zdigits2 M - 53).
Proof.
  intros HM Hd Hlow Hhigh. set (s := Zdigits2 M - 53) in *. unfold binary_round_aux. rewrite shr_fexp_normal by done.
  fold s. destruct (shr_shifted M ex s) as (mrs & -> & Hs); [lia..|].
  assert (HP : 0 < 2 ^ s) by (apply Z.pow_pos_nonneg; lia).
  pose proof (round_shifted M (2 ^ s) mrs HP Hs) as [Hq Herr]. cbv zeta in *.
  set (q := round_nearest_even _ _) in *. clearbody q.
  assert (Hbits : 2 ^ 52 * 2 ^ s ≤ M < 2 ^ 53 * 2 ^ s).
  { destruct M as [|M|]; [lia| |lia]. rewrite <-!Z.pow_add_r by lia. unfold s. rewrite digits_log in *.
    pose proof (Z.log2_spec (Z.pos M) ltac:(lia)) as [Hl Hu].
    replace (52 + (Z.log2 (Z.pos M) + 1 - 53)) with (Z.log2 (Z.pos M)) by lia.
    replace (53 + (Z.log2 (Z.pos M) + 1 - 53)) with (Z.succ (Z.log2 (Z.pos M))) by lia. done. }
  assert (Hrange : 2 ^ 52 ≤ q ≤ 2 ^ 53) by nia.
  destruct (decide (q = 2 ^ 53)) as [->|Hne].
  - change (shr_fexp 53 1024 (2 ^ 53) (ex + s) loc_Exact)
      with (shr (shr_record_of_loc (2 ^ 53) loc_Exact) (ex + s) (fexp 53 1024 (54 + (ex + s)) - (ex + s))).
    replace (fexp 53 1024 (54 + (ex + s)) - (ex + s)) with 1 by (unfold fexp, emin; lia).
    cbn -[Z.pow]. rewrite (proj2 (Z.leb_le _ _)) by lia. eexists _, _. split_and!; [done|done|lia|].
    replace (ex + s + 1 - ex) with (s + 1) by lia. rewrite Z.pow_add_r by lia. lia.
  - rewrite shr_fexp_normal; [|lia|]; rewrite (digits_range q 53) by lia; [|lia].
    change (53 - 53) with 0. cbn -[Z.pow]. destruct q as [|m|]; [lia| |lia].
    rewrite (proj2 (Z.leb_le _ _)) by lia. eexists _, _. split_and!; [done|lia..|].
    by replace (ex + s - ex) with s by lia.
Qed.

(** An integer of at most 53 bits is a float64. *)
Lemma pos_iter_xO m d : Z.pos (Pos.iter xO m d) = Z.pos m * 2 ^ Z.pos d.
Proof.
  rewrite Pos2Nat.inj_iter, <-(positive_nat_Z d). induction (Pos.to_nat d) as [|n IH]; [cbn; lia|].
  cbn [nat_rect]. rewrite Nat2Z.inj_succ, Z.pow_succ_r by lia. rewrite Pos2Z.inj_xO, IH. lia.
Qed.

Lemma fill_bits m : Z.log2 (Z.pos m) < 53 →
  let d := 53 - Zdigits2 (Z.pos m) in
  0 ≤ d ∧ 2 ^ 52 ≤ Z.pos m * 2 ^ d < 2 ^ 53.
Proof.
  cbv zeta. rewrite digits_log. set (l := Z.log2 (Z.pos m)). intros Hl53.
  pose proof (Z.log2_spec (Z.pos m) ltac:(lia)) as [Hl Hu]. fold l in Hl, Hu.
  assert (0 ≤ l) by apply Z.log2_nonneg. split; [lia|].
  replace (2 ^ 52) with (2 ^ l * 2 ^ (53 - (l + 1))) by (rewrite <-Z.pow_add_r by lia; f_equal; lia).
  replace (2 ^ 53) with (2 ^ Z.succ l * 2 ^ (53 - (l + 1))) by (rewrite <-Z.pow_add_r by lia; f_equal; lia).
  assert (0 < 2 ^ (53 - (l + 1))) by (apply Z.pow_pos_nonneg; lia). nia.
Qed.

Lemma align_exact m d : 0 ≤ d → 53 - Zdigits2 (Z.pos m) = d →
  ∃ mz, shl_align m 0 (fexp 53 1024 (Z.pos (digits2_pos m) + 0)) = (mz, - d) ∧ Z.pos mz = Z.pos m * 2 ^ d.
Proof.
  cbn [Zdigits2]. intros Hd Hm. unfold shl_align.
  replace (fexp 53 1024 (Z.pos (digits2_pos m) + 0)) with (- d) by (unfold fexp, emin; lia).
  rewrite Z.sub_0_r. destruct d as [|d'|]; [|cbn [Z.opp]|lia]; eexists; split; try done; [cbn; lia|apply pos_iter_xO].
Qed.

Lemma float_of_exact n : 0 < n < 2 ^ 53 →
  ∃ mz d, float_of n = S754_finite false mz (- d) ∧ 0 ≤ d ∧ Z.pos mz = n * 2 ^ d.
Proof.
  intros Hn. destruct n as [|m|]; [lia| |lia].
  destruct (fill_bits m) as [Hd Hbits]; [apply Z.log2_lt_pow2; lia|]. set (d := 53 - _) in *.
  unfold float_of, binary_normalize, binary_round. destruct (align_exact m d Hd eq_refl) as (mz & -> & Hmz).
  exists mz, d. split; [|done].
  assert (Hdig : Zdigits2 (Z.pos mz) = 53) by (apply digits_range; [lia|rewrite Hmz; done|lia]).
  assert (0 ≤ d ≤ 52) by (unfold d in *; rewrite digits_log in *; pose proof (Z.log2_nonneg (Z.pos m)); lia).
  unfold binary_round_aux. rewrite shr_fexp_normal by (rewrite ?Hdig; lia). rewrite Hdig.
  change (53 - 53) with 0. cbn [shr shr_record_of_loc shr_m loc_of_shr_record round_nearest_even].
  rewrite shr_fexp_normal by (rewrite ?Hdig; lia). rewrite Hdig. change (53 - 53) with 0. cbn [shr shr_record_of_loc shr_m].
  by rewrite (proj2 (Z.leb_le _ _)) by lia.
Qed.

Lemma int64_float_of `{GoTarget} n : 0 < n < 2 ^ 53 → int64_of (float_of n) = n.
Proof.
  intros Hn. destruct (float_of_exact n Hn) as (mz & d & -> & Hd & Hmz). unfold int64_of. cbn [signed].
  assert (Hval : (if 0 <=? - d then Z.pos mz * 2 ^ (- d) else Z.pos mz / 2 ^ (- - d)) = n).
  { rewrite Hmz, Z.opp_involutive. destruct (0 <=? - d) eqn:E; reflect in E; [replace d with 0 by lia; cbn; lia|].
    apply Z.div_mul. apply Z.pow_nonzero; lia. }
  rewrite Hval. assert (Hr : (- 2 ^ 63 <=? n) && (n <? 2 ^ 63) = true) by (reflect; lia).
  by rewrite Hr.
Qed.

(** ** A price of whole micros *)

(** The float64 nearest to [num / den], when that is a normal number. *)
Definition nearest (num den : Z) (x : float64) : Prop :=
  ∃ m e, x = S754_finite false m e ∧ 2 ^ 52 ≤ Z.pos m < 2 ^ 53
         ∧ 2 * Z.abs (Z.pos m * 2 ^ Z.max e 0 * den - num * 2 ^ Z.max (- e) 0) ≤ 2 ^ Z.max e 0 * den.

(** Of a price of [n] micros that is below 2^50, the exponent is known. *)
Lemma price_exponent n m e : 0 < n ≤ 2 ^ 50 → 2 ^ 52 ≤ m < 2 ^ 53 →
  2 * Z.abs (m * 2 ^ Z.max e 0 * 1000000 - n * 2 ^ Z.max (- e) 0) ≤ 2 ^ Z.max e 0 * 1000000 →
  -74 < e < -21 ∧ 2 * Z.abs (m * 1000000 - n * 2 ^ (- e)) ≤ 1000000.
Proof.
  intros Hn Hm Herr. destruct (decide (0 ≤ e)) as [He|He].
  { exfalso. rewrite Z.max_l, Z.max_r in Herr by lia.
    assert (0 < 2 ^ e) by (apply Z.pow_pos_nonneg; lia). change (2 ^ 0) with 1 in Herr. nia. }
  rewrite Z.max_r, Z.max_l in Herr by lia. change (2 ^ 0) with 1 in Herr.
  assert (Herr' : 2 * Z.abs (m * 1000000 - n * 2 ^ (- e)) ≤ 1000000) by lia. clear Herr.
  split; [|done]. assert (HP : 0 < 2 ^ (- e)) by (apply Z.pow_pos_nonneg; lia). split.
  - apply Z.nle_gt. intros Hle. pose proof (Z.pow_le_mono_r 2 74 (- e) ltac:(lia) ltac:(lia)). nia.
  - apply Z.nle_gt. intros Hle. pose proof (Z.pow_le_mono_r 2 (- e) 21 ltac:(lia) ltac:(lia)). nia.
Qed.

(** A number within half of an integer rounds to it. *)
Lemma round_to `{GoTarget} m e n : 0 < n < 2 ^ 53 → e < 0 → 2 * Z.abs (Z.pos m - n * 2 ^ (- e)) < 2 ^ (- e) →
  int64_of (math_Round (S754_finite false m e)) = n.
Proof.
  intros Hn He Hnear. cbn [math_Round signed]. rewrite (proj2 (Z.leb_gt _ _)) by lia.
  assert (Hp : 2 ^ (- e) = 2 * 2 ^ (- e - 1)) by (rewrite <-Z.pow_succ_r by lia; f_equal; lia).
  replace ((Z.pos m + 2 ^ (- e - 1)) / 2 ^ (- e)) with n.
  2: { apply Z.div_unique with (Z.pos m + 2 ^ (- e - 1) - 2 ^ (- e) * n); lia. }
  rewrite (proj2 (Z.eqb_neq _ _)) by lia. by apply int64_float_of.
Qed.

Lemma million_float : float_of 1000000 = S754_finite false 8589934592000000 (-33).
Proof. reflexivity. Qed.
Lemma million_bits m : 2 ^ 52 ≤ m < 2 ^ 53 → 105 ≤ Zdigits2 (m * 8589934592000000) ≤ 106.
Proof.
  intros Hm. destruct m as [|m|]; [lia| |lia]. change (Z.pos m * 8589934592000000) with (Z.pos (m * 8589934592000000)).
  rewrite digits_log, Pos2Z.inj_mul.
  assert (104 ≤ Z.log2 (Z.pos m * 8589934592000000)) by (apply Z.log2_le_pow2; lia).
  assert (Z.log2 (Z.pos m * 8589934592000000) < 106) by (apply Z.log2_lt_pow2; lia). lia.
Qed.
Lemma cancel_scale a b c Q : 0 < Q → 2 * Z.abs (a * Q - b * Q) < c * Q → 2 * Z.abs (a - b) < c.
Proof. intros HQ. rewrite <-Z.mul_sub_distr_r, Z.abs_mul, (Z.abs_eq Q) by lia. nia. Qed.

Lemma micros_of_nearest `{GoTarget} n x : 0 < n ≤ 2 ^ 50 → nearest n 1000000 x → micros x = n.
Proof.
  intros Hn (m & e & -> & Hm & Herr). apply price_exponent in Herr as [He Herr]; [|done..].
  unfold micros. rewrite million_float. cbn [float_mul SFmul xorb]. unfold float_mul. cbn [SFmul xorb].
  pose proof (million_bits (Z.pos m) Hm) as Hbits. change (Z.pos m * 8589934592000000) with (Z.pos (m * 8589934592000000)) in Hbits.
  destruct (round_normal (Z.pos (m * 8589934592000000)) (e + -33)) as (m' & e' & -> & Hm' & Hle & Herr'); [lia..|].
  assert (Hd : 2 ^ (Zdigits2 (Z.pos (m * 8589934592000000)) - 53) ≤ 2 ^ 53) by (apply Z.pow_le_mono_r; lia).
  rewrite Pos2Z.inj_mul in Herr', Hd. set (k := - e + 33).
  assert (Hk : 2 ^ k = 2 ^ (- e) * 8589934592) by (unfold k; by rewrite Z.pow_add_r by lia).
  assert (H54 : 2 ^ 54 ≤ 2 ^ k) by (apply Z.pow_le_mono_r; lia).
  replace (e' - (e + -33)) with (e' + k) in Herr' by lia.
  assert (Hnk : n * 2 ^ k = n * 2 ^ (- e) * 8589934592) by (rewrite Hk; ring).
  change (2 ^ 53) with 9007199254740992 in *. change (2 ^ 54) with 18014398509481984 in *.
  assert (Hsum : 2 * Z.abs (Z.pos m' * 2 ^ (e' + k) - n * 2 ^ k) < 2 ^ k) by lia.
  assert (Hneg : e' < 0).
  { apply Z.nle_gt. intros Hnn. rewrite Z.pow_add_r, Z.mul_assoc in Hsum by lia.
    assert (Hpos : 0 < 2 ^ e') by (apply Z.pow_pos_nonneg; lia).
    rewrite <-(Z.mul_1_l (2 ^ k)) in Hsum at 3. apply cancel_scale in Hsum; [|lia]. clear -Hsum Hn Hm' Hpos. nia. }
  apply round_to; [lia|done|].
  assert (Hsplit : 2 ^ k = 2 ^ (- e') * 2 ^ (e' + k)) by (rewrite <-Z.pow_add_r by lia; f_equal; lia).
  rewrite Hsplit, Z.mul_assoc in Hsum. apply (cancel_scale _ _ _ (2 ^ (e' + k))); [apply Z.pow_pos_nonneg; lia|done].
Qed.
