(* ===== verification/Encoding.v ===== *)
(** * Text encodings

    Go's [base64.StdEncoding] and [encoding/hex] as the sources use them:
    internal/provider/command.go embeds secrets in boot scripts as base64,
    internal/azurequeue decodes base64 message bodies, internal/wireguard
    prints keys as base64 and poll tokens as hex.  A [[]byte] is a
    [list Byte.byte]; [string(b)] and [[]byte(s)] are [go_string] and
    [go_bytes]. *)
From S2P Require Import Prelude.

Definition go_string (l : list Byte.byte) : string := String.string_of_list_byte l.
Definition go_bytes (s : string) : list Byte.byte := String.list_byte_of_string s.

Lemma go_bytes_string l : go_bytes (go_string l) = l.
Proof. apply String.list_byte_of_string_of_list_byte. Qed.
Lemma go_string_bytes s : go_string (go_bytes s) = s.
Proof. apply String.string_of_list_byte_of_string. Qed.

(** [strings.HasPrefix] and [strings.TrimPrefix] in one: the rest of [s] after
    [p]. *)
Fixpoint cut_prefix (p s : string) : option string :=
  match p, s with
  | "", _ => Some s
  | String c p', String d s' => if Ascii.eqb c d then cut_prefix p' s' else None
  | _, _ => None
  end.

Lemma cut_prefix_spec p s t : cut_prefix p s = Some t ↔ s = p +:+ t.
Proof.
  revert s. induction p as [|c p IH]; intros s; simpl; [naive_solver|].
  destruct s as [|d s]; [naive_solver|]. destruct (Ascii.eqb_spec c d) as [->|Hne].
  - rewrite IH. split; [by intros ->|by intros [= ->]].
  - split; [done|]. intros [= -> _]. done.
Qed.

#[export] Instance byte_eq_dec : EqDecision Byte.byte := Byte.byte_eq_dec.
#[export] Instance byte_countable : Countable Byte.byte.
Proof.
  refine (inj_countable Byte.to_N Byte.of_N _). apply Byte.of_to_N.
Defined.

(** The value of a byte and the byte of a value ([byte(z)], which truncates). *)
Definition byte_val (b : Byte.byte) : Z := Z.of_N (Byte.to_N b).
Definition byte_of (z : Z) : Byte.byte := default Byte.x00 (Byte.of_N (Z.to_N (z mod 256))).

Lemma byte_val_range b : 0 ≤ byte_val b < 256.
Proof. unfold byte_val. pose proof (Byte.to_N_bounded b). lia. Qed.

Lemma byte_of_val b z : z mod 256 = byte_val b → byte_of z = b.
Proof.
  intros Hz. unfold byte_of. rewrite Hz. unfold byte_val. rewrite N2Z.id, Byte.of_to_N. done.
Qed.

(** The position of a character in an alphabet. *)
Fixpoint char_index (alphabet : list ascii) (c : ascii) : option nat :=
  match alphabet with
  | [] => None
  | d :: alphabet' => if Ascii.eqb c d then Some 0%nat else S <$> char_index alphabet' c
  end.

Lemma char_index_lookup alphabet c i :
  NoDup alphabet → alphabet !! i = Some c → char_index alphabet c = Some i.
Proof.
  revert i. induction alphabet as [|d alphabet IH]; intros [|i]; simpl; try done.
  - intros _ [= ->]. by rewrite Ascii.eqb_refl.
  - intros [Hd Hn]%NoDup_cons Hi. rewrite (IH i Hn Hi). destruct (Ascii.eqb_spec c d) as [->|]; [|done].
    destruct Hd. by eapply list_elem_of_lookup_2.
Qed.

Lemma char_index_in alphabet c i : char_index alphabet c = Some i → c ∈ alphabet.
Proof.
  revert i. induction alphabet as [|d alphabet IH]; intros i; simpl; [done|].
  destruct (Ascii.eqb_spec c d) as [->|]; [left|]. destruct (char_index alphabet c); [|done].
  right. by eapply IH.
Qed.

(** ** base64.StdEncoding *)

Definition base64_alphabet : list ascii :=
  String.list_ascii_of_string "ABCDEFGHIJKLMNOPQRSTUVWXYZabcdefghijklmnopqrstuvwxyz0123456789+/".

Definition base64_char (v : Z) : ascii := default "A"%char (base64_alphabet !! Z.to_nat v).
Definition base64_value (c : ascii) : option Z := Z.of_nat <$> char_index base64_alphabet c.

(** [EncodeToString]: groups of three bytes become four characters; a last
    group of one or two bytes is padded. *)
Fixpoint base64_chars (l : list Byte.byte) : list ascii :=
  match l with
  | [] => []
  | [a] =>
      let n := byte_val a * 2 ^ 16 in
      [base64_char (n / 2 ^ 18); base64_char (n / 2 ^ 12 mod 64); "="%char; "="%char]
  | [a; b] =>
      let n := byte_val a * 2 ^ 16 + byte_val b * 2 ^ 8 in
      [base64_char (n / 2 ^ 18); base64_char (n / 2 ^ 12 mod 64); base64_char (n / 2 ^ 6 mod 64); "="%char]
  | a :: b :: c :: l' =>
      let n := byte_val a * 2 ^ 16 + byte_val b * 2 ^ 8 + byte_val c in
      base64_char (n / 2 ^ 18) :: base64_char (n / 2 ^ 12 mod 64) :: base64_char (n / 2 ^ 6 mod 64)
        :: base64_char (n mod 64) :: base64_chars l'
  end.

Definition base64_encode (l : list Byte.byte) : string := String.string_of_list_ascii (base64_chars l).

(** [DecodeString]: line breaks are skipped, the last group must be padded,
    unused low bits are ignored. *)
Fixpoint base64_bytes (l : list ascii) : option (list Byte.byte) :=
  match l with
  | [] => Some []
  | c0 :: c1 :: c2 :: c3 :: l' =>
      match base64_value c0, base64_value c1, base64_value c2, base64_value c3 with
      | Some v0, Some v1, Some v2, Some v3 =>
          let n := v0 * 2 ^ 18 + v1 * 2 ^ 12 + v2 * 2 ^ 6 + v3 in
          rest ← base64_bytes l';
          Some (byte_of (n / 2 ^ 16) :: byte_of (n / 2 ^ 8) :: byte_of n :: rest)
      | Some v0, Some v1, Some v2, None =>
          if Ascii.eqb c3 "=" && (length l' =? 0)%nat then
            let n := v0 * 2 ^ 18 + v1 * 2 ^ 12 + v2 * 2 ^ 6 in
            Some [byte_of (n / 2 ^ 16); byte_of (n / 2 ^ 8)]
          else None
      | Some v0, Some v1, None, _ =>
          if Ascii.eqb c2 "=" && Ascii.eqb c3 "=" && (length l' =? 0)%nat then
            let n := v0 * 2 ^ 18 + v1 * 2 ^ 12 in Some [byte_of (n / 2 ^ 16)]
          else None
      | _, _, _, _ => None
      end
  | _ => None
  end.

Definition is_newline (c : ascii) : bool := in_cutset (go_string [Byte.x0a; Byte.x0d]) c.

Definition base64_decode (s : string) : option (list Byte.byte) :=
  base64_bytes (List.filter (λ c, negb (is_newline c)) (String.list_ascii_of_string s)).

Lemma base64_alphabet_nodup : NoDup base64_alphabet.
Proof. apply (bool_decide_eq_true_1 _). vm_compute. reflexivity. Qed.

Lemma base64_char_lookup v : 0 ≤ v < 64 → base64_alphabet !! Z.to_nat v = Some (base64_char v).
Proof.
  intros Hv. unfold base64_char. destruct (base64_alphabet !! Z.to_nat v) eqn:Hl; [done|].
  apply lookup_ge_None in Hl. change (length base64_alphabet) with 64%nat in Hl. lia.
Qed.

Lemma base64_char_value v : 0 ≤ v < 64 → base64_value (base64_char v) = Some v.
Proof.
  intros Hv. unfold base64_value.
  rewrite (char_index_lookup _ _ (Z.to_nat v) base64_alphabet_nodup (base64_char_lookup v Hv)).
  simpl. f_equal. lia.
Qed.

Lemma base64_char_in v : base64_char v ∈ base64_alphabet.
Proof.
  unfold base64_char. destruct (base64_alphabet !! Z.to_nat v) eqn:Hl; simpl.
  - by eapply list_elem_of_lookup_2.
  - apply (list_elem_of_lookup_2 _ 0). reflexivity.
Qed.

(** The characters an encoded text consists of. *)
Definition base64_text_chars : list ascii := "="%char :: base64_alphabet.

Lemma list_ind3 {A} (P : list A → Prop) :
  P [] → (∀ a, P [a]) → (∀ a b, P [a; b]) → (∀ a b c l, P l → P (a :: b :: c :: l)) → ∀ l, P l.
Proof.
  intros H0 H1 H2 H3. fix go 1. intros [|a [|b [|c l]]]; [done..|]. apply H3, go.
Qed.

Lemma base64_chars_text l : Forall (.∈ base64_text_chars) (base64_chars l).
Proof.
  assert (∀ v, base64_char v ∈ base64_text_chars) as Hc by (intros v; right; apply base64_char_in).
  assert ("="%char ∈ base64_text_chars) as He by left.
  induction l as [| | |a b c l IH] using list_ind3; cbn [base64_chars];
    repeat (constructor; [first [apply Hc|exact He]|]); [constructor..|exact IH].
Qed.

Ltac byte_ranges := repeat match goal with
  | |- context [byte_val ?b] =>
      lazymatch goal with
      | _ : 0 ≤ byte_val b < 256 |- _ => fail
      | _ => pose proof (byte_val_range b)
      end
  end.

Ltac byte_arith := byte_ranges; repeat match goal with |- context [byte_val ?b] => generalize dependent (byte_val b); intros end;
  Z.to_euclidean_division_equations; lia.

Lemma base64_value_pad : base64_value "=" = None.
Proof. reflexivity. Qed.

Lemma base64_bytes_chars l : base64_bytes (base64_chars l) = Some l.
Proof.
  induction l as [|a|a b|a b c l IH] using list_ind3; [done| | |];
    cbn [base64_chars base64_bytes]; cbv zeta;
    rewrite ?base64_char_value, ?base64_value_pad by byte_arith; cbn [Ascii.eqb Bool.eqb andb length Nat.eqb].
  - change (Ascii.eqb "=" "=") with true. cbn [andb]. do 2 f_equal. apply byte_of_val. byte_arith.
  - change (Ascii.eqb "=" "=") with true. cbn [andb].
    do 2 f_equal; [|f_equal]; apply byte_of_val; byte_arith.
  - rewrite IH. cbn [mbind option_bind]. do 2 f_equal; [|f_equal; [|f_equal]]; apply byte_of_val; byte_arith.
Qed.

Lemma filter_all {A} (f : A → bool) l : Forall (λ x, f x = true) l → List.filter f l = l.
Proof. induction 1 as [|x l Hx _ IH]; simpl; [done|]. by rewrite Hx, IH. Qed.

Lemma base64_text_not_newline c : c ∈ base64_text_chars → negb (is_newline c) = true.
Proof.
  intros Hc. assert (Forall (λ c, negb (is_newline c) = true) base64_text_chars) as H.
  { repeat (constructor; [reflexivity|]). constructor. }
  rewrite Forall_forall in H. by apply H.
Qed.

(** Decoding inverts encoding. *)
Lemma base64_decode_encode l : base64_decode (base64_encode l) = Some l.
Proof.
  unfold base64_decode, base64_encode. rewrite String.list_ascii_of_string_of_list_ascii, filter_all.
  - apply base64_bytes_chars.
  - eapply Forall_impl; [apply base64_chars_text|]. apply base64_text_not_newline.
Qed.

(** ** encoding/hex *)

Definition hex_alphabet : list ascii := String.list_ascii_of_string "0123456789abcdef".
Definition hex_char (v : Z) : ascii := default "0"%char (hex_alphabet !! Z.to_nat v).

(** Both cases are accepted when decoding. *)
Definition hex_value (c : ascii) : option Z :=
  match char_index hex_alphabet c with
  | Some i => Some (Z.of_nat i)
  | None => (λ i, Z.of_nat i + 10) <$> char_index (String.list_ascii_of_string "ABCDEF") c
  end.

Fixpoint hex_chars (l : list Byte.byte) : list ascii :=
  match l with
  | [] => []
  | b :: l' => hex_char (byte_val b / 16) :: hex_char (byte_val b mod 16) :: hex_chars l'
  end.

Definition hex_encode (l : list Byte.byte) : string := String.string_of_list_ascii (hex_chars l).

Fixpoint hex_bytes (l : list ascii) : option (list Byte.byte) :=
  match l with
  | [] => Some []
  | c :: d :: l' =>
      x ← hex_value c; y ← hex_value d; rest ← hex_bytes l'; Some (byte_of (16 * x + y) :: rest)
  | [_] => None
  end.

Definition hex_decode (s : string) : option (list Byte.byte) := hex_bytes (String.list_ascii_of_string s).

Lemma hex_char_value v : 0 ≤ v < 16 → hex_value (hex_char v) = Some v.
Proof.
  intros Hv. assert (v ∈ Z.of_nat <$> seq 0 16) as Hin.
  { apply list_elem_of_fmap. exists (Z.to_nat v). rewrite elem_of_seq. lia. }
  assert (Forall (λ v, hex_value (hex_char v) = Some v) (Z.of_nat <$> seq 0 16)) as H.
  { repeat (constructor; [reflexivity|]). constructor. }
  rewrite Forall_forall in H. by apply H.
Qed.

Lemma hex_decode_encode l : hex_decode (hex_encode l) = Some l.
Proof.
  unfold hex_decode, hex_encode. rewrite String.list_ascii_of_string_of_list_ascii.
  induction l as [|b l IH]; [done|]. cbn [hex_chars hex_bytes].
  rewrite !hex_char_value by byte_arith. cbn [mbind option_bind]. rewrite IH. cbn [mbind option_bind].
  do 2 f_equal. apply byte_of_val. byte_arith.
Qed.
