(* ===== verification/Placement.v ===== *)
(** * Placement: the choice of one pool from a price snapshot
    (internal/placement/placement.go)

    [Choose] scans the catalog, refusing it as a whole when one in-scope pool
    is invalid or stale, and returns the cheapest eligible spot pool; an
    on-demand pool is returned only after every eligible spot pool was
    definitively rejected. *)
From S2P Require Import Prelude.

Record Requirements := {
  req_CPU : Z;
  req_MemoryMiB : Z;
  req_Architecture : string;
  req_Vendor : string;
  req_Capabilities : list string;
  req_Providers : list string;
  req_Regions : list string;
  req_MaxPriceMicros : Z;
  req_AllowOnDemand : bool;
  req_Policy : string
}.

Record GCPSkuRefs := { CoreSkuID : string; RamSkuID : string }.

Record Offering := {
  off_ID : string;
  off_Provider : string;
  off_Region : string;
  off_Zone : string;
  off_Machine : string;
  off_Image : string;
  off_CPU : Z;
  off_MemoryMiB : Z;
  off_Architecture : string;
  off_Vendor : string;
  off_Capabilities : list string;
  off_Spot : bool;
  off_PriceMicros : Z;
  off_Currency : string;
  off_ObservedAt : time;
  off_GCPSkuRefs : option GCPSkuRefs
}.

Record Catalog := {
  Offerings : list Offering;
  Complete : gmap string bool
}.

(** The Go type is a string; [NoOutcome] is the empty string, the value read
    for an absent key, and [OtherOutcome] any string without a constant. *)
Inductive Outcome :=
  | NoOutcome
  | CapacityRejected
  | Unknown
  | CoolingDown
  | OtherOutcome (s : string).

#[export] Instance GCPSkuRefs_eq_dec : EqDecision GCPSkuRefs.
Proof. solve_decision. Defined.
#[export] Instance Offering_eq_dec : EqDecision Offering.
Proof. solve_decision. Defined.
#[export] Instance Outcome_eq_dec : EqDecision Outcome.
Proof. solve_decision. Defined.

Definition errIncomplete : error := Err "catalog or spot search incomplete" [ErrIncomplete].
Definition errExhausted : error := Err "eligible capacity exhausted" [ErrExhausted].

Definition MaxPriceAge : duration := 5 * Minute.
Definition maxPriceMicrosCeiling : Z := 100000000000.

(** [Requirements.Validate]; [None] is a nil error. *)
Definition Validate (r : Requirements) : option error :=
  if (req_CPU r <? 1) || (req_MemoryMiB r <? 1) || (req_MaxPriceMicros r <? 1)
     || (maxPriceMicrosCeiling <? req_MaxPriceMicros r)
  then Some (errors_new "positive cpu, memoryMiB and maxPriceMicros required, maxPriceMicros must not exceed 100000000000")
  else if (req_Architecture r <>s "amd64") && (req_Architecture r <>s "arm64")
  then Some (errors_new "architecture must be amd64 or arm64")
  else if (length (req_Providers r) =? 0)%nat || (length (req_Regions r) =? 0)%nat
  then Some (errors_new "explicit provider and region scope required")
  else if req_Policy r <>s "lowest-price"
  then Some (errors_new "unsupported policy")
  else None.

Definition in_scope (o : Offering) (r : Requirements) : bool :=
  slices_contains (req_Providers r) (off_Provider o)
  && slices_contains (req_Regions r) (off_Region o).

Definition eligible (o : Offering) (r : Requirements) : bool :=
  if negb (slices_contains (req_Providers r) (off_Provider o))
     || negb (slices_contains (req_Regions r) (off_Region o))
     || (off_CPU o <? req_CPU r) || (off_MemoryMiB o <? req_MemoryMiB r)
     || (off_Architecture o <>s req_Architecture r)
     || (req_MaxPriceMicros r <? off_PriceMicros o)
  then false
  else if (req_Vendor r <>s "") && (off_Vendor o <>s req_Vendor r) then false
  else forallb (slices_contains (off_Capabilities o)) (req_Capabilities r).

(** The condition under which [Choose] refuses the snapshot for pool [o]. *)
Definition invalid_pool (now : time) (o : Offering) : bool :=
  (off_CPU o <? 1) || (off_MemoryMiB o <? 1) || (off_Image o =s "") || (off_Machine o =s "")
  || (off_Zone o =s "") || (off_PriceMicros o <? 0) || (off_Currency o <>s "USD")
  || is_zero (off_ObservedAt o) || before now (off_ObservedAt o)
  || (MaxPriceAge <? time_sub now (off_ObservedAt o)).

(** The local variables of the scanning loop. *)
Record Scan := { spot : list Offering; ondemand : list Offering;
                 blocked : bool; onDemandBlocked : bool }.

(** The switch on [outcomes[o.ID]] for one eligible pool. *)
Definition record_pool (out : Outcome) (o : Offering) (s : Scan) : Scan :=
  if negb (off_Spot o) then
    match out with
    | NoOutcome => {| spot := spot s; ondemand := ondemand s ++ [o];
                      blocked := blocked s; onDemandBlocked := onDemandBlocked s |}
    | CapacityRejected => s
    | _ => {| spot := spot s; ondemand := ondemand s;
              blocked := blocked s; onDemandBlocked := true |}
    end
  else
    match out with
    | NoOutcome => {| spot := spot s ++ [o]; ondemand := ondemand s;
                      blocked := blocked s; onDemandBlocked := onDemandBlocked s |}
    | CapacityRejected => s
    | _ => {| spot := spot s; ondemand := ondemand s;
              blocked := true; onDemandBlocked := onDemandBlocked s |}
    end.

Section choose.
Context (now : time) (r : Requirements) (outcomes : gmap string Outcome).

Definition outcome_of (o : Offering) : Outcome := map_get NoOutcome outcomes (off_ID o).

Fixpoint scan (seen : list string) (s : Scan) (os : list Offering) : result Scan :=
  match os with
  | [] => inr s
  | o :: os' =>
      if (off_ID o =s "") || slices_contains seen (off_ID o)
      then inl (errors_new "missing or duplicate pool identity")
      else if negb (in_scope o r) then scan (off_ID o :: seen) s os'
      else if invalid_pool now o
      then inl (Err ("catalog or spot search incomplete: invalid or stale pool " +:+ off_ID o)
                    [ErrIncomplete])
      else if negb (eligible o r) then scan (off_ID o :: seen) s os'
      else scan (off_ID o :: seen) (record_pool (outcome_of o) o s) os'
  end.
End choose.

(** The three-way comparison given to [slices.SortFunc]. *)
Definition rank (a b : Offering) : Z :=
  if off_PriceMicros a <? off_PriceMicros b then -1
  else if off_PriceMicros b <? off_PriceMicros a then 1
  else if str_ltb (off_ID a) (off_ID b) then -1
  else if str_ltb (off_ID b) (off_ID a) then 1
  else 0.

Definition rank_le (a b : Offering) : Prop := rank a b ≤ 0.
#[export] Instance rank_le_dec : RelDecision rank_le.
Proof. intros a b. unfold rank_le. apply _. Defined.

Definition sort_pools (os : list Offering) : list Offering := merge_sort rank_le os.

Definition Choose (now : time) (r : Requirements) (c : Catalog)
    (outcomes : gmap string Outcome) : result Offering :=
  match Validate r with
  | Some e => inl e
  | None =>
      if negb (forallb (map_get false (Complete c)) (req_Providers r)) then inl errIncomplete
      else match scan now r outcomes [] (Build_Scan [] [] false false) (Offerings c) with
      | inl e => inl e
      | inr s =>
          match sort_pools (spot s) with
          | o :: _ => inr o
          | [] =>
              if blocked s then inl errIncomplete
              else match (if req_AllowOnDemand r then sort_pools (ondemand s) else []) with
              | o :: _ => inr o
              | [] => if req_AllowOnDemand r && onDemandBlocked s
                      then inl errIncomplete else inl errExhausted
              end
          end
      end
  end.

(** ** What the scan computes *)

Definition is_fresh_outcome (out : Outcome) : bool :=
  match out with NoOutcome => true | _ => false end.
Definition is_blocking (out : Outcome) : bool :=
  match out with NoOutcome | CapacityRejected => false | _ => true end.

(** A snapshot [Choose] does not refuse: named, distinct pools, and every
    in-scope pool valid and fresh. *)
Definition admissible (now : time) (r : Requirements) (c : Catalog) : Prop :=
  Validate r = None ∧
  (∀ p, p ∈ req_Providers r → map_get false (Complete c) p = true) ∧
  (∀ o, o ∈ Offerings c → off_ID o ≠ "" ∧ (in_scope o r = true → invalid_pool now o = false)) ∧
  NoDup (off_ID <$> Offerings c).

Section scan.
Context (now : time) (r : Requirements) (outcomes : gmap string Outcome).
#[local] Abbreviation out := (outcome_of outcomes).

Definition pools (sp : bool) (P : Outcome → bool) (os : list Offering) : list Offering :=
  List.filter (λ o, eligible o r && Bool.eqb (off_Spot o) sp && P (out o)) os.

Definition scanned (s : Scan) (os : list Offering) : Scan :=
  {| spot := spot s ++ pools true is_fresh_outcome os;
     ondemand := ondemand s ++ pools false is_fresh_outcome os;
     blocked := blocked s || negb (bool_decide (pools true is_blocking os = []));
     onDemandBlocked := onDemandBlocked s || negb (bool_decide (pools false is_blocking os = [])) |}.

Lemma eligible_in_scope o : eligible o r = true → in_scope o r = true.
Proof.
  unfold eligible, in_scope.
  destruct (slices_contains (req_Providers r) _), (slices_contains (req_Regions r) _); done.
Qed.

Lemma pools_cons sp P o os :
  pools sp P (o :: os) =
  (if eligible o r && Bool.eqb (off_Spot o) sp && P (out o) then [o] else []) ++ pools sp P os.
Proof. unfold pools. simpl. by destruct (_ && _ && _). Qed.

Lemma scanned_skip s o os : eligible o r = false → scanned s (o :: os) = scanned s os.
Proof. intros He. unfold scanned. by rewrite !pools_cons, He. Qed.

Lemma scanned_record s o os : eligible o r = true →
  scanned s (o :: os) = scanned (record_pool (out o) o s) os.
Proof.
  intros He. unfold scanned, record_pool. rewrite !pools_cons, He.
  destruct (off_Spot o), (out o); simpl; rewrite <- ?(assoc_L (++)), ?orb_true_r; simpl;
    rewrite ?orb_true_r; done.
Qed.

(** A list the scan accepts when the names in [seen] are taken. *)
Definition scannable (seen : list string) (os : list Offering) : Prop :=
  (∀ o, o ∈ os → off_ID o ≠ "" ∧ off_ID o ∉ seen ∧
                 (in_scope o r = true → invalid_pool now o = false)) ∧
  NoDup (off_ID <$> os).

Lemma scannable_cons seen o os :
  scannable seen (o :: os) ↔
  (off_ID o ≠ "" ∧ off_ID o ∉ seen ∧ (in_scope o r = true → invalid_pool now o = false)) ∧
  scannable (off_ID o :: seen) os.
Proof.
  unfold scannable. rewrite fmap_cons, NoDup_cons, list_elem_of_fmap. split.
  - intros (Hall & Hnot & Hnd). split; [apply Hall; by left|]. split; [|done].
    intros o' Ho'. destruct (Hall o') as (? & ? & ?); [by right|].
    split_and!; [done| |done]. rewrite not_elem_of_cons. split; [|done].
    intros Heq. apply Hnot. by exists o'.
  - intros (Ho & Hall & Hnd). split_and!; [| |done].
    + intros o' [->|Ho']%elem_of_cons; [done|].
      destruct (Hall o' Ho') as (? & Hn & ?). apply not_elem_of_cons in Hn as [??]. done.
    + intros (o' & Heq & Ho'). destruct (Hall o' Ho') as (_ & Hn & _).
      apply not_elem_of_cons in Hn as [Hne _]. congruence.
Qed.

(** The scan succeeds exactly on a well-formed list, and then its result is
    the reference one. *)
Lemma scan_spec seen s os s' :
  scan now r outcomes seen s os = inr s' ↔ s' = scanned s os ∧ scannable seen os.
Proof.
  revert seen s. induction os as [|o os IH]; intros seen s; simpl.
  { assert (scanned s [] = s) as ->.
    { unfold scanned. simpl. rewrite !app_nil_r, !orb_false_r. by destruct s. }
    split; [intros [= <-]; split; [done|]|by intros (-> & _)].
    split; [by intros ??%not_elem_of_nil|constructor]. }
  rewrite scannable_cons.
  destruct (_ || _) eqn:Hid; reflect in Hid.
  { split; [done|]. intros (_ & (? & ? & _) & _). tauto. }
  destruct (in_scope o r) eqn:Hsc; simpl; last first.
  { rewrite IH, scanned_skip; [intuition discriminate|].
    destruct (eligible o r) eqn:He; [|done]. apply eligible_in_scope in He. congruence. }
  destruct (invalid_pool now o) eqn:Hinv.
  { split; [done|]. intros (_ & (_ & _ & Hv) & _). discriminate Hv; done. }
  destruct (eligible o r) eqn:He; simpl; rewrite IH;
    [rewrite scanned_record by done|rewrite scanned_skip by done]; intuition discriminate.
Qed.
End scan.

(** ** The order of pools *)

Lemma rank_le_iff a b :
  rank_le a b ↔ off_PriceMicros a < off_PriceMicros b ∨
                (off_PriceMicros a = off_PriceMicros b ∧ String.le (off_ID a) (off_ID b)).
Proof.
  unfold rank_le, rank. rewrite <- str_ltb_nle.
  destruct (Z.ltb_spec (off_PriceMicros a) (off_PriceMicros b)); [lia|].
  destruct (Z.ltb_spec (off_PriceMicros b) (off_PriceMicros a)); [lia|].
  destruct (str_ltb (off_ID a) (off_ID b)) eqn:Hab.
  - rewrite (str_ltb_asym _ _ Hab). lia.
  - destruct (str_ltb (off_ID b) (off_ID a)); lia || (split; [lia|]; intros [?|[_ ?]]; [lia|done]).
Qed.

#[export] Instance rank_le_total : Total rank_le.
Proof.
  intros a b. rewrite !rank_le_iff.
  destruct (Z.lt_trichotomy (off_PriceMicros a) (off_PriceMicros b)) as [?|[?|?]]; [tauto| |tauto].
  destruct (total String.le (off_ID a) (off_ID b)); naive_solver.
Qed.

#[export] Instance rank_le_trans : Transitive rank_le.
Proof.
  intros a b c. rewrite !rank_le_iff. intros [?|[? ?]] [?|[? ?]]; try lia.
  right. split; [lia|]. by etrans.
Qed.

(** The first sorted pool is a least one, whatever sorting algorithm is used. *)
Lemma sort_pools_head o os l :
  sort_pools os = o :: l → o ∈ os ∧ ∀ o', o' ∈ os → rank_le o o'.
Proof.
  intros Hs. pose proof (merge_sort_Permutation rank_le os) as Hp.
  fold (sort_pools os) in Hp. rewrite Hs in Hp.
  pose proof (StronglySorted_merge_sort rank_le os) as Hss.
  fold (sort_pools os) in Hss. rewrite Hs in Hss.
  apply StronglySorted_cons in Hss as [Hall _]. rewrite Forall_forall in Hall.
  setoid_rewrite <- Hp. split; [by left|].
  intros o' [->|Ho']%elem_of_cons; [|auto].
  destruct (total rank_le o o); done.
Qed.

Lemma sort_pools_nil os : sort_pools os = [] ↔ os = [].
Proof.
  pose proof (merge_sort_Permutation rank_le os) as Hp. fold (sort_pools os) in Hp.
  split; intros H.
  - rewrite H in Hp. symmetry. by apply Permutation_nil_l.
  - subst os. by apply Permutation_nil_r.
Qed.

(** ** Properties of [Choose] *)

Section choose_spec.
Context (now : time) (r : Requirements) (c : Catalog) (outcomes : gmap string Outcome).
#[local] Abbreviation out := (outcome_of outcomes).
#[local] Abbreviation ps sp P := (pools r outcomes sp P (Offerings c)).

Lemma pools_elem sp P o :
  o ∈ ps sp P ↔ o ∈ Offerings c ∧ eligible o r = true ∧ off_Spot o = sp ∧ P (out o) = true.
Proof. unfold pools. rewrite list_filter_In. reflect. tauto. Qed.

Lemma pools_empty sp P :
  ps sp P = [] ↔ ∀ o, o ∈ Offerings c → eligible o r = true → off_Spot o = sp → P (out o) = false.
Proof.
  split.
  - intros Hnil o Ho He Hs. destruct (P (out o)) eqn:HP; [|done].
    destruct (not_elem_of_nil o). rewrite <- Hnil. by apply pools_elem.
  - intros Hall. apply elem_of_nil_inv. intros o (Ho & He & Hs & HP)%pools_elem.
    by rewrite Hall in HP.
Qed.

(** [Choose] refuses an inadmissible snapshot and decides an admissible one
    by the four pool lists. *)
Lemma choose_cases :
  (∃ e, Choose now r c outcomes = inl e ∧ ¬ admissible now r c) ∨
  (admissible now r c ∧
   Choose now r c outcomes =
     match sort_pools (ps true is_fresh_outcome) with
     | o :: _ => inr o
     | [] =>
         if bool_decide (ps true is_blocking = []) then
           match (if req_AllowOnDemand r then sort_pools (ps false is_fresh_outcome) else []) with
           | o :: _ => inr o
           | [] => if req_AllowOnDemand r && negb (bool_decide (ps false is_blocking = []))
                   then inl errIncomplete else inl errExhausted
           end
         else inl errIncomplete
     end).
Proof.
  unfold Choose, admissible.
  destruct (Validate r) as [e|] eqn:Hv; [left; eexists; split; [done|]; by intros [? _]|].
  destruct (forallb _ _) eqn:Hc; simpl; last first.
  { left. eexists. split; [done|]. intros (_ & Hp & _).
    apply not_true_iff_false in Hc. apply Hc, forallb_elem. done. }
  destruct (scan _ _ _ _ _ _) as [e|s] eqn:Hs.
  { left. eexists. split; [done|]. intros (_ & _ & Hwf & Hnd).
    assert (scan now r outcomes [] (Build_Scan [] [] false false) (Offerings c)
            = inr (scanned r outcomes (Build_Scan [] [] false false) (Offerings c))) as Hs'.
    { apply scan_spec. split; [done|]. split; [|done]. intros o Ho.
      destruct (Hwf o Ho). split_and!; [done|apply not_elem_of_nil|done]. }
    congruence. }
  right. apply scan_spec in Hs as (-> & Hwf & Hnd). split.
  { split_and!; [done| |intros o Ho; naive_solver|done]. by apply forallb_elem. }
  simpl. destruct (sort_pools (ps true is_fresh_outcome)); [|done].
  destruct (bool_decide (ps true is_blocking = [])); done.
Qed.
End choose_spec.

(** What a requirement demands of a pool, in the words of the documentation:
    resources, architecture, scope, price ceiling, vendor and capabilities. *)
Definition meets (o : Offering) (r : Requirements) : Prop :=
  off_Provider o ∈ req_Providers r ∧ off_Region o ∈ req_Regions r ∧
  req_CPU r ≤ off_CPU o ∧ req_MemoryMiB r ≤ off_MemoryMiB o ∧
  off_Architecture o = req_Architecture r ∧ off_PriceMicros o ≤ req_MaxPriceMicros r ∧
  (req_Vendor r = "" ∨ off_Vendor o = req_Vendor r) ∧
  (∀ k, k ∈ req_Capabilities r → k ∈ off_Capabilities o).

Lemma eligible_meets o r : eligible o r = true ↔ meets o r.
Proof.
  unfold eligible, meets.
  assert ((∀ k, k ∈ req_Capabilities r → k ∈ off_Capabilities o) ↔
    forallb (slices_contains (off_Capabilities o)) (req_Capabilities r) = true) as ->.
  { rewrite forallb_elem. by setoid_rewrite slices_contains_spec. }
  destruct (_ || _) eqn:Hb; reflect in Hb; [split; [done|]; intuition lia || (intuition congruence)|].
  destruct (_ && _) eqn:Hv; reflect in Hv; [intuition congruence|].
  destruct (String.eqb_spec (req_Vendor r) ""), (String.eqb_spec (off_Vendor o) (req_Vendor r));
    intuition (try lia; try congruence).
Qed.

(** A pool that is valid at [now]: complete, priced in USD and observed at most
    five minutes ago. *)
Definition fresh (now : time) (o : Offering) : Prop :=
  1 ≤ off_CPU o ∧ 1 ≤ off_MemoryMiB o ∧ off_Image o ≠ "" ∧ off_Machine o ≠ "" ∧ off_Zone o ≠ "" ∧
  0 ≤ off_PriceMicros o ∧ off_Currency o = "USD" ∧ off_ObservedAt o ≠ zero_time ∧
  off_ObservedAt o ≤ now ∧ now - off_ObservedAt o ≤ MaxPriceAge.

Lemma valid_pool_fresh now o : invalid_pool now o = false ↔ fresh now o.
Proof.
  unfold invalid_pool, fresh, is_zero, before, time_sub, MaxPriceAge, Minute, Second,
    min_int64, max_int64.
  reflect. lia || intuition lia.
Qed.

Section choose_theorems.
Context (now : time) (r : Requirements) (c : Catalog) (outcomes : gmap string Outcome).
#[local] Abbreviation out := (outcome_of outcomes).

Lemma fresh_outcome_eq out : is_fresh_outcome out = true ↔ out = NoOutcome.
Proof. by destruct out. Qed.

Lemma not_pending_rejected out :
  is_fresh_outcome out = false → is_blocking out = false → out = CapacityRejected.
Proof. by destruct out. Qed.

Lemma choose_success o :
  Choose now r c outcomes = inr o →
  admissible now r c ∧
  o ∈ pools r outcomes (off_Spot o) is_fresh_outcome (Offerings c) ∧
  (∀ o', o' ∈ pools r outcomes (off_Spot o) is_fresh_outcome (Offerings c) → rank_le o o') ∧
  (off_Spot o = false → req_AllowOnDemand r = true ∧
     pools r outcomes true is_fresh_outcome (Offerings c) = [] ∧
     pools r outcomes true is_blocking (Offerings c) = []).
Proof.
  intros H. destruct (choose_cases now r c outcomes) as [(e & He & _)|[Ha Hc]]; [congruence|].
  rewrite H in Hc. split; [done|]. clear H.
  destruct (sort_pools (pools r outcomes true is_fresh_outcome (Offerings c))) as [|o1 l] eqn:Hs.
  - case_bool_decide as Hb; [|done]. destruct (req_AllowOnDemand r) eqn:Hod; [|done].
    destruct (sort_pools (pools r outcomes false _ _)) as [|o2 l] eqn:Hs2; [cases Hc|].
    injection Hc as <-.
    apply sort_pools_head in Hs2 as [Hin Hmin].
    pose proof Hin as (_ & _ & Hspot & _)%pools_elem. rewrite Hspot.
    apply (proj1 (sort_pools_nil _)) in Hs. split_and!; done.
  - injection Hc as <-. apply sort_pools_head in Hs as [Hin Hmin].
    pose proof Hin as (_ & _ & Hspot & _)%pools_elem. rewrite Hspot. split_and!; done.
Qed.

(** C36: a chosen pool is a catalog entry that meets every hard requirement
    (provider, region, resources, architecture, vendor, capabilities and the
    price ceiling), is complete, priced in USD and fresh, has no recorded
    outcome, and no other such pool of its market has a lower price, or the
    same price and a smaller identity. *)
Theorem choose_best o :
  Choose now r c outcomes = inr o →
  o ∈ Offerings c ∧ meets o r ∧ fresh now o ∧ out o = NoOutcome ∧
  ∀ o', o' ∈ Offerings c → meets o' r → off_Spot o' = off_Spot o → out o' = NoOutcome →
    off_PriceMicros o < off_PriceMicros o' ∨
    (off_PriceMicros o = off_PriceMicros o' ∧ String.le (off_ID o) (off_ID o')).
Proof.
  intros ((_ & _ & Hwf & _) & Hin & Hmin & _)%choose_success.
  apply pools_elem in Hin as (Hin & He & _ & Ho).
  apply fresh_outcome_eq in Ho. split_and!; [done|by apply eligible_meets| |done|].
  - apply valid_pool_fresh. apply Hwf; [done|]. by eapply eligible_in_scope.
  - intros o' Hin' Hm' Hs' Ho'. apply rank_le_iff, Hmin, pools_elem.
    split_and!; [done|by apply eligible_meets|done|by apply fresh_outcome_eq].
Qed.

(** On-demand capacity is used only when the class allows it, every
    allowed provider enumerated its pools completely, and every eligible spot
    pool of the snapshot was definitively rejected; a pool that is unvisited,
    cooling down or of unknown outcome rules the fallback out. *)
Theorem choose_fallback o :
  Choose now r c outcomes = inr o → off_Spot o = false →
  req_AllowOnDemand r = true ∧
  (∀ p, p ∈ req_Providers r → Complete c !! p = Some true) ∧
  ∀ o', o' ∈ Offerings c → meets o' r → off_Spot o' = true → out o' = CapacityRejected.
Proof.
  intros (Ha & _ & _ & Hod)%choose_success Hs. destruct (Hod Hs) as (? & Hf & Hb).
  split_and!; [done| |].
  - intros p Hp. destruct Ha as (_ & Hc & _). specialize (Hc p Hp). unfold map_get in Hc.
    destruct (Complete c !! p); simplify_eq/=; congruence.
  - intros o' Hin Hm Hs'. apply eligible_meets in Hm.
    rewrite pools_empty in Hf, Hb. apply not_pending_rejected; auto.
Qed.

Lemma fresh_pool_exists sp :
  (∃ o, (o ∈ Offerings c ∧ meets o r) ∧ off_Spot o = sp ∧ out o = NoOutcome) ↔
  pools r outcomes sp is_fresh_outcome (Offerings c) ≠ [].
Proof.
  split.
  - intros (o & [Hin Hm] & Hs & Ho) Hnil. rewrite pools_empty in Hnil.
    apply eligible_meets in Hm. specialize (Hnil o Hin Hm Hs). by rewrite Ho in Hnil.
  - intros Hne. destruct (pools _ _ _ _ _) as [|o l] eqn:Hp; [done|].
    assert (o ∈ o :: l) as Hin by left. rewrite <- Hp in Hin.
    apply pools_elem in Hin as (? & ? & ? & ?).
    exists o. split_and!; [done|by apply eligible_meets|done|by apply fresh_outcome_eq].
Qed.

Lemma all_rejected sp :
  (∀ o, o ∈ Offerings c ∧ meets o r → off_Spot o = sp → out o = CapacityRejected) ↔
  pools r outcomes sp is_fresh_outcome (Offerings c) = [] ∧
  pools r outcomes sp is_blocking (Offerings c) = [].
Proof.
  rewrite !pools_empty. split.
  - intros Hr. split; intros o Hin Hm Hs; apply eligible_meets in Hm;
      by rewrite (Hr o (conj Hin Hm) Hs).
  - intros [Hf Hb] o [Hin Hm] Hs. apply eligible_meets in Hm.
    apply not_pending_rejected; auto.
Qed.

(** On an admissible snapshot the search ends in one of three ways, each
    exactly when it should: a pool is returned when an eligible unvisited spot
    pool exists, or when spot is exhausted, fallback is allowed and an
    eligible unvisited on-demand pool exists; "exhausted" is reported exactly
    when every eligible pool that may be used was definitively rejected; any
    other outcome is reported as an incomplete search. *)
Theorem choose_decides :
  admissible now r c →
  let eligible_pool o := o ∈ Offerings c ∧ meets o r in
  let spot_exhausted := ∀ o, eligible_pool o → off_Spot o = true → out o = CapacityRejected in
  ((∃ o, Choose now r c outcomes = inr o) ↔
     (∃ o, eligible_pool o ∧ off_Spot o = true ∧ out o = NoOutcome) ∨
     (spot_exhausted ∧ req_AllowOnDemand r = true ∧
      ∃ o, eligible_pool o ∧ off_Spot o = false ∧ out o = NoOutcome)) ∧
  (Choose now r c outcomes = inl errExhausted ↔
     spot_exhausted ∧ (req_AllowOnDemand r = true →
       ∀ o, eligible_pool o → off_Spot o = false → out o = CapacityRejected)) ∧
  (∀ e, Choose now r c outcomes = inl e → e = errIncomplete ∨ e = errExhausted).
Proof.
  intros Ha elig spot_ex.
  unfold spot_ex, elig. rewrite !fresh_pool_exists, !all_rejected.
  destruct (choose_cases now r c outcomes) as [(? & _ & Hn)|[_ ->]]; [done|].
  destruct (sort_pools _) as [|o1 l1] eqn:Hs1; [apply (proj1 (sort_pools_nil _)) in Hs1; rewrite Hs1|];
    last first.
  { apply sort_pools_head in Hs1 as [Hin _].
    pose proof (elem_of_not_nil _ _ Hin).
    split_and!; [naive_solver| |done]. split; [done|tauto]. }
  case_bool_decide as Hb; last first.
  { split_and!; [split; [by intros []|tauto]|split; [done|tauto]|naive_solver]. }
  destruct (req_AllowOnDemand r); simpl; last first.
  { split_and!; [split; [by intros []|naive_solver]|naive_solver|naive_solver]. }
  destruct (sort_pools _) as [|o2 l2] eqn:Hs2; [apply (proj1 (sort_pools_nil _)) in Hs2; rewrite Hs2|].
  - case_bool_decide; simpl; split_and!; naive_solver.
  - apply sort_pools_head in Hs2 as [Hin _].
    pose proof (elem_of_not_nil _ _ Hin).
    split_and!; naive_solver.
Qed.
End choose_theorems.

(** ** A concrete snapshot *)

Module PlacementExample.
Definition now : time := 63900000000 * Second.
Definition offering (id : string) (is_spot : bool) (price : Z) : Offering :=
  {| off_ID := id; off_Provider := "aws"; off_Region := "us-east-1"; off_Zone := "us-east-1a";
     off_Machine := "m7i.large"; off_Image := "ami-1"; off_CPU := 2; off_MemoryMiB := 8192;
     off_Architecture := "amd64"; off_Vendor := "intel"; off_Capabilities := ["docker"; "kvm"];
     off_Spot := is_spot; off_PriceMicros := price; off_Currency := "USD";
     off_ObservedAt := now - Minute; off_GCPSkuRefs := None |}.
Definition requirements : Requirements :=
  {| req_CPU := 2; req_MemoryMiB := 4096; req_Architecture := "amd64"; req_Vendor := "";
     req_Capabilities := ["kvm"]; req_Providers := ["aws"]; req_Regions := ["us-east-1"];
     req_MaxPriceMicros := 200000; req_AllowOnDemand := true; req_Policy := "lowest-price" |}.
Definition catalog : Catalog :=
  {| Offerings := [offering "b" true 40000; offering "a" true 40000;
                   offering "od" false 90000; offering "dear" true 300000];
     Complete := {["aws" := true]} |}.
Definition rejected : gmap string Outcome :=
  {["a" := CapacityRejected; "b" := CapacityRejected]}.
End PlacementExample.

Section witnesses.
Import PlacementExample.

Lemma choose_best_witness :
  Choose now requirements catalog ∅ = inr (offering "a" true 40000) ∧
  offering "a" true 40000 ∈ Offerings catalog.
Proof.
  split; [vm_compute; reflexivity|].
  apply (choose_best now requirements catalog ∅). vm_compute. reflexivity.
Defined.

Lemma choose_fallback_witness :
  Choose now requirements catalog rejected = inr (offering "od" false 90000) ∧
  outcome_of rejected (offering "a" true 40000) = CapacityRejected.
Proof.
  assert (H : Choose now requirements catalog rejected = inr (offering "od" false 90000))
    by (vm_compute; reflexivity).
  split; [exact H|].
  apply (choose_fallback now requirements catalog rejected _ H eq_refl).
  - right. left.
  - apply eligible_meets. vm_compute. reflexivity.
  - reflexivity.
Defined.

Lemma example_admissible : admissible now requirements catalog.
Proof.
  split_and!; [reflexivity| | |].
  - intros p [->|[]%not_elem_of_nil]%elem_of_cons. vm_compute. reflexivity.
  - intros o Ho. unfold catalog in Ho. simpl in Ho.
    rewrite !elem_of_cons, elem_of_nil in Ho.
    destruct Ho as [->|[->|[->|[->|[]]]]]; split; done.
  - apply (bool_decide_unpack _). vm_compute. exact I.
Qed.

Lemma choose_decides_witness :
  admissible now requirements catalog ∧
  ∀ e, Choose now requirements catalog ∅ = inl e → e = errIncomplete ∨ e = errExhausted.
Proof.
  split; [exact example_admissible|].
  apply (choose_decides now requirements catalog ∅ example_admissible).
Defined.
End witnesses.
