(* ===== verification/Admission.v ===== *)
(** * Admission: absolute demand to bounded slots
    (internal/admission/admission.go) *)
From S2P Require Import Prelude.

Record State := {
  Cohort : Z;          (* uint64 *)
  st_Admitted : Z;
  ResetObserved : bool
}.

Definition set_Admitted (n : Z) (s : State) : State :=
  {| Cohort := Cohort s; st_Admitted := n; ResetObserved := ResetObserved s |}.

(** The receiver is a pointer: the state is returned with the result, and the
    early return leaves it as it was. *)
Definition Reconcile (s : State) (demand active limit : Z) (cleanupConfirmed : bool)
    : State * result Z :=
  if (demand <? 0) || (active <? 0) || (limit <? 1) || (100 <? limit) || (100 <? active)
     || (st_Admitted s <? 0) || (100 <? st_Admitted s)
  then (s, inl (errors_new "invalid admission bounds"))
  else
    let s := if demand =? 0
             then {| Cohort := Cohort s; st_Admitted := st_Admitted s; ResetObserved := true |} else s in
    let s := if ResetObserved s && cleanupConfirmed && (active =? 0)
             then {| Cohort := wrapU64 (Cohort s + 1); st_Admitted := 0; ResetObserved := false |}
             else s in
    let desired := Z.min demand limit in
    let n := Z.min (Z.max 0 (desired - st_Admitted s)) (Z.max 0 (Z.max 0 (limit - active))) in
    (set_Admitted (st_Admitted s + n) s, inr n).

(** The bounds within which every call keeps the counter. *)
Definition admission_ok (s : State) : Prop := 0 ≤ st_Admitted s ≤ 100.

Section reconcile.
Context (s s' : State) (demand active limit n : Z) (c : bool).
Context (H : Reconcile s demand active limit c = (s', inr n)).

Lemma reconcile_shape :
  ∃ s0, s' = set_Admitted (st_Admitted s0 + n) s0 ∧
    n = Z.min (Z.max 0 (Z.min demand limit - st_Admitted s0)) (Z.max 0 (limit - active)) ∧
    0 ≤ demand ∧ 0 ≤ active ≤ 100 ∧ 1 ≤ limit ≤ 100 ∧ admission_ok s ∧ admission_ok s0 ∧
    (s0 = s ∨ (demand = 0 ∧ s0 = {| Cohort := Cohort s; st_Admitted := st_Admitted s; ResetObserved := true |}) ∨
     ((demand = 0 ∨ ResetObserved s = true) ∧ c = true ∧ active = 0 ∧
      s0 = {| Cohort := wrapU64 (Cohort s + 1); st_Admitted := 0; ResetObserved := false |})).
Proof using H.
  revert H. unfold Reconcile. destruct (_ || _) eqn:Hg; [done|]. reflect in Hg.
  intros [= <- <-]. eexists. split; [reflexivity|].
  unfold admission_ok.
  destruct (Z.eqb_spec demand 0), (Z.eqb_spec active 0), c, (ResetObserved s); simpl;
    split_and!; try lia; intuition.
Qed.
End reconcile.

(** Slots are granted within the cap.  A successful reconciliation grants a
    non-negative number of slots, never lifting the active allocations above the
    limit, keeps the admitted counter within 0..100, raises it by exactly the
    grant (from 0 after a reset) and never above what demand and limit allow
    when it was below that. *)
Theorem reconcile_bounds s demand active limit c s' n :
  Reconcile s demand active limit c = (s', inr n) →
  0 ≤ n ∧ active + n ≤ Z.max active limit ∧ admission_ok s' ∧
  (st_Admitted s' = st_Admitted s + n ∨ st_Admitted s' = n) ∧
  st_Admitted s' ≤ Z.max (st_Admitted s) (Z.min demand limit).
Proof.
  intros (s0 & -> & Hn & Hd & Ha & Hl & Hs & Hs0 & Hcase)%reconcile_shape.
  unfold admission_ok in *. simpl.
  destruct Hcase as [->|[[_ ->]|(_ & _ & _ & ->)]]; simpl in *; lia.
Qed.

(** Unchanged demand does not rearm.  Right after a grant, the same demand
    with the granted allocations active is granted nothing, however often it is
    repeated, and leaves the counter alone. *)
Theorem reconcile_idempotent s demand active limit c s' n :
  Reconcile s demand active limit c = (s', inr n) → 0 < demand → 0 < active + n ≤ 100 →
  ∀ c', Reconcile s' demand (active + n) limit c' = (s', inr 0).
Proof.
  intros (s0 & -> & Hn & Hd & Ha & Hl & Hs & Hs0 & Hcase)%reconcile_shape Hpos Hact c'.
  unfold Reconcile, admission_ok in *. simpl.
  destruct (_ || _) eqn:Hg; [exfalso; revert Hg; apply not_true_iff_false; reflect; lia|].
  replace (demand =? 0) with false by lia. simpl.
  replace (active + n =? 0) with false by lia. rewrite andb_false_r. simpl.
  replace (Z.min _ _) with 0 by lia. unfold set_Admitted. simpl. by rewrite Z.add_0_r.
Qed.

(** The counter is rebased only on confirmed idleness: when the cohort
    number changes, demand was observed at zero (now or earlier), every
    allocation was confirmed clean and none was active. *)
Theorem reconcile_reset s demand active limit c s' n :
  Reconcile s demand active limit c = (s', inr n) → Cohort s' ≠ Cohort s →
  (demand = 0 ∨ ResetObserved s = true) ∧ c = true ∧ active = 0 ∧ ResetObserved s' = false.
Proof.
  intros (s0 & -> & _ & _ & _ & _ & _ & _ & [->|[[_ ->]|(? & -> & -> & ->)]])%reconcile_shape;
    simpl; naive_solver.
Qed.

Section witnesses.
Let s0 : State := {| Cohort := 7; st_Admitted := 1; ResetObserved := true |}.

Lemma reconcile_bounds_witness :
  Reconcile s0 5 1 3 false =
    ({| Cohort := 7; st_Admitted := 3; ResetObserved := true |}, inr 2) ∧ (0 ≤ 2 ∧ 1 + 2 ≤ Z.max 1 3).
Proof.
  split; [reflexivity|].
  destruct (reconcile_bounds s0 5 1 3 false _ 2 eq_refl) as (? & ? & _). split; assumption.
Defined.

Lemma reconcile_idempotent_witness :
  Reconcile {| Cohort := 7; st_Admitted := 3; ResetObserved := true |} 5 (1 + 2) 3 true =
    ({| Cohort := 7; st_Admitted := 3; ResetObserved := true |}, inr 0).
Proof. apply (reconcile_idempotent s0 5 1 3 false); [reflexivity|lia|lia]. Defined.

Lemma reconcile_reset_witness :
  Reconcile s0 2 0 3 true = ({| Cohort := 8; st_Admitted := 2; ResetObserved := false |}, inr 2) ∧ 0 = 0.
Proof.
  split; [reflexivity|].
  destruct (reconcile_reset s0 2 0 3 true _ 2 eq_refl) as (_ & _ & ? & _); [discriminate|assumption].
Defined.
End witnesses.
