(* ===== verification/Recovery.v ===== *)
(** * Recovery: eligibility of a bounded rerun
    (internal/recovery/recovery.go) *)
From S2P Require Import Prelude.

Record Policy := {
  Enabled : bool;
  MaxRetries : Z;
  AcknowledgeRepeatedEffects : bool
}.

Record RESTJob := {
  job_ID : Z;
  job_RunID : Z;
  job_Attempt : Z;
  job_RunnerName : string;
  job_Status : string;
  job_Conclusion : string
}.

Record Evidence := {
  ev_ScaleSetJobID : string;
  ev_RunnerName : string;
  ev_RunID : Z;
  ev_Attempt : Z;
  ev_ProviderInterrupted : bool;
  ev_Jobs : list RESTJob;
  ev_RetriesUsed : Z;
  ev_RequestPending : bool
}.

#[export] Instance RESTJob_eq_dec : EqDecision RESTJob.
Proof. solve_decision. Defined.

Definition identity_match (e : Evidence) (j : RESTJob) : bool :=
  (job_RunnerName j =s ev_RunnerName e) && (job_RunID j =? ev_RunID e)
  && (job_Attempt j =? ev_Attempt e).

Definition Eligible (p : Policy) (e : Evidence) : result RESTJob :=
  if negb (Enabled p) then inl (errors_new "spot retries disabled")
  else if negb (AcknowledgeRepeatedEffects p) || (MaxRetries p <? 1) || (3 <? MaxRetries p)
  then inl (errors_new "retry policy requires acknowledgment and a 1..3 limit")
  else if (ev_RetriesUsed e <? 0) || (MaxRetries p <=? ev_RetriesUsed e) || ev_RequestPending e
  then inl (errors_new "retry budget exhausted or commitment unknown")
  else if negb (ev_ProviderInterrupted e) || (ev_RunnerName e =s "") || (ev_RunID e <=? 0)
          || (ev_Attempt e <? 1)
  then inl (errors_new "interruption or identity evidence missing")
  else match List.filter (identity_match e) (ev_Jobs e) with
  | [j] =>
      if (job_ID j <=? 0) || (job_Status j <>s "completed") || (job_Conclusion j <>s "failure")
      then inl (errors_new "job is not a terminal failure")
      else inr j
  | _ => inl (errors_new "REST identity is not unique")
  end.

(** What a rerun requires: an acknowledged policy within 1..3, an unspent and
    unambiguous budget, a confirmed interruption, and one terminally failed job
    that is the only one of this runner, run and attempt. *)
Definition rerun_justified (p : Policy) (e : Evidence) (j : RESTJob) : Prop :=
  Enabled p = true ∧ AcknowledgeRepeatedEffects p = true ∧ 1 ≤ MaxRetries p ≤ 3 ∧
  0 ≤ ev_RetriesUsed e < MaxRetries p ∧ ev_RequestPending e = false ∧
  ev_ProviderInterrupted e = true ∧ ev_RunnerName e ≠ "" ∧ 0 < ev_RunID e ∧ 1 ≤ ev_Attempt e ∧
  0 < job_ID j ∧ job_Status j = "completed" ∧ job_Conclusion j = "failure" ∧
  List.filter (identity_match e) (ev_Jobs e) = [j].

(** A rerun is admitted exactly when it is justified: the policy is
    acknowledged and within bounds, budget remains and no request is pending,
    the interruption and identity are established, and exactly one job of the
    run matches and failed terminally. *)
Lemma eligible_spec p e j : Eligible p e = inr j ↔ rerun_justified p e j.
Proof.
  unfold Eligible, rerun_justified.
  destruct (Enabled p); simpl; [|split; [done|by intros (? & _)]].
  destruct (_ || _) eqn:H1; reflect in H1.
  { split; [done|]. intros (_ & ? & ? & _). destruct H1 as [[H1|?]|?]; [congruence|lia|lia]. }
  destruct (_ || _) eqn:H2; reflect in H2.
  { split; [done|]. intros (_ & _ & _ & ? & ? & _). destruct H2 as [[?|?]|?]; [lia|lia|congruence]. }
  destruct (_ || _) eqn:H3; reflect in H3.
  { split; [done|]. intros (_ & _ & _ & _ & _ & ? & ? & ? & ? & _).
    destruct H3 as [[[?|?]|?]|?]; [congruence|congruence|lia|lia]. }
  destruct (List.filter _ _) as [|j0 [|??]];
    [split; [done|]; intros Hj; decompose [and] Hj; discriminate| |
     split; [done|]; intros Hj; decompose [and] Hj; discriminate].
  destruct (_ || _) eqn:H4; reflect in H4.
  - split; [done|]. intros Hj. decompose [and] Hj. simplify_eq.
    destruct H4 as [[?|?]|?]; [lia|congruence|congruence].
  - split; [intros [= <-]|intros Hj; decompose [and] Hj; congruence].
    split_and!; try lia; try done; naive_solver.
Qed.
