(* ===== verification/Resources.v ===== *)
(** * Cloud dependency references and their merge
    (internal/lifecycle/lifecycle.go, [ResourceReference];
     internal/lifecycle/resources.go, [MergeResources])

    The merge is the only way an allocation's recorded dependencies change; the
    theorems show that it never loses one, that its result does not depend on
    the iteration order of Go maps, and exactly when it fails. *)
From S2P Require Import Prelude.

Record ResourceReference := { Kind : string; ref_ID : string; UID : string }.

#[export] Instance ResourceReference_eq_dec : EqDecision ResourceReference.
Proof. solve_decision. Defined.
#[export] Program Instance ResourceReference_countable : Countable ResourceReference :=
  inj_countable' (λ r, (Kind r, ref_ID r, UID r))
    (λ '(k, i, u), {| Kind := k; ref_ID := i; UID := u |}) _.
Next Obligation. by intros []. Qed.

(** The key of the [identities] map. *)
Definition ref_key (r : ResourceReference) : string * string := (Kind r, ref_ID r).

Definition kind_alphabet : string := "abcdefghijklmnopqrstuvwxyz0123456789-./".
(** NUL, CR, LF and TAB *)
Definition control_chars : string :=
  String "000" (String "013" (String "010" (String "009" ""))).

Definition invalid_reference (r : ResourceReference) : bool :=
  (Kind r =s "") || (64 <? strlen (Kind r)) || (strings_trim (Kind r) kind_alphabet <>s "")
  || (ref_ID r =s "") || (2048 <? strlen (ref_ID r))
  || (strings_trim_space (ref_ID r) <>s ref_ID r)
  || strings_contains_any (ref_ID r) control_chars
  || (256 <? strlen (UID r)) || (strings_trim_space (UID r) <>s UID r)
  || strings_contains_any (UID r) control_chars.

Definition maxReferences : nat := 64.

(** The body of the two nested loops over [current] and [observed]. *)
Fixpoint merge_loop (set : gset ResourceReference) (identities : gmap (string * string) string)
    (l : list ResourceReference) : result (gset ResourceReference) :=
  match l with
  | [] => inr set
  | r :: l' =>
      if invalid_reference r then inl (errors_new "invalid cloud dependency reference")
      else match identities !! ref_key r with
      | Some uid =>
          if uid <>s UID r
          then inl (errors_new "cloud dependency generation changed or discarded")
          else
            let set := {[r]} ∪ set in
            if (maxReferences <? size set)%nat
            then inl (errors_new "cloud dependency reference limit exceeded")
            else merge_loop set (<[ref_key r := UID r]> identities) l'
      | None =>
          let set := {[r]} ∪ set in
          if (maxReferences <? size set)%nat
          then inl (errors_new "cloud dependency reference limit exceeded")
          else merge_loop set (<[ref_key r := UID r]> identities) l'
      end
  end.

(** The less function given to [sort.Slice]. *)
Definition ref_less (a b : ResourceReference) : bool :=
  if Kind a <>s Kind b then str_ltb (Kind a) (Kind b) else str_ltb (ref_ID a) (ref_ID b).

Definition ref_le (a b : ResourceReference) : Prop := ref_less b a = false.
#[export] Instance ref_le_dec : RelDecision ref_le.
Proof. intros a b. unfold ref_le. apply _. Defined.

(** The merged slice and whether it differs from [current]. *)
Definition MergeResources (current observed : list ResourceReference)
    : result (list ResourceReference * bool) :=
  match merge_loop ∅ ∅ (current ++ observed) with
  | inl e => inl e
  | inr set =>
      let merged := merge_sort ref_le (elements set) in
      inr (merged, negb (bool_decide (current = merged)))
  end.

(** ** The order of references *)

Lemma ref_le_iff a b :
  ref_le a b ↔ (Kind a ≠ Kind b ∧ String.le (Kind a) (Kind b)) ∨
               (Kind a = Kind b ∧ String.le (ref_ID a) (ref_ID b)).
Proof.
  unfold ref_le, ref_less. destruct (String.eqb_spec (Kind b) (Kind a)); simpl;
    rewrite str_ltb_nle; naive_solver.
Qed.

#[export] Instance ref_le_total : Total ref_le.
Proof.
  intros a b. rewrite !ref_le_iff.
  destruct (decide (Kind a = Kind b)) as [Heq|].
  - rewrite Heq. destruct (total String.le (ref_ID a) (ref_ID b)); naive_solver.
  - destruct (total String.le (Kind a) (Kind b)); naive_solver.
Qed.

#[export] Instance ref_le_trans : Transitive ref_le.
Proof.
  intros a b c. rewrite !ref_le_iff. intros [[Hab Lab]|[Hab Lab]] [[Hbc Lbc]|[Hbc Lbc]].
  - left. split; [|by etrans]. intros Hac. apply Hab.
    apply (anti_symm String.le); [done|by rewrite Hac].
  - left. by rewrite <- Hbc.
  - left. by rewrite Hab.
  - right. split; [congruence|by etrans].
Qed.

Lemma ref_le_antisym a b : ref_le a b → ref_le b a → ref_key a = ref_key b.
Proof.
  rewrite !ref_le_iff. unfold ref_key. intros [[? Lab]|[? Lab]] [[? Lba]|[? Lba]]; try congruence.
  - destruct (decide (Kind a = Kind b)); [done|].
    pose proof (anti_symm String.le _ _ Lab Lba). done.
  - f_equal; [done|]. by apply (anti_symm String.le).
Qed.

(** ** What the loop computes *)

(** References that agree on kind and identifier agree on the generation. *)
Definition one_generation (l : list ResourceReference) : Prop :=
  ∀ a b, a ∈ l → b ∈ l → ref_key a = ref_key b → a = b.

Definition valid_references (l : list ResourceReference) : Prop :=
  ∀ a, a ∈ l → invalid_reference a = false.

Lemma same_key_uid a b : ref_key a = ref_key b → UID a = UID b → a = b.
Proof. destruct a, b; unfold ref_key; simpl; naive_solver. Qed.

Section loop.
Context (ids : gmap (string * string) string).

(** [ids] records the generation of each reference processed so far. *)
Definition agrees (l : list ResourceReference) : Prop :=
  ∀ a uid, a ∈ l → ids !! ref_key a = Some uid → UID a = uid.
End loop.

Lemma agrees_cons ids r l :
  agrees ids (r :: l) ∧ one_generation (r :: l) ↔
  (∀ uid, ids !! ref_key r = Some uid → UID r = uid) ∧
  agrees (<[ref_key r := UID r]> ids) l ∧ one_generation l.
Proof.
  unfold agrees, one_generation. split.
  - intros [Hag Hone]. split_and!.
    + intros uid. apply Hag. by left.
    + intros a uid Ha. rewrite lookup_insert. case_decide as Hk.
      * intros [= <-]. f_equal. symmetry. apply Hone; [by left|by right|done].
      * apply Hag. by right.
    + intros a b Ha Hb. apply Hone; by right.
  - intros (Hr & Hag & Hone). split.
    + intros a uid [->|Ha]%elem_of_cons; [apply Hr|]. intros Hk.
      specialize (Hag a). rewrite lookup_insert in Hag.
      case_decide as Hk'; [|by apply Hag]. rewrite (Hag (UID r)) by done.
      apply Hr. by rewrite Hk'.
    + assert (Hra : ∀ a, a ∈ l → ref_key r = ref_key a → a = r).
      { intros a Ha Hk. apply same_key_uid; [done|]. apply Hag; [done|].
        rewrite Hk. apply lookup_insert_eq. }
      intros a b [->|Ha]%elem_of_cons [->|Hb]%elem_of_cons Hk; [done| | |by apply Hone].
      * symmetry. by apply Hra.
      * by apply Hra.
Qed.

Lemma merge_loop_spec set ids l set' :
  (size set ≤ maxReferences)%nat →
  merge_loop set ids l = inr set' ↔
  set' = list_to_set l ∪ set ∧ (size set' ≤ maxReferences)%nat ∧
  valid_references l ∧ agrees ids l ∧ one_generation l.
Proof.
  revert set ids. induction l as [|r l IH]; intros set ids Hsize; simpl.
  { rewrite union_empty_l_L. split.
    - intros [= <-]. split_and!; [done|done| | |]; by intros ??%not_elem_of_nil || by intros ???%not_elem_of_nil.
    - by intros (-> & _). }
  rewrite (agrees_cons ids r l).
  assert (Hv : valid_references (r :: l) ↔ invalid_reference r = false ∧ valid_references l).
  { unfold valid_references. setoid_rewrite elem_of_cons. naive_solver. }
  rewrite Hv. clear Hv.
  destruct (invalid_reference r) eqn:Hinv; [split; [done|]; intros (_ & _ & [? _] & _); done|].
  assert (Hset : {[r]} ∪ list_to_set l ∪ set = list_to_set l ∪ ({[r]} ∪ set)) by set_solver.
  assert (Hrest :
    (if (maxReferences <? size ({[r]} ∪ set))%nat
     then inl (errors_new "cloud dependency reference limit exceeded")
     else merge_loop ({[r]} ∪ set) (<[ref_key r := UID r]> ids) l) = inr set' ↔
    set' = {[r]} ∪ list_to_set l ∪ set ∧ (size set' ≤ maxReferences)%nat ∧
    valid_references l ∧ agrees (<[ref_key r := UID r]> ids) l ∧ one_generation l).
  { rewrite Hset. destruct (Nat.ltb_spec maxReferences (size ({[r]} ∪ set))) as [Hlt|Hle].
    - split; [done|]. intros (-> & Hs & _).
      assert (size ({[r]} ∪ set) ≤ size (list_to_set l ∪ ({[r]} ∪ set)))%nat
        by (apply subseteq_size; set_solver). lia.
    - by apply IH. }
  destruct (ids !! ref_key r) as [uid|] eqn:Hid; [destruct (String.eqb_spec uid (UID r)); simpl|].
  - rewrite Hrest. naive_solver.
  - split; [done|]. intros (_ & _ & _ & Hr & _). specialize (Hr uid eq_refl). congruence.
  - rewrite Hrest. naive_solver.
Qed.

(** ** Properties of the merge *)

(** Exactly what [MergeResources] accepts. *)
Definition mergeable (l : list ResourceReference) : Prop :=
  valid_references l ∧ one_generation l ∧
  (size (list_to_set l : gset ResourceReference) ≤ maxReferences)%nat.

(** A merged slice: sorted, without repetition. *)
Definition ordered (m : list ResourceReference) : Prop := Sorted ref_le m ∧ NoDup m.

Lemma ordered_unique m1 m2 :
  ordered m1 → ordered m2 → one_generation m1 → (∀ r, r ∈ m1 ↔ r ∈ m2) → m1 = m2.
Proof.
  intros [Hs1 Hn1] [Hs2 Hn2] Hone Hiff.
  apply (Sorted_unique_strong ref_le); [|done|done|by apply NoDup_Permutation].
  intros a b Ha Hb Hab Hba. apply Hone; [done|by apply Hiff|by apply ref_le_antisym].
Qed.

Lemma merge_sort_ordered (set : gset ResourceReference) :
  ordered (merge_sort ref_le (elements set)) ∧
  ∀ r, r ∈ merge_sort ref_le (elements set) ↔ r ∈ set.
Proof.
  pose proof (merge_sort_Permutation ref_le (elements set)) as Hp. split; [split|].
  - apply Sorted_merge_sort, _.
  - rewrite Hp. apply NoDup_elements.
  - intros r. by rewrite Hp, elem_of_elements.
Qed.

Lemma mergeable_agrees l : agrees ∅ l.
Proof. intros a uid _. by rewrite lookup_empty. Qed.

Lemma merge_loop_mergeable l set :
  merge_loop ∅ ∅ l = inr set ↔ set = list_to_set l ∧ mergeable l.
Proof.
  rewrite merge_loop_spec by (rewrite size_empty; unfold maxReferences; lia).
  rewrite union_empty_r_L. unfold mergeable. pose proof (mergeable_agrees l). naive_solver.
Qed.

Lemma merge_spec current observed m changed :
  MergeResources current observed = inr (m, changed) ↔
  mergeable (current ++ observed) ∧ ordered m ∧
  (∀ r, r ∈ m ↔ r ∈ current ∨ r ∈ observed) ∧ (changed = true ↔ current ≠ m).
Proof.
  unfold MergeResources. destruct (merge_loop _ _ _) as [e|set] eqn:Hl.
  - split; [done|]. intros (Hm & _).
    assert (merge_loop ∅ ∅ (current ++ observed) = inr (list_to_set (current ++ observed)))
      by (by apply merge_loop_mergeable). congruence.
  - apply merge_loop_mergeable in Hl as [-> Hm].
    pose proof (merge_sort_ordered (list_to_set (current ++ observed))) as [Ho Hin].
    setoid_rewrite elem_of_list_to_set in Hin. setoid_rewrite elem_of_app in Hin. split.
    + intros [= <- <-]. split_and!; [done|done|done|]. by case_bool_decide.
    + intros (_ & Hom & Hinm & Hch).
      assert (merge_sort ref_le (elements (list_to_set (current ++ observed))) = m) as ->.
      { apply ordered_unique; [done|done| |naive_solver].
        destruct Hm as (_ & Hone & _). intros a b Ha Hb. apply Hone; apply elem_of_app; naive_solver. }
      do 2 f_equal. case_bool_decide; destruct changed; naive_solver.
Qed.

(** The merge is exact.  It succeeds if and only if every reference is well
    formed, no kind and identifier pair occurs with two generations and there
    are at most 64 distinct references; the result is then the one sorted,
    repetition-free slice holding exactly the references of both inputs
    (whatever order Go iterates its maps in), and the change flag says whether
    it differs from the current slice. *)
Theorem merge_exact current observed :
  ((∃ res, MergeResources current observed = inr res) ↔ mergeable (current ++ observed)) ∧
  ∀ m changed, MergeResources current observed = inr (m, changed) ↔
    mergeable (current ++ observed) ∧ ordered m ∧
    (∀ r, r ∈ m ↔ r ∈ current ∨ r ∈ observed) ∧ (changed = true ↔ current ≠ m).
Proof.
  split; [|intros; apply merge_spec]. split.
  - intros [[m ch] H]. by apply merge_spec in H as [? _].
  - intros Hm. unfold MergeResources.
    assert (merge_loop ∅ ∅ (current ++ observed) = inr (list_to_set (current ++ observed))) as ->
      by (by apply merge_loop_mergeable). eauto.
Qed.

Lemma merge_retains current observed m changed r :
  MergeResources current observed = inr (m, changed) → r ∈ current → r ∈ m.
Proof. intros (_ & _ & H & _)%merge_spec. rewrite H. tauto. Qed.

Lemma merge_unchanged current observed m :
  MergeResources current observed = inr (m, false) → current = m.
Proof.
  intros (_ & _ & _ & H)%merge_spec. destruct (decide (current = m)); [done|naive_solver].
Qed.

Lemma mergeable_sub l l' : (∀ r, r ∈ l' → r ∈ l) → mergeable l → mergeable l'.
Proof.
  intros Hsub (Hv & Hone & Hs). split_and!.
  - intros a Ha. auto.
  - intros a b Ha Hb. auto.
  - etrans; [|exact Hs]. apply subseteq_size. intros a. rewrite !elem_of_list_to_set. auto.
Qed.

(** A slice some merge produced. *)
Definition canonical (m : list ResourceReference) : Prop := MergeResources [] m = inr (m, negb (bool_decide (m = []))).

Lemma canonical_iff m : canonical m ↔ mergeable m ∧ ordered m.
Proof.
  unfold canonical. rewrite merge_spec, app_nil_l. split; [tauto|].
  intros [Hm Ho]. split_and!; [done|done| |].
  - intros r. rewrite elem_of_nil. tauto.
  - case_bool_decide; naive_solver.
Qed.

Lemma merge_canonical current observed m changed :
  MergeResources current observed = inr (m, changed) → canonical m.
Proof.
  intros (Hm & Ho & Hin & _)%merge_spec. apply canonical_iff. split; [|done].
  eapply mergeable_sub; [|exact Hm]. intros r. rewrite Hin, elem_of_app. tauto.
Qed.

(** Merging is stable.  A merged slice is a fixed point: merging it with
    any of the references it already holds returns it unchanged with the change
    flag down, and merging the two inputs in the other order gives the same
    slice. *)
Theorem merge_stable current observed m changed :
  MergeResources current observed = inr (m, changed) →
  (∀ l, (∀ r, r ∈ l → r ∈ m) → MergeResources m l = inr (m, false)) ∧
  ∃ changed', MergeResources observed current = inr (m, changed').
Proof.
  intros H. pose proof H as (Hm & Ho & Hin & _)%merge_spec. split.
  - intros l Hl. apply merge_spec. split_and!; [|done|naive_solver|naive_solver].
    eapply mergeable_sub; [|exact Hm]. intros r. rewrite !elem_of_app. naive_solver.
  - exists (negb (bool_decide (observed = m))). apply merge_spec. split_and!; [|done|naive_solver|].
    + eapply mergeable_sub; [|exact Hm]. intros r. rewrite !elem_of_app. tauto.
    + case_bool_decide; naive_solver.
Qed.

Section witnesses.
Let vm : ResourceReference := {| Kind := "ec2/instance"; ref_ID := "i-0abc"; UID := "" |}.
Let disk : ResourceReference := {| Kind := "ec2/volume"; ref_ID := "vol-1"; UID := "u1" |}.

Lemma merge_stable_witness :
  MergeResources [disk] [vm; disk] = inr ([vm; disk], true) ∧
  MergeResources [vm; disk] [disk] = inr ([vm; disk], false).
Proof.
  assert (H : MergeResources [disk] [vm; disk] = inr ([vm; disk], true)) by (vm_compute; reflexivity).
  split; [exact H|]. apply (merge_stable _ _ _ _ H).
  intros r. rewrite list_elem_of_singleton. intros ->. right. left.
Defined.
End witnesses.
