(* ===== verification/Allocation.v ===== *)
(** * The durable allocation record
    (internal/lifecycle/lifecycle.go, lines 13-217)

    The data of the allocation state machine, shared by the lifecycle
    controller, the state store, the operator and the WireGuard components. *)
From S2P Require Import Prelude.
From S2P Require Import Placement.
From S2P Require Import Resources.

(** The Go type is a string; [OtherPhase] is any string without a constant. *)
Inductive Phase :=
  | Pending
  | Creating
  | Running
  | Deleting
  | Deleted
  | TimedOut
  | OtherPhase (s : string).

#[export] Instance Phase_eq_dec : EqDecision Phase.
Proof. solve_decision. Defined.

Record Allocation := {
  Resources : list ResourceReference;
  RejectedAt : gmap string time;
  Completed : bool;
  ID : string;
  Revision : string;
  al_Phase : Phase;
  Deadline : time;
  Attempts : Z;
  MaxAttempts : Z;
  al_Offering : Offering;
  Outcomes : gmap string Outcome;
  al_Catalog : Catalog;
  al_Requirements : Requirements;
  ResourceID : string;
  Ready : bool;
  Retire : bool;
  Condition : string;
  RunID : Z;
  Owner : string;
  Repo : string;
  ScaleSetJobID : string;
  RetryProcessed : bool;
  NetworkProfile : string;
  WireGuardPublicKey : list Byte.byte;
  WireGuardOverlayAddress : string;
  WireGuardEndpoint : string;
  WireGuardPollTokenHash : list Byte.byte;
  TerminalAt : time
}.

(** Field assignment, [a.F = v]. *)
Definition set_Resources (v : list ResourceReference) (a : Allocation) : Allocation :=
  {| Resources := v; RejectedAt := RejectedAt a; Completed := Completed a; ID := ID a; 
     Revision := Revision a; al_Phase := al_Phase a; Deadline := Deadline a; 
     Attempts := Attempts a; MaxAttempts := MaxAttempts a; al_Offering := al_Offering a; 
     Outcomes := Outcomes a; al_Catalog := al_Catalog a; 
     al_Requirements := al_Requirements a; ResourceID := ResourceID a; Ready := Ready a; 
     Retire := Retire a; Condition := Condition a; RunID := RunID a; Owner := Owner a; 
     Repo := Repo a; ScaleSetJobID := ScaleSetJobID a; RetryProcessed := RetryProcessed a; 
     NetworkProfile := NetworkProfile a; WireGuardPublicKey := WireGuardPublicKey a; 
     WireGuardOverlayAddress := WireGuardOverlayAddress a; 
     WireGuardEndpoint := WireGuardEndpoint a; 
     WireGuardPollTokenHash := WireGuardPollTokenHash a; TerminalAt := TerminalAt a |}.
Definition set_RejectedAt (v : gmap string time) (a : Allocation) : Allocation :=
  {| Resources := Resources a; RejectedAt := v; Completed := Completed a; ID := ID a; 
     Revision := Revision a; al_Phase := al_Phase a; Deadline := Deadline a; 
     Attempts := Attempts a; MaxAttempts := MaxAttempts a; al_Offering := al_Offering a; 
     Outcomes := Outcomes a; al_Catalog := al_Catalog a; 
     al_Requirements := al_Requirements a; ResourceID := ResourceID a; Ready := Ready a; 
     Retire := Retire a; Condition := Condition a; RunID := RunID a; Owner := Owner a; 
     Repo := Repo a; ScaleSetJobID := ScaleSetJobID a; RetryProcessed := RetryProcessed a; 
     NetworkProfile := NetworkProfile a; WireGuardPublicKey := WireGuardPublicKey a; 
     WireGuardOverlayAddress := WireGuardOverlayAddress a; 
     WireGuardEndpoint := WireGuardEndpoint a; 
     WireGuardPollTokenHash := WireGuardPollTokenHash a; TerminalAt := TerminalAt a |}.
Definition set_Completed (v : bool) (a : Allocation) : Allocation :=
  {| Resources := Resources a; RejectedAt := RejectedAt a; Completed := v; ID := ID a; 
     Revision := Revision a; al_Phase := al_Phase a; Deadline := Deadline a; 
     Attempts := Attempts a; MaxAttempts := MaxAttempts a; al_Offering := al_Offering a; 
     Outcomes := Outcomes a; al_Catalog := al_Catalog a; 
     al_Requirements := al_Requirements a; ResourceID := ResourceID a; Ready := Ready a; 
     Retire := Retire a; Condition := Condition a; RunID := RunID a; Owner := Owner a; 
     Repo := Repo a; ScaleSetJobID := ScaleSetJobID a; RetryProcessed := RetryProcessed a; 
     NetworkProfile := NetworkProfile a; WireGuardPublicKey := WireGuardPublicKey a; 
     WireGuardOverlayAddress := WireGuardOverlayAddress a; 
     WireGuardEndpoint := WireGuardEndpoint a; 
     WireGuardPollTokenHash := WireGuardPollTokenHash a; TerminalAt := TerminalAt a |}.
Definition set_Revision (v : string) (a : Allocation) : Allocation :=
  {| Resources := Resources a; RejectedAt := RejectedAt a; Completed := Completed a; 
     ID := ID a; Revision := v; al_Phase := al_Phase a; Deadline := Deadline a; 
     Attempts := Attempts a; MaxAttempts := MaxAttempts a; al_Offering := al_Offering a; 
     Outcomes := Outcomes a; al_Catalog := al_Catalog a; 
     al_Requirements := al_Requirements a; ResourceID := ResourceID a; Ready := Ready a; 
     Retire := Retire a; Condition := Condition a; RunID := RunID a; Owner := Owner a; 
     Repo := Repo a; ScaleSetJobID := ScaleSetJobID a; RetryProcessed := RetryProcessed a; 
     NetworkProfile := NetworkProfile a; WireGuardPublicKey := WireGuardPublicKey a; 
     WireGuardOverlayAddress := WireGuardOverlayAddress a; 
     WireGuardEndpoint := WireGuardEndpoint a; 
     WireGuardPollTokenHash := WireGuardPollTokenHash a; TerminalAt := TerminalAt a |}.
Definition set_Phase (v : Phase) (a : Allocation) : Allocation :=
  {| Resources := Resources a; RejectedAt := RejectedAt a; Completed := Completed a; 
     ID := ID a; Revision := Revision a; al_Phase := v; Deadline := Deadline a; 
     Attempts := Attempts a; MaxAttempts := MaxAttempts a; al_Offering := al_Offering a; 
     Outcomes := Outcomes a; al_Catalog := al_Catalog a; 
     al_Requirements := al_Requirements a; ResourceID := ResourceID a; Ready := Ready a; 
     Retire := Retire a; Condition := Condition a; RunID := RunID a; Owner := Owner a; 
     Repo := Repo a; ScaleSetJobID := ScaleSetJobID a; RetryProcessed := RetryProcessed a; 
     NetworkProfile := NetworkProfile a; WireGuardPublicKey := WireGuardPublicKey a; 
     WireGuardOverlayAddress := WireGuardOverlayAddress a; 
     WireGuardEndpoint := WireGuardEndpoint a; 
     WireGuardPollTokenHash := WireGuardPollTokenHash a; TerminalAt := TerminalAt a |}.
Definition set_Attempts (v : Z) (a : Allocation) : Allocation :=
  {| Resources := Resources a; RejectedAt := RejectedAt a; Completed := Completed a; 
     ID := ID a; Revision := Revision a; al_Phase := al_Phase a; Deadline := Deadline a; 
     Attempts := v; MaxAttempts := MaxAttempts a; al_Offering := al_Offering a; 
     Outcomes := Outcomes a; al_Catalog := al_Catalog a; 
     al_Requirements := al_Requirements a; ResourceID := ResourceID a; Ready := Ready a; 
     Retire := Retire a; Condition := Condition a; RunID := RunID a; Owner := Owner a; 
     Repo := Repo a; ScaleSetJobID := ScaleSetJobID a; RetryProcessed := RetryProcessed a; 
     NetworkProfile := NetworkProfile a; WireGuardPublicKey := WireGuardPublicKey a; 
     WireGuardOverlayAddress := WireGuardOverlayAddress a; 
     WireGuardEndpoint := WireGuardEndpoint a; 
     WireGuardPollTokenHash := WireGuardPollTokenHash a; TerminalAt := TerminalAt a |}.
Definition set_Offering (v : Offering) (a : Allocation) : Allocation :=
  {| Resources := Resources a; RejectedAt := RejectedAt a; Completed := Completed a; 
     ID := ID a; Revision := Revision a; al_Phase := al_Phase a; Deadline := Deadline a; 
     Attempts := Attempts a; MaxAttempts := MaxAttempts a; al_Offering := v; 
     Outcomes := Outcomes a; al_Catalog := al_Catalog a; 
     al_Requirements := al_Requirements a; ResourceID := ResourceID a; Ready := Ready a; 
     Retire := Retire a; Condition := Condition a; RunID := RunID a; Owner := Owner a; 
     Repo := Repo a; ScaleSetJobID := ScaleSetJobID a; RetryProcessed := RetryProcessed a; 
     NetworkProfile := NetworkProfile a; WireGuardPublicKey := WireGuardPublicKey a; 
     WireGuardOverlayAddress := WireGuardOverlayAddress a; 
     WireGuardEndpoint := WireGuardEndpoint a; 
     WireGuardPollTokenHash := WireGuardPollTokenHash a; TerminalAt := TerminalAt a |}.
Definition set_Outcomes (v : gmap string Outcome) (a : Allocation) : Allocation :=
  {| Resources := Resources a; RejectedAt := RejectedAt a; Completed := Completed a; 
     ID := ID a; Revision := Revision a; al_Phase := al_Phase a; Deadline := Deadline a; 
     Attempts := Attempts a; MaxAttempts := MaxAttempts a; al_Offering := al_Offering a; 
     Outcomes := v; al_Catalog := al_Catalog a; al_Requirements := al_Requirements a; 
     ResourceID := ResourceID a; Ready := Ready a; Retire := Retire a; 
     Condition := Condition a; RunID := RunID a; Owner := Owner a; Repo := Repo a; 
     ScaleSetJobID := ScaleSetJobID a; RetryProcessed := RetryProcessed a; 
     NetworkProfile := NetworkProfile a; WireGuardPublicKey := WireGuardPublicKey a; 
     WireGuardOverlayAddress := WireGuardOverlayAddress a; 
     WireGuardEndpoint := WireGuardEndpoint a; 
     WireGuardPollTokenHash := WireGuardPollTokenHash a; TerminalAt := TerminalAt a |}.
Definition set_ResourceID (v : string) (a : Allocation) : Allocation :=
  {| Resources := Resources a; RejectedAt := RejectedAt a; Completed := Completed a; 
     ID := ID a; Revision := Revision a; al_Phase := al_Phase a; Deadline := Deadline a; 
     Attempts := Attempts a; MaxAttempts := MaxAttempts a; al_Offering := al_Offering a; 
     Outcomes := Outcomes a; al_Catalog := al_Catalog a; 
     al_Requirements := al_Requirements a; ResourceID := v; Ready := Ready a; 
     Retire := Retire a; Condition := Condition a; RunID := RunID a; Owner := Owner a; 
     Repo := Repo a; ScaleSetJobID := ScaleSetJobID a; RetryProcessed := RetryProcessed a; 
     NetworkProfile := NetworkProfile a; WireGuardPublicKey := WireGuardPublicKey a; 
     WireGuardOverlayAddress := WireGuardOverlayAddress a; 
     WireGuardEndpoint := WireGuardEndpoint a; 
     WireGuardPollTokenHash := WireGuardPollTokenHash a; TerminalAt := TerminalAt a |}.
Definition set_Ready (v : bool) (a : Allocation) : Allocation :=
  {| Resources := Resources a; RejectedAt := RejectedAt a; Completed := Completed a; 
     ID := ID a; Revision := Revision a; al_Phase := al_Phase a; Deadline := Deadline a; 
     Attempts := Attempts a; MaxAttempts := MaxAttempts a; al_Offering := al_Offering a; 
     Outcomes := Outcomes a; al_Catalog := al_Catalog a; 
     al_Requirements := al_Requirements a; ResourceID := ResourceID a; Ready := v; 
     Retire := Retire a; Condition := Condition a; RunID := RunID a; Owner := Owner a; 
     Repo := Repo a; ScaleSetJobID := ScaleSetJobID a; RetryProcessed := RetryProcessed a; 
     NetworkProfile := NetworkProfile a; WireGuardPublicKey := WireGuardPublicKey a; 
     WireGuardOverlayAddress := WireGuardOverlayAddress a; 
     WireGuardEndpoint := WireGuardEndpoint a; 
     WireGuardPollTokenHash := WireGuardPollTokenHash a; TerminalAt := TerminalAt a |}.
Definition set_Retire (v : bool) (a : Allocation) : Allocation :=
  {| Resources := Resources a; RejectedAt := RejectedAt a; Completed := Completed a; 
     ID := ID a; Revision := Revision a; al_Phase := al_Phase a; Deadline := Deadline a; 
     Attempts := Attempts a; MaxAttempts := MaxAttempts a; al_Offering := al_Offering a; 
     Outcomes := Outcomes a; al_Catalog := al_Catalog a; 
     al_Requirements := al_Requirements a; ResourceID := ResourceID a; Ready := Ready a; 
     Retire := v; Condition := Condition a; RunID := RunID a; Owner := Owner a; 
     Repo := Repo a; ScaleSetJobID := ScaleSetJobID a; RetryProcessed := RetryProcessed a; 
     NetworkProfile := NetworkProfile a; WireGuardPublicKey := WireGuardPublicKey a; 
     WireGuardOverlayAddress := WireGuardOverlayAddress a; 
     WireGuardEndpoint := WireGuardEndpoint a; 
     WireGuardPollTokenHash := WireGuardPollTokenHash a; TerminalAt := TerminalAt a |}.
Definition set_Condition (v : string) (a : Allocation) : Allocation :=
  {| Resources := Resources a; RejectedAt := RejectedAt a; Completed := Completed a; 
     ID := ID a; Revision := Revision a; al_Phase := al_Phase a; Deadline := Deadline a; 
     Attempts := Attempts a; MaxAttempts := MaxAttempts a; al_Offering := al_Offering a; 
     Outcomes := Outcomes a; al_Catalog := al_Catalog a; 
     al_Requirements := al_Requirements a; ResourceID := ResourceID a; Ready := Ready a; 
     Retire := Retire a; Condition := v; RunID := RunID a; Owner := Owner a; Repo := Repo a; 
     ScaleSetJobID := ScaleSetJobID a; RetryProcessed := RetryProcessed a; 
     NetworkProfile := NetworkProfile a; WireGuardPublicKey := WireGuardPublicKey a; 
     WireGuardOverlayAddress := WireGuardOverlayAddress a; 
     WireGuardEndpoint := WireGuardEndpoint a; 
     WireGuardPollTokenHash := WireGuardPollTokenHash a; TerminalAt := TerminalAt a |}.
Definition set_RunID (v : Z) (a : Allocation) : Allocation :=
  {| Resources := Resources a; RejectedAt := RejectedAt a; Completed := Completed a; 
     ID := ID a; Revision := Revision a; al_Phase := al_Phase a; Deadline := Deadline a; 
     Attempts := Attempts a; MaxAttempts := MaxAttempts a; al_Offering := al_Offering a; 
     Outcomes := Outcomes a; al_Catalog := al_Catalog a; 
     al_Requirements := al_Requirements a; ResourceID := ResourceID a; Ready := Ready a; 
     Retire := Retire a; Condition := Condition a; RunID := v; Owner := Owner a; 
     Repo := Repo a; ScaleSetJobID := ScaleSetJobID a; RetryProcessed := RetryProcessed a; 
     NetworkProfile := NetworkProfile a; WireGuardPublicKey := WireGuardPublicKey a; 
     WireGuardOverlayAddress := WireGuardOverlayAddress a; 
     WireGuardEndpoint := WireGuardEndpoint a; 
     WireGuardPollTokenHash := WireGuardPollTokenHash a; TerminalAt := TerminalAt a |}.
Definition set_Owner (v : string) (a : Allocation) : Allocation :=
  {| Resources := Resources a; RejectedAt := RejectedAt a; Completed := Completed a; 
     ID := ID a; Revision := Revision a; al_Phase := al_Phase a; Deadline := Deadline a; 
     Attempts := Attempts a; MaxAttempts := MaxAttempts a; al_Offering := al_Offering a; 
     Outcomes := Outcomes a; al_Catalog := al_Catalog a; 
     al_Requirements := al_Requirements a; ResourceID := ResourceID a; Ready := Ready a; 
     Retire := Retire a; Condition := Condition a; RunID := RunID a; Owner := v; 
     Repo := Repo a; ScaleSetJobID := ScaleSetJobID a; RetryProcessed := RetryProcessed a; 
     NetworkProfile := NetworkProfile a; WireGuardPublicKey := WireGuardPublicKey a; 
     WireGuardOverlayAddress := WireGuardOverlayAddress a; 
     WireGuardEndpoint := WireGuardEndpoint a; 
     WireGuardPollTokenHash := WireGuardPollTokenHash a; TerminalAt := TerminalAt a |}.
Definition set_Repo (v : string) (a : Allocation) : Allocation :=
  {| Resources := Resources a; RejectedAt := RejectedAt a; Completed := Completed a; 
     ID := ID a; Revision := Revision a; al_Phase := al_Phase a; Deadline := Deadline a; 
     Attempts := Attempts a; MaxAttempts := MaxAttempts a; al_Offering := al_Offering a; 
     Outcomes := Outcomes a; al_Catalog := al_Catalog a; 
     al_Requirements := al_Requirements a; ResourceID := ResourceID a; Ready := Ready a; 
     Retire := Retire a; Condition := Condition a; RunID := RunID a; Owner := Owner a; 
     Repo := v; ScaleSetJobID := ScaleSetJobID a; RetryProcessed := RetryProcessed a; 
     NetworkProfile := NetworkProfile a; WireGuardPublicKey := WireGuardPublicKey a; 
     WireGuardOverlayAddress := WireGuardOverlayAddress a; 
     WireGuardEndpoint := WireGuardEndpoint a; 
     WireGuardPollTokenHash := WireGuardPollTokenHash a; TerminalAt := TerminalAt a |}.
Definition set_ScaleSetJobID (v : string) (a : Allocation) : Allocation :=
  {| Resources := Resources a; RejectedAt := RejectedAt a; Completed := Completed a; 
     ID := ID a; Revision := Revision a; al_Phase := al_Phase a; Deadline := Deadline a; 
     Attempts := Attempts a; MaxAttempts := MaxAttempts a; al_Offering := al_Offering a; 
     Outcomes := Outcomes a; al_Catalog := al_Catalog a; 
     al_Requirements := al_Requirements a; ResourceID := ResourceID a; Ready := Ready a; 
     Retire := Retire a; Condition := Condition a; RunID := RunID a; Owner := Owner a; 
     Repo := Repo a; ScaleSetJobID := v; RetryProcessed := RetryProcessed a; 
     NetworkProfile := NetworkProfile a; WireGuardPublicKey := WireGuardPublicKey a; 
     WireGuardOverlayAddress := WireGuardOverlayAddress a; 
     WireGuardEndpoint := WireGuardEndpoint a; 
     WireGuardPollTokenHash := WireGuardPollTokenHash a; TerminalAt := TerminalAt a |}.
Definition set_RetryProcessed (v : bool) (a : Allocation) : Allocation :=
  {| Resources := Resources a; RejectedAt := RejectedAt a; Completed := Completed a; 
     ID := ID a; Revision := Revision a; al_Phase := al_Phase a; Deadline := Deadline a; 
     Attempts := Attempts a; MaxAttempts := MaxAttempts a; al_Offering := al_Offering a; 
     Outcomes := Outcomes a; al_Catalog := al_Catalog a; 
     al_Requirements := al_Requirements a; ResourceID := ResourceID a; Ready := Ready a; 
     Retire := Retire a; Condition := Condition a; RunID := RunID a; Owner := Owner a; 
     Repo := Repo a; ScaleSetJobID := ScaleSetJobID a; RetryProcessed := v; 
     NetworkProfile := NetworkProfile a; WireGuardPublicKey := WireGuardPublicKey a; 
     WireGuardOverlayAddress := WireGuardOverlayAddress a; 
     WireGuardEndpoint := WireGuardEndpoint a; 
     WireGuardPollTokenHash := WireGuardPollTokenHash a; TerminalAt := TerminalAt a |}.
Definition set_WireGuardPublicKey (v : list Byte.byte) (a : Allocation) : Allocation :=
  {| Resources := Resources a; RejectedAt := RejectedAt a; Completed := Completed a; 
     ID := ID a; Revision := Revision a; al_Phase := al_Phase a; Deadline := Deadline a; 
     Attempts := Attempts a; MaxAttempts := MaxAttempts a; al_Offering := al_Offering a; 
     Outcomes := Outcomes a; al_Catalog := al_Catalog a; 
     al_Requirements := al_Requirements a; ResourceID := ResourceID a; Ready := Ready a; 
     Retire := Retire a; Condition := Condition a; RunID := RunID a; Owner := Owner a; 
     Repo := Repo a; ScaleSetJobID := ScaleSetJobID a; RetryProcessed := RetryProcessed a; 
     NetworkProfile := NetworkProfile a; WireGuardPublicKey := v; 
     WireGuardOverlayAddress := WireGuardOverlayAddress a; 
     WireGuardEndpoint := WireGuardEndpoint a; 
     WireGuardPollTokenHash := WireGuardPollTokenHash a; TerminalAt := TerminalAt a |}.
Definition set_WireGuardOverlayAddress (v : string) (a : Allocation) : Allocation :=
  {| Resources := Resources a; RejectedAt := RejectedAt a; Completed := Completed a; 
     ID := ID a; Revision := Revision a; al_Phase := al_Phase a; Deadline := Deadline a; 
     Attempts := Attempts a; MaxAttempts := MaxAttempts a; al_Offering := al_Offering a; 
     Outcomes := Outcomes a; al_Catalog := al_Catalog a; 
     al_Requirements := al_Requirements a; ResourceID := ResourceID a; Ready := Ready a; 
     Retire := Retire a; Condition := Condition a; RunID := RunID a; Owner := Owner a; 
     Repo := Repo a; ScaleSetJobID := ScaleSetJobID a; RetryProcessed := RetryProcessed a; 
     NetworkProfile := NetworkProfile a; WireGuardPublicKey := WireGuardPublicKey a; 
     WireGuardOverlayAddress := v; WireGuardEndpoint := WireGuardEndpoint a; 
     WireGuardPollTokenHash := WireGuardPollTokenHash a; TerminalAt := TerminalAt a |}.
Definition set_WireGuardEndpoint (v : string) (a : Allocation) : Allocation :=
  {| Resources := Resources a; RejectedAt := RejectedAt a; Completed := Completed a; 
     ID := ID a; Revision := Revision a; al_Phase := al_Phase a; Deadline := Deadline a; 
     Attempts := Attempts a; MaxAttempts := MaxAttempts a; al_Offering := al_Offering a; 
     Outcomes := Outcomes a; al_Catalog := al_Catalog a; 
     al_Requirements := al_Requirements a; ResourceID := ResourceID a; Ready := Ready a; 
     Retire := Retire a; Condition := Condition a; RunID := RunID a; Owner := Owner a; 
     Repo := Repo a; ScaleSetJobID := ScaleSetJobID a; RetryProcessed := RetryProcessed a; 
     NetworkProfile := NetworkProfile a; WireGuardPublicKey := WireGuardPublicKey a; 
     WireGuardOverlayAddress := WireGuardOverlayAddress a; WireGuardEndpoint := v; 
     WireGuardPollTokenHash := WireGuardPollTokenHash a; TerminalAt := TerminalAt a |}.
Definition set_WireGuardPollTokenHash (v : list Byte.byte) (a : Allocation) : Allocation :=
  {| Resources := Resources a; RejectedAt := RejectedAt a; Completed := Completed a; 
     ID := ID a; Revision := Revision a; al_Phase := al_Phase a; Deadline := Deadline a; 
     Attempts := Attempts a; MaxAttempts := MaxAttempts a; al_Offering := al_Offering a; 
     Outcomes := Outcomes a; al_Catalog := al_Catalog a; 
     al_Requirements := al_Requirements a; ResourceID := ResourceID a; Ready := Ready a; 
     Retire := Retire a; Condition := Condition a; RunID := RunID a; Owner := Owner a; 
     Repo := Repo a; ScaleSetJobID := ScaleSetJobID a; RetryProcessed := RetryProcessed a; 
     NetworkProfile := NetworkProfile a; WireGuardPublicKey := WireGuardPublicKey a; 
     WireGuardOverlayAddress := WireGuardOverlayAddress a; 
     WireGuardEndpoint := WireGuardEndpoint a; WireGuardPollTokenHash := v; 
     TerminalAt := TerminalAt a |}.
Definition set_TerminalAt (v : time) (a : Allocation) : Allocation :=
  {| Resources := Resources a; RejectedAt := RejectedAt a; Completed := Completed a; 
     ID := ID a; Revision := Revision a; al_Phase := al_Phase a; Deadline := Deadline a; 
     Attempts := Attempts a; MaxAttempts := MaxAttempts a; al_Offering := al_Offering a; 
     Outcomes := Outcomes a; al_Catalog := al_Catalog a; 
     al_Requirements := al_Requirements a; ResourceID := ResourceID a; Ready := Ready a; 
     Retire := Retire a; Condition := Condition a; RunID := RunID a; Owner := Owner a; 
     Repo := Repo a; ScaleSetJobID := ScaleSetJobID a; RetryProcessed := RetryProcessed a; 
     NetworkProfile := NetworkProfile a; WireGuardPublicKey := WireGuardPublicKey a; 
     WireGuardOverlayAddress := WireGuardOverlayAddress a; 
     WireGuardEndpoint := WireGuardEndpoint a; 
     WireGuardPollTokenHash := WireGuardPollTokenHash a; TerminalAt := v |}.

(** The zero value of the Go structs. *)
Definition zero_requirements : Requirements :=
  {| req_CPU := 0; req_MemoryMiB := 0; req_Architecture := ""; req_Vendor := "";
     req_Capabilities := []; req_Providers := []; req_Regions := []; req_MaxPriceMicros := 0;
     req_AllowOnDemand := false; req_Policy := "" |}.
Definition zero_offering : Offering :=
  {| off_ID := ""; off_Provider := ""; off_Region := ""; off_Zone := ""; off_Machine := "";
     off_Image := ""; off_CPU := 0; off_MemoryMiB := 0; off_Architecture := ""; off_Vendor := "";
     off_Capabilities := []; off_Spot := false; off_PriceMicros := 0; off_Currency := "";
     off_ObservedAt := zero_time; off_GCPSkuRefs := None |}.
Definition zero_catalog : Catalog := {| Offerings := []; Complete := ∅ |}.

Definition zero_allocation : Allocation :=
  {| Resources := [];
     RejectedAt := ∅;
     Completed := false;
     ID := "";
     Revision := "";
     al_Phase := OtherPhase "";
     Deadline := zero_time;
     Attempts := 0;
     MaxAttempts := 0;
     al_Offering := zero_offering;
     Outcomes := ∅;
     al_Catalog := zero_catalog;
     al_Requirements := zero_requirements;
     ResourceID := "";
     Ready := false;
     Retire := false;
     Condition := "";
     RunID := 0;
     Owner := "";
     Repo := "";
     ScaleSetJobID := "";
     RetryProcessed := false;
     NetworkProfile := "";
     WireGuardPublicKey := [];
     WireGuardOverlayAddress := "";
     WireGuardEndpoint := "";
     WireGuardPollTokenHash := [];
     TerminalAt := zero_time |}.

(** What a provider reports of an allocation's resource. *)
Record Observation := {
  ob_Resources : list ResourceReference;
  ob_Exists : bool;
  ob_Known : bool;
  ob_Interrupted : bool;
  ob_ResourceID : string
}.

(** What a create operation returned itself. *)
Record Creation := {
  cr_ResourceID : string;
  cr_Resources : list ResourceReference;
  cr_WireGuardPublicKey : list Byte.byte;
  cr_WireGuardPollTokenHash : list Byte.byte;
  cr_WireGuardEndpoint : string
}.

Definition errConflict : error := Err "state revision conflict" [ErrConflict].
Definition errCapacity : error := Err "definitive capacity rejection" [ErrCapacity].
Definition errNoEffect : error := Err "create preparation failed without cloud effects" [ErrNoEffect].

Definition is_terminal (p : Phase) : bool :=
  match p with Deleted | TimedOut => true | _ => false end.
Definition phase_eqb (p q : Phase) : bool := bool_decide (p = q).
