(* ===== verification/Lifecycle.v ===== *)
(** * The allocation state machine
    (internal/lifecycle/lifecycle.go, [Controller.Step];
     internal/lifecycle/resources.go, [rememberResources])

    [Step] is a program over the calls of the three interfaces it uses: the
    [Store], one [Provider] and the optional [RunnerDeregistrar].  Every branch
    and early return of the source is here; the reassigned local [a] of the
    source is a fresh binder at each assignment. *)
From S2P Require Import Prelude.
From S2P Require Import Effects.
From S2P Require Import Placement.
From S2P Require Import Resources.
From S2P Require Import Allocation.

(** The calls.  A Go pair of a value and an error is a [result] where the
    value is meaningless next to an error, a pair where both are used. *)
Inductive lifecycleE : Type → Type :=
  | Load (id : string) : lifecycleE (result Allocation)
  | Save (a : Allocation) (revision : string) : lifecycleE (result Allocation)
  | Now : lifecycleE time
  | Create (provider : string) (a : Allocation) : lifecycleE (string * option error)
  | CreateWithResources (provider : string) (a : Allocation) : lifecycleE (Creation * option error)
  | Observe (provider : string) (a : Allocation) : lifecycleE (Observation * option error)
  | ReconcileCreation (provider : string) (a : Allocation) : lifecycleE (Observation * option error)
  | Delete (provider : string) (a : Allocation) : lifecycleE (option error)
  | DeregisterRunner (id : string) : lifecycleE (option error).

(** Which optional interfaces a configured provider implements. *)
Record ProviderShape := { isResourceCreator : bool; isCreationReconciler : bool }.

Record Controller := {
  Cooldowns : gmap string time;
  Providers : gmap string ProviderShape;
  Runners : bool                       (* [Runners != nil] *)
}.

Abbreviation stepM := (prog lifecycleE).

(** [return errors.New(msg)] *)
Definition fail (msg : string) : stepM (option error) := mret (Some (errors_new msg)).

Definition to_error {A} (r : result A) : option error :=
  match r with inl e => Some e | inr _ => None end.

(** The closure [save]. *)
Definition save (a : Allocation) : stepM (option error) :=
  r ← call (Save a (Revision a)); mret (to_error r).

(** [if err := p; err != nil { return err }], then [k]. *)
Definition guard (p : stepM (option error)) (k : stepM (option error)) : stepM (option error) :=
  e ← p; match e with Some err => mret (Some err) | None => k end.

Definition deregister (c : Controller) (id : string) : stepM (option error) :=
  if Runners c then call (DeregisterRunner id) else mret None.

Definition rememberResources (a : Allocation) (resources : list ResourceReference)
    : stepM (result Allocation) :=
  match MergeResources (Resources a) resources with
  | inl e => mret (inl e)
  | inr (merged, changed) =>
      if negb changed then mret (inr a)
      else call (Save (set_Resources merged a) (Revision a))
  end.

(** Persist a terminal phase: deregister first, then save. *)
Definition terminate (c : Controller) (now : time) (phase : Phase) (condition : string)
    (a : Allocation) : stepM (option error) :=
  guard (deregister c (ID a))
    (save (set_TerminalAt now (set_Condition condition (set_Phase phase a)))).

(** [e != nil || !ob.Known], with the text that goes into the condition. *)
Definition unknown_cause (fallback : string) (e : option error) (known : bool) : option string :=
  match e with
  | Some err => Some (err_text err)
  | None => if known then None else Some fallback
  end.

(** Record an uncertain observation and report it. *)
Definition report_unknown (prefix cause msg : string) (a : Allocation) : stepM (option error) :=
  guard (save (set_Condition (prefix +:+ cause) a)) (fail msg).

(** The outcomes of this allocation extended by the pools that are cooling
    down: the loop over [c.Cooldowns]. *)
Definition with_cooldowns (now : time) (cooldowns : gmap string time)
    (outcomes : gmap string Outcome) : gmap string Outcome :=
  merge (λ o until,
    match until with
    | Some t => if before now t && bool_decide (default NoOutcome o = NoOutcome)
                then Some CoolingDown else o
    | None => o
    end) outcomes cooldowns.

(** Copy the identities of a create receipt onto the record. *)
Definition record_creation (creation : Creation) (a : Allocation) : Allocation :=
  let a := if cr_ResourceID creation <>s "" then set_ResourceID (cr_ResourceID creation) a else a in
  let a := if (0 <? length (cr_WireGuardPublicKey creation))%nat
           then set_WireGuardPublicKey (cr_WireGuardPublicKey creation) a else a in
  let a := if (0 <? length (cr_WireGuardPollTokenHash creation))%nat
           then set_WireGuardPollTokenHash (cr_WireGuardPollTokenHash creation) a else a in
  if cr_WireGuardEndpoint creation <>s ""
  then set_WireGuardEndpoint (cr_WireGuardEndpoint creation) a else a.

(** [if e != nil { a.Condition = ... }] *)
Definition note_create_error (e : option error) (a : Allocation) : Allocation :=
  match e with
  | Some err => set_Condition ("CreateCommitmentUnknown: " +:+ err_text err) a
  | None => a
  end.

(** From the create response to the end of the Pending branch. *)
Definition after_create (now : time) (o : Offering) (a : Allocation)
    (creation : Creation) (e : option error) : stepM (option error) :=
  let empty := (cr_ResourceID creation =s "") && (length (cr_Resources creation) =? 0)%nat in
  if is_err e ErrNoEffect && empty then
    save (set_Condition ("CreatePreparationFailed: " +:+ default "" (err_text <$> e))
            (set_Phase Pending a))
  else if is_err e ErrCapacity && empty then
    save (set_Condition "CapacityRejected"
            (set_RejectedAt (<[off_ID o := now]> (RejectedAt a))
              (set_Outcomes (<[off_ID o := CapacityRejected]> (Outcomes a)) (set_Phase Pending a))))
  else
    let a := record_creation creation a in
    match MergeResources (Resources a) (cr_Resources creation) with
    | inl referenceError => guard (save a) (mret (Some referenceError))
    | inr (resources, _) =>
        let a := set_Resources resources a in
        if isSome e || (cr_ResourceID creation =s "") then
          let a := note_create_error e a in
          let unknown := fail ("create commitment unknown for " +:+ ID a) in
          if negb empty || (Condition a <>s "CreateCommitmentUnknown")
          then guard (save a) unknown else unknown
        else save (set_Condition "VMCreated" (set_Phase Running a))
    end.

(** [Phase == Pending] *)
Definition step_pending (c : Controller) (now : time) (expired : bool) (a : Allocation)
    : stepM (option error) :=
  if (ResourceID a <>s "") || (0 <? length (Resources a))%nat
  then fail "pending allocation retains cloud resources"
  else if Retire a || expired || (MaxAttempts a <=? Attempts a) then
    terminate c now TimedOut "LocalProvisioningTimeout" a
  else
    match Choose now (al_Requirements a) (al_Catalog a) (with_cooldowns now (Cooldowns c) (Outcomes a)) with
    | inl e => save (set_Condition (err_text e) a)
    | inr o =>
        match Providers c !! off_Provider o with
        | None => fail "provider configuration unavailable"
        | Some p =>
            r ← call (Save (set_Condition "CreateCommitmentUnknown"
                       (set_Phase Creating (set_Attempts (wrap64 (Attempts a + 1)) (set_Offering o a))))
                      (Revision a));
            match r with
            | inl err => mret (Some err)
            | inr a =>
                if isResourceCreator p then
                  '(creation, e) ← call (CreateWithResources (off_Provider o) a);
                  after_create now o a creation e
                else
                  '(rid, e) ← call (Create (off_Provider o) a);
                  after_create now o a
                    {| cr_ResourceID := rid; cr_Resources := []; cr_WireGuardPublicKey := [];
                       cr_WireGuardPollTokenHash := []; cr_WireGuardEndpoint := "" |} e
            end
        end
    end.

(** The Creating branch once the observation [ob], [e] is in. *)
Definition creating_observed (c : Controller) (now : time) (expired : bool) (a : Allocation)
    (ob : Observation) (e : option error) : stepM (option error) :=
  r ← rememberResources a (ob_Resources ob);
  match r with
  | inl err => mret (Some err)
  | inr a =>
      match unknown_cause "provider returned unknown create reconciliation" e (ob_Known ob) with
      | Some cause =>
          report_unknown "CreateReconciliationUnknown: " cause "create reconciliation unknown" a
      | None =>
          if negb (ob_Exists ob) then terminate c now Deleted "CreateConfirmedAbsent" a
          else
            let a := set_Phase Running (set_ResourceID (ob_ResourceID ob) a) in
            if Retire a || (expired && negb (Ready a))
            then save (set_Condition "LocalProvisioningTimeoutCleanupPending" (set_Phase Deleting a))
            else save a
      end
  end.

(** [Phase == Creating] *)
Definition step_creating (c : Controller) (now : time) (expired : bool) (p : ProviderShape)
    (a : Allocation) : stepM (option error) :=
  let name := off_Provider (al_Offering a) in
  if isCreationReconciler p then
    r ← call (Save a (Revision a));
    match r with
    | inl err => mret (Some err)
    | inr a =>
        '(ob, e) ← call (ReconcileCreation name a);
        creating_observed c now expired a ob e
    end
  else
    '(ob, e) ← call (Observe name a);
    creating_observed c now expired a ob e.

(** [Phase == Running] *)
Definition step_running (c : Controller) (now : time) (expired : bool) (a : Allocation)
    : stepM (option error) :=
  if Retire a || (expired && negb (Ready a))
  then save (set_Condition "CleanupPending" (set_Phase Deleting a))
  else
    '(ob, e) ← call (Observe (off_Provider (al_Offering a)) a);
    match unknown_cause "provider returned unknown resource observation" e (ob_Known ob) with
    | Some cause =>
        report_unknown "ResourceObservationUnknown: " cause "resource observation unknown" a
    | None =>
        r ← rememberResources a (ob_Resources ob);
        match r with
        | inl err => mret (Some err)
        | inr a =>
            if negb (ob_Exists ob) then
              terminate c now Deleted
                (if ob_Interrupted ob then "ResourceAbsentConfirmedInterruption"
                 else "ResourceAbsentInterruptionUnproven") a
            else mret None
        end
    end.

(** [Phase == Deleting] *)
Definition step_deleting (c : Controller) (now : time) (a : Allocation) : stepM (option error) :=
  '(ob, e) ← call (Observe (off_Provider (al_Offering a)) a);
  match unknown_cause "provider returned unknown cleanup observation" e (ob_Known ob) with
  | Some cause =>
      report_unknown "CleanupObservationUnknown: " cause "cleanup observation unknown" a
  | None =>
      r ← rememberResources a (ob_Resources ob);
      match r with
      | inl err => mret (Some err)
      | inr a =>
          if negb (ob_Exists ob) then terminate c now Deleted "CleanupConfirmed" a
          else
            e ← call (Delete (off_Provider (al_Offering a)) a);
            match e with
            | Some err => report_unknown "CleanupUnconfirmed: " (err_text err)
                            "delete not confirmed; cleanup retained" a
            | None => mret None
            end
      end
  end.

Definition invalid_allocation (a : Allocation) : bool :=
  (ID a =s "") || is_zero (Deadline a) || (MaxAttempts a <? 1) || (10 <? MaxAttempts a).

(** [Step] after the allocation is loaded and the clock read. *)
Definition step_loaded (c : Controller) (a : Allocation) (now : time) : stepM (option error) :=
  if invalid_allocation a then fail "invalid persisted allocation"
  else
    let expired := negb (before now (Deadline a)) in
    match al_Phase a with
    | Deleted | TimedOut => mret None
    | Pending => step_pending c now expired a
    | phase =>
        match Providers c !! off_Provider (al_Offering a) with
        | None => fail "provider configuration unavailable; cleanup retained"
        | Some p =>
            match phase with
            | Creating => step_creating c now expired p a
            | Running => step_running c now expired a
            | Deleting => step_deleting c now a
            | _ => fail "unknown allocation phase"
            end
        end
    end.

Definition Step (c : Controller) (id : string) : stepM (option error) :=
  r ← call (Load id);
  match r with
  | inl err => mret (Some err)
  | inr a => now ← call Now; step_loaded c a now
  end.
