(* ===== verification/LifecycleProps.v ===== *)
(** * Properties of the allocation state machine

    Statements quantify over the histories of [Step]: every sequence of calls
    and answers that the program can have with any store, provider and
    deregistrar whose answers keep to [store_contract]. *)
From S2P Require Import Prelude.
From S2P Require Import Effects.
From S2P Require Import Placement.
From S2P Require Import Resources.
From S2P Require Import Allocation.
From S2P Require Import Lifecycle.

(** ** What [Step] relies on

    Of the store: a loaded record is the one asked for, with canonical
    dependencies; a successful save returns the record that was saved, with
    canonical dependencies and a new revision.  Of the clock: it reads a real
    instant. *)
Definition store_contract : contract lifecycleE := λ X e,
  match e in lifecycleE X return X → Prop with
  | Load id => λ r, match r with inr a => ID a = id ∧ canonical (Resources a) | inl _ => True end
  | Save a _ => λ r,
      match r with
      | inr a' => ∃ rev m ch, MergeResources [] (Resources a) = inr (m, ch) ∧
                              a' = set_Revision rev (set_Resources m a)
      | inl _ => True
      end
  | Now => λ now, now ≠ zero_time
  | _ => λ _, True
  end.

(** ** Reading a history *)

Abbreviation history := (list (event lifecycleE)).

(** The record passed to a save. *)
Definition save_arg (v : event lifecycleE) : option Allocation :=
  match v with existT _ (e, _) => match e with Save a _ => Some a | _ => None end end.

(** The record a load or a successful save answered. *)
Definition record_of (v : event lifecycleE) : option Allocation :=
  match v with existT _ (e, x) =>
    (match e in lifecycleE X return X → option Allocation with
     | Load _ | Save _ _ => λ r, match r with inr a => Some a | inl _ => None end
     | _ => λ _, None
     end) x
  end.

(** The current record as the history knows it. *)
Definition current (h : history) : option Allocation :=
  foldl (λ o v, match record_of v with Some a => Some a | None => o end) None h.

Definition create_arg (v : event lifecycleE) : option Allocation :=
  match v with existT _ (e, _) =>
    match e with Create _ a | CreateWithResources _ a => Some a | _ => None end
  end.

(** The answer of a create call: the receipt is empty, and the error. *)
Definition create_answer (v : event lifecycleE) : option (bool * option error) :=
  match v with existT _ (e, x) =>
    (match e in lifecycleE X return X → option (bool * option error) with
     | Create _ _ => λ r, Some (fst r =s "", snd r)
     | CreateWithResources _ _ => λ r,
         Some ((cr_ResourceID (fst r) =s "") && (length (cr_Resources (fst r)) =? 0)%nat, snd r)
     | _ => λ _, None
     end) x
  end.

Definition is_mutation (v : event lifecycleE) : bool :=
  match v with existT _ (e, _) =>
    match e with
    | Create _ _ | CreateWithResources _ _ | ReconcileCreation _ _ | Delete _ _ => true
    | _ => false
    end
  end.

Definition is_provider_call (v : event lifecycleE) : bool :=
  is_mutation v ||
  match v with existT _ (e, _) => match e with Observe _ _ => true | _ => false end end.

(** The provider answered, without error, that the resource is known to be gone. *)
Definition absence_observed (v : event lifecycleE) : bool :=
  match v with existT _ (e, x) =>
    (match e in lifecycleE X return X → bool with
     | Observe _ _ | ReconcileCreation _ _ => λ r,
         isNone (snd r) && ob_Known (fst r) && negb (ob_Exists (fst r))
     | _ => λ _, false
     end) x
  end.

(** The registration named [id] was confirmed gone. *)
Definition deregistered (id : string) (v : event lifecycleE) : bool :=
  match v with existT _ (e, x) =>
    (match e in lifecycleE X return X → bool with
     | DeregisterRunner i => λ r, (i =s id) && isNone r
     | _ => λ _, false
     end) x
  end.

(** ** Exploring the branches of [Step] *)

Lemma contract_save a rev a' :
  store_contract _ (Save a rev) (inr a') → canonical (Resources a) →
  ∃ rev', a' = set_Revision rev' a.
Proof.
  simpl. intros (rev' & m & ch & Hm & ->) Hc. unfold canonical in Hc.
  rewrite Hm in Hc. injection Hc as -> _. exists rev'. by destruct a.
Qed.

Ltac step_unfold :=
  unfold Step, step_loaded, step_pending, step_creating, step_running, step_deleting,
    creating_observed, after_create, terminate, report_unknown, rememberResources, guard, save,
    deregister, fail, to_error.

(** A create receipt touches only identities, an error only the condition. *)
Section record_creation.
Context (cr : Creation) (e : option error) (a : Allocation).
Ltac creation_case := unfold record_creation, note_create_error; repeat case_match; reflexivity.

Lemma record_creation_Phase : al_Phase (record_creation cr a) = al_Phase a.
Proof. creation_case. Qed.
Lemma record_creation_ID : ID (record_creation cr a) = ID a.
Proof. creation_case. Qed.
Lemma record_creation_Resources : Resources (record_creation cr a) = Resources a.
Proof. creation_case. Qed.
Lemma record_creation_Revision : Revision (record_creation cr a) = Revision a.
Proof. creation_case. Qed.
Lemma record_creation_Attempts : Attempts (record_creation cr a) = Attempts a.
Proof. creation_case. Qed.
Lemma record_creation_MaxAttempts : MaxAttempts (record_creation cr a) = MaxAttempts a.
Proof. creation_case. Qed.
Lemma record_creation_TerminalAt : TerminalAt (record_creation cr a) = TerminalAt a.
Proof. creation_case. Qed.
Lemma note_create_error_Phase : al_Phase (note_create_error e a) = al_Phase a.
Proof. creation_case. Qed.
Lemma note_create_error_ID : ID (note_create_error e a) = ID a.
Proof. creation_case. Qed.
Lemma note_create_error_Resources : Resources (note_create_error e a) = Resources a.
Proof. creation_case. Qed.
Lemma note_create_error_Revision : Revision (note_create_error e a) = Revision a.
Proof. creation_case. Qed.
Lemma note_create_error_Attempts : Attempts (note_create_error e a) = Attempts a.
Proof. creation_case. Qed.
Lemma note_create_error_MaxAttempts : MaxAttempts (note_create_error e a) = MaxAttempts a.
Proof. creation_case. Qed.
Lemma note_create_error_TerminalAt : TerminalAt (note_create_error e a) = TerminalAt a.
Proof. creation_case. Qed.
Lemma note_create_error_ResourceID : ResourceID (note_create_error e a) = ResourceID a.
Proof. creation_case. Qed.
Lemma record_creation_Deadline : Deadline (record_creation cr a) = Deadline a.
Proof. creation_case. Qed.
Lemma note_create_error_Deadline : Deadline (note_create_error e a) = Deadline a.
Proof. creation_case. Qed.
End record_creation.

Create Rewrite HintDb lifecycle_rw.
#[export] Hint Rewrite record_creation_Deadline note_create_error_Deadline
  record_creation_Phase
  record_creation_ID
  record_creation_Resources
  record_creation_Revision
  record_creation_Attempts
  record_creation_MaxAttempts
  record_creation_TerminalAt
  note_create_error_Phase
  note_create_error_ID
  note_create_error_Resources
  note_create_error_Revision
  note_create_error_Attempts
  note_create_error_MaxAttempts
  note_create_error_TerminalAt
  note_create_error_ResourceID : lifecycle_rw.

Lemma unknown_cause_none f e k : unknown_cause f e k = None ↔ e = None ∧ k = true.
Proof. destruct e, k; simpl; naive_solver. Qed.

(** Replace the answers of successful saves by what the contract says of them. *)
Ltac use_contract :=
  repeat match goal with
  | H : store_contract _ (Save _ _) (inr ?a) |- _ => destruct H as (? & ? & ? & ? & ->)
  | H : store_contract _ (Load _) (inr _) |- _ => destruct H as [? ?]
  | H : store_contract _ Now _ |- _ => simpl in H
  | H : unknown_cause _ _ _ = None |- _ => apply unknown_cause_none in H as [-> ?]
  | H : store_contract _ _ _ |- _ => clear H
  end.
Ltac lifecycle_simpl := repeat (progress (autorewrite with lifecycle_rw; simpl)).
Ltac use_guards :=
  repeat match goal with
  | H : ?b = true |- context [?b] => rewrite H
  | H : ?b = false |- context [?b] => rewrite H
  end; simpl.
Ltac use_phase :=
  repeat match goal with H : al_Phase ?a = _ |- context [al_Phase ?a] => rewrite H end.

Ltac reflect_guards :=
  unfold invalid_allocation, before in *;
  repeat match goal with
  | H : _ || _ = _ |- _ => reflect in H
  | H : _ && _ = _ |- _ => reflect in H
  | H : negb _ = _ |- _ => reflect in H
  end.

(** Prove an [at_every] property of all histories of [Step]. *)
Ltac step_histories tac :=
  apply wp_ensures; step_unfold; wp_explore; use_contract;
  apply at_every_compute; simpl; split_and!; tac.

(** What a create call has behind it. *)
Definition intent_committed (id : string) (pre : history) (a : Allocation) : Prop :=
  ∃ loaded now a0 outcomes,
    pre = [ev (Load id) (inr loaded); ev Now now; ev (Save a0 (Revision loaded)) (inr a)] ∧
    al_Phase loaded = Pending ∧ ResourceID loaded = "" ∧ Resources loaded = [] ∧
    Retire loaded = false ∧ now < Deadline loaded ∧ Attempts loaded < MaxAttempts loaded ≤ 10 ∧
    Choose now (al_Requirements loaded) (al_Catalog loaded) outcomes = inr (al_Offering a0) ∧
    a0 = set_Condition "CreateCommitmentUnknown"
           (set_Phase Creating (set_Attempts (wrap64 (Attempts loaded + 1))
             (set_Offering (al_Offering a0) loaded))).

Lemma step_intent c id :
  ensures no_contract (Step c id) (λ h _, at_every (λ pre v, ∀ a, create_arg v = Some a →
    intent_committed id pre a) h).
Proof.
  step_histories ltac:(try done; intros ? [= <-]).
  all: reflect_guards; do 4 eexists; split_and!; done || tauto || lia.
Qed.

(** C5: intent is committed before any cloud effect.  Every create call of a
    step is issued immediately after a successful save of the same record in
    phase Creating, with the attempt counted and a pool chosen by placement;
    the record passed to the provider is the one the store returned.  The
    allocation was Pending, not retired, before its deadline and below its
    attempt limit, and held no cloud resource. *)
Theorem step_intent_first c id :
  ensures no_contract (Step c id) (λ h _, at_every (λ pre v, ∀ a, create_arg v = Some a →
    ∃ loaded now a0 outcomes,
      pre = [ev (Load id) (inr loaded); ev Now now; ev (Save a0 (Revision loaded)) (inr a)] ∧
      al_Phase loaded = Pending ∧ ResourceID loaded = "" ∧ Resources loaded = [] ∧
      Retire loaded = false ∧ now < Deadline loaded ∧ Attempts loaded < MaxAttempts loaded ≤ 10 ∧
      Choose now (al_Requirements loaded) (al_Catalog loaded) outcomes = inr (al_Offering a0) ∧
      a0 = set_Condition "CreateCommitmentUnknown"
             (set_Phase Creating (set_Attempts (wrap64 (Attempts loaded + 1))
               (set_Offering (al_Offering a0) loaded)))) h).
Proof. apply step_intent. Qed.

(** ** The phase graph *)

(** The transitions of a recorded phase; a record may also be saved again in
    its phase. *)
Inductive phase_edge : Phase → Phase → Prop :=
  | edge_same p : is_terminal p = false → phase_edge p p
  | edge_commit : phase_edge Pending Creating
  | edge_expire : phase_edge Pending TimedOut
  | edge_no_effect : phase_edge Creating Pending
  | edge_created : phase_edge Creating Running
  | edge_created_late : phase_edge Creating Deleting
  | edge_never_existed : phase_edge Creating Deleted
  | edge_retire : phase_edge Running Deleting
  | edge_vanished : phase_edge Running Deleted
  | edge_cleaned : phase_edge Deleting Deleted.

Create HintDb lifecycle.
#[export] Hint Constructors phase_edge : lifecycle.

(** A step only follows the phase graph.  Every record a step saves has a
    phase that is a successor, in the phase graph, of the phase the store last
    held; so nothing is ever saved over a terminal record, Deleting is left
    only for Deleted, and Pending is re-entered only from Creating. *)
Theorem step_phase_graph c id :
  ensures store_contract (Step c id) (λ h _, at_every (λ pre v, ∀ a, save_arg v = Some a →
    ∃ a0, current pre = Some a0 ∧ ID a = ID a0 ∧ phase_edge (al_Phase a0) (al_Phase a)) h).
Proof.
  step_histories ltac:(try done; intros ? [= <-]).
  all: unfold current; simpl; eexists; split; [reflexivity|]; simpl.
  all: lifecycle_simpl; use_phase; split; auto with lifecycle.
Qed.

(** Terminal records are justified.  A record saved as Deleted follows, in
    the same step, an error-free provider answer that the resource is known to
    be absent; a record saved as TimedOut held no cloud resource; both carry the
    step's instant as their terminal time, and when a deregistrar is configured
    the runner registration was confirmed gone just before the save. *)
Theorem step_terminal_justified c id :
  ensures store_contract (Step c id) (λ h _, at_every (λ pre v, ∀ a,
    save_arg v = Some a → is_terminal (al_Phase a) = true →
    (al_Phase a = Deleted → existsb absence_observed pre = true) ∧
    (al_Phase a = TimedOut → ResourceID a = "" ∧ Resources a = []) ∧
    (∃ now, ev Now now ∈ pre ∧ TerminalAt a = now) ∧
    (Runners c = true → existsb (deregistered (ID a)) pre = true)) h).
Proof.
  step_histories ltac:(try done; intros ? [= <-]; lifecycle_simpl; use_phase; try done).
  all: intros _; use_guards; split_and!; intros; try done.
  all: first [ by eexists; split; [rewrite list_elem_of_In; simpl; tauto|]
             | by rewrite String.eqb_refl
             | by reflect_guards ].
Qed.
