(* ===== verification/LifecycleSafety.v ===== *)
(** * Safety of one step: obligations, ambiguity, invariant

    Continues LifecycleProps.v: what a step may do to the durable record. *)
From S2P Require Import Prelude.
From S2P Require Import Effects.
From S2P Require Import Placement.
From S2P Require Import Resources.
From S2P Require Import Allocation.
From S2P Require Import Lifecycle.
From S2P Require Import LifecycleProps.

Lemma merge_nil : MergeResources [] [] = inr ([], false).
Proof. vm_compute. reflexivity. Qed.

(** What a save may do to the dependencies. *)
Definition keeps (old new : list ResourceReference) : Prop :=
  (∀ r, r ∈ old → r ∈ new) ∧ canonical new.

Lemma keeps_refl l : canonical l → keeps l l.
Proof. by split. Qed.
Lemma keeps_merge current observed m changed :
  MergeResources current observed = inr (m, changed) → keeps current m.
Proof. split; [intros r; by eapply merge_retains|by eapply merge_canonical]. Qed.
#[export] Hint Resolve keeps_refl keeps_merge merge_canonical : lifecycle.

Ltac simpl_merges :=
  repeat match goal with
  | H : MergeResources _ _ = inr _ |- _ => progress (autorewrite with lifecycle_rw in H; simpl in H)
  end.

(** No recorded dependency is dropped.  Every record a step saves retains
    all dependencies of the record the store last held, in canonical order. *)
Theorem step_retains_resources c id :
  ensures store_contract (Step c id) (λ h _, at_every (λ pre v, ∀ a a0,
    save_arg v = Some a → current pre = Some a0 →
    keeps (Resources a0) (Resources a)) h).
Proof.
  step_histories ltac:(try done; intros ? ? [= <-]; unfold current; simpl; intros [= <-];
    lifecycle_simpl).
  all: simpl_merges; eauto with lifecycle.
Qed.

(** C6: an ambiguous create is never retried.  After a create call the record
    returns to Pending only when the provider answered with an empty receipt
    and one of the two definitive errors (preparation failed before any cloud
    request, or capacity rejected); after any other answer every record the
    step saves stays Creating, or is Running when the create succeeded. *)
Theorem step_no_blind_retry c id :
  ensures store_contract (Step c id) (λ h _, at_every (λ pre v, ∀ a w empty e,
    save_arg v = Some a → w ∈ pre → create_answer w = Some (empty, e) →
    (al_Phase a = Pending → empty = true ∧ (is_err e ErrNoEffect || is_err e ErrCapacity) = true) ∧
    (al_Phase a = Running → e = None) ∧
    (al_Phase a = Pending ∨ al_Phase a = Creating ∨ al_Phase a = Running)) h).
Proof.
  step_histories ltac:(try done; intros ? w ?? [= <-]; lifecycle_simpl; use_phase;
    rewrite !elem_of_cons, elem_of_nil).
  all: intros Hw Hans; repeat destruct Hw as [->|Hw]; try done; simpl in Hans; simplify_eq Hans.
  all: intros <- <-; reflect_guards; use_guards; split_and!; intros; try done; try tauto.
  all: reflect; tauto.
Qed.

(** At most one provider operation with effects per step.  A step makes at
    most one create, delete or creation-recovery call, and at most two provider
    calls in all; two are made only for a Deleting allocation, an observation
    followed by the delete. *)
Theorem step_provider_calls c id :
  ensures no_contract (Step c id) (λ h _,
    (length (List.filter is_mutation h) ≤ 1)%nat ∧
    ((length (List.filter is_provider_call h) ≤ 1)%nat ∨
     ∃ loaded o d, ev (Load id) (inr loaded) ∈ h ∧ al_Phase loaded = Deleting ∧
       List.filter is_provider_call h =
         [ev (Observe (off_Provider (al_Offering loaded)) loaded) o; d] ∧
       is_mutation d = true)).
Proof.
  apply wp_ensures; step_unfold; wp_explore; simpl; (split; [lia|]); try (left; lia).
  all: right; do 3 eexists; split_and!; [|eassumption|reflexivity|reflexivity].
  all: rewrite list_elem_of_In; simpl; tauto.
Qed.

(** ** The invariant of a durable record *)

Definition record_ok (a : Allocation) : Prop :=
  canonical (Resources a) ∧
  (al_Phase a = Pending ∨ al_Phase a = TimedOut → ResourceID a = "" ∧ Resources a = []) ∧
  0 ≤ Attempts a ≤ MaxAttempts a ∧ 1 ≤ MaxAttempts a ≤ 10 ∧
  ID a ≠ "" ∧ Deadline a ≠ zero_time ∧
  (is_terminal (al_Phase a) = true ↔ TerminalAt a ≠ zero_time).

(** A Pending record holds nothing, so neither does its saved copy. *)
Ltac pending_empty :=
  repeat match goal with
  | H : (ResourceID _ <>s "") || _ = false |- _ => reflect in H; destruct H as [? ?]
  | H : MergeResources [] (Resources ?a) = inr _, Hr : Resources ?a = [] |- _ =>
      rewrite Hr, merge_nil in H; injection H as <- <-
  end.

Lemma step_keeps_record c id :
  ensures store_contract (Step c id) (λ h _, at_every (λ pre v, ∀ a a0,
    save_arg v = Some a → current pre = Some a0 → record_ok a0 → record_ok a) h).
Proof.
  step_histories ltac:(try done; intros ? ? [= <-]; unfold current; simpl; intros [= <-]).
  all: unfold record_ok; lifecycle_simpl; use_phase; intros Hok; destruct_and! Hok.
  all: simpl_merges; pending_empty; simpl in *; split_and!; try done;
    eauto 2 with lifecycle; try tauto.
  all: first [ by intros [|] | by reflect_guards; rewrite wrap64_id by (unfold in_int64, min_int64, max_int64; lia); lia ].
Qed.

(** A step preserves the record invariant: canonical dependencies, no
    cloud resource while Pending or after TimedOut, between zero and MaxAttempts
    attempts, and a terminal time exactly on terminal records. *)
Theorem step_preserves_record c id :
  ensures store_contract (Step c id) (λ h _, at_every (λ pre v, ∀ a a0,
    save_arg v = Some a → current pre = Some a0 → record_ok a0 → record_ok a) h).
Proof. apply step_keeps_record. Qed.

(** ** Saves and attempts *)

Definition save_revision (v : event lifecycleE) : option string :=
  match v with existT _ (e, _) => match e with Save _ rev => Some rev | _ => None end end.

(** The history begins with a load and the commit of a create: a successful
    save that takes [id] from Pending to Creating. *)
Definition committed (id : string) (h : history) : bool :=
  match h with
  | v1 :: v2 :: v3 :: _ =>
      match current [v1; v2], save_arg v3, record_of v3 with
      | Some loaded, Some a, Some _ =>
          (ID a =s id) && phase_eqb (al_Phase loaded) Pending && phase_eqb (al_Phase a) Creating
      | _, _, _ => false
      end
  | _ => false
  end.

Lemma committed_snoc id h v :
  committed id (h ++ [v]) = committed id h ∨
  (committed id h = false ∧ length h = 2%nat ∧ ∃ loaded a a',
    current h = Some loaded ∧ save_arg v = Some a ∧ record_of v = Some a' ∧ ID a = id ∧
    al_Phase loaded = Pending ∧ al_Phase a = Creating).
Proof.
  destruct h as [|v1 [|v2 [|v3 h]]]; [by left..| |by left]. simpl.
  destruct (current [v1; v2]) as [l|]; [|by left].
  destruct (save_arg v) as [a|]; [|by left]. destruct (record_of v) as [a'|]; [|by left].
  destruct (String.eqb_spec (ID a) id); [|by left].
  destruct (al_Phase l) eqn:?, (al_Phase a) eqn:?; simpl; try by left.
  right. split_and!; try done. by exists l, a, a'.
Qed.

(** Every save is a compare-and-swap on the record the step holds; it counts an
    attempt exactly when it commits a create. *)
Definition counted (pre : history) (v : event lifecycleE) : Prop :=
  ∀ a, save_arg v = Some a → ∃ b,
    current pre = Some b ∧ save_revision v = Some (Revision b) ∧ ID a = ID b ∧
    if (length pre =? 2)%nat && phase_eqb (al_Phase b) Pending && phase_eqb (al_Phase a) Creating
    then Attempts a = wrap64 (Attempts b + 1) ∧ Attempts b < MaxAttempts b ≤ 10
    else Attempts a = Attempts b.

Lemma step_counted c id :
  ensures store_contract (Step c id) (λ h _, at_every counted h).
Proof.
  unfold counted. step_histories ltac:(try done; intros ? [= <-]).
  all: unfold current; simpl; eexists; split; [reflexivity|]; simpl.
  all: lifecycle_simpl; use_phase; simpl; split_and!; try done.
  all: reflect_guards; destruct_and?; lia.
Qed.
