(* ===== verification/LifecycleProgress.v ===== *)
(** * Progress of the lifecycle

    [Step] makes progress: against a store that accepts its saves and a provider
    that answers and deletes, a retired allocation reaches a terminal phase
    after a bounded number of steps. *)
From S2P Require Import Prelude.
From S2P Require Import Effects.
From S2P Require Import Placement.
From S2P Require Import Resources.
From S2P Require Import Allocation.
From S2P Require Import Lifecycle.
From S2P Require Import LifecycleProps.

(** ** Runs *)

Section runs.
Context {E : Type → Type} {W : Type} (H : ∀ X, E X → W → W * X).

Definition runs {R} (p : prog E R) (w : W) (Q : W → R → Prop) : Prop := Q (fst (run H p w)) (snd (run H p w)).

Lemma runs_ret {R} (r : R) w (Q : W → R → Prop) : Q w r → runs (mret r) w Q.
Proof. done. Qed.

Lemma runs_bind {R S} (p : prog E R) (f : R → prog E S) w (Q : W → S → Prop) :
  runs p w (λ w' r, runs (f r) w' Q) → runs (p ≫= f) w Q.
Proof. unfold runs. rewrite run_bind. by destruct (run H p w). Qed.

Lemma runs_call {X} (e : E X) w w' x (Q : W → X → Prop) : H X e w = (w', x) → Q w' x → runs (call e) w Q.
Proof. unfold runs. cbn. by intros ->. Qed.

Lemma runs_call_bind {X R} (e : E X) (f : X → prog E R) w w' x (Q : W → R → Prop) :
  H X e w = (w', x) → runs (f x) w' Q → runs (call e ≫= f) w Q.
Proof. intros He Hf. apply runs_bind. by eapply runs_call. Qed.

Lemma runs_mono {R} (p : prog E R) w (Q Q' : W → R → Prop) : runs p w Q → (∀ w r, Q w r → Q' w r) → runs p w Q'.
Proof. unfold runs. auto. Qed.
End runs.

(** ** A cooperative environment

    Of a world, the record it stores and how many deletions are left: the store
    accepts a save at the current revision, the clock and the runner service
    answer, an observation is certain and mergeable and says "exists" while
    something is left, and a delete removes something. *)
Record Observed (a : Allocation) (left : nat) (ob : Observation) : Prop := {
  obd_known : ob_Known ob = true;
  obd_exists : ob_Exists ob = (0 <? left)%nat;
  obd_merge : ∃ m ch, MergeResources (Resources a) (ob_Resources ob) = inr (m, ch)
}.

Class Cooperative {W} (H : ∀ X, lifecycleE X → W → W * X) (rec : W → Allocation) (left : W → nat) : Prop := {
  coop_load w : H _ (Load (ID (rec w))) w = (w, inr (rec w));
  coop_now w : ∃ now, H _ Now w = (w, now);
  coop_save w a m ch : MergeResources [] (Resources a) = inr (m, ch) → ∃ w' rev,
    H _ (Save a (Revision (rec w))) w = (w', inr (set_Revision rev (set_Resources m a))) ∧
    rec w' = set_Revision rev (set_Resources m a) ∧ left w' = left w;
  coop_observe w provider : canonical (Resources (rec w)) → ∃ ob, H _ (Observe provider (rec w)) w = (w, (ob, None)) ∧ Observed (rec w) (left w) ob;
  coop_reconcile w provider : canonical (Resources (rec w)) → ∃ ob,
    H _ (ReconcileCreation provider (rec w)) w = (w, (ob, None)) ∧ Observed (rec w) (left w) ob;
  coop_delete w provider : ∃ w', H _ (Delete provider (rec w)) w = (w', None) ∧ rec w' = rec w ∧
    left w' = Nat.pred (left w);
  coop_deregister w id : H _ (DeregisterRunner id) w = (w, None)
}.

Section progress.
Context {W} (H : ∀ X, lifecycleE X → W → W * X) (rec : W → Allocation) (left : W → nat) `{!Cooperative H rec left}.
Context (c : Controller) (id : string).

(** A well-formed record of a retired allocation whose provider is configured. *)
Record retired_record (a : Allocation) : Prop := {
  ret_id : ID a = id;
  ret_valid : invalid_allocation a = false;
  ret_canonical : canonical (Resources a);
  ret_retire : Retire a = true;
  ret_phase s : al_Phase a ≠ OtherPhase s;
  ret_provider : al_Phase a ≠ Pending → is_terminal (al_Phase a) = false → is_Some (Providers c !! off_Provider (al_Offering a));
  ret_pending : al_Phase a = Pending → ResourceID a = "" ∧ Resources a = []
}.

(** How many steps are left. *)
Definition steps_left (w : W) : nat :=
  match al_Phase (rec w) with
  | Deleted | TimedOut | OtherPhase _ => 0
  | Pending => 1
  | Deleting => 1 + left w
  | Creating | Running => 2 + left w
  end.

Definition next (w : W) : W := fst (run H (Step c id) w).

(** ** Calls *)

(** What a step keeps of the record it works on. *)
Record kept (a a' : Allocation) : Prop := {
  kept_id : ID a' = ID a;
  kept_valid : invalid_allocation a' = invalid_allocation a;
  kept_canonical : canonical (Resources a');
  kept_retire : Retire a' = Retire a;
  kept_offering : al_Offering a' = al_Offering a
}.

Lemma kept_trans a1 a2 a3 : kept a1 a2 → kept a2 a3 → kept a1 a3.
Proof. intros [] []. split; congruence. Qed.

Lemma runs_save w a (Q : W → option error → Prop) :
  Revision a = Revision (rec w) → canonical (Resources a) →
  (∀ w', kept a (rec w') → al_Phase (rec w') = al_Phase a → left w' = left w → Q w' None) → runs H (save a) w Q.
Proof.
  intros Hrev Hc HQ. unfold save. rewrite Hrev. destruct (coop_save w a _ _ Hc) as (w' & rev & Hs & Hrec & Hl).
  eapply runs_call_bind; [exact Hs|]. apply runs_ret. apply HQ; [|by rewrite Hrec|done]. rewrite Hrec. by split.
Qed.

Lemma runs_terminate w now phase condition a (Q : W → option error → Prop) :
  Revision a = Revision (rec w) → canonical (Resources a) →
  (∀ w', kept a (rec w') → al_Phase (rec w') = phase → left w' = left w → Q w' None) → runs H (terminate c now phase condition a) w Q.
Proof.
  intros Hrev Hc HQ. unfold terminate, guard. apply runs_bind.
  assert (∀ Q : W → option error → Prop, Q w None → runs H (deregister c (ID a)) w Q) as Hd.
  { intros Q' HQ'. unfold deregister. destruct (Runners c); [|by apply runs_ret].
    eapply runs_call; [apply coop_deregister|done]. }
  apply Hd. apply runs_save; [done|done|]. intros w' [] Hp Hl. apply HQ; [by split|done|done].
Qed.

Lemma runs_remember w ob (Q : W → result Allocation → Prop) :
  canonical (Resources (rec w)) → Observed (rec w) (left w) ob →
  (∀ w', kept (rec w) (rec w') → al_Phase (rec w') = al_Phase (rec w) → left w' = left w → Q w' (inr (rec w'))) →
  runs H (rememberResources (rec w) (ob_Resources ob)) w Q.
Proof.
  intros Hc [_ _ (m & ch & Hm)] HQ. unfold rememberResources. rewrite Hm. destruct ch; cbn [negb].
  - pose proof (merge_canonical _ _ _ _ Hm) as Hcm.
    destruct (coop_save w (set_Resources m (rec w)) _ _ Hcm) as (w' & rev & Hs & Hrec & Hl).
    eapply runs_call; [exact Hs|]. rewrite <- Hrec. apply HQ; [|by rewrite Hrec|done]. rewrite Hrec. by split.
  - apply runs_ret, HQ; [by split|done|done].
Qed.

(** ** The phases *)

(** A record of something in the cloud, Deleted only when nothing is left. *)
Definition tracked (w : W) : Prop :=
  al_Phase (rec w) ≠ Pending ∧ al_Phase (rec w) ≠ TimedOut ∧ (al_Phase (rec w) = Deleted → left w = 0%nat).

(** One step nearer to the end, and no error. *)
Definition advanced (w w' : W) (r : option error) : Prop :=
  retired_record (rec w') ∧ (steps_left w' < steps_left w)%nat ∧ r = None ∧ (tracked w → tracked w').

Lemma advance w w' :
  retired_record (rec w) → kept (rec w) (rec w') → al_Phase (rec w') ≠ Pending → (∀ s, al_Phase (rec w') ≠ OtherPhase s) →
  (is_terminal (al_Phase (rec w')) = true ∨ al_Phase (rec w) ≠ Pending ∧ is_terminal (al_Phase (rec w)) = false) →
  (steps_left w' < steps_left w)%nat → (tracked w → tracked w') → advanced w w' None.
Proof.
  intros [Hid Hv Hc Hr Hph Hp _] [Kid Kv Kc Kr Ko] Hnp Hno Ht Hlt Htr. split; [|done]. split; try congruence.
  - intros _ Hterm. rewrite Ko. destruct Ht as [Ht|[??]]; [congruence|]. by apply Hp.
Qed.

Ltac steps := unfold steps_left; repeat match goal with H : al_Phase _ = _ |- _ => rewrite H end; cbn; lia.
Ltac track := unfold tracked; repeat match goal with H : al_Phase _ = _ |- _ => rewrite H end; naive_solver lia.

Lemma runs_pending w now expired :
  retired_record (rec w) → al_Phase (rec w) = Pending → runs H (step_pending c now expired (rec w)) w (advanced w).
Proof.
  intros Hw Hph. unfold step_pending. destruct (ret_pending _ Hw Hph) as [-> ->]. cbn [String.eqb negb orb length Nat.ltb Nat.leb].
  rewrite (ret_retire _ Hw). cbn [orb]. apply runs_terminate; [done|apply Hw|]. intros w' Hk Hp _.
  apply advance; try done; rewrite ?Hp; try done; [by left|steps|track].
Qed.

Lemma runs_running w now expired :
  retired_record (rec w) → al_Phase (rec w) = Running → runs H (step_running c now expired (rec w)) w (advanced w).
Proof.
  intros Hw Hph. unfold step_running. rewrite (ret_retire _ Hw). cbn [orb]. apply runs_save; [done|apply Hw|].
  intros w' [] Hp Hl. cbn in *. apply advance; rewrite ?Hp; try done; [by right; rewrite Hph|steps|track].
Qed.

Lemma runs_deleting w now :
  retired_record (rec w) → al_Phase (rec w) = Deleting → runs H (step_deleting c now (rec w)) w (advanced w).
Proof.
  intros Hw Hph. unfold step_deleting.
  destruct (coop_observe w (off_Provider (al_Offering (rec w))) (ret_canonical _ Hw)) as (ob & Hob & Hd).
  eapply runs_call_bind; [exact Hob|]. cbn beta iota. cbn [unknown_cause]. rewrite (obd_known _ _ _ Hd).
  apply runs_bind, runs_remember; [apply Hw|done|]. intros w1 Hk1 Hp1 Hl1. cbn beta iota. rewrite (obd_exists _ _ _ Hd).
  destruct (Nat.ltb_spec 0 (left w)) as [Hlt|Hz]; cbn [negb].
  - destruct (coop_delete w1 (off_Provider (al_Offering (rec w1)))) as (w2 & Hdel & Hr2 & Hl2).
    eapply runs_call_bind; [exact Hdel|]. apply runs_ret. apply advance; rewrite ?Hr2; try done.
    + congruence.
    + intros s. congruence.
    + right. by rewrite Hph.
    + unfold steps_left. rewrite Hr2, Hp1, Hph, Hl2, Hl1. lia.
    + unfold tracked. rewrite Hr2, Hp1, Hph. naive_solver.
  - apply runs_terminate; [done|apply Hk1|]. intros w2 Hk2 Hp2 Hl2. apply advance; rewrite ?Hp2; try done.
    + by eapply kept_trans.
    + by left.
    + steps.
    + track.
Qed.

Lemma runs_creating_observed w now expired ob :
  retired_record (rec w) → al_Phase (rec w) = Creating → Observed (rec w) (left w) ob →
  runs H (creating_observed c now expired (rec w) ob None) w (advanced w).
Proof.
  intros Hw Hph Hd. unfold creating_observed. apply runs_bind, runs_remember; [apply Hw|done|].
  intros w1 Hk1 Hp1 Hl1. cbn [unknown_cause]. rewrite (obd_known _ _ _ Hd), (obd_exists _ _ _ Hd).
  pose proof (ret_retire _ Hw) as Hret.
  destruct (Nat.ltb_spec 0 (left w)) as [Hlt|Hz]; cbn [negb].
  - cbn [Retire set_Phase set_ResourceID]. rewrite (kept_retire _ _ Hk1), Hret. cbn [orb].
    apply runs_save; [done|apply Hk1|]. intros w2 Hk2 Hp2 Hl2. cbn [al_Phase set_Condition set_Phase] in Hp2.
    apply advance; rewrite ?Hp2; try done.
    + eapply kept_trans; [|exact Hk2]. by destruct Hk1; split.
    + right. by rewrite Hph.
    + steps.
    + track.
  - apply runs_terminate; [done|apply Hk1|]. intros w2 Hk2 Hp2 Hl2. apply advance; rewrite ?Hp2; try done.
    + by eapply kept_trans.
    + by left.
    + steps.
    + track.
Qed.

Lemma retired_kept a a' : retired_record a → kept a a' → al_Phase a' = al_Phase a → al_Phase a ≠ Pending → retired_record a'.
Proof. intros [] [] Hp Hn. split; rewrite ?Hp in *; try congruence. by rewrite kept_offering0. Qed.

Lemma runs_creating w now expired p :
  retired_record (rec w) → al_Phase (rec w) = Creating → runs H (step_creating c now expired p (rec w)) w (advanced w).
Proof.
  intros Hw Hph. unfold step_creating. cbv zeta. destruct (isCreationReconciler p).
  - destruct (coop_save w (rec w) _ _ (ret_canonical _ Hw)) as (w1 & rev & Hs & Hrec & Hl).
    eapply runs_call_bind; [exact Hs|]. cbn beta iota. rewrite <- Hrec.
    assert (retired_record (rec w1)) as Hw1.
    { apply (retired_kept (rec w)); [done| |by rewrite Hrec|by rewrite Hph]. rewrite Hrec. destruct Hw. by split. }
    assert (al_Phase (rec w1) = Creating) as Hph1 by by rewrite Hrec.
    destruct (coop_reconcile w1 (off_Provider (al_Offering (rec w))) (ret_canonical _ Hw1)) as (ob & Hob & Hd).
    eapply runs_call_bind; [exact Hob|]. cbn beta iota. eapply runs_mono; [by apply runs_creating_observed|].
    intros w2 r (? & Hlt & ? & Ht). split_and!; try done.
    + revert Hlt. unfold steps_left at 2 4. by rewrite Hph, Hph1, Hl.
    + intros _. apply Ht. unfold tracked. rewrite Hph1. naive_solver.
  - destruct (coop_observe w (off_Provider (al_Offering (rec w))) (ret_canonical _ Hw)) as (ob & Hob & Hd).
    eapply runs_call_bind; [exact Hob|]. cbn beta iota. by apply runs_creating_observed.
Qed.

Lemma step_advances w :
  retired_record (rec w) → is_terminal (al_Phase (rec w)) = false → runs H (Step c id) w (advanced w).
Proof.
  intros Hw Ht. unfold Step. rewrite <- (ret_id _ Hw). eapply runs_call_bind; [apply coop_load|]. cbn beta iota.
  destruct (coop_now w) as [now Hnow]. eapply runs_call_bind; [exact Hnow|]. unfold step_loaded.
  rewrite (ret_valid _ Hw). cbv zeta. pose proof (ret_provider _ Hw) as Hp. pose proof (ret_phase _ Hw) as Hph.
  destruct (al_Phase (rec w)) eqn:Hphase; try done; try (by apply runs_pending); try (by destruct (Hph s));
    destruct (Hp ltac:(done) eq_refl) as [p ->].
  - by apply runs_creating.
  - by apply runs_running.
  - by apply runs_deleting.
Qed.

(** A terminal record is left alone. *)
Lemma step_rests w : retired_record (rec w) → is_terminal (al_Phase (rec w)) = true → runs H (Step c id) w (λ w' r, w' = w ∧ r = None).
Proof.
  intros Hw Ht. unfold Step. rewrite <- (ret_id _ Hw). eapply runs_call_bind; [apply coop_load|]. cbn beta iota.
  destruct (coop_now w) as [now Hnow]. eapply runs_call_bind; [exact Hnow|]. unfold step_loaded.
  rewrite (ret_valid _ Hw). cbv zeta. by destruct (al_Phase (rec w)).
Qed.

Lemma terminal_steps w : retired_record (rec w) → steps_left w = 0%nat → is_terminal (al_Phase (rec w)) = true.
Proof. intros Hw. unfold steps_left. pose proof (ret_phase _ Hw) as Hp. destruct (al_Phase (rec w)); try done. by destruct (Hp s). Qed.

(** C4: a retired allocation is cleaned up.  If the store accepts the step's
    saves, the provider's observations are certain, a delete removes one of the
    resources that are left and the runner service answers, then after as many
    steps as there are resources left, and two more, the record is terminal; if
    there was a creation to track, it is Deleted and nothing is left. *)
Theorem retired_cleaned w n :
  retired_record (rec w) → (2 + left w ≤ n)%nat →
  is_terminal (al_Phase (rec (Nat.iter n next w))) = true ∧
  (tracked w → al_Phase (rec (Nat.iter n next w)) = Deleted ∧ left (Nat.iter n next w) = 0%nat).
Proof.
  intros Hw Hn. assert (steps_left w ≤ n)%nat as Hs by (unfold steps_left; destruct (al_Phase (rec w)); lia).
  clear Hn. revert w Hw Hs. induction n as [|n IH]; intros w Hw Hs.
  - cbn [Nat.iter nat_rect]. pose proof (terminal_steps w Hw ltac:(lia)) as Ht. split; [done|]. intros (Hp & Htm & Hd).
    destruct (al_Phase (rec w)); try done. auto.
  - rewrite Nat.iter_succ_r. destruct (is_terminal (al_Phase (rec w))) eqn:Ht.
    + destruct (step_rests w Hw Ht) as [Heq _]. unfold next at 2 4 6. rewrite Heq. apply IH; [done|].
      unfold steps_left. destruct (al_Phase (rec w)); cbn in *; try done; lia.
    + destruct (step_advances w Hw Ht) as (Hw' & Hlt & _ & Htr). fold (next w) in *.
      destruct (IH (next w) Hw' ltac:(lia)) as [Hterm Hdel]. split; [done|]. auto.
Qed.
End progress.

(** ** A cloud with two resources *)

Module ProgressExample.
Definition running : Allocation :=
  {| Resources := []; RejectedAt := ∅; Completed := false; ID := "rs-a"; Revision := "1"; al_Phase := Running;
     Deadline := Hour; Attempts := 1; MaxAttempts := 3; al_Offering := PlacementExample.offering "a" true 40000;
     Outcomes := ∅; al_Catalog := zero_catalog; al_Requirements := zero_requirements; ResourceID := "i-1";
     Ready := true; Retire := true; Condition := ""; RunID := 0; Owner := ""; Repo := "";
     ScaleSetJobID := ""; RetryProcessed := false; NetworkProfile := ""; WireGuardPublicKey := [];
     WireGuardOverlayAddress := ""; WireGuardEndpoint := ""; WireGuardPollTokenHash := [];
     TerminalAt := zero_time |}.

Definition controller : Controller :=
  {| Cooldowns := ∅; Providers := {["aws" := {| isResourceCreator := true; isCreationReconciler := true |}]};
     Runners := true |}.

(** The record and how much is left. *)
Definition observe (n : nat) : Observation * option error :=
  ({| ob_Resources := []; ob_Exists := (0 <? n)%nat;
      ob_Known := true; ob_Interrupted := false; ob_ResourceID := "i-1" |}, None).

Definition world (X : Type) (e : lifecycleE X) (w : Allocation * nat) : (Allocation * nat) * X :=
  match e in lifecycleE X return (Allocation * nat) * X with
  | Load id => (w, if ID (fst w) =s id then inr (fst w) else inl (errors_new "not found"))
  | Save b _ =>
      match MergeResources [] (Resources b) with
      | inr (m, _) => let b := set_Revision "2" (set_Resources m b) in ((b, snd w), inr b)
      | inl err => (w, inl err)
      end
  | Now => (w, Hour)
  | Create _ _ => (w, ("", None))
  | CreateWithResources _ _ => (w, ({| cr_ResourceID := ""; cr_Resources := []; cr_WireGuardPublicKey := [];
                                       cr_WireGuardPollTokenHash := []; cr_WireGuardEndpoint := "" |}, None))
  | Observe _ _ => (w, observe (snd w))
  | ReconcileCreation _ _ => (w, observe (snd w))
  | Delete _ _ => ((fst w, Nat.pred (snd w)), None)
  | DeregisterRunner _ => (w, None)
  end.

Lemma observe_observed a n : canonical (Resources a) → Observed a n (fst (observe n)).
Proof.
  intros [Hm Ho]%canonical_iff. split; [done|done|]. exists (Resources a), false. apply merge_spec. cbn [ob_Resources fst observe].
  rewrite app_nil_r. split_and!; [done|done| |naive_solver]. intros r. rewrite elem_of_nil. tauto.
Qed.

#[export] Instance world_cooperates : Cooperative world fst snd.
Proof.
  split.
  - intros w. cbn. by rewrite String.eqb_refl.
  - intros w. by eexists.
  - intros w a m ch Hm. cbn. rewrite Hm. by eexists (_, _), _.
  - intros w provider Hc. eexists. split; [done|]. by apply observe_observed.
  - intros w provider Hc. eexists. split; [done|]. by apply observe_observed.
  - intros w provider. by eexists (_, _).
  - done.
Qed.

Lemma running_retired : retired_record controller "rs-a" running.
Proof.
  by split.
Qed.
End ProgressExample.

Import ProgressExample.

(** Four steps delete both and release the record. *)
Lemma retired_cleaned_witness :
  al_Phase (fst (Nat.iter 4 (next world controller "rs-a") (running, 2%nat)))
    = Deleted ∧
  snd (Nat.iter 4 (next world controller "rs-a") (running, 2%nat)) = 0%nat.
Proof.
  assert (tracked fst snd (running, 2%nat)) as Ht by (split; [discriminate|]; split; discriminate).
  exact (proj2 (retired_cleaned world fst snd controller "rs-a" (running, 2%nat)
    4 running_retired (le_n 4)) Ht).
Defined.
