(* ===== verification/State.v ===== *)
(** * The durable store: allocation records in ConfigMaps
    (internal/state/kubernetes.go)

    The Kubernetes API server and encoding/json's text format are interfaces:
    [ConfigMapAPI] with the laws of resourceVersion compare-and-swap
    ([ConfigMapLaws]) and [AllocationCodec].  [Kubernetes_Load], [_Save],
    [_Delete] and [_List] are the store's methods over them. *)
From S2P Require Import Prelude.
From S2P Require Import Placement.
From S2P Require Import Resources.
From S2P Require Import Allocation.

Record ConfigMap := {
  cm_Name : string;
  cm_ResourceVersion : string;
  cm_Labels : gmap string string;
  cm_Data : gmap string string
}.

Definition with_version (v : string) (cm : ConfigMap) : ConfigMap :=
  {| cm_Name := cm_Name cm; cm_ResourceVersion := v; cm_Labels := cm_Labels cm; cm_Data := cm_Data cm |}.

(** ** The API server *)

(** The ConfigMap calls of one namespace.  A list takes the label selector as
    the labels an object must carry. *)
Class ConfigMapAPI (W : Type) := {
  cm_get : string → W → W * result ConfigMap;
  cm_create : ConfigMap → W → W * result ConfigMap;
  cm_update : ConfigMap → W → W * result ConfigMap;
  cm_delete : string → W → W * option error;
  cm_list : gmap string string → W → W * result (list ConfigMap);
  objects : W → gmap string ConfigMap;
  versions : W → gset string
}.

(** The world moved from [w] to [w'] by any calls of any clients: versions are
    never reused, so an object either kept its version and content or carries a
    version that was not used before. *)
Definition evolves {W} `{ConfigMapAPI W} (w w' : W) : Prop :=
  versions w ⊆ versions w' ∧
  ∀ n cm, objects w' !! n = Some cm →
    objects w !! n = Some cm ∨ cm_ResourceVersion cm ∉ versions w.

(** The write of [cm] under [n] with a fresh version. *)
Definition written {W} `{ConfigMapAPI W} (w w' : W) (cm cm' : ConfigMap) : Prop :=
  ∃ v, v ∉ versions w ∧ v ≠ "" ∧ cm' = with_version v cm ∧
    objects w' = <[cm_Name cm := cm']> (objects w) ∧ versions w' = {[v]} ∪ versions w.

Class ConfigMapLaws (W : Type) `{ConfigMapAPI W} := {
  live_versions : ∀ (w : W) n cm, objects w !! n = Some cm →
    cm_Name cm = n ∧ cm_ResourceVersion cm ∈ versions w ∧ cm_ResourceVersion cm ≠ "";
  (** Reads return the current object; NotFound is definitive. *)
  get_law : ∀ n (w : W) w' r, cm_get n w = (w', r) →
    objects w' = objects w ∧ versions w' = versions w ∧
    match r with
    | inr cm => objects w !! n = Some cm
    | inl e => errors_is e APINotFound = true → objects w !! n = None
    end;
  list_law : ∀ sel (w : W) w' r, cm_list sel w = (w', r) →
    objects w' = objects w ∧ versions w' = versions w ∧
    match r with
    | inr cms => NoDup (cm_Name <$> cms) ∧
        ∀ cm, cm ∈ cms ↔ objects w !! cm_Name cm = Some cm ∧ sel ⊆ cm_Labels cm
    | inl _ => True
    end;
  (** A successful create found the name free; a failed one may still have been
      applied unless it reports that the name is taken. *)
  create_law : ∀ cm (w : W) w' r, cm_create cm w = (w', r) →
    match r with
    | inr cm' => objects w !! cm_Name cm = None ∧ written w w' cm cm'
    | inl e => (objects w' = objects w ∧ versions w' = versions w) ∨
        (errors_is e APIAlreadyExists = false ∧ errors_is e APIConflict = false ∧
         objects w !! cm_Name cm = None ∧ ∃ cm', written w w' cm cm')
    end;
  (** A successful update carried the current version. *)
  update_law : ∀ cm (w : W) w' r, cm_update cm w = (w', r) →
    match r with
    | inr cm' =>
        (∃ old, objects w !! cm_Name cm = Some old ∧ cm_ResourceVersion old = cm_ResourceVersion cm) ∧
        written w w' cm cm'
    | inl e => (objects w' = objects w ∧ versions w' = versions w) ∨
        (errors_is e APIConflict = false ∧
         (∃ old, objects w !! cm_Name cm = Some old ∧ cm_ResourceVersion old = cm_ResourceVersion cm) ∧
         ∃ cm', written w w' cm cm')
    end;
  delete_law : ∀ n (w : W) w' r, cm_delete n w = (w', r) →
    versions w' = versions w ∧
    match r with
    | None => objects w' = delete n (objects w)
    | Some e => (objects w' = objects w ∧ (errors_is e APINotFound = true → objects w !! n = None)) ∨
        (errors_is e APINotFound = false ∧ objects w' = delete n (objects w))
    end
}.

(** ** The text format *)

(** [json.Marshal] of an allocation, and a strict decoder: the first document,
    with unknown fields refused, and whether anything follows it.  Documents
    the encoder can represent without loss are [encodable]. *)
Class AllocationCodec := {
  marshal : Allocation → result string;
  decode_first : string → result (Allocation * bool);
  encodable : Allocation → Prop;
  marshal_encodable : ∀ a, encodable a → ∃ s, marshal a = inr s;
  decode_marshal : ∀ a s, encodable a → marshal a = inr s → decode_first s = inr (a, false)
}.

Definition owner_label : string := "runnerscout/owner".
Definition kind_label : string := "runnerscout/kind".
Definition legacy_key : string := "allocation".
Definition versioned_key : string := "allocation-v2".

Section store.
Context {W : Type} `{ConfigMapAPI W} `{AllocationCodec}.

(** [decodeAllocation] *)
Definition decodeAllocation (cm : ConfigMap) : result Allocation :=
  let legacy := cm_Data cm !! legacy_key in
  let current := cm_Data cm !! versioned_key in
  if Bool.eqb (isSome legacy) (isSome current)
  then inl (errors_new "missing or ambiguous allocation format")
  else
    let data := match current with Some s => s | None => default "" legacy end in
    match decode_first data with
    | inl err => inl err
    | inr (allocation, trailing) =>
        if trailing : bool then inl (errors_new "invalid trailing allocation data")
        else if ID allocation <>s cm_Name cm then inl (errors_new "allocation identity mismatch")
        else if negb (Bool.eqb (isSome current) (0 <? length (Resources allocation))%nat)
        then inl (errors_new "allocation dependency format mismatch")
        else match MergeResources [] (Resources allocation) with
        | inl err => inl err
        | inr _ => inr allocation
        end
    end.

Definition owned (owner : string) (cm : ConfigMap) : bool :=
  map_get "" (cm_Labels cm) owner_label =s owner.

(** [Kubernetes.Load] *)
Definition Kubernetes_Load (owner id : string) (w : W) : W * result Allocation :=
  let '(w, r) := cm_get id w in
  (w, match r with
      | inl err => inl err
      | inr cm =>
          if negb (owned owner cm) then inl (errors_new "state ownership mismatch")
          else match decodeAllocation cm with
          | inl err => inl err
          | inr a =>
              if ID a <>s id then inl (errors_new "allocation identity mismatch")
              else inr (set_Revision (cm_ResourceVersion cm) a)
          end
      end).

(** The checks of a save over an existing record; the result is the record
    with its dependencies merged. *)
Definition check_update (owner revision : string) (a : Allocation) (current : ConfigMap)
    : result Allocation :=
  if negb (owned owner current) then inl (errors_new "state ownership mismatch")
  else if cm_ResourceVersion current <>s revision then inl errConflict
  else match decodeAllocation current with
  | inl err => inl err
  | inr previous =>
      match MergeResources [] (Resources a) with
      | inl err => inl err
      | inr (incoming, _) =>
          match MergeResources (Resources previous) incoming with
          | inl err => inl err
          | inr (retained, _) =>
              if negb (length retained =? length incoming)%nat
              then inl (errors_new "cannot discard recorded cloud dependencies")
              else inr (set_Resources incoming a)
          end
      end
  end.

(** The ConfigMap a record is written to. *)
Definition allocation_map (owner revision : string) (a : Allocation) (b : string) : ConfigMap :=
  let key := if (0 <? length (Resources a))%nat then versioned_key else legacy_key in
  {| cm_Name := ID a; cm_ResourceVersion := revision;
     cm_Labels := {[owner_label := owner; kind_label := "allocation"]};
     cm_Data := {[key := b]} |}.

(** The second half of [Save], from the final merge on. *)
Definition write_allocation (owner revision : string) (a : Allocation) (w : W)
    : W * result Allocation :=
  match MergeResources [] (Resources a) with
  | inl err => (w, inl err)
  | inr (resources, _) =>
      let a := set_Revision "" (set_Resources resources a) in
      match marshal a with
      | inl err => (w, inl err)
      | inr b =>
          let cm := allocation_map owner revision a b in
          let '(w, r) := if revision =s "" then cm_create cm w else cm_update cm w in
          (w, match r with
              | inl err =>
                  if errors_is err APIConflict || errors_is err APIAlreadyExists
                  then inl errConflict else inl err
              | inr out => inr (set_Revision (cm_ResourceVersion out) a)
              end)
      end
  end.

(** [Kubernetes.Save] *)
Definition Kubernetes_Save (owner : string) (a : Allocation) (revision : string) (w : W)
    : W * result Allocation :=
  if revision =s "" then write_allocation owner revision a w
  else
    let '(w, r) := cm_get (ID a) w in
    match r with
    | inl err => (w, inl err)
    | inr current =>
        match check_update owner revision a current with
        | inl err => (w, inl err)
        | inr a => write_allocation owner revision a w
        end
    end.

(** [Kubernetes.Delete] *)
Definition Kubernetes_Delete (owner id : string) (w : W) : W * option error :=
  let '(w, r) := cm_get id w in
  match r with
  | inl err => if errors_is err APINotFound then (w, None) else (w, Some err)
  | inr cm =>
      if negb (owned owner cm) then (w, Some (errors_new "state ownership mismatch"))
      else
        let '(w, e) := cm_delete id w in
        (w, if is_err e APINotFound then None else e)
  end.

(** The loop of [List]. *)
Fixpoint decode_all (cms : list ConfigMap) : result (list Allocation) :=
  match cms with
  | [] => inr []
  | cm :: cms' =>
      match decodeAllocation cm with
      | inl err => inl err
      | inr a =>
          if ID a <>s cm_Name cm then inl (errors_new "allocation identity mismatch")
          else match decode_all cms' with
          | inl err => inl err
          | inr out => inr (set_Revision (cm_ResourceVersion cm) a :: out)
          end
      end
  end.

(** [Kubernetes.List] *)
Definition Kubernetes_List (owner : string) (w : W) : W * result (list Allocation) :=
  let '(w, r) := cm_list {[owner_label := owner; kind_label := "allocation"]} w in
  (w, match r with inl err => inl err | inr cms => decode_all cms end).
End store.
