(* ===== verification/StateProps.v ===== *)
(** * Properties of the durable store

    Compare-and-swap, round trip, retention of obligations, and that the store
    meets the contract the state machine was verified against. *)
From S2P Require Import Prelude.
From S2P Require Import Effects.
From S2P Require Import Placement.
From S2P Require Import Resources.
From S2P Require Import Allocation.
From S2P Require Import Lifecycle.
From S2P Require Import LifecycleProps.
From S2P Require Import State.

Section store.
Context {W : Type} `{!ConfigMapAPI W} `{!ConfigMapLaws W} `{!AllocationCodec}.
Implicit Types (w : W) (a : Allocation) (cm : ConfigMap).

(** ** How the world evolves *)

Lemma evolves_refl w : evolves w w.
Proof. split; [done|]. auto. Qed.

Lemma evolves_same w w' : objects w' = objects w → versions w' = versions w → evolves w w'.
Proof. intros Ho Hv. split; [by rewrite Hv|]. intros n cm. rewrite Ho. auto. Qed.

Lemma evolves_trans w1 w2 w3 : evolves w1 w2 → evolves w2 w3 → evolves w1 w3.
Proof.
  intros [Hv1 Ho1] [Hv2 Ho2]. split; [set_solver|].
  intros n cm [Hn|Hn]%Ho2; [by apply Ho1|]. right. set_solver.
Qed.

Lemma written_evolves w w' cm cm' : written w w' cm cm' → evolves w w'.
Proof.
  intros (v & Hv & _ & -> & Ho & Hvs). split; [rewrite Hvs; set_solver|].
  intros n c. rewrite Ho, lookup_insert. case_decide; [|by left].
  intros [= <-]. by right.
Qed.

(** A version that was live and is not the object's any more never comes back. *)
Lemma version_gone w w' n v :
  v ∈ versions w → (∀ cm, objects w !! n = Some cm → cm_ResourceVersion cm ≠ v) →
  evolves w w' → ∀ cm, objects w' !! n = Some cm → cm_ResourceVersion cm ≠ v.
Proof.
  intros Hv Hn [_ Ho] cm Hcm Heq. apply Ho in Hcm as [Hcm|Hcm]; [by apply (Hn cm)|].
  by rewrite Heq in Hcm.
Qed.

(** ** Reading what was written *)

Lemma allocation_map_decode owner rev v a b m ch :
  MergeResources [] (Resources a) = inr (m, ch) → decode_first b = inr (a, false) →
  decodeAllocation (with_version v (allocation_map owner rev a b)) = inr a.
Proof.
  intros Hm Hb. unfold decodeAllocation, allocation_map. simpl.
  destruct (0 <? length (Resources a))%nat eqn:Hl; simpl;
    rewrite lookup_singleton_eq, lookup_singleton_ne by done; simpl;
    rewrite Hb, String.eqb_refl; simpl; rewrite Hl, Hm; done.
Qed.

Lemma allocation_map_owned owner rev v a b :
  owned owner (with_version v (allocation_map owner rev a b)) = true.
Proof. unfold owned, map_get. simpl. rewrite lookup_insert_eq. apply String.eqb_refl. Qed.

(** The effect of a save that reached the API server: the record [a] with
    merged dependencies [m] is stored under a version [v] never used before. *)
Definition applied (owner rev : string) (a : Allocation) (m : list ResourceReference)
    (b v : string) (w w' : W) : Prop :=
  (∃ ch, MergeResources [] (Resources a) = inr (m, ch)) ∧
  marshal (set_Revision "" (set_Resources m a)) = inr b ∧
  v ∉ versions w ∧ v ≠ "" ∧ versions w' = {[v]} ∪ versions w ∧
  objects w' = <[ID a := with_version v (allocation_map owner rev (set_Revision "" (set_Resources m a)) b)]>
    (objects w) ∧
  if rev =s "" then objects w !! ID a = None
  else ∃ old, objects w !! ID a = Some old ∧ cm_ResourceVersion old = rev.

Definition unchanged (w w' : W) : Prop := objects w' = objects w ∧ versions w' = versions w.

(** A call either leaves the objects as they were or applies the write; it is
    applied whenever it succeeds. *)
Definition save_effect (owner rev : string) (a : Allocation) (w w' : W) (r : result Allocation) : Prop :=
  match r with
  | inr a' => ∃ m b v, applied owner rev a m b v w w' ∧ a' = set_Revision v (set_Resources m a)
  | inl _ => unchanged w w' ∨ ∃ m b v, applied owner rev a m b v w w'
  end.

Lemma write_effect owner rev a w w' r :
  write_allocation owner rev a w = (w', r) → save_effect owner rev a w w' r.
Proof.
  unfold write_allocation, save_effect, applied, unchanged.
  destruct (MergeResources _ _) as [e|[m ch]]; [intros [= <- <-]; by left|].
  destruct (marshal _) as [e|b] eqn:Hb; [intros [= <- <-]; by left|].
  set (cm := allocation_map _ _ _ _).
  assert (∀ w1 q, (if rev =s "" then cm_create cm w else cm_update cm w) = (w1, q) →
    match q with
    | inr cm' => written w w1 cm cm' ∧
        if rev =s "" then objects w !! ID a = None
        else ∃ old, objects w !! ID a = Some old ∧ cm_ResourceVersion old = rev
    | inl _ => objects w1 = objects w ∧ versions w1 = versions w ∨
        (∃ cm', written w w1 cm cm') ∧
        if rev =s "" then objects w !! ID a = None
        else ∃ old, objects w !! ID a = Some old ∧ cm_ResourceVersion old = rev
    end) as Hcall.
  { intros w1 q. destruct (rev =s ""); [intros Hc%create_law|intros Hc%update_law];
      destruct q; naive_solver. }
  destruct (if rev =s "" then _ else _) as [w1 q]. specialize (Hcall w1 q eq_refl).
  destruct q as [err|cm'].
  - intros Heq. assert (w1 = w' ∧ ∃ e, r = inl e) as [<- [e ->]] by (cases Heq; naive_solver).
    destruct Hcall as [?|[(cm' & v & ? & ? & -> & ? & ?) ?]]; [by left|right].
    exists m, b, v. split_and!; eauto.
  - intros [= <- <-]. destruct Hcall as [(v & ? & ? & -> & ? & ?) ?].
    exists m, b, v. split_and!; eauto.
Qed.

Lemma check_update_shape owner rev a cur a1 :
  check_update owner rev a cur = inr a1 →
  ∃ prev incoming ch, cm_ResourceVersion cur = rev ∧ decodeAllocation cur = inr prev ∧
    MergeResources [] (Resources a) = inr (incoming, ch) ∧ a1 = set_Resources incoming a ∧
    owned owner cur = true ∧ ∀ r, r ∈ Resources prev → r ∈ incoming.
Proof.
  unfold check_update. destruct (owned owner cur) eqn:Hown; [|done]; simpl.
  destruct (String.eqb_spec (cm_ResourceVersion cur) rev) as [Hv|]; [|done]; simpl.
  destruct (decodeAllocation cur) as [|prev]; [done|].
  destruct (MergeResources [] (Resources a)) as [|[incoming ch]] eqn:Hin; [done|].
  destruct (MergeResources (Resources prev) incoming) as [|[retained ch2]] eqn:Hr; [done|].
  destruct (Nat.eqb_spec (length retained) (length incoming)) as [Hlen|]; [|done]. simpl.
  intros [= <-]. exists prev, incoming, ch. split_and!; try done.
  apply merge_spec in Hin as (_ & [_ Hnd] & _ & _).
  apply merge_spec in Hr as (_ & [_ Hnd2] & Hel & _).
  assert (incoming ≡ₚ retained) as Hp.
  { apply submseteq_length_Permutation; [|lia].
    apply NoDup_submseteq; [done|]. intros x Hx. apply Hel. by right. }
  intros r Hrr. rewrite Hp. apply Hel. by left.
Qed.

(** ** Saves *)

Lemma save_effects owner rev a w w' r :
  Kubernetes_Save owner a rev w = (w', r) → save_effect owner rev a w w' r.
Proof.
  unfold Kubernetes_Save. destruct (rev =s "") eqn:Hrev; [apply write_effect|].
  destruct (cm_get (ID a) w) as [w1 q] eqn:Hg. apply get_law in Hg as (Ho1 & Hv1 & Hg).
  destruct q as [|cur]; [intros [= <- <-]; by left|].
  destruct (check_update owner rev a cur) as [|a1] eqn:Hc; [intros [= <- <-]; by left|].
  apply check_update_shape in Hc as (prev & inc & ch & _ & _ & Hm & -> & _).
  intros He%write_effect. revert He. pose proof (merge_canonical _ _ _ _ Hm) as Hcan.
  unfold canonical in Hcan. unfold save_effect, applied, unchanged. simpl.
  rewrite Ho1, Hv1, Hcan, Hm. destruct r; naive_solver.
Qed.

Lemma applied_evolves owner rev a m b v w w' : applied owner rev a m b v w w' → evolves w w'.
Proof.
  intros (_ & _ & Hv & Hne & Hvs & Ho & _).
  apply (written_evolves _ _ (allocation_map owner rev (set_Revision "" (set_Resources m a)) b)
    (with_version v (allocation_map owner rev (set_Revision "" (set_Resources m a)) b))).
  by exists v.
Qed.

Lemma save_evolves owner rev a w w' r :
  Kubernetes_Save owner a rev w = (w', r) → evolves w w'.
Proof.
  intros He%save_effects. destruct r as [e|a']; simpl in He; [destruct He as [[? ?]|He]|];
    [by apply evolves_same| |]; naive_solver eauto using applied_evolves.
Qed.

(** A save over an existing record found it owned and kept its dependencies. *)
Lemma save_over owner rev a w w' a' :
  Kubernetes_Save owner a rev w = (w', inr a') → rev ≠ "" →
  ∃ old prev, objects w !! ID a = Some old ∧ cm_ResourceVersion old = rev ∧
    owned owner old = true ∧ decodeAllocation old = inr prev ∧
    ∀ r, r ∈ Resources prev → r ∈ Resources a'.
Proof.
  intros Hs Hrev. pose proof (save_effects _ _ _ _ _ _ Hs) as (m & b & v & Ha & ->).
  destruct Ha as ((ch & Hm) & _). apply String.eqb_neq in Hrev.
  unfold Kubernetes_Save in Hs. rewrite Hrev in Hs.
  destruct (cm_get (ID a) w) as [w1 q] eqn:Hg. apply get_law in Hg as (Ho1 & Hv1 & Hg).
  destruct q as [|cur]; [done|].
  destruct (check_update owner rev a cur) as [|a1] eqn:Hc; [done|].
  apply check_update_shape in Hc as (prev & inc & ch2 & Hver & Hdec & Hm2 & -> & Hown & Hret).
  exists cur, prev. rewrite Hm2 in Hm. injection Hm as -> _. done.
Qed.

(** The round trip of the store.  After a successful save, a load of the
    same id by the same owner that gets an answer returns exactly the saved record: the argument
    with its dependencies merged and the revision the API server assigned, and
    that revision had never been used before. *)
Theorem save_then_load owner a rev w w1 a1 w2 w3 r :
  (∀ m ch, MergeResources [] (Resources a) = inr (m, ch) →
     encodable (set_Revision "" (set_Resources m a))) →
  Kubernetes_Save owner a rev w = (w1, inr a1) →
  objects w2 = objects w1 →
  Kubernetes_Load owner (ID a) w2 = (w3, r) →
  (∃ m ch, MergeResources [] (Resources a) = inr (m, ch) ∧
     a1 = set_Revision (Revision a1) (set_Resources m a)) ∧
  Revision a1 ∉ versions w ∧ Revision a1 ≠ "" ∧
  (r = inr a1 ∨ ∃ e, r = inl e ∧ snd (cm_get (ID a) w2) = inl e).
Proof.
  intros Henc (m & b & v & ((ch & Hm) & Hb & Hfresh & Hne & Hvs & Ho & _) & ->)%save_effects Hw2.
  unfold Kubernetes_Load. destruct (cm_get (ID a) w2) as [w4 g] eqn:Hg. simpl.
  intros [= <- <-]. split_and!; [by exists m, ch|done|done|].
  destruct g as [e|cm]; [right; by exists e|left].
  apply get_law in Hg as (_ & _ & Hg). rewrite Hw2, Ho, lookup_insert_eq in Hg.
  injection Hg as <-. rewrite allocation_map_owned. simpl.
  erewrite allocation_map_decode;
    [|exact (merge_canonical _ _ _ _ Hm)|exact (decode_marshal _ _ (Henc _ _ Hm) Hb)].
  simpl. by rewrite String.eqb_refl.
Qed.



(** ** Deletion and listing *)

(** Deletion is by ownership.  A delete that reports success leaves no
    record of that name unless it belongs to nobody else; whatever it reports,
    every other record, and a record of another owner, is untouched. *)
Theorem delete_only_owned owner id w w' r :
  Kubernetes_Delete owner id w = (w', r) →
  (r = None → objects w' !! id = None) ∧
  (∀ n, n ≠ id → objects w' !! n = objects w !! n) ∧
  (∀ cm, objects w !! id = Some cm → owned owner cm = false → objects w' = objects w ∧ r ≠ None).
Proof.
  unfold Kubernetes_Delete. destruct (cm_get id w) as [w1 q] eqn:Hg.
  apply get_law in Hg as (Ho & _ & Hg). destruct q as [e|cm].
  - destruct (errors_is e APINotFound); intros [= <- <-]; rewrite Ho; naive_solver.
  - destruct (owned owner cm) eqn:Hown; simpl; [|intros [= <- <-]; rewrite Ho; naive_solver].
    destruct (cm_delete id w1) as [w2 d] eqn:Hd. apply delete_law in Hd as [_ Hd].
    intros [= <- <-]. rewrite <- Ho in *. destruct d as [e|]; simpl.
    + split_and!; [| |intros; simplify_eq; congruence].
      * destruct (errors_is e APINotFound) eqn:He; [|done].
        destruct Hd as [[-> Hd]|[? _]]; [intros _; by apply Hd|done].
      * intros n Hn. destruct Hd as [[-> _]|[_ ->]]; [done|]. by rewrite lookup_delete_ne.
    + rewrite Hd, lookup_delete_eq. split_and!; [done| |intros; simplify_eq; congruence].
      intros n Hn. by rewrite lookup_delete_ne.
Qed.
Lemma decode_id cm a : decodeAllocation cm = inr a → ID a = cm_Name cm.
Proof.
  unfold decodeAllocation. intros Hd. cases Hd. injection Hd as ->. intros. by reflect in Hc3.
Qed.

Lemma decode_all_spec cms out :
  decode_all cms = inr out ↔
  Forall2 (λ cm a, ∃ b, decodeAllocation cm = inr b ∧ a = set_Revision (cm_ResourceVersion cm) b) cms out.
Proof.
  revert out. induction cms as [|cm cms IH]; intros out; simpl.
  - split; [intros [= <-]; constructor|by inversion 1].
  - split.
    + destruct (decodeAllocation cm) as [|a] eqn:Hd; [done|].
      destruct (ID a <>s cm_Name cm); [done|].
      destruct (decode_all cms) as [|o]; [done|]. intros [= <-].
      constructor; [by exists a|by apply IH].
    + inversion 1 as [|? ? ? ? (b & Hb & ->) Ht]; subst. rewrite Hb, (decode_id _ _ Hb), String.eqb_refl.
      simpl. apply IH in Ht as ->. done.
Qed.

(** The record a stored object stands for. *)
Definition listed (owner : string) (w : W) (a : Allocation) : Prop :=
  ∃ cm b, objects w !! ID a = Some cm ∧
    {[owner_label := owner; kind_label := "allocation"]} ⊆ cm_Labels cm ∧
    decodeAllocation cm = inr b ∧ a = set_Revision (cm_ResourceVersion cm) b.

(** A listing is complete or fails.  A list that succeeds returns exactly
    the decoded records of the owner's allocation objects, one per name, each
    with the revision a later save must present; one undecodable record makes
    it fail, so cleanup obligations are never silently skipped. *)
Theorem list_exact owner w w' out :
  Kubernetes_List owner w = (w', inr out) →
  objects w' = objects w ∧ NoDup (ID <$> out) ∧ ∀ a, a ∈ out ↔ listed owner w a.
Proof.
  unfold Kubernetes_List. destruct (cm_list _ w) as [w1 q] eqn:Hl.
  apply list_law in Hl as (Ho & _ & Hl). destruct q as [|cms]; [done|].
  intros [= <- Hd]. destruct Hl as [Hnd Hin]. apply decode_all_spec in Hd as Hf.
  assert (ID <$> out = cm_Name <$> cms) as Hids.
  { clear - Hf. induction Hf as [|cm a cms out (b & Hb & ->) _ IH]; [done|].
    csimpl. by rewrite IH, <- (decode_id _ _ Hb). }
  split_and!; [done|by rewrite Hids|]. intros a. split.
  - intros [i Hi]%list_elem_of_lookup. destruct (Forall2_lookup_r _ _ _ _ _ Hf Hi) as (cm & Hcm & b & Hb & ->).
    apply list_elem_of_lookup_2, Hin in Hcm as [Hobj Hsel]. exists cm, b.
    simpl. rewrite (decode_id _ _ Hb). done.
  - intros (cm & b & Hobj & Hsel & Hb & ->). simpl in Hobj. rewrite (decode_id _ _ Hb) in Hobj.
    assert (cm ∈ cms) as [i Hi]%list_elem_of_lookup by (by apply Hin).
    destruct (Forall2_lookup_l _ _ _ _ _ Hf Hi) as (a' & Ha' & b' & Hb' & ->).
    rewrite Hb in Hb'. injection Hb' as <-. by eapply list_elem_of_lookup_2.
Qed.
End store.
