(* ===== verification/System.v ===== *)
(** * Concurrent controllers on one store

    Any number of controllers run [Step] against the same ConfigMaps, their
    calls interleaved in any order, each free to stop for ever after any call
    (a crash or a lost leadership).  The store's handler meets the contract the
    state machine was verified against, and the create calls of one allocation
    are bounded by its attempt limit whatever the interleaving. *)
From S2P Require Import Prelude.
From S2P Require Import Effects.
From S2P Require Import Placement.
From S2P Require Import Resources.
From S2P Require Import Allocation.
From S2P Require Import Lifecycle.
From S2P Require Import LifecycleProps.
From S2P Require Import LifecycleSafety.
From S2P Require Import State.
From S2P Require Import StateProps.

Section system.
Context {W P : Type} `{!ConfigMapAPI W} `{!ConfigMapLaws W} `{!AllocationCodec}.
Context (owner : string) (env : ∀ X, lifecycleE X → P → P * X).
Implicit Types (w : W) (p : P) (a b : Allocation) (h : history).

(** The store calls go to the ConfigMap store, the clock, provider and
    deregistrar calls to the environment. *)
Definition handler X (e : lifecycleE X) (s : W * P) : (W * P) * X :=
  let '(w, p) := s in
  match e in lifecycleE X return (P → P * X) → (W * P) * X with
  | Load id => λ _, let '(w', r) := Kubernetes_Load owner id w in ((w', p), r)
  | Save a rev => λ _, let '(w', r) := Kubernetes_Save owner a rev w in ((w', p), r)
  | _ => λ other, let '(p', x) := other p in ((w, p'), x)
  end (env X e).

(** Every decodable record has its dependencies in merged form. *)
Definition sound_world w : Prop :=
  ∀ n cm a, objects w !! n = Some cm → decodeAllocation cm = inr a → canonical (Resources a).

(** ** The store meets the contract *)

Context (representable : ∀ a, encodable a).
Context (clock : ∀ p p' t, env time Now p = (p', t) → t ≠ zero_time).

Lemma applied_decodes rev a m s v w w' :
  applied owner rev a m s v w w' →
  ∃ cm, objects w' !! ID a = Some cm ∧ cm_ResourceVersion cm = v ∧
    decodeAllocation cm = inr (set_Revision "" (set_Resources m a)) ∧
    objects w' = <[ID a := cm]> (objects w).
Proof.
  intros ((ch & Hm) & Hb & _ & _ & _ & Ho & _). eexists. rewrite Ho, lookup_insert_eq.
  split_and!; [done|done| |done].
  eapply allocation_map_decode; [exact (merge_canonical _ _ _ _ Hm)|].
  by apply decode_marshal.
Qed.

Lemma applied_sound rev a m s v w w' :
  sound_world w → applied owner rev a m s v w w' → sound_world w'.
Proof.
  intros Hw Ha. destruct (applied_decodes _ _ _ _ _ _ _ Ha) as (cm & Hl & _ & Hd & Ho).
  destruct Ha as ((ch & Hm) & _). intros n cm' a'. rewrite Ho, lookup_insert.
  case_decide; [|by apply Hw]. intros [= <-] Hd'. rewrite Hd in Hd'. injection Hd' as <-.
  by eapply merge_canonical.
Qed.

Lemma save_sound rev a w w' r :
  sound_world w → Kubernetes_Save owner a rev w = (w', r) → sound_world w'.
Proof.
  intros Hw He%save_effects. destruct r as [e|a']; simpl in He; [destruct He as [[Ho _]|He]|].
  - intros n cm b. rewrite Ho. apply Hw.
  - destruct He as (m & s & v & Ha). by eapply applied_sound.
  - destruct He as (m & s & v & Ha & _). by eapply applied_sound.
Qed.

(** What a load answers. *)
Lemma load_spec id w w' r :
  Kubernetes_Load owner id w = (w', r) →
  objects w' = objects w ∧ versions w' = versions w ∧
  match r with
  | inr a => ∃ cm b, objects w !! id = Some cm ∧ decodeAllocation cm = inr b ∧ ID b = id ∧
      a = set_Revision (cm_ResourceVersion cm) b
  | inl _ => True
  end.
Proof.
  unfold Kubernetes_Load. destruct (cm_get id w) as [w1 q] eqn:Hg.
  apply get_law in Hg as (Ho & Hv & Hg). intros [= <- <-]. split_and!; [done|done|].
  destruct q as [|cm]; [done|]. destruct (owned owner cm); [|done]. simpl.
  destruct (decodeAllocation cm) as [|b] eqn:Hd; [done|].
  destruct (ID b <>s id) eqn:Hid; [done|]. reflect in Hid. by exists cm, b.
Qed.

Lemma handler_implements :
  implements handler (λ s, sound_world (fst s)) store_contract.
Proof.
  intros X e [w p] [w' p'] x Hw Hh. simpl in *.
  destruct e; simpl in Hh.
  3-9: destruct (env _ _ _) as [p1 y] eqn:Hy; injection Hh as <- <- <-; split; [done|]; simpl; eauto.
  - destruct (Kubernetes_Load _ _ _) as [w1 r] eqn:Hl. injection Hh as <- <- <-.
    apply load_spec in Hl as (Ho & Hv & Hr). split; [intros n cm b; rewrite Ho; apply Hw|].
    destruct r as [|a]; simpl; [done|]. destruct Hr as (cm & b & Hcm & Hd & Hid & ->).
    split; [done|]. exact (Hw id cm b Hcm Hd).
  - destruct (Kubernetes_Save _ _ _ _) as [w1 r] eqn:Hs. injection Hh as <- <- <-.
    split; [by eapply save_sound|]. destruct r as [|a']; simpl; [done|].
    apply save_effects in Hs as (m & b & v & ((ch & Hm) & _) & ->). by exists v, m, ch.
Qed.


Lemma handler_evolves X (e : lifecycleE X) w p w' p' x :
  handler X e (w, p) = ((w', p'), x) → evolves w w'.
Proof.
  intros Hh. destruct e; simpl in Hh.
  3-9: destruct (env _ _ _) as [p1 y]; injection Hh as <- <- <-; apply evolves_refl.
  - destruct (Kubernetes_Load _ _ _) as [w1 r] eqn:Hl. injection Hh as <- <- <-.
    apply load_spec in Hl as (Ho & Hv & _). by apply evolves_same.
  - destruct (Kubernetes_Save _ _ _ _) as [w1 r] eqn:Hs. injection Hh as <- <- <-.
    by eapply save_evolves.
Qed.

(** ** Interleaved controllers *)

(** A step under way: whose, on which record, what it still has to do and
    what it did. *)
Record thread := Thread {
  th_controller : Controller;
  th_id : string;
  th_rest : prog lifecycleE (option error);
  th_history : history
}.

Record system := System { sy_world : W; sy_env : P; sy_threads : list thread }.

(** All decodable records satisfy the record invariant. *)
Definition all_ok w : Prop :=
  ∀ n cm a, objects w !! n = Some cm → decodeAllocation cm = inr a → record_ok a.

(** The record of [id] is there and counts at least [n] attempts. *)
Definition counts w (id : string) (n : nat) : Prop :=
  ∃ cm a, objects w !! id = Some cm ∧ decodeAllocation cm = inr a ∧ Z.of_nat n ≤ Attempts a.

(** Other writers, such as the operator marking a record ready or retired:
    they keep records well formed and do not take back attempts of [id]. *)
Definition outside (id : string) w w' : Prop :=
  evolves w w' ∧ all_ok w' ∧ ∀ n, counts w id n → counts w' id n.

Inductive sys_step (id : string) : system → system → Prop :=
  | sys_start c i w p ths :
      sys_step id (System w p ths) (System w p (ths ++ [Thread c i (Step c i) []]))
  | sys_call w p w' p' ths t c i X (e : lifecycleE X) k h x :
      ths !! t = Some (Thread c i (Vis e k) h) →
      handler X e (w, p) = ((w', p'), x) →
      sys_step id (System w p ths)
        (System w' p' (<[t := Thread c i (k x) (h ++ [ev e x])]> ths))
  | sys_outside w p w' p' ths :
      outside id w w' → sys_step id (System w p ths) (System w' p' ths).

Definition is_create_of (id : string) (v : event lifecycleE) : bool :=
  match create_arg v with Some a => ID a =s id | None => false end.

Definition creates (id : string) (h : history) : nat := length (List.filter (is_create_of id) h).

Definition total_creates (id : string) (s : system) : nat :=
  sum_list_with (creates id ∘ th_history) (sy_threads s).

Definition commits (id : string) (ths : list thread) : nat :=
  sum_list_with (Nat.b2n ∘ committed id ∘ th_history) ths.

(** What a thread knows is still true: if the version it holds is current, so
    is its record. *)
Definition known w h : Prop :=
  ∀ b, current h = Some b →
    Revision b ∈ versions w ∧ Revision b ≠ "" ∧
    ∀ cm, objects w !! ID b = Some cm → cm_ResourceVersion cm = Revision b →
      ∃ a, decodeAllocation cm = inr a ∧ b = set_Revision (Revision b) a.

Definition thread_ok (id : string) w (t : thread) : Prop :=
  follows (Step (th_controller t) (th_id t)) (th_history t) (th_rest t) ∧
  Forall (respects store_contract) (th_history t) ∧
  (creates id (th_history t) ≤ Nat.b2n (committed id (th_history t)))%nat ∧
  known w (th_history t).

Definition system_ok (id : string) (s : system) : Prop :=
  all_ok (sy_world s) ∧ counts (sy_world s) id (commits id (sy_threads s)) ∧
  Forall (thread_ok id (sy_world s)) (sy_threads s).

Lemma all_ok_sound w : all_ok w → sound_world w.
Proof. intros Hw n cm a Hl Hd. by destruct (Hw n cm a Hl Hd). Qed.

Lemma record_ok_revision rev a : record_ok (set_Revision rev a) ↔ record_ok a.
Proof. done. Qed.

Lemma record_ok_stored a m ch :
  MergeResources [] (Resources a) = inr (m, ch) → record_ok a →
  set_Revision "" (set_Resources m a) = set_Revision "" a.
Proof.
  intros Hm [Hc _]. unfold canonical in Hc. rewrite Hc in Hm. injection Hm as <- _. by destruct a.
Qed.

Lemma store_contract_answerable : answerable store_contract.
Proof.
  intros X e. pose (err := errors_new ""). destruct e; simpl.
  1,2: by exists (inl err).
  1: by exists 1.
  1: by exists ("", None).
  1: by exists ({| cr_ResourceID := ""; cr_Resources := []; cr_WireGuardPublicKey := [];
          cr_WireGuardPollTokenHash := []; cr_WireGuardEndpoint := "" |}, None).
  1,2: by exists ({| ob_Known := false; ob_Exists := false; ob_Interrupted := false; ob_ResourceID := "";
          ob_Resources := [] |}, None).
  all: by exists None.
Qed.

(** ** What threads know *)

Lemma current_snoc h v :
  current (h ++ [v]) = match record_of v with Some a => Some a | None => current h end.
Proof. unfold current. by rewrite foldl_app. Qed.

Lemma known_evolves w w' h : known w h → evolves w w' → known w' h.
Proof.
  intros Hk [Hv Ho] b Hb. destruct (Hk b Hb) as (Hin & Hne & Hcm). split_and!; [set_solver|done|].
  intros cm [Hl|Hf]%Ho Hver; [by apply Hcm|]. by rewrite Hver in Hf.
Qed.

Lemma known_snoc X (e : lifecycleE X) w p w' p' x h :
  known w h → handler X e (w, p) = ((w', p'), x) → known w' (h ++ [ev e x]).
Proof.
  intros Hk Hh. pose proof (known_evolves _ _ _ Hk (handler_evolves _ _ _ _ _ _ _ Hh)) as Hk'.
  assert (record_of (ev e x) = None → known w' (h ++ [ev e x])) as Hnone.
  { intros Hr. unfold known. by rewrite current_snoc, Hr. }
  destruct e; try by apply Hnone; clear Hnone Hk'.
  - simpl in Hh. destruct (Kubernetes_Load _ _ _) as [w1 r] eqn:Hl. injection Hh as <- <- <-.
    destruct r as [|a]; [by apply Hnone|]. unfold known. rewrite current_snoc. simpl.
    intros ? [= <-]. apply load_spec in Hl as (Ho & Hv & cm & b & Hcm & Hd & Hid & ->). simpl.
    destruct (live_versions w _ _ Hcm) as (Hn & Hin & Hne). rewrite Hv. split_and!; try done.
    intros cm'. rewrite Hid, Ho, Hcm. intros [= <-] _. by exists b.
  - simpl in Hh. destruct (Kubernetes_Save _ _ _ _) as [w1 r] eqn:Hs. injection Hh as <- <- <-.
    destruct r as [|a']; [by apply Hnone|]. unfold known. rewrite current_snoc. simpl.
    intros ? [= <-]. apply save_effects in Hs as (m & s & v & Ha & ->). simpl.
    destruct (applied_decodes _ _ _ _ _ _ _ Ha) as (cm & Hcm & <- & Hd & _).
    destruct Ha as (_ & _ & _ & Hne & Hv & _). split_and!; [set_solver|done|].
    intros cm'. rewrite Hcm. intros [= <-] _. by eexists.
Qed.

(** ** The invariant *)

Section thread_step.
Context (id : string) (w w' : W) (p p' : P) (c : Controller) (i : string).
Context (X : Type) (e : lifecycleE X) (k : X → prog lifecycleE (option error)) (h : history) (x : X).
Context (Hok : thread_ok id w (Thread c i (Vis e k) h)) (Hall : all_ok w).
Context (Hh : handler X e (w, p) = ((w', p'), x)).

Lemma thread_follows : follows (Step c i) (h ++ [ev e x]) (k x).
Proof. constructor. apply Hok. Qed.

Lemma thread_respects : Forall (respects store_contract) (h ++ [ev e x]).
Proof.
  apply Forall_app_2; [apply Hok|]. constructor; [|done].
  apply (handler_implements X e (w, p) (w', p') x (all_ok_sound _ Hall) Hh).
Qed.

(** A fact proved of all steps holds of the call just made. *)
Lemma thread_fact (Q : history → event lifecycleE → Prop) :
  ensures store_contract (Step c i) (λ h _, at_every Q h) → Q h (ev e x).
Proof.
  intros HQ. by eapply (follows_every store_contract Q (Step c i) (k x)
    _ store_contract_answerable HQ thread_follows thread_respects h _ []).
Qed.

Lemma thread_creates :
  (creates id (h ++ [ev e x]) ≤ Nat.b2n (committed id (h ++ [ev e x])))%nat.
Proof.
  assert (committed id h = true → committed id (h ++ [ev e x]) = true) as Hmono.
  { intros Hc. destruct (committed_snoc id h (ev e x)) as [->|[? _]]; [done|congruence]. }
  destruct Hok as (_ & Hresp & Hle & _). simpl in Hle, Hresp.
  unfold creates in *. rewrite List.filter_app, length_app. simpl.
  destruct (is_create_of id (ev e x)) eqn:Hcr; simpl.
  - unfold is_create_of in Hcr. destruct (create_arg _) as [a|] eqn:Ha; [|done].
    reflect in Hcr. pose proof (thread_fact _ (ensures_weaken _ _ _ (step_intent c i)) a Ha)
      as (l & now & a0 & outs & Hpre & Hph & _ & _ & _ & _ & _ & _ & Ha0).
    assert (committed id h = true) as Hc.
    { rewrite Hpre in Hresp. apply Forall_cons in Hresp as [_ [_ [Hs _]%Forall_cons]%Forall_cons].
      destruct Hs as (rev & m & ch & _ & ->). rewrite Hpre. simpl. rewrite Hph, Ha0 in *.
      simpl in *. by rewrite Hcr, String.eqb_refl. }
    rewrite (Hmono Hc), Hpre. simpl. lia.
  - destruct (committed id h); simpl in *; [rewrite Hmono by done; simpl; lia|lia].
Qed.

(** An applied save replaces the record the thread holds by one that keeps the
    invariant and the count of attempts. *)
Lemma thread_save a rev m s v :
  save_arg (ev e x) = Some a → save_revision (ev e x) = Some rev →
  applied owner rev a m s v w w' →
  ∃ b old a0 cm a1, current h = Some b ∧ objects w !! ID a = Some old ∧
    decodeAllocation old = inr a0 ∧ b = set_Revision (Revision b) a0 ∧
    objects w' = <[ID a := cm]> (objects w) ∧ decodeAllocation cm = inr a1 ∧ record_ok a1 ∧
    Attempts a0 ≤ Attempts a1 ∧
    (length h = 2%nat → al_Phase b = Pending → al_Phase a = Creating →
      Attempts a1 = Attempts a0 + 1).
Proof.
  intros Ha Hrev Happ.
  destruct (thread_fact _ (step_counted c i) a Ha) as (b & Hb & Hrev' & Hid & Hcount).
  rewrite Hrev in Hrev'. injection Hrev' as ->.
  destruct Hok as (_ & _ & _ & Hk). destruct (Hk b Hb) as (_ & Hne & Hcm).
  destruct (applied_decodes _ _ _ _ _ _ _ Happ) as (cm & _ & _ & Hd & Ho).
  destruct Happ as ((ch & Hm) & _ & _ & _ & _ & _ & Hold).
  apply String.eqb_neq in Hne. rewrite Hne in Hold. destruct Hold as (old & Hl & Hver).
  destruct (Hcm old) as (a0 & Hd0 & Hb0); [by rewrite <- Hid|done|].
  assert (record_ok a0) as Hok0 by (by eapply Hall).
  assert (record_ok a) as Hoka.
  { apply (thread_fact _ (step_keeps_record c i) a b); [done|done|]. by rewrite Hb0. }
  rewrite (record_ok_stored _ _ _ Hm Hoka) in Hd.
  exists b, old, a0, cm, (set_Revision "" a). split_and!; try done; simpl.
  all: assert (Attempts b = Attempts a0) as Hab by (by rewrite Hb0).
  all: destruct Hok0 as (_ & _ & ? & ? & _).
  - destruct (_ && _); [|lia]. destruct Hcount as [-> ?].
    rewrite wrap64_id by (unfold in_int64, min_int64, max_int64; lia). lia.
  - intros Hlen Hpb Hpa. rewrite Hlen, Hpb, Hpa in Hcount. simpl in Hcount. destruct Hcount as [-> ?].
    rewrite wrap64_id by (unfold in_int64, min_int64, max_int64; lia). lia.
Qed.

(** A call leaves the objects alone, or is a save that was applied. *)
Lemma handler_effect :
  (objects w' = objects w ∧ ∀ a, save_arg (ev e x) = Some a → record_of (ev e x) = None) ∨
  ∃ a rev m s v, save_arg (ev e x) = Some a ∧ save_revision (ev e x) = Some rev ∧
    applied owner rev a m s v w w'.
Proof.
  clear Hok. destruct e; simpl in Hh.
  3-9: left; destruct (env _ _ _) as [p1 y]; by injection Hh as <- <- <-.
  - left. destruct (Kubernetes_Load _ _ _) as [w1 r] eqn:Hl. injection Hh as <- <- <-.
    by apply load_spec in Hl as (Ho & _).
  - destruct (Kubernetes_Save _ _ _ _) as [w1 r] eqn:Hs. injection Hh as <- <- <-.
    apply save_effects in Hs. destruct r as [err|a']; [destruct Hs as [[Ho _]|(m & s & v & Ha)]|].
    + left. simpl. naive_solver.
    + right. by exists a, revision, m, s, v.
    + right. destruct Hs as (m & s & v & Ha & _). by exists a, revision, m, s, v.
Qed.

Lemma thread_world n :
  counts w id (n + Nat.b2n (committed id h)) →
  all_ok w' ∧ counts w' id (n + Nat.b2n (committed id (h ++ [ev e x]))).
Proof.
  intros Hn. pose proof (committed_snoc id h (ev e x)) as Hsnoc.
  destruct handler_effect as [[Ho Hrec]|(a & rev & m & s & v & Ha & Hrev & Happ)].
  - split; [intros n' cm a; rewrite Ho; apply Hall|].
    destruct Hsnoc as [->|(_ & _ & l & a & a' & _ & Hs & Hr & _)];
      [|rewrite (Hrec a Hs) in Hr; done].
    destruct Hn as (cm & a & Hl & Hd & Hle). exists cm, a. by rewrite Ho.
  - destruct (thread_save a rev m s v Ha Hrev Happ)
      as (b & old & a0 & cm & a1 & Hb & Hl & Hd0 & Hb0 & Ho & Hd & Hok1 & Hle & Hplus).
    split.
    { intros n' cm' a'. rewrite Ho, lookup_insert. case_decide; [|by apply Hall].
      intros [= <-] Hd'. rewrite Hd in Hd'. by injection Hd' as <-. }
    destruct Hn as (cm0 & b0 & Hl0 & Hdb0 & Hle0). unfold counts. rewrite Ho, lookup_insert.
    destruct (decide (ID a = id)) as [<-|Hne].
    + rewrite Hl in Hl0. injection Hl0 as <-. rewrite Hd0 in Hdb0. injection Hdb0 as <-.
      exists cm, a1. split_and!; [done|done|].
      destruct Hsnoc as [->|(Hc & Hlen & l & a2 & a' & Hcur & Hs & _ & _ & Hp1 & Hp2)]; [lia|].
      rewrite Hb in Hcur. injection Hcur as <-. rewrite Ha in Hs. injection Hs as <-.
      rewrite Hplus by done. rewrite Hc in Hle0. destruct (committed _ (h ++ _)); simpl in *; lia.
    + exists cm0, b0. split_and!; [done|done|].
      destruct Hsnoc as [->|(_ & _ & l & a2 & a' & _ & Hs & _ & Hid & _)]; [lia|].
      congruence.
Qed.
End thread_step.

Lemma sum_list_with_insert {A} (f : A → nat) l t y y' :
  l !! t = Some y →
  sum_list_with f (<[t := y']> l) = (sum_list_with f (delete t l) + f y')%nat ∧
  sum_list_with f l = (sum_list_with f (delete t l) + f y)%nat.
Proof.
  revert t. induction l as [|z l IH]; intros [|t] Ht; simplify_eq/=; [lia|].
  destruct (IH t Ht) as [-> ->]. lia.
Qed.

Lemma sys_step_ok id s s' : system_ok id s → sys_step id s s' → system_ok id s'.
Proof.
  intros (Hall & Hn & Hths) Hstep.
  destruct Hstep as [c i w p ths|w p w' p' ths t c i X e k h x Ht Hh|w p w' p' ths (He & Hall' & Hn')];
    simpl in *.
  - split_and!; simpl; [done| |].
    + unfold commits in *. rewrite sum_list_with_app. simpl. by rewrite !Nat.add_0_r.
    + apply Forall_app_2; [done|]. constructor; [|done]. split_and!; simpl; [constructor|done|done|].
      intros b. done.
  - pose proof (Forall_lookup_1 _ _ _ _ Hths Ht) as Hok.
    destruct (sum_list_with_insert (Nat.b2n ∘ committed id ∘ th_history) ths t _
      (Thread c i (k x) (h ++ [ev e x])) Ht) as [Hnew Hold].
    unfold commits in Hn. rewrite Hold in Hn. simpl in Hn, Hnew.
    destruct (thread_world id w w' p p' c i X e k h x Hok Hall Hh _ Hn) as [Hall' Hn'].
    split_and!; simpl; [done|unfold commits; by rewrite Hnew|].
    pose proof (handler_evolves _ _ _ _ _ _ _ Hh) as He. apply Forall_insert.
    + eapply Forall_impl; [exact Hths|]. intros th (H1 & H2 & H3 & H4).
      split_and!; eauto using known_evolves.
    + split_and!; simpl.
      * by eapply thread_follows.
      * by eapply thread_respects.
      * by eapply thread_creates.
      * eapply known_snoc; [|done]. apply Hok.
  - split_and!; simpl; [done|by apply Hn'|].
    eapply Forall_impl; [exact Hths|]. intros th (H1 & H2 & H3 & H4).
    split_and!; eauto using known_evolves.
Qed.

Lemma system_ok_reachable id s s' : system_ok id s → rtc (sys_step id) s s' → system_ok id s'.
Proof. intros Hs. induction 1; eauto using sys_step_ok. Qed.

Lemma system_ok_start id w p cm a :
  all_ok w → objects w !! id = Some cm → decodeAllocation cm = inr a →
  system_ok id (System w p []).
Proof.
  intros Hall Hl Hd. split_and!; simpl; [done| |constructor].
  exists cm, a. split_and!; [done..|]. destruct (Hall _ _ _ Hl Hd) as (_ & _ & ? & _). simpl. lia.
Qed.


End system.
