(* ===== verification/SystemExample.v ===== *)
(** * Executions on a concrete store

    An in-memory API server that satisfies the laws of [ConfigMapLaws] and an
    injective text encoding of records that satisfies [AllocationCodec]: the
    interfaces of State.v are inhabited.  Runs of the store and of concurrent
    controllers on it satisfy the hypotheses of the theorems of StateProps.v and
    System.v, which are applied to them. *)
From stdpp Require Import infinite fin_sets.
From S2P Require Import Prelude.
From S2P Require Import Placement.
From S2P Require Import Resources.
From S2P Require Import Allocation.
From S2P Require Import State.
From S2P Require Import Effects.
From S2P Require Import Lifecycle.
From S2P Require Import LifecycleProps.
From S2P Require Import LifecycleSafety.
From S2P Require Import StateProps.
From S2P Require Import System.

(** ** Records as text *)

(** Values with a text that determines them. *)
Class Text (A : Type) := {
  to_text : A → string;
  from_text : string → option A;
  from_to_text : ∀ x, from_text (to_text x) = Some x
}.
#[export] Hint Mode Text ! : typeclass_instances.

(** A list of texts as one text: each character behind a dot, a semicolon
    after each text. *)
Fixpoint frame1 (x rest : string) : string :=
  match x with
  | "" => String ";" rest
  | String c x' => String "." (String c (frame1 x' rest))
  end.
Definition frame (l : list string) : string := foldr frame1 "" l.
Fixpoint unframe (s : string) : option (list string) :=
  match s with
  | "" => Some []
  | String ";" s' => l ← unframe s'; Some ("" :: l)
  | String "." (String c s') =>
      l ← unframe s'; match l with x :: l' => Some (String c x :: l') | [] => None end
  | _ => None
  end.

Lemma unframe_frame1 x rest : unframe (frame1 x rest) = l ← unframe rest; Some (x :: l).
Proof. induction x as [|c x IH]; simpl; [done|]. rewrite IH. by destruct (unframe rest). Qed.
Lemma unframe_frame l : unframe (frame l) = Some l.
Proof. induction l as [|x l IH]; simpl; [done|]. by rewrite unframe_frame1, IH. Qed.

(** A text from the texts of the parts. *)
Definition fields_text {A} (f : A → list string) (g : list string → option A)
    (H : ∀ x, g (f x) = Some x) : Text A.
Proof.
  refine {| to_text x := frame (f x); from_text s := unframe s ≫= g |}.
  intros x. rewrite unframe_frame. apply H.
Defined.

#[export] Instance string_text : Text string :=
  {| to_text x := x; from_text s := Some s; from_to_text x := eq_refl |}.

(** Binary digits, least first. *)
Fixpoint pos_text (p : positive) : string :=
  match p with
  | xH => ""
  | xO q => String "0" (pos_text q)
  | xI q => String "1" (pos_text q)
  end.
Fixpoint text_pos (s : string) : option positive :=
  match s with
  | "" => Some xH
  | String "0" s' => xO <$> text_pos s'
  | String "1" s' => xI <$> text_pos s'
  | _ => None
  end.
Lemma text_pos_text p : text_pos (pos_text p) = Some p.
Proof. induction p as [p IH|p IH|]; simpl; rewrite ?IH; done. Qed.

#[export] Instance Z_text : Text Z.
Proof.
  refine {| to_text z := match z with
              | Z0 => "0" | Zpos p => String "+" (pos_text p) | Zneg p => String "-" (pos_text p) end;
            from_text s := match s with
              | "0" => Some 0
              | String "+" t => Zpos <$> text_pos t
              | String "-" t => Zneg <$> text_pos t
              | _ => None end |}.
  intros [|p|p]; simpl; rewrite ?text_pos_text; done.
Defined.

#[export] Instance bool_text : Text bool.
Proof.
  refine {| to_text b := if b : bool then "true" else "false";
            from_text s := Some (s =s "true") |}.
  by intros [].
Defined.

Section containers.
Context {A B : Type} `{!Text A} `{!Text B}.

Lemma mapM_from_to l : mapM from_text (to_text <$> l : list string) = Some (l : list A).
Proof. apply mapM_fmap_Some, from_to_text. Qed.

#[export] Instance list_text : Text (list A).
Proof. refine (fields_text (fmap to_text) (mapM from_text) mapM_from_to). Defined.

#[export] Instance prod_text : Text (A * B).
Proof.
  refine (fields_text (λ x, [to_text x.1; to_text x.2])
    (λ l, match l with [t; u] => x ← from_text t; y ← from_text u; Some (x, y) | _ => None end) _).
  intros [x y]. by rewrite !from_to_text.
Defined.

#[export] Instance option_text : Text (option A).
Proof.
  refine (fields_text (λ x, match x with Some y => [to_text y] | None => [] end)
    (λ l, match l with [t] => Some <$> from_text t | [] => Some None | _ => None end) _).
  intros [x|]; [|done]. by rewrite from_to_text.
Defined.
End containers.

#[export] Instance gmap_text {V} `{!Text V} : Text (gmap string V).
Proof.
  refine {| to_text (m : gmap string V) := to_text (A := list (string * V)) (map_to_list m);
            from_text s := list_to_map <$> from_text (A := list (string * V)) s |}.
  intros m. rewrite from_to_text. cbn [fmap option_fmap option_map]. by rewrite list_to_map_to_list.
Defined.

#[export] Instance byte_text : Text Byte.byte.
Proof.
  refine {| to_text b := to_text (Z.of_N (Byte.to_N b));
            from_text s := z ← from_text (A := Z) s; Byte.of_N (Z.to_N z) |}.
  intros b. rewrite from_to_text. cbn [mbind option_bind]. by rewrite N2Z.id, Byte.of_to_N.
Defined.

#[export] Instance Phase_text : Text Phase.
Proof.
  refine (fields_text
    (λ x, match x with
      | Pending => ["0"] | Creating => ["1"] | Running => ["2"] | Deleting => ["3"]
      | Deleted => ["4"] | TimedOut => ["5"] | OtherPhase s => ["6"; s] end)
    (λ l, match l with
      | ["0"] => Some Pending | ["1"] => Some Creating | ["2"] => Some Running
      | ["3"] => Some Deleting | ["4"] => Some Deleted | ["5"] => Some TimedOut
      | ["6"; s] => Some (OtherPhase s) | _ => None end) _).
  by intros [].
Defined.

#[export] Instance Outcome_text : Text Outcome.
Proof.
  refine (fields_text
    (λ x, match x with
      | NoOutcome => ["0"] | CapacityRejected => ["1"] | Unknown => ["2"] | CoolingDown => ["3"]
      | OtherOutcome s => ["4"; s] end)
    (λ l, match l with
      | ["0"] => Some NoOutcome | ["1"] => Some CapacityRejected | ["2"] => Some Unknown
      | ["3"] => Some CoolingDown | ["4"; s] => Some (OtherOutcome s) | _ => None end) _).
  by intros [].
Defined.

#[export] Instance GCPSkuRefs_text : Text GCPSkuRefs.
Proof.
  refine (fields_text
    (λ x : GCPSkuRefs,
      [to_text (CoreSkuID x); to_text (RamSkuID x)])
    (λ l, match l with
      | [t0; t1] =>
        v0 ← from_text t0; v1 ← from_text t1;
        Some {| CoreSkuID := v0; RamSkuID := v1 |}
      | _ => None
      end) _).
  intros x. cbn beta iota. rewrite !from_to_text. by destruct x.
Defined.

#[export] Instance ResourceReference_text : Text ResourceReference.
Proof.
  refine (fields_text
    (λ x : ResourceReference,
      [to_text (Kind x); to_text (ref_ID x); to_text (UID x)])
    (λ l, match l with
      | [t0; t1; t2] =>
        v0 ← from_text t0; v1 ← from_text t1; v2 ← from_text t2;
        Some {| Kind := v0; ref_ID := v1; UID := v2 |}
      | _ => None
      end) _).
  intros x. cbn beta iota. rewrite !from_to_text. by destruct x.
Defined.

#[export] Instance Offering_text : Text Offering.
Proof.
  refine (fields_text
    (λ x : Offering,
      [to_text (off_ID x); to_text (off_Provider x); to_text (off_Region x); to_text (off_Zone x);
      to_text (off_Machine x); to_text (off_Image x); to_text (off_CPU x); to_text (off_MemoryMiB
      x); to_text (off_Architecture x); to_text (off_Vendor x); to_text (off_Capabilities x);
      to_text (off_Spot x); to_text (off_PriceMicros x); to_text (off_Currency x); to_text
      (off_ObservedAt x); to_text (off_GCPSkuRefs x)])
    (λ l, match l with
      | [t0; t1; t2; t3; t4; t5; t6; t7; t8; t9; t10; t11; t12; t13; t14; t15] =>
        v0 ← from_text t0; v1 ← from_text t1; v2 ← from_text t2; v3 ← from_text t3; v4 ← from_text
        t4; v5 ← from_text t5; v6 ← from_text t6; v7 ← from_text t7; v8 ← from_text t8; v9 ←
        from_text t9; v10 ← from_text t10; v11 ← from_text t11; v12 ← from_text t12; v13 ←
        from_text t13; v14 ← from_text t14; v15 ← from_text t15;
        Some {| off_ID := v0; off_Provider := v1; off_Region := v2; off_Zone := v3; off_Machine :=
        v4; off_Image := v5; off_CPU := v6; off_MemoryMiB := v7; off_Architecture := v8;
        off_Vendor := v9; off_Capabilities := v10; off_Spot := v11; off_PriceMicros := v12;
        off_Currency := v13; off_ObservedAt := v14; off_GCPSkuRefs := v15 |}
      | _ => None
      end) _).
  intros x. cbn beta iota. rewrite !from_to_text. by destruct x.
Defined.

#[export] Instance Catalog_text : Text Catalog.
Proof.
  refine (fields_text
    (λ x : Catalog,
      [to_text (Offerings x); to_text (Complete x)])
    (λ l, match l with
      | [t0; t1] =>
        v0 ← from_text t0; v1 ← from_text t1;
        Some {| Offerings := v0; Complete := v1 |}
      | _ => None
      end) _).
  intros x. cbn beta iota. rewrite !from_to_text. by destruct x.
Defined.

#[export] Instance Requirements_text : Text Requirements.
Proof.
  refine (fields_text
    (λ x : Requirements,
      [to_text (req_CPU x); to_text (req_MemoryMiB x); to_text (req_Architecture x); to_text
      (req_Vendor x); to_text (req_Capabilities x); to_text (req_Providers x); to_text
      (req_Regions x); to_text (req_MaxPriceMicros x); to_text (req_AllowOnDemand x); to_text
      (req_Policy x)])
    (λ l, match l with
      | [t0; t1; t2; t3; t4; t5; t6; t7; t8; t9] =>
        v0 ← from_text t0; v1 ← from_text t1; v2 ← from_text t2; v3 ← from_text t3; v4 ← from_text
        t4; v5 ← from_text t5; v6 ← from_text t6; v7 ← from_text t7; v8 ← from_text t8; v9 ←
        from_text t9;
        Some {| req_CPU := v0; req_MemoryMiB := v1; req_Architecture := v2; req_Vendor := v3;
        req_Capabilities := v4; req_Providers := v5; req_Regions := v6; req_MaxPriceMicros := v7;
        req_AllowOnDemand := v8; req_Policy := v9 |}
      | _ => None
      end) _).
  intros x. cbn beta iota. rewrite !from_to_text. by destruct x.
Defined.

#[export] Instance Allocation_text : Text Allocation.
Proof.
  refine (fields_text
    (λ x : Allocation,
      [to_text (Resources x); to_text (RejectedAt x); to_text (Completed x); to_text (ID x);
      to_text (Revision x); to_text (al_Phase x); to_text (Deadline x); to_text (Attempts x);
      to_text (MaxAttempts x); to_text (al_Offering x); to_text (Outcomes x); to_text (al_Catalog
      x); to_text (al_Requirements x); to_text (ResourceID x); to_text (Ready x); to_text (Retire
      x); to_text (Condition x); to_text (RunID x); to_text (Owner x); to_text (Repo x); to_text
      (ScaleSetJobID x); to_text (RetryProcessed x); to_text (NetworkProfile x); to_text
      (WireGuardPublicKey x); to_text (WireGuardOverlayAddress x); to_text (WireGuardEndpoint x);
      to_text (WireGuardPollTokenHash x); to_text (TerminalAt x)])
    (λ l, match l with
      | [t0; t1; t2; t3; t4; t5; t6; t7; t8; t9; t10; t11; t12; t13; t14; t15; t16; t17; t18; t19;
      t20; t21; t22; t23; t24; t25; t26; t27] =>
        v0 ← from_text t0; v1 ← from_text t1; v2 ← from_text t2; v3 ← from_text t3; v4 ← from_text
        t4; v5 ← from_text t5; v6 ← from_text t6; v7 ← from_text t7; v8 ← from_text t8; v9 ←
        from_text t9; v10 ← from_text t10; v11 ← from_text t11; v12 ← from_text t12; v13 ←
        from_text t13; v14 ← from_text t14; v15 ← from_text t15; v16 ← from_text t16; v17 ←
        from_text t17; v18 ← from_text t18; v19 ← from_text t19; v20 ← from_text t20; v21 ←
        from_text t21; v22 ← from_text t22; v23 ← from_text t23; v24 ← from_text t24; v25 ←
        from_text t25; v26 ← from_text t26; v27 ← from_text t27;
        Some {| Resources := v0; RejectedAt := v1; Completed := v2; ID := v3; Revision := v4;
        al_Phase := v5; Deadline := v6; Attempts := v7; MaxAttempts := v8; al_Offering := v9;
        Outcomes := v10; al_Catalog := v11; al_Requirements := v12; ResourceID := v13; Ready :=
        v14; Retire := v15; Condition := v16; RunID := v17; Owner := v18; Repo := v19;
        ScaleSetJobID := v20; RetryProcessed := v21; NetworkProfile := v22; WireGuardPublicKey :=
        v23; WireGuardOverlayAddress := v24; WireGuardEndpoint := v25; WireGuardPollTokenHash :=
        v26; TerminalAt := v27 |}
      | _ => None
      end) _).
  intros x. cbn beta iota. rewrite !from_to_text. by destruct x.
Defined.

Definition word_marshal (a : Allocation) : result string := inr (to_text a).
Definition word_decode (s : string) : result (Allocation * bool) :=
  match from_text s with
  | Some a => inr (a, false)
  | None => inl (errors_new "invalid document")
  end.

Lemma word_decode_marshal a s : True → word_marshal a = inr s → word_decode s = inr (a, false).
Proof.
  unfold word_marshal, word_decode. generalize (from_to_text a). generalize (to_text a).
  intros t Ht _ [= <-]. by rewrite Ht.
Qed.

#[export] Instance word_codec : AllocationCodec := {|
  marshal := word_marshal;
  decode_first := word_decode;
  encodable := λ _, True;
  marshal_encodable := λ a _, ex_intro _ _ eq_refl;
  decode_marshal := word_decode_marshal
|}.

Lemma all_encodable a : encodable a.
Proof. exact I. Qed.

(** ** The API server *)

(** A stored object; its name is the key it is stored under and its version
    is the text [v] followed by a suffix, so it is never empty. *)
Record stored := Stored { st_suffix : string; st_labels : gmap string string; st_data : gmap string string }.

Record world := World { stored_objects : gmap string stored; retired_versions : gset string }.

Definition version_of (o : stored) : string := String "v" (st_suffix o).

Definition to_cm (n : string) (o : stored) : ConfigMap :=
  {| cm_Name := n; cm_ResourceVersion := version_of o; cm_Labels := st_labels o; cm_Data := st_data o |}.

Definition world_objects (w : world) : gmap string ConfigMap := map_imap (λ n o, Some (to_cm n o)) (stored_objects w).

Definition world_versions (w : world) : gset string :=
  retired_versions w ∪ list_to_set ((version_of ∘ snd) <$> map_to_list (stored_objects w)).

(** A suffix that gives a version not used so far. *)
Definition fresh_suffix (w : world) : string :=
  base.fresh (set_map (D := gset string) (λ s, match s with String _ s' => s' | "" => "" end) (world_versions w)).

Definition put (cm : ConfigMap) (w : world) : world * result ConfigMap :=
  let o := Stored (fresh_suffix w) (cm_Labels cm) (cm_Data cm) in
  (World (<[cm_Name cm := o]> (stored_objects w)) (world_versions w), inr (to_cm (cm_Name cm) o)).

Definition not_found : error := Err "not found" [APINotFound].

#[export] Instance world_api : ConfigMapAPI world := {|
  cm_get n w := (w, match world_objects w !! n with Some cm => inr cm | None => inl not_found end);
  cm_create cm w :=
    match stored_objects w !! cm_Name cm with
    | Some _ => (w, inl (Err "already exists" [APIAlreadyExists]))
    | None => put cm w
    end;
  cm_update cm w :=
    match stored_objects w !! cm_Name cm with
    | Some o => if version_of o =s cm_ResourceVersion cm then put cm w
                else (w, inl (Err "conflict" [APIConflict]))
    | None => (w, inl not_found)
    end;
  cm_delete n w :=
    match stored_objects w !! n with
    | Some _ => (World (delete n (stored_objects w)) (world_versions w), None)
    | None => (w, Some not_found)
    end;
  cm_list sel w :=
    (w, inr (List.filter (λ cm, bool_decide (sel ⊆ cm_Labels cm)) (snd <$> map_to_list (world_objects w))));
  objects := world_objects;
  versions := world_versions
|}.

Lemma world_lookup w n : world_objects w !! n = to_cm n <$> stored_objects w !! n.
Proof. unfold world_objects. rewrite map_lookup_imap. by destruct (stored_objects w !! n). Qed.

Lemma stored_version w n o : stored_objects w !! n = Some o → version_of o ∈ world_versions w.
Proof.
  intros Ho. unfold world_versions. apply elem_of_union_r, elem_of_list_to_set, list_elem_of_fmap.
  exists (n, o). split; [done|]. by apply elem_of_map_to_list.
Qed.

Lemma fresh_suffix_fresh w : String "v" (fresh_suffix w) ∉ world_versions w.
Proof.
  intros Hin. unfold fresh_suffix in Hin.
  set (tails := set_map _ _) in Hin. apply (is_fresh (C := gset string) tails).
  unfold tails at 2. apply elem_of_map. eexists. split; [|exact Hin]. reflexivity.
Qed.

Lemma put_written cm w w' r :
  put cm w = (w', r) → ∃ cm', r = inr cm' ∧ written w w' cm cm'.
Proof.
  unfold put. intros [= <- <-]. eexists. split; [done|]. exists (String "v" (fresh_suffix w)).
  split_and!; [apply fresh_suffix_fresh|done|done| |].
  - simpl. apply map_eq. intros n. rewrite world_lookup. simpl. rewrite !lookup_insert.
    case_decide; subst; [done|]. by rewrite world_lookup.
  - simpl. unfold world_versions at 1. simpl.
    assert (∀ v, v ∈ (version_of ∘ snd) <$> map_to_list
      (<[cm_Name cm:=Stored (fresh_suffix w) (cm_Labels cm) (cm_Data cm)]> (stored_objects w)) →
      v = String "v" (fresh_suffix w) ∨ v ∈ world_versions w) as Hv.
    { intros v ([n o] & -> & Ho%elem_of_map_to_list)%list_elem_of_fmap. simpl.
      apply lookup_insert_Some in Ho as [[_ <-]|[_ Ho]]; [by left|right; by eapply stored_version]. }
    apply set_eq. intros v. rewrite !elem_of_union, elem_of_list_to_set, elem_of_singleton.
    split; [naive_solver|]. intros [->|?]; [|by left]. right. apply list_elem_of_fmap.
    eexists (cm_Name cm, _). split; [|apply elem_of_map_to_list, lookup_insert_eq]. done.
Qed.

#[export] Instance world_laws : ConfigMapLaws world.
Proof.
  split.
  - intros w n cm. simpl. rewrite world_lookup. intros (o & Ho & ->)%fmap_Some.
    split_and!; [done|by eapply stored_version|done].
  - intros n w w' r [= <- <-]. do 2 (split; [done|]). simpl. by destruct (world_objects w !! n) eqn:Hn.
  - intros sel w w' r [= <- <-]. do 2 (split; [done|]).
    assert (∀ n cm, world_objects w !! n = Some cm → cm_Name cm = n) as Hname.
    { intros n cm. rewrite world_lookup. by intros (o & _ & ->)%fmap_Some. }
    split.
    + assert (NoDup (cm_Name <$> (snd <$> map_to_list (world_objects w)))) as Hnd.
      { rewrite <- list_fmap_compose. rewrite (list_fmap_ext _ fst); [apply NoDup_fst_map_to_list|].
        intros i [n cm] Hi%list_elem_of_lookup_2%elem_of_map_to_list. by apply Hname. }
      induction (snd <$> _) as [|cm l IH]; simpl; [constructor|].
      apply NoDup_cons in Hnd as [Hni Hnd]. case_bool_decide; [|by apply IH]. csimpl.
      apply NoDup_cons. split; [|by apply IH].
      intros (c & Hc & Hin)%list_elem_of_fmap. apply Hni. rewrite Hc. apply list_elem_of_fmap_2.
      rewrite list_elem_of_In in Hin. apply filter_In in Hin as [Hin _]. by rewrite list_elem_of_In.
    + intros cm. rewrite list_elem_of_In, filter_In, <- list_elem_of_In, list_elem_of_fmap.
      rewrite bool_decide_eq_true. simpl. split.
      * intros [([n c] & -> & Hc%elem_of_map_to_list) Hsel]. simpl. by rewrite (Hname _ _ Hc).
      * intros [Ho Hsel]. split; [|done]. exists (cm_Name cm, cm). by rewrite elem_of_map_to_list.
  - intros cm w w' r. simpl. destruct (stored_objects w !! cm_Name cm) eqn:Ho; intros Hc.
    + injection Hc as <- <-. by left.
    + apply put_written in Hc as (cm' & -> & Hw). rewrite world_lookup, Ho. done.
  - intros cm w w' r. cbn [cm_update world_api objects versions]. destruct (stored_objects w !! cm_Name cm) as [o|] eqn:Ho; intros Hc.
    + destruct (String.eqb_spec (version_of o) (cm_ResourceVersion cm)) as [Hv|];
        [|injection Hc as <- <-; by left].
      apply put_written in Hc as (cm' & -> & Hw). rewrite world_lookup, Ho. simpl. eauto.
    + injection Hc as <- <-. by left.
  - intros n w w' r. simpl. destruct (stored_objects w !! n) as [o|] eqn:Ho; intros [= <- <-]; simpl.
    + split.
      * unfold world_versions at 1. simpl. apply set_eq. intros v.
        rewrite elem_of_union, elem_of_list_to_set, list_elem_of_fmap. split; [|by left].
        intros [?|([m o'] & -> & Hm%elem_of_map_to_list)]; [done|].
        apply lookup_delete_Some in Hm as [_ Hm]. by eapply stored_version.
      * apply map_eq. intros m. rewrite world_lookup. simpl. rewrite !lookup_delete.
        case_decide; [done|]. by rewrite world_lookup.
    + split; [done|]. left. split; [done|]. intros _. by rewrite world_lookup, Ho.
Qed.

(** ** Executions *)

Definition ex_owner : string := "ns/set".
Definition ex_now : time := PlacementExample.now.

(** A pending allocation of the pool of PlacementExample. *)
Definition ex_pending : Allocation :=
  {| Resources := []; RejectedAt := ∅; Completed := false; ID := "runner-1"; Revision := "";
     al_Phase := Pending; Deadline := ex_now + Hour; Attempts := 0; MaxAttempts := 3;
     al_Offering := zero_offering; Outcomes := ∅; al_Catalog := PlacementExample.catalog;
     al_Requirements := PlacementExample.requirements; ResourceID := ""; Ready := false;
     Retire := false; Condition := ""; RunID := 0; Owner := ""; Repo := ""; ScaleSetJobID := "";
     RetryProcessed := false; NetworkProfile := ""; WireGuardPublicKey := [];
     WireGuardOverlayAddress := ""; WireGuardEndpoint := ""; WireGuardPollTokenHash := [];
     TerminalAt := zero_time |}.

Definition ex_disk : ResourceReference := {| Kind := "disk"; ref_ID := "d-1"; UID := "" |}.

Definition ex_empty : world := World ∅ ∅.
Definition ex_save a rev w := Kubernetes_Save ex_owner a rev w.
Definition ex_w1 : world := fst (ex_save ex_pending "" ex_empty).
Definition ex_rev : string := "v0".

Lemma ex_created : ex_save ex_pending "" ex_empty = (ex_w1, inr (set_Revision ex_rev ex_pending)).
Proof. vm_compute. reflexivity. Qed.

(** ** The store *)

(** A second writer adds a dependency. *)
Definition ex_a2 : Allocation := set_Resources [ex_disk] (set_Revision ex_rev ex_pending).
Definition ex_w2 : world := fst (ex_save ex_a2 ex_rev ex_w1).

Lemma ex_updated : ex_save ex_a2 ex_rev ex_w1 = (ex_w2, inr (set_Revision "v1" ex_a2)).
Proof. vm_compute. reflexivity. Qed.

Lemma save_then_load_witness :
  ex_save ex_a2 ex_rev ex_w1 = (ex_w2, inr (set_Revision "v1" ex_a2)) ∧
  snd (Kubernetes_Load ex_owner "runner-1" ex_w2) = inr (set_Revision "v1" ex_a2).
Proof.
  split; [exact ex_updated|].
  destruct (Kubernetes_Load ex_owner "runner-1" ex_w2) as [w3 r] eqn:Hl.
  destruct (save_then_load ex_owner ex_a2 ex_rev ex_w1 ex_w2 (set_Revision "v1" ex_a2) ex_w2 w3 r
    (λ _ _ _, all_encodable _) ex_updated eq_refl Hl) as (_ & _ & _ & [->|(e & _ & He)]); [reflexivity|].
  vm_compute in He. discriminate.
Defined.


Definition ex_a3 : Allocation := set_Retire true (set_Revision "v1" ex_a2).
Definition ex_w3 : world := fst (ex_save ex_a3 "v1" ex_w2).

Lemma ex_updated_again : ex_save ex_a3 "v1" ex_w2 = (ex_w3, inr (set_Revision "v2" ex_a3)).
Proof. vm_compute. reflexivity. Qed.


Lemma delete_only_owned_witness :
  snd (Kubernetes_Delete "ns/other" "runner-1" ex_w2) ≠ None ∧
  objects (fst (Kubernetes_Delete ex_owner "runner-1" ex_w2)) !! "runner-1" = None.
Proof.
  destruct (Kubernetes_Delete "ns/other" "runner-1" ex_w2) as [w r] eqn:Hd.
  destruct (Kubernetes_Delete ex_owner "runner-1" ex_w2) as [w' r'] eqn:Hd'. simpl. split.
  - destruct (objects ex_w2 !! "runner-1") as [cm|] eqn:Hl; [|vm_compute in Hl; discriminate].
    apply (delete_only_owned "ns/other" "runner-1" ex_w2 w r Hd) with (cm := cm); [exact Hl|].
    vm_compute in Hl. injection Hl as <-. reflexivity.
  - apply (delete_only_owned ex_owner "runner-1" ex_w2 w' r' Hd').
    assert (r' = snd (Kubernetes_Delete ex_owner "runner-1" ex_w2)) as -> by (by rewrite Hd').
    vm_compute. reflexivity.
Defined.

Lemma list_exact_witness :
  ∃ w' out, Kubernetes_List ex_owner ex_w2 = (w', inr out) ∧ NoDup (ID <$> out) ∧
    listed ex_owner ex_w2 (set_Revision "v1" ex_a2).
Proof.
  assert (Kubernetes_List ex_owner ex_w2 = (ex_w2, inr [set_Revision "v1" ex_a2])) as Hl
    by (vm_compute; reflexivity).
  destruct (list_exact ex_owner ex_w2 _ _ Hl) as (_ & Hnd & Hin).
  exists ex_w2, [set_Revision "v1" ex_a2]. split; [exact Hl|]. split; [exact Hnd|].
  apply Hin. left.
Defined.

(** ** Concurrent controllers *)

(** A provider that creates and reports one machine. *)
Definition ex_env (X : Type) (e : lifecycleE X) (p : unit) : unit * X :=
  (p, match e in lifecycleE X return X with
      | Load _ => inl (errors_new "")
      | Save _ _ => inl (errors_new "")
      | Now => ex_now
      | Create _ _ => ("i-1", None)
      | CreateWithResources _ _ =>
          ({| cr_ResourceID := "i-1"; cr_Resources := [ex_disk]; cr_WireGuardPublicKey := [];
              cr_WireGuardPollTokenHash := []; cr_WireGuardEndpoint := "" |}, None)
      | Observe _ _ | ReconcileCreation _ _ =>
          ({| ob_Resources := [ex_disk]; ob_Exists := true; ob_Known := true; ob_Interrupted := false;
              ob_ResourceID := "i-1" |}, None)
      | Delete _ _ => None
      | DeregisterRunner _ => None
      end).

Definition ex_controller : Controller :=
  {| Cooldowns := ∅; Runners := true;
     Providers := {["aws" := {| isResourceCreator := true; isCreationReconciler := true |}]} |}.

Lemma ex_clock p p' t : ex_env time Now p = (p', t) → t ≠ zero_time.
Proof. intros [= _ <-]. vm_compute. discriminate. Qed.


(** One call of thread [t]. *)
Definition exec1 (s : system) (t : nat) : system :=
  match sy_threads s !! t with
  | Some (Thread c i (Vis e k) h) =>
      let '((w', p'), x) := handler ex_owner ex_env _ e (sy_world s, sy_env s) in
      System w' p' (<[t := Thread c i (k x) (h ++ [ev e x])]> (sy_threads s))
  | _ => s
  end.

Lemma exec_reaches id s ts : rtc (sys_step ex_owner ex_env id) s (foldl exec1 s ts).
Proof.
  revert s. induction ts as [|t ts IH]; intros s; simpl; [constructor|].
  etrans; [|apply IH]. destruct s as [w p ths]. unfold exec1. cbn [sy_threads sy_world sy_env].
  destruct (ths !! t) as [[c i [r|X e k] h]|] eqn:Ht; [constructor| |constructor].
  destruct (handler ex_owner ex_env X e (w, p)) as [[w' p'] x] eqn:Hh. apply rtc_once. by eapply sys_call.
Qed.

Definition ex_start : system := System ex_w1 tt [].
Definition ex_two : system :=
  System ex_w1 tt [Thread ex_controller "runner-1" (Step ex_controller "runner-1") [];
                   Thread ex_controller "runner-1" (Step ex_controller "runner-1") []].

Lemma ex_two_reachable id : rtc (sys_step ex_owner ex_env id) ex_start ex_two.
Proof. do 2 (eapply rtc_l; [apply sys_start|]). constructor. Qed.

(** Both controllers load the record and read the clock; the first commits and
    creates, the second then fails to commit. *)
Definition ex_race : system := foldl exec1 ex_two [0; 1; 0; 1; 0; 1; 0; 1; 0]%nat.

Lemma ex_stored : ∃ cm, objects ex_w1 !! "runner-1" = Some cm ∧ decodeAllocation cm = inr ex_pending.
Proof.
  eexists. split; [vm_compute; reflexivity|]. vm_compute. reflexivity.
Qed.

Lemma ex_all_ok : all_ok ex_w1.
Proof.
  destruct ex_stored as (cm0 & Hl0 & Hd0). intros n cm a Hl Hd.
  destruct (decide (n = "runner-1")) as [->|Hn].
  - assert (a = ex_pending) as -> by congruence. clear. split; [vm_compute; reflexivity|].
    split; [by split|]. split; [done|]. split; [done|]. split; [discriminate|].
    split; [vm_compute; discriminate|]. split; [discriminate|]. intros Hz. by destruct Hz.
  - exfalso. revert Hl. simpl. rewrite world_lookup.
    assert (stored_objects ex_w1 !! n = None) as ->; [|done].
    change ex_w1 with (fst (put (allocation_map ex_owner "" ex_pending (to_text ex_pending)) ex_empty)).
    unfold put. cbn [fst stored_objects]. rewrite lookup_insert_ne by (by apply not_eq_sym).
    apply lookup_empty.
Qed.



(** ** Histories of single steps *)

Definition ex_history : history :=
  run_history (handler ex_owner ex_env) (Step ex_controller "runner-1") (ex_w1, tt).
Definition ex_result : option error :=
  snd (run (handler ex_owner ex_env) (Step ex_controller "runner-1") (ex_w1, tt)).

(** The step on a retired record, which ends as TimedOut. *)
Definition ex_w_retired : world := fst (ex_save (set_Retire true ex_pending) "" ex_empty).
Definition ex_timeout_history : history :=
  run_history (handler ex_owner ex_env) (Step ex_controller "runner-1") (ex_w_retired, tt).
Definition ex_timeout_result : option error :=
  snd (run (handler ex_owner ex_env) (Step ex_controller "runner-1") (ex_w_retired, tt)).

Lemma sound_after_save a w : sound_world w → sound_world (fst (ex_save a "" w)).
Proof.
  intros Hw. destruct (ex_save a "" w) as [w' r] eqn:Hs.
  exact (save_sound ex_owner all_encodable "" a w w' r Hw Hs).
Qed.

Lemma sound_empty : sound_world ex_empty.
Proof. by intros n cm a Hl. Qed.

Lemma ex_trace : trace_of (Step ex_controller "runner-1") ex_history ex_result ∧
  Forall (respects store_contract) ex_history.
Proof.
  split; [exact (run_trace (handler ex_owner ex_env) (Step ex_controller "runner-1") (ex_w1, tt))|].
  refine (proj1 (run_respects (handler ex_owner ex_env) (λ s : world * unit, sound_world (fst s))
    store_contract (Step ex_controller "runner-1") (ex_w1, tt)
    (handler_implements ex_owner ex_env all_encodable ex_clock) _)).
  exact (sound_after_save ex_pending ex_empty sound_empty).
Qed.

Lemma ex_timeout_trace : trace_of (Step ex_controller "runner-1") ex_timeout_history ex_timeout_result ∧
  Forall (respects store_contract) ex_timeout_history.
Proof.
  split; [exact (run_trace (handler ex_owner ex_env) (Step ex_controller "runner-1") (ex_w_retired, tt))|].
  refine (proj1 (run_respects (handler ex_owner ex_env) (λ s : world * unit, sound_world (fst s))
    store_contract (Step ex_controller "runner-1") (ex_w_retired, tt)
    (handler_implements ex_owner ex_env all_encodable ex_clock) _)).
  exact (sound_after_save _ ex_empty sound_empty).
Qed.

Lemma step_intent_first_witness :
  ∃ pre v post a, ex_history = pre ++ v :: post ∧ create_arg v = Some a ∧
    ∃ loaded, head pre = Some (ev (Load "runner-1") (inr loaded)) ∧ al_Phase loaded = Pending.
Proof.
  destruct ex_trace as [Ht _].
  pose proof (step_intent_first ex_controller "runner-1" ex_history ex_result Ht
    ltac:(apply Forall_true; done)) as Hall.
  eexists (take 3 ex_history), _, (drop 4 ex_history), _.
  assert (ex_history = take 3 ex_history ++ nth 3 ex_history (ev Now 0) :: drop 4 ex_history) as Heq
    by (vm_compute; reflexivity).
  split; [exact Heq|]. split; [vm_compute; reflexivity|].
  destruct (Hall _ _ _ Heq _ ltac:(vm_compute; reflexivity)) as (l & now & a0 & outs & -> & Hp & _).
  exists l. split; [reflexivity|exact Hp].
Defined.

Lemma step_phase_graph_witness :
  (1 <? length (List.filter (λ v, isSome (save_arg v)) ex_history))%nat = true ∧
  at_every (λ pre v, ∀ a, save_arg v = Some a →
    ∃ a0, current pre = Some a0 ∧ ID a = ID a0 ∧ phase_edge (al_Phase a0) (al_Phase a)) ex_history.
Proof.
  split; [vm_compute; reflexivity|]. destruct ex_trace as [Ht Hr].
  exact (step_phase_graph ex_controller "runner-1" _ _ Ht Hr).
Defined.

Lemma step_terminal_justified_witness :
  ∃ pre v post a, ex_timeout_history = pre ++ v :: post ∧ save_arg v = Some a ∧
    al_Phase a = TimedOut ∧ existsb (deregistered (ID a)) pre = true.
Proof.
  destruct ex_timeout_trace as [Ht Hr].
  pose proof (step_terminal_justified ex_controller "runner-1" _ _ Ht Hr) as Hall.
  assert (ex_timeout_history = take 3 ex_timeout_history ++
    nth 3 ex_timeout_history (ev Now 0) :: drop 4 ex_timeout_history) as Heq by (vm_compute; reflexivity).
  eexists _, _, _, _. split; [exact Heq|]. split; [vm_compute; reflexivity|]. split; [reflexivity|].
  exact (proj2 (proj2 (proj2 (Hall _ _ _ Heq _ ltac:(vm_compute; reflexivity) eq_refl))) eq_refl).
Defined.

Lemma step_retains_resources_witness :
  at_every (λ pre v, ∀ a a0, save_arg v = Some a → current pre = Some a0 →
    keeps (Resources a0) (Resources a)) ex_history.
Proof.
  destruct ex_trace as [Ht Hr]. exact (step_retains_resources ex_controller "runner-1" _ _ Ht Hr).
Defined.

Lemma step_no_blind_retry_witness :
  existsb (λ v, isSome (create_answer v)) ex_history = true ∧
  at_every (λ pre v, ∀ a w empty e,
    save_arg v = Some a → w ∈ pre → create_answer w = Some (empty, e) →
    (al_Phase a = Pending → empty = true ∧ (is_err e ErrNoEffect || is_err e ErrCapacity) = true) ∧
    (al_Phase a = Running → e = None) ∧
    (al_Phase a = Pending ∨ al_Phase a = Creating ∨ al_Phase a = Running)) ex_history.
Proof.
  split; [vm_compute; reflexivity|]. destruct ex_trace as [Ht Hr].
  exact (step_no_blind_retry ex_controller "runner-1" _ _ Ht Hr).
Defined.

Lemma step_provider_calls_witness : (length (List.filter is_mutation ex_history) ≤ 1)%nat.
Proof.
  destruct ex_trace as [Ht _].
  exact (proj1 (step_provider_calls ex_controller "runner-1" _ _ Ht ltac:(apply Forall_true; done))).
Defined.

Lemma step_preserves_record_witness :
  at_every (λ pre v, ∀ a a0,
    save_arg v = Some a → current pre = Some a0 → record_ok a0 → record_ok a) ex_history.
Proof.
  destruct ex_trace as [Ht Hr]. exact (step_preserves_record ex_controller "runner-1" _ _ Ht Hr).
Defined.
