(* ===== verification/Overlay.v ===== *)
(** * Overlay addresses
    (internal/wireguard/overlay.go)

    The addresses and prefixes of net/netip as the code uses them, [lastAddr]
    with its byte loop, and the scan of [NextOverlayAddress].  The text forms of
    addresses and prefixes are the interface [NetText]. *)
From S2P Require Import Prelude.

(** ** net/netip *)

(** A valid address without zone: its family and its value. *)
Record Addr := { Is4 : bool; addr_val : Z }.

#[export] Instance Addr_eq_dec : EqDecision Addr.
Proof. solve_decision. Defined.

Definition BitLen (a : Addr) : Z := if Is4 a then 32 else 128.
Definition addr_ok (a : Addr) : Prop := 0 ≤ addr_val a < 2 ^ BitLen a.

(** The address after [a]; none after the last of the family. *)
Definition addr_Next (a : Addr) : option Addr :=
  if addr_val a + 1 =? 2 ^ BitLen a then None
  else Some {| Is4 := Is4 a; addr_val := addr_val a + 1 |}.

(** An IPv4-mapped IPv6 address, in ::ffff:0:0/96. *)
Definition Is4In6 (a : Addr) : bool := negb (Is4 a) && (addr_val a / 2 ^ 32 =? 65535).

Definition Unmap (a : Addr) : Addr :=
  if Is4In6 a then {| Is4 := true; addr_val := addr_val a mod 2 ^ 32 |} else a.

(** Little-endian digits; [AsSlice] is their reverse. *)
Fixpoint to_bytes (n : nat) (v : Z) : list Z :=
  match n with O => [] | S n => v mod 256 :: to_bytes n (v / 256) end.
Fixpoint of_bytes (l : list Z) : Z :=
  match l with [] => 0 | b :: l => b + 256 * of_bytes l end.

Definition AsSlice (a : Addr) : list Z := rev (to_bytes (if Is4 a then 4 else 16) (addr_val a)).

Definition AddrFromSlice (l : list Z) : option Addr :=
  if (length l =? 4)%nat then Some {| Is4 := true; addr_val := of_bytes (rev l) |}
  else if (length l =? 16)%nat then Some {| Is4 := false; addr_val := of_bytes (rev l) |}
  else None.

Record Prefix := { pfx_Addr : Addr; pfx_Bits : Z }.

#[export] Instance Prefix_eq_dec : EqDecision Prefix.
Proof. solve_decision. Defined.

Definition hostBits (p : Prefix) : Z := BitLen (pfx_Addr p) - pfx_Bits p.
Definition prefix_ok (p : Prefix) : Prop := addr_ok (pfx_Addr p) ∧ 0 ≤ pfx_Bits p ≤ BitLen (pfx_Addr p).

Definition Masked (p : Prefix) : Prefix :=
  let a := pfx_Addr p in
  {| pfx_Addr := {| Is4 := Is4 a;
                    addr_val := Z.shiftl (Z.shiftr (addr_val a) (hostBits p)) (hostBits p) |};
     pfx_Bits := pfx_Bits p |}.

Definition Contains (p : Prefix) (a : Addr) : bool :=
  Bool.eqb (Is4 (pfx_Addr p)) (Is4 a) &&
  (Z.shiftr (addr_val (pfx_Addr p)) (hostBits p) =? Z.shiftr (addr_val a) (hostBits p)).

(** Text forms: a prefix that parses is well formed, and the text of an
    address determines it. *)
Class NetText := {
  ParsePrefix : string → result Prefix;
  addr_String : Addr → string;
  ParsePrefix_ok : ∀ s p, ParsePrefix s = inr p → prefix_ok p;
  addr_String_inj : ∀ a b, addr_ok a → addr_ok b → addr_String a = addr_String b → a = b
}.

(** ** lastAddr *)

(** The loop over the bytes, from the last one on. *)
Fixpoint set_host_bits (hostBits : Z) (bytes : list Z) : list Z :=
  match bytes with
  | [] => []
  | b :: bytes' =>
      if 0 <? hostBits then
        if 8 <=? hostBits then 255 :: set_host_bits (hostBits - 8) bytes'
        else Z.lor b (Z.shiftr 255 (8 - hostBits)) :: bytes'
      else b :: bytes'
  end.

Definition lastAddr (prefix : Prefix) : Addr :=
  let base := pfx_Addr prefix in
  let bytes := rev (set_host_bits (hostBits prefix) (rev (AsSlice base))) in
  match AddrFromSlice bytes with
  | None => base
  | Some addr => if Is4In6 base then Unmap addr else addr
  end.

(** ** NextOverlayAddress *)

Definition errOverlayAddressesExhausted : error :=
  Err "wireguard: overlay address pool exhausted" [ErrOverlayAddressesExhausted].

Section next.
Context `{NetText}.

(** The inner loop; the fuel bounds the number of addresses visited. *)
Fixpoint scan (fuel : nat) (prefix : Prefix) (last : Addr) (taken : gset string)
    (addr : option Addr) : option string :=
  match fuel, addr with
  | S fuel, Some a =>
      if bool_decide (a = last) || negb (Contains prefix a) then None
      else
        let s := addr_String a in
        if bool_decide (s ∈ taken) then scan fuel prefix last taken (addr_Next a) else Some s
  | _, _ => None
  end.

(** One more than the addresses of the prefix. *)
Definition scan_fuel (p : Prefix) : nat := S (Z.to_nat (2 ^ hostBits p)).

Fixpoint NextOverlayAddress (cidrs : list string) (taken : gset string) : result string :=
  match cidrs with
  | [] => inl errOverlayAddressesExhausted
  | c :: cidrs' =>
      match ParsePrefix c with
      | inl err => inl (Err ("wireguard: invalid overlay CIDR: " +:+ err_text err) (err_chain err))
      | inr p =>
          let prefix := Masked p in
          match scan (scan_fuel prefix) prefix (lastAddr prefix) taken (addr_Next (pfx_Addr prefix)) with
          | Some s => inr s
          | None => NextOverlayAddress cidrs' taken
          end
      end
  end.
End next.

(** ** Bytes *)

Lemma of_to_bytes n v : 0 ≤ v < 256 ^ Z.of_nat n → of_bytes (to_bytes n v) = v.
Proof.
  revert v. induction n as [|n IH]; intros v Hv; simpl; [lia|].
  rewrite IH; [pose proof (Z.div_mod v 256); lia|].
  rewrite Nat2Z.inj_succ, Z.pow_succ_r in Hv by lia. split; [apply Z.div_pos; lia|].
  apply Z.div_lt_upper_bound; lia.
Qed.

Lemma to_bytes_length n v : length (to_bytes n v) = n.
Proof. revert v. induction n as [|n IH]; intros v; simpl; [done|]. by rewrite IH. Qed.

Lemma set_host_bits_length h l : length (set_host_bits h l) = length l.
Proof.
  revert h. induction l as [|b l IH]; intros h; simpl; [done|].
  repeat case_match; simpl; auto.
Qed.

(** Setting low bits of a byte that has them clear adds them. *)
Lemma byte_or b h : 0 < h < 8 → 0 ≤ b < 256 → b mod 2 ^ h = 0 →
  Z.lor b (Z.shiftr 255 (8 - h)) = b + 2 ^ h - 1.
Proof.
  intros Hh Hb Hm.
  assert (h = 1 ∨ h = 2 ∨ h = 3 ∨ h = 4 ∨ h = 5 ∨ h = 6 ∨ h = 7) as Hcases by lia.
  assert (Z.land b (Z.ones h) = 0) as Hland by (rewrite Z.land_ones by lia; exact Hm).
  assert (Z.shiftr 255 (8 - h) = Z.ones h) as ->
    by (destruct Hcases as [->|[->|[->|[->|[->|[->| ->]]]]]]; reflexivity).
  rewrite <- Z.lxor_lor by done. rewrite <- Z.add_nocarry_lxor by done.
  rewrite Z.ones_equiv. lia.
Qed.

Lemma set_host_bits_value h n v :
  0 ≤ h ≤ 8 * Z.of_nat n → 0 ≤ v < 256 ^ Z.of_nat n → v mod 2 ^ h = 0 →
  of_bytes (set_host_bits h (to_bytes n v)) = v + 2 ^ h - 1.
Proof.
  revert h v. induction n as [|n IH]; intros h v Hh Hv Hm; simpl.
  - replace h with 0 by lia. simpl in *. lia.
  - assert (0 ≤ v / 256 < 256 ^ Z.of_nat n) as Hq.
    { rewrite Nat2Z.inj_succ, Z.pow_succ_r in Hv by lia. split; [apply Z.div_pos; lia|].
      apply Z.div_lt_upper_bound; lia. }
    pose proof (Z.div_mod v 256 ltac:(lia)) as Hdm.
    pose proof (Z.mod_pos_bound v 256 ltac:(lia)) as Hmod.
    destruct (Z.ltb_spec 0 h); [destruct (Z.leb_spec 8 h)|]; simpl.
    + assert (2 ^ h = 256 * 2 ^ (h - 8)) as Hp
        by (replace h with (8 + (h - 8)) at 1 by lia; rewrite Z.pow_add_r by lia; done).
      assert (0 < 2 ^ (h - 8)) by (apply Z.pow_pos_nonneg; lia).
      apply Z.mod_divide in Hm as [k Hk]; [|lia].
      assert (v = 256 * (k * 2 ^ (h - 8))) as Hv' by lia.
      assert (v / 256 = k * 2 ^ (h - 8)) as Hdiv by (rewrite Hv', Z.mul_comm, Z.div_mul; lia).
      rewrite IH; [lia|lia|done|]. rewrite Hdiv. apply Z.mod_mul. lia.
    + rewrite of_to_bytes by done. rewrite byte_or; [lia|lia|lia|].
      rewrite Z.mod_mod_divide; [done|]. exists (2 ^ (8 - h)).
      rewrite <- Z.pow_add_r by lia. by replace (8 - h + h) with 8 by lia.
    + replace h with 0 by lia. rewrite of_to_bytes by done. lia.
Qed.

(** ** Prefixes *)

(** The [k]-th address of a masked prefix. *)
Definition host (p : Prefix) (k : Z) : Addr :=
  {| Is4 := Is4 (pfx_Addr p); addr_val := addr_val (pfx_Addr p) + k |}.

Definition size_of (p : Prefix) : Z := 2 ^ hostBits p.

Definition masked (p : Prefix) : Prop := prefix_ok p ∧ addr_val (pfx_Addr p) mod size_of p = 0.

Lemma size_of_pos p : prefix_ok p → 0 < size_of p.
Proof. intros [_ Hb]. apply Z.pow_pos_nonneg; [lia|]. unfold hostBits. lia. Qed.

Lemma BitLen_nonneg a : 0 ≤ BitLen a.
Proof. unfold BitLen. destruct (Is4 a); lia. Qed.

Lemma Masked_masked p : prefix_ok p → masked (Masked p).
Proof.
  intros Hp. pose proof Hp as [[Hlo Hhi] Hb]. pose proof (size_of_pos p Hp) as Hs.
  unfold size_of in Hs. assert (0 ≤ hostBits p) by (unfold hostBits; lia).
  assert (addr_val (pfx_Addr (Masked p)) = (addr_val (pfx_Addr p) / 2 ^ hostBits p) * 2 ^ hostBits p) as Hv.
  { simpl. by rewrite Z.shiftl_mul_pow2, Z.shiftr_div_pow2. }
  pose proof (Z.mul_div_le (addr_val (pfx_Addr p)) (2 ^ hostBits p) Hs) as Hle.
  pose proof (Z.div_pos (addr_val (pfx_Addr p)) (2 ^ hostBits p) Hlo Hs) as Hpos.
  split; [split; [|exact Hb]; split|].
  - rewrite Hv. lia.
  - rewrite Hv. change (BitLen (pfx_Addr (Masked p))) with (BitLen (pfx_Addr p)). lia.
  - rewrite Hv. unfold size_of. change (hostBits (Masked p)) with (hostBits p). apply Z.mod_mul. lia.
Qed.

Section prefix.
Context (p : Prefix) (Hm : masked p).

Lemma masked_size : 0 < size_of p.
Proof using Hm. apply size_of_pos, Hm. Qed.

(** The whole prefix fits in the family. *)
Lemma masked_top : addr_val (pfx_Addr p) + size_of p ≤ 2 ^ BitLen (pfx_Addr p).
Proof using Hm.
  destruct Hm as [[[Hlo Hhi] Hb] Hmod]. pose proof masked_size as Hs.
  apply Z.mod_divide in Hmod as [k Hk]; [|lia].
  assert (2 ^ BitLen (pfx_Addr p) = 2 ^ pfx_Bits p * size_of p) as Ht.
  { unfold size_of, hostBits. rewrite <- Z.pow_add_r by lia. f_equal. lia. }
  rewrite Ht in Hhi |- *. rewrite Hk in *.
  assert (k < 2 ^ pfx_Bits p) by (by apply (Z.mul_lt_mono_pos_r (size_of p))). nia.
Qed.

Lemma host_ok k : 0 ≤ k < size_of p → addr_ok (host p k).
Proof using Hm.
  intros Hk. pose proof masked_top. destruct Hm as [[[Hlo Hhi] Hb] _].
  unfold addr_ok, host, BitLen in *. simpl in *. lia.
Qed.

Lemma Contains_host k : 0 ≤ k → Contains p (host p k) = (k <? size_of p).
Proof using Hm.
  intros Hk. pose proof masked_size as Hs. destruct Hm as [[[Hlo _] Hb] Hmod].
  assert (0 ≤ hostBits p) by (unfold hostBits; lia).
  unfold Contains, host. simpl. rewrite eqb_reflx. simpl.
  rewrite !Z.shiftr_div_pow2 by done. fold (size_of p).
  apply Z.mod_divide in Hmod as [q Hq]; [|lia].
  rewrite Hq, Z.div_mul by lia. rewrite Z.add_comm, Z.div_add by lia.
  destruct (Z.ltb_spec k (size_of p)) as [Hlt|Hge].
  - rewrite Z.div_small by lia. lia.
  - apply Z.eqb_neq. pose proof (Z.div_le_lower_bound k (size_of p) 1 Hs). lia.
Qed.

Lemma Next_host k : 0 ≤ k → k + 1 < size_of p → addr_Next (host p k) = Some (host p (k + 1)).
Proof using Hm.
  intros Hk Hlt. pose proof masked_top as Ht. unfold addr_Next, host, BitLen in *. simpl in *.
  destruct (Z.eqb_spec (addr_val (pfx_Addr p) + k + 1) (2 ^ (if Is4 (pfx_Addr p) then 32 else 128)));
    [lia|]. do 2 f_equal. lia.
Qed.

Lemma lastAddr_host : Is4In6 (pfx_Addr p) = false → lastAddr p = host p (size_of p - 1).
Proof using Hm.
  intros H46. destruct Hm as [[[Hlo Hhi] Hb] Hmod]. unfold lastAddr, AddrFromSlice, AsSlice.
  rewrite H46, !rev_involutive, length_rev, set_host_bits_length, to_bytes_length.
  unfold host, size_of, hostBits, BitLen in *. destruct (Is4 (pfx_Addr p)) eqn:H4; simpl Nat.eqb; cbv iota.
  - rewrite set_host_bits_value; [f_equal; lia|lia|done|done].
  - rewrite set_host_bits_value; [f_equal; lia|lia|done|done].
Qed.
End prefix.

(** ** The scan *)

Section scan.
Context `{NetText}.
Context (p : Prefix) (Hm : masked p) (last : Addr) (taken : gset string).

(** [k] is a host address: neither the first nor the last of the prefix. *)
Definition host_text (k : Z) : string := addr_String (host p k).

Lemma scan_prefix_spec fuel k :
  last = host p (size_of p - 1) → 0 < k < size_of p → size_of p - k < Z.of_nat fuel →
  match scan fuel p last taken (Some (host p k)) with
  | Some s => ∃ j, k ≤ j < size_of p - 1 ∧ s = host_text j ∧ s ∉ taken ∧
                ∀ i, k ≤ i < j → host_text i ∈ taken
  | None => ∀ i, k ≤ i < size_of p - 1 → host_text i ∈ taken
  end.
Proof using Hm.
  intros ->. revert k. induction fuel as [|fuel IH]; intros k Hk Hf; [lia|]. simpl.
  assert (bool_decide (host p k = host p (size_of p - 1)) = (k =? size_of p - 1)) as ->.
  { unfold host. case_bool_decide as Heq; symmetry; [apply Z.eqb_eq|apply Z.eqb_neq].
    - injection Heq. lia.
    - intros ->. by apply Heq. }
  rewrite (Contains_host p Hm) by lia.
  destruct (Z.eqb_spec k (size_of p - 1)) as [->|Hne]; simpl; [intros; lia|].
  destruct (Z.ltb_spec k (size_of p)); [|lia]. simpl.
  case_bool_decide as Ht.
  - rewrite (Next_host p Hm) by lia. specialize (IH (k + 1) ltac:(lia) ltac:(lia)).
    destruct (scan fuel p _ taken _) as [s|].
    + destruct IH as (j & Hj & -> & Hs & Hb). exists j. split_and!; [lia|lia|done|done|].
      intros i Hi. destruct (decide (i = k)) as [->|]; [done|]. apply Hb. lia.
    + intros i Hi. destruct (decide (i = k)) as [->|]; [done|]. apply IH. lia.
  - exists k. split_and!; [lia|lia|done|done|]. intros; lia.
Qed.

Lemma scan_all :
  last = host p (size_of p - 1) →
  match scan (scan_fuel p) p last taken (addr_Next (pfx_Addr p)) with
  | Some s => ∃ j, 0 < j < size_of p - 1 ∧ s = host_text j ∧ s ∉ taken ∧
                ∀ i, 0 < i < j → host_text i ∈ taken
  | None => ∀ i, 0 < i < size_of p - 1 → host_text i ∈ taken
  end.
Proof using Hm.
  intros Hlast. pose proof (masked_size p Hm) as Hs.
  assert (pfx_Addr p = host p 0) as Hbase by (unfold host; destruct (pfx_Addr p); simpl; f_equal; lia).
  destruct (decide (1 < size_of p)) as [Hbig|Hsmall].
  - rewrite Hbase, (Next_host p Hm) by lia.
    pose proof (scan_prefix_spec (scan_fuel p) (0 + 1) Hlast ltac:(lia)) as Hsp.
    assert (size_of p - (0 + 1) < Z.of_nat (scan_fuel p)) as Hf
      by (unfold scan_fuel, size_of in *; lia).
    specialize (Hsp Hf). destruct (scan _ _ _ _ _) as [s|].
    + destruct Hsp as (j & Hj & ? & ? & Hb). exists j. split_and!; try done; [lia|lia|].
      intros i Hi. apply Hb. lia.
    + intros i Hi. apply Hsp. lia.
  - destruct (scan _ _ _ _ _) as [s|] eqn:Hscan; [|intros; lia]. exfalso.
    unfold scan_fuel in Hscan. simpl in Hscan. destruct (addr_Next _) as [a|] eqn:Hn; [|done].
    assert (a = host p 1) as ->.
    { unfold addr_Next in Hn. destruct (_ =? _); [done|]. injection Hn as <-. done. }
    rewrite (Contains_host p Hm) in Hscan by lia.
    destruct (Z.ltb_spec 1 (size_of p)); [lia|]. simpl in Hscan. by rewrite orb_true_r in Hscan.
Qed.
End scan.

(** ** What the search returns *)

Section properties.
Context `{NetText}.

(** [s] is a usable host address of [c]: inside, and neither its network
    address nor its highest one. *)
Definition usable (c s : string) : Prop :=
  ∃ p j, ParsePrefix c = inr p ∧ 0 < j < size_of p - 1 ∧ s = host_text (Masked p) j.

(** No prefix is written with an IPv4-mapped IPv6 address. *)
Definition unmapped (cidrs : list string) : Prop :=
  ∀ c p, c ∈ cidrs → ParsePrefix c = inr p → Is4In6 (pfx_Addr (Masked p)) = false.

Lemma scan_cidr c p taken :
  ParsePrefix c = inr p → Is4In6 (pfx_Addr (Masked p)) = false →
  match scan (scan_fuel (Masked p)) (Masked p) (lastAddr (Masked p)) taken
          (addr_Next (pfx_Addr (Masked p))) with
  | Some s => ∃ j, 0 < j < size_of p - 1 ∧ s = host_text (Masked p) j ∧ s ∉ taken ∧
                ∀ i, 0 < i < j → host_text (Masked p) i ∈ taken
  | None => ∀ s, usable c s → s ∈ taken
  end.
Proof.
  intros Hp Hmap. pose proof (Masked_masked p (ParsePrefix_ok _ _ Hp)) as Hm.
  pose proof (scan_all (Masked p) Hm _ taken (lastAddr_host _ Hm Hmap)) as Hs.
  destruct (scan _ _ _ _ _) as [s|]; [exact Hs|].
  intros s (p' & j & Hp' & Hj & ->). rewrite Hp in Hp'. injection Hp' as <-. by apply Hs.
Qed.

Lemma next_overlay_first cidrs taken s :
  unmapped cidrs → NextOverlayAddress cidrs taken = inr s →
  s ∉ taken ∧ ∃ before c after p j, cidrs = before ++ c :: after ∧
    ParsePrefix c = inr p ∧ 0 < j < size_of p - 1 ∧ s = host_text (Masked p) j ∧
    (∀ i, 0 < i < j → host_text (Masked p) i ∈ taken) ∧
    ∀ c' s', c' ∈ before → usable c' s' → s' ∈ taken.
Proof.
  induction cidrs as [|c cidrs IH]; cbn [NextOverlayAddress]; cbv zeta; [done|]. intros Hu.
  destruct (ParsePrefix c) as [|p] eqn:Hp; [done|].
  pose proof (scan_cidr c p taken Hp (Hu c p ltac:(left) Hp)) as Hs.
  destruct (scan _ _ _ _ _) as [s'|].
  - intros Heq. injection Heq as <-. destruct Hs as (j & Hj & -> & Hni & Hb). split; [done|].
    exists [], c, cidrs, p, j. split_and!; try done; try lia. by intros ?? ?%elem_of_nil.
  - intros Hn. destruct IH as (Hni & before & c' & after & p' & j & -> & Hp' & Hj & Hs' & Hb & Hbef).
    { intros c' p' Hc'. apply Hu. by right. } { done. }
    split; [done|]. exists (c :: before), c', after, p', j. split_and!; try done; try lia.
    intros c2 s2 [->|Hc2]%elem_of_cons; [apply Hs|by apply Hbef].
Qed.

(** An overlay address is free, usable and the first such: it is not taken,
    it is a host address of one of the prefixes, every lower host address of
    that prefix and every host address of the prefixes before it is taken. *)
Theorem overlay_address_first cidrs taken s :
  unmapped cidrs → NextOverlayAddress cidrs taken = inr s →
  s ∉ taken ∧ ∃ before c after p j, cidrs = before ++ c :: after ∧
    ParsePrefix c = inr p ∧ 0 < j < size_of p - 1 ∧ s = host_text (Masked p) j ∧
    (∀ i, 0 < i < j → host_text (Masked p) i ∈ taken) ∧
    ∀ c' s', c' ∈ before → usable c' s' → s' ∈ taken.
Proof. apply next_overlay_first. Qed.

(** The search gives up only when the pool is full.  When every prefix
    parses, it fails exactly when every host address of every prefix is taken,
    and the error is then the exhaustion sentinel. *)
Theorem overlay_exhausted_iff cidrs taken :
  unmapped cidrs → (∀ c, c ∈ cidrs → ∃ p, ParsePrefix c = inr p) →
  NextOverlayAddress cidrs taken = inl errOverlayAddressesExhausted ↔
  ∀ c s, c ∈ cidrs → usable c s → s ∈ taken.
Proof.
  induction cidrs as [|c cidrs IH]; cbn [NextOverlayAddress]; cbv zeta; intros Hu Hparse.
  { split; [|done]. by intros _ ?? ?%elem_of_nil. }
  destruct (Hparse c ltac:(left)) as [p Hp]. rewrite Hp.
  pose proof (scan_cidr c p taken Hp (Hu c p ltac:(left) Hp)) as Hs.
  destruct (scan _ _ _ _ _) as [s'|].
  - split; [done|]. intros Hall. destruct Hs as (j & Hj & -> & Hni & _). destruct Hni.
    apply (Hall c); [left|]. by exists p, j.
  - rewrite IH; [|intros c' p' Hc'; apply Hu; by right|intros c' Hc'; apply Hparse; by right].
    split.
    + intros Hall c' s' [->|Hc']%elem_of_cons; [apply Hs|by apply Hall].
    + intros Hall c' s' Hc'. apply Hall. by right.
Qed.
End properties.

(** ** Examples *)

Module OverlayExample.
Definition v4 (n : Z) : Addr := {| Is4 := true; addr_val := n |}.
(** 10.0.0.0/29 and its IPv4-mapped form ::ffff:10.0.0.0/125. *)
Definition net4 : Prefix := {| pfx_Addr := v4 167772160; pfx_Bits := 29 |}.
Definition net46 : Prefix :=
  {| pfx_Addr := {| Is4 := false; addr_val := 65535 * 2 ^ 32 + 167772160 |}; pfx_Bits := 125 |}.
Definition parse (s : string) : result Prefix :=
  if s =s "10.0.0.0/29" then inr net4
  else if s =s "::ffff:10.0.0.0/125" then inr net46
  else inl (errors_new "unable to parse IP").
(** The family and the value in binary. *)
Fixpoint bits (p : positive) : string :=
  match p with xH => "" | xO q => String "0" (bits q) | xI q => String "1" (bits q) end.
Definition show (a : Addr) : string :=
  String (if Is4 a then "4" else "6")
    match addr_val a with Z0 => "z" | Zpos p => String "p" (bits p) | Zneg p => String "n" (bits p) end.

Lemma bits_inj p q : bits p = bits q → p = q.
Proof. revert q. induction p; intros [?|?|] [=]; f_equal; auto. Qed.

#[export] Instance text : NetText.
Proof.
  refine {| ParsePrefix := parse; addr_String := show |}.
  - intros s p. unfold parse. destruct (_ =s _); [|destruct (_ =s _)]; intros [= <-];
      split; vm_compute; split; congruence.
  - intros [f a] [g b] _ _. unfold show. simpl.
    destruct f, g; try done; destruct a, b; intros [=]; f_equal; f_equal; by apply bits_inj.
Defined.
(** All host addresses of the network at [v], taken. *)
Definition hosts_taken (is4 : bool) (v : Z) : gset string :=
  list_to_set ((λ k, show {| Is4 := is4; addr_val := v + k |}) <$> [1; 2; 3; 4; 5; 6]).
End OverlayExample.

Section witnesses.
Import OverlayExample.

Lemma overlay_address_first_witness :
  NextOverlayAddress ["10.0.0.0/29"] {[show (v4 167772161)]} = inr (show (v4 167772162)) ∧
  show (v4 167772162) ∉ ({[show (v4 167772161)]} : gset string).
Proof.
  assert (NextOverlayAddress ["10.0.0.0/29"] {[show (v4 167772161)]} = inr (show (v4 167772162))) as Hn
    by (vm_compute; reflexivity).
  split; [exact Hn|]. refine (proj1 (overlay_address_first ["10.0.0.0/29"] _ _ _ Hn)).
  intros c p [->|[]%elem_of_nil]%elem_of_cons [= <-]. vm_compute. reflexivity.
Defined.

Lemma overlay_exhausted_iff_witness :
  ¬ ∀ c s, c ∈ ["10.0.0.0/29"] → usable c s → s ∈ (∅ : gset string).
Proof.
  intros Hall. eapply (overlay_exhausted_iff ["10.0.0.0/29"] ∅) in Hall.
  - vm_compute in Hall. discriminate.
  - intros c p [->|[]%elem_of_nil]%elem_of_cons [= <-]. vm_compute. reflexivity.
  - intros c [->|[]%elem_of_nil]%elem_of_cons. by exists net4.
Defined.

(** The highest address of an IPv4-mapped prefix is handed out.  [lastAddr]
    unmaps its result while the scan compares mapped addresses, so the highest
    address is not excluded, unlike that of the same network in IPv4 form. *)
Theorem mapped_prefix_highest_assigned :
  let base46 := addr_val (pfx_Addr net46) in
  NextOverlayAddress ["::ffff:10.0.0.0/125"] (hosts_taken false base46) =
    inr (show {| Is4 := false; addr_val := base46 + 7 |}) ∧
  NextOverlayAddress ["10.0.0.0/29"] (hosts_taken true 167772160) = inl errOverlayAddressesExhausted.
Proof. split; vm_compute; reflexivity. Qed.
End witnesses.
