(* ===== verification/Peers.v ===== *)
(** * WireGuard identities, peer snapshots and the poll endpoint
    (internal/wireguard/wireguard.go; internal/health/wireguard_peers.go)

    SHA-256 and Curve25519 are the class [Crypto]; the answer of [rand.Read]
    is an argument of the functions that draw randomness. *)
From S2P Require Import Prelude.
From S2P Require Import Effects.
From S2P Require Import Encoding.
From S2P Require Import Resources.
From S2P Require Import Allocation.

Definition KeySize : nat := 32.
Definition PollTokenSize : nat := 32.
Definition sha256_Size : nat := 32.
Definition DefaultListenPort : Z := 51820.

Abbreviation bytes := (list Byte.byte) (only parsing).

Class Crypto := {
  Sum256 : bytes → bytes;
  Sum256_size : ∀ b, length (Sum256 b) = sha256_Size;
  (* [curve25519.X25519(scalar, Basepoint)] *)
  X25519_base : bytes → result bytes;
  X25519_size : ∀ s p, X25519_base s = inr p → length p = KeySize
}.

(** [fmt.Errorf("msg: %w", err)] *)
Definition errorf_w (msg : string) (err : error) : error :=
  Err (msg +:+ ": " +:+ err_text err) (err_chain err).

Record KeyPair := { Private : bytes; Public : bytes }.

(** [priv[0] &= 248; priv[31] = (priv[31] & 127) | 64] *)
Definition clamp (priv : bytes) : bytes :=
  alter (λ b, byte_of (Z.lor (Z.land (byte_val b) 127) 64)) 31%nat
    (alter (λ b, byte_of (Z.land (byte_val b) 248)) 0%nat priv).

Record Peer := {
  pe_AllocationID : string;
  pe_PublicKey : string;
  pe_OverlayAddress : string;
  pe_Endpoint : string
}.

#[export] Instance Peer_eq_dec : EqDecision Peer.
Proof. solve_decision. Defined.

Record CloudInitPayload := {
  pl_PrivateKey : string;
  pl_AllocationID : string;
  pl_ControllerURL : string;
  pl_PollToken : string;
  pl_OverlayAddress : string;
  pl_Peers : list Peer
}.

Section crypto.
Context `{Crypto}.

(** [copy(kp.Public[:], pub)]: both are [KeySize] long. *)
Definition Generate (read : result bytes) : result KeyPair :=
  match read with
  | inl err => inl (errorf_w "wireguard: generate private key" err)
  | inr raw =>
      let priv := clamp raw in
      match X25519_base priv with
      | inl err => inl (errorf_w "wireguard: derive public key" err)
      | inr pub => inr {| Private := priv; Public := pub |}
      end
  end.

Definition GeneratePollToken (read : result bytes) : result (string * bytes) :=
  match read with
  | inl err => inl (errorf_w "wireguard: generate poll token" err)
  | inr raw => inr (hex_encode raw, Sum256 raw)
  end.

(** The text of the decoder's error is not kept. *)
Definition HashPollToken (token : string) : result bytes :=
  match hex_decode token with
  | None => inl (errors_new "wireguard: decode poll token")
  | Some raw => inr (Sum256 raw)
  end.
End crypto.

(** ** Snapshot *)

Definition peer_of (a : Allocation) : Peer :=
  {| pe_AllocationID := ID a;
     pe_PublicKey := base64_encode (WireGuardPublicKey a);
     pe_OverlayAddress := WireGuardOverlayAddress a;
     pe_Endpoint := WireGuardEndpoint a |}.

(** The three [continue] guards of the loop, negated. *)
Definition is_peer (forID networkProfile : string) (a : Allocation) : bool :=
  negb ((ID a =s "") || (ID a =s forID)) &&
  negb ((NetworkProfile a <>s networkProfile) || negb (phase_eqb (al_Phase a) Running)) &&
  negb ((length (WireGuardPublicKey a) =? 0)%nat || (WireGuardOverlayAddress a =s "")).

Definition peer_less (p q : Peer) : bool := str_ltb (pe_AllocationID p) (pe_AllocationID q).
Definition peer_le (p q : Peer) : Prop := peer_less q p = false.
#[export] Instance peer_le_dec p q : Decision (peer_le p q).
Proof. unfold peer_le. apply _. Defined.

(** [nil] and the empty slice are both []. *)
Definition Snapshot (forID networkProfile : string) (allocations : list Allocation) : list Peer :=
  if networkProfile =s "" then []
  else merge_sort peer_le (peer_of <$> List.filter (is_peer forID networkProfile) allocations).

(** ** The poll endpoint *)

Inductive peersE : Type → Type :=
  | PLoad (id : string) : peersE (result Allocation)
  | PList : peersE (result (list Allocation)).

Inductive Response :=
  | Unauthorized                       (* 401, empty body *)
  | SnapshotUnavailable                (* 500 *)
  | PeersOK (peers : list Peer).       (* 200 *)

Definition decoyHash : bytes := replicate sha256_Size Byte.x00.
Definition bearer : string := "Bearer ".

Section handler.
Context `{Crypto}.

(** The zero hash accompanies [false]. *)
Definition extractBearerHash (header : string) : bytes * bool :=
  match cut_prefix bearer header with
  | None => (decoyHash, false)
  | Some token =>
      match HashPollToken token with
      | inl _ => (decoyHash, false)
      | inr computed => (computed, true)
      end
  end.

Definition pollable (r : result Allocation) : bool :=
  match r with
  | inl _ => false
  | inr a => (length (WireGuardPollTokenHash a) =? sha256_Size)%nat &&
             negb (phase_eqb (al_Phase a) Deleted) && negb (phase_eqb (al_Phase a) TimedOut)
  end.

(** [copy(expected[:], allocation.WireGuardPollTokenHash)] when pollable. *)
Definition expected_hash (r : result Allocation) : bytes :=
  match r with
  | inr a => if pollable r then WireGuardPollTokenHash a else decoyHash
  | inl _ => decoyHash
  end.

Definition ServeHTTP (id authorization : string) : prog peersE Response :=
  let '(presented, tokenOK) := extractBearerHash authorization in
  loaded ← call (PLoad id);
  let match_ := bool_decide (presented = expected_hash loaded) in
  match loaded with
  | inr allocation =>
      if negb tokenOK || negb (pollable loaded) || negb match_ then mret Unauthorized
      else
        listed ← call PList;
        match listed with
        | inl _ => mret SnapshotUnavailable
        | inr allocations => mret (PeersOK (Snapshot id (NetworkProfile allocation) allocations))
        end
  | inl _ => mret Unauthorized
  end.
End handler.

(** ** Properties of snapshots *)

Lemma is_peer_spec forID np a :
  is_peer forID np a = true ↔
  ID a ≠ "" ∧ ID a ≠ forID ∧ NetworkProfile a = np ∧ al_Phase a = Running ∧
  WireGuardPublicKey a ≠ [] ∧ WireGuardOverlayAddress a ≠ "".
Proof.
  unfold is_peer, phase_eqb. reflect. naive_solver.
Qed.

#[export] Instance peer_le_trans : Transitive peer_le.
Proof.
  intros p q r. unfold peer_le, peer_less. rewrite !str_ltb_nle. intros H1 H2. by etrans.
Qed.
#[export] Instance peer_le_total : Total peer_le.
Proof.
  intros p q. unfold peer_le, peer_less. destruct (str_ltb (pe_AllocationID q) (pe_AllocationID p)) eqn:Hl; [right|by left].
  by apply str_ltb_asym.
Qed.

Lemma peer_le_antisym p q : peer_le p q → peer_le q p → pe_AllocationID p = pe_AllocationID q.
Proof. unfold peer_le, peer_less. intros H1 H2. by apply str_ltb_antisym. Qed.

Lemma list_filter_Permutation {A} (f : A → bool) (l l' : list A) :
  l ≡ₚ l' → List.filter f l ≡ₚ List.filter f l'.
Proof.
  induction 1 as [|x l l' _ IH|x y l|l l2 l' _ IH1 _ IH2]; simpl; [done| | |by rewrite IH1].
  - by destruct (f x); rewrite IH.
  - destruct (f x), (f y); try done. constructor.
Qed.

Section snapshot.
Context (forID np : string) (allocs : list Allocation) (Hnp : np ≠ "").

Definition peers_of (l : list Allocation) : list Peer := peer_of <$> List.filter (is_peer forID np) l.

Lemma snapshot_sorts : Snapshot forID np allocs = merge_sort peer_le (peers_of allocs).
Proof. unfold Snapshot. by destruct (String.eqb_spec np ""). Qed.

Lemma snapshot_perm : Snapshot forID np allocs ≡ₚ peers_of allocs.
Proof. rewrite snapshot_sorts. apply merge_sort_Permutation. Qed.

Lemma snapshot_sorted : StronglySorted peer_le (Snapshot forID np allocs).
Proof. rewrite snapshot_sorts. apply StronglySorted_merge_sort; apply _. Qed.

Lemma peers_of_elem p l :
  p ∈ peers_of l ↔ ∃ a, a ∈ l ∧ is_peer forID np a = true ∧ p = peer_of a.
Proof. unfold peers_of. rewrite list_elem_of_fmap. setoid_rewrite list_filter_In. naive_solver. Qed.
End snapshot.

(** Records with distinct IDs give peers with distinct IDs. *)
Lemma peers_of_ids forID np l : NoDup (ID <$> l) → NoDup (pe_AllocationID <$> peers_of forID np l).
Proof.
  intros Hl. unfold peers_of. rewrite <- list_fmap_compose.
  change (pe_AllocationID ∘ peer_of) with ID.
  induction l as [|a l IH]; simpl in *; [constructor|]. apply NoDup_cons in Hl as [Ha Hl].
  destruct (is_peer forID np a); [|by apply IH]. simpl. constructor; [|by apply IH].
  rewrite list_elem_of_fmap in *. intros (b & Hb & [Hin _]%list_filter_In). naive_solver.
Qed.

(** Sorted permutations of peers with distinct IDs are equal. *)
Lemma sorted_peers_unique l l' :
  StronglySorted peer_le l → StronglySorted peer_le l' → l ≡ₚ l' → NoDup (pe_AllocationID <$> l) → l = l'.
Proof.
  revert l'. induction l as [|p l IH]; intros l' Hl Hl' Hp Hn.
  - by apply Permutation_nil_l in Hp.
  - destruct l' as [|q l']; [by apply Permutation_nil_r in Hp|].
    apply StronglySorted_inv in Hl as [Hl Hlp]. apply StronglySorted_inv in Hl' as [Hl' Hlq].
    assert (p = q) as ->.
    { destruct (decide (p = q)) as [|Hne]; [done|].
      assert (q ∈ l) as Hq.
      { assert (q ∈ p :: l) as [->|]%elem_of_cons by (rewrite Hp; left); done. }
      assert (p ∈ l') as Hp'.
      { assert (p ∈ q :: l') as [->|]%elem_of_cons by (rewrite <- Hp; left); done. }
      rewrite Forall_forall in Hlp, Hlq. apply NoDup_cons in Hn as [Hn _]. destruct Hn.
      rewrite (peer_le_antisym p q (Hlp _ Hq) (Hlq _ Hp')). by apply list_elem_of_fmap_2. }
    f_equal. apply IH; [done..| |by apply NoDup_cons in Hn as [_ Hn]]. by apply Permutation_cons_inv in Hp.
Qed.

(** A snapshot holds exactly the running members of the profile that have
    recorded a key and an address, never the asking allocation itself; it is
    in order of allocation ID and does not depend on the order in which the
    records were listed. *)
Theorem snapshot_exact forID np allocs :
  np ≠ "" → NoDup (ID <$> allocs) →
  (∀ p, p ∈ Snapshot forID np allocs ↔
     ∃ a, a ∈ allocs ∧ p = peer_of a ∧ ID a ≠ "" ∧ ID a ≠ forID ∧ NetworkProfile a = np ∧
       al_Phase a = Running ∧ WireGuardPublicKey a ≠ [] ∧ WireGuardOverlayAddress a ≠ "") ∧
  StronglySorted String.le (pe_AllocationID <$> Snapshot forID np allocs) ∧
  NoDup (pe_AllocationID <$> Snapshot forID np allocs) ∧
  ∀ allocs', allocs' ≡ₚ allocs → Snapshot forID np allocs' = Snapshot forID np allocs.
Proof.
  intros Hnp Hids. split_and!.
  - intros p. rewrite snapshot_perm by done. rewrite peers_of_elem. setoid_rewrite is_peer_spec. naive_solver.
  - generalize (snapshot_sorted forID np allocs Hnp).
    induction 1 as [|p l _ IH Hp]; simpl; constructor; [done|].
    rewrite Forall_fmap. eapply Forall_impl; [done|]. intros q. apply str_ltb_nle.
  - rewrite snapshot_perm by done. by apply peers_of_ids.
  - intros allocs' Hp. apply sorted_peers_unique; [by apply snapshot_sorted..| |].
    + rewrite !snapshot_perm by done. unfold peers_of. apply fmap_Permutation.
      by apply list_filter_Permutation.
    + rewrite snapshot_perm by done. apply peers_of_ids. by rewrite Hp.
Qed.

(** ** Properties of the poll endpoint *)

Section auth.
Context `{Crypto}.

(** The header presents a token whose hash is the one on record, and the
    record is not terminal. *)
Definition authorized (header : string) (loaded : result Allocation) : Prop :=
  ∃ token raw a, header = bearer +:+ token ∧ hex_decode token = Some raw ∧ loaded = inr a ∧
    WireGuardPollTokenHash a = Sum256 raw ∧ al_Phase a ≠ Deleted ∧ al_Phase a ≠ TimedOut.

Lemma pollable_spec a :
  pollable (inr a) = true ↔
  length (WireGuardPollTokenHash a) = sha256_Size ∧ al_Phase a ≠ Deleted ∧ al_Phase a ≠ TimedOut.
Proof. unfold pollable, phase_eqb. reflect. naive_solver. Qed.

Lemma extract_spec header hash :
  extractBearerHash header = (hash, true) ↔
  ∃ token raw, header = bearer +:+ token ∧ hex_decode token = Some raw ∧ hash = Sum256 raw.
Proof.
  unfold extractBearerHash, HashPollToken. split.
  - intros He. destruct (cut_prefix bearer header) as [token|] eqn:Hp; [|done].
    apply cut_prefix_spec in Hp. destruct (hex_decode token) as [raw|] eqn:Hd; [|done]. naive_solver.
  - intros (token & raw & Hh & Hd & ->). apply cut_prefix_spec in Hh. by rewrite Hh, Hd.
Qed.

(** The three conditions of the handler together. *)
Lemma handler_guard header loaded :
  let '(presented, tokenOK) := extractBearerHash header in
  negb tokenOK || negb (pollable loaded) || negb (bool_decide (presented = expected_hash loaded)) = false
  ↔ authorized header loaded.
Proof.
  destruct (extractBearerHash header) as [presented tokenOK] eqn:He. reflect. split.
  - intros [[-> Hp] Hm]. destruct loaded as [|a]; [done|]. apply extract_spec in He as (t & raw & ? & ? & ->).
    unfold expected_hash in Hm. rewrite Hp in Hm. apply pollable_spec in Hp as (_ & ? & ?).
    exists t, raw, a. done.
  - intros (t & raw & a & Hh & Hd & -> & Hw & H1 & H2).
    assert (extractBearerHash header = (Sum256 raw, true)) as He' by (apply extract_spec; eauto).
    rewrite He' in He. injection He as <- <-.
    assert (pollable (inr a) = true) as Hp by (apply pollable_spec; rewrite Hw; eauto using Sum256_size).
    unfold expected_hash. by rewrite Hp.
Qed.

(** The history and answer of a request. *)
Definition served (id header : string) (h : list (event peersE)) (r : Response) : Prop :=
  ∃ loaded h', h = ev (PLoad id) loaded :: h' ∧
    (authorized header loaded ∧
       ((∃ err, h' = [ev PList (inl err)] ∧ r = SnapshotUnavailable) ∨
        ∃ a allocs, loaded = inr a ∧ h' = [ev PList (inr allocs)] ∧
          r = PeersOK (Snapshot id (NetworkProfile a) allocs))
     ∨ ¬ authorized header loaded ∧ h' = [] ∧ r = Unauthorized).

Lemma wp_ServeHTTP id header : wp no_contract (served id header) [] (ServeHTTP id header).
Proof.
  unfold ServeHTTP. pose proof (handler_guard header) as Hg.
  destruct (extractBearerHash header) as [presented tokenOK]. apply wp_call_bind. intros loaded _.
  specialize (Hg loaded). cbv zeta. destruct loaded as [e|a].
  - apply wp_ret. exists (inl e), []. split; [done|]. right. split_and!; [|done..].
    intros (? & ? & ? & ? & ? & ? & _). done.
  - destruct (negb tokenOK || _ || _) eqn:Hc.
    + apply wp_ret. exists (inr a), []. split; [done|]. right. split_and!; [|done..]. intros Ha%Hg. done.
    + assert (authorized header (inr a)) as Ha by by apply Hg.
      apply wp_call_bind. intros [e|allocs] _; apply wp_ret; exists (inr a); eexists; (split; [done|]);
        left; (split; [done|]); [left; eauto|right; eauto].
Qed.


(** A token just generated is accepted for every allocation that records its
    hash and is not terminal. *)
Lemma poll_token_accepted raw token hash a :
  GeneratePollToken (inr raw) = inr (token, hash) →
  WireGuardPollTokenHash a = hash → al_Phase a ≠ Deleted → al_Phase a ≠ TimedOut →
  authorized (bearer +:+ token) (inr a).
Proof.
  intros [= <- <-] Hw H1 H2. exists (hex_encode raw), raw, a. by rewrite hex_decode_encode.
Qed.
End auth.

(** ** Keys *)

(** The little-endian integer of a key. *)
Fixpoint key_scalar (l : list Byte.byte) : Z :=
  match l with [] => 0 | b :: l' => byte_val b + 256 * key_scalar l' end.

Lemma key_scalar_app l l' : key_scalar (l ++ l') = key_scalar l + 256 ^ Z.of_nat (length l) * key_scalar l'.
Proof.
  induction l as [|b l IH]; [simpl; lia|]. cbn [app key_scalar length]. rewrite IH, Nat2Z.inj_succ, Z.pow_succ_r by lia. ring.
Qed.

Lemma key_scalar_range l : 0 ≤ key_scalar l < 256 ^ Z.of_nat (length l).
Proof.
  induction l as [|b l IH]; [simpl; lia|]. cbn [key_scalar length]. rewrite Nat2Z.inj_succ, Z.pow_succ_r by lia.
  pose proof (byte_val_range b). lia.
Qed.

Lemma byte_val_of z : 0 ≤ z < 256 → byte_val (byte_of z) = z.
Proof.
  intros Hz. unfold byte_of. rewrite Z.mod_small by done.
  destruct (Byte.of_N (Z.to_N z)) as [b|] eqn:Hb.
  - apply Byte.to_of_N in Hb. simpl. unfold byte_val. rewrite Hb. lia.
  - apply Byte.of_N_None_iff in Hb. lia.
Qed.

Lemma byte_cases (P : Z → Prop) : Forall P (Z.of_nat <$> seq 0 256) → ∀ b, P (byte_val b).
Proof.
  intros HP b. rewrite Forall_forall in HP. apply HP, list_elem_of_fmap.
  pose proof (byte_val_range b). exists (Z.to_nat (byte_val b)). rewrite elem_of_seq. lia.
Qed.

(** A property of every byte decided by evaluation. *)
Lemma byte_decide (f : Z → bool) : forallb f (Z.of_nat <$> seq 0 256) = true → ∀ b, f (byte_val b) = true.
Proof. intros Hf. apply (byte_cases (λ v, f v = true)), Forall_forall, forallb_elem, Hf. Qed.

Lemma low_bits_clear b :
  0 ≤ Z.land (byte_val b) 248 < 256 ∧ Z.land (byte_val b) 248 mod 8 = 0 ∧
  Z.land (Z.land (byte_val b) 248) 248 = Z.land (byte_val b) 248.
Proof.
  pose proof (byte_decide (λ v, (0 <=? Z.land v 248) && (Z.land v 248 <? 256) && (Z.land v 248 mod 8 =? 0)
    && (Z.land (Z.land v 248) 248 =? Z.land v 248)) eq_refl b) as Hb.
  reflect in Hb. naive_solver.
Qed.

Lemma high_bits_set b :
  64 ≤ Z.lor (Z.land (byte_val b) 127) 64 < 128 ∧
  Z.lor (Z.land (Z.lor (Z.land (byte_val b) 127) 64) 127) 64 = Z.lor (Z.land (byte_val b) 127) 64.
Proof.
  pose proof (byte_decide (λ v, (64 <=? Z.lor (Z.land v 127) 64) && (Z.lor (Z.land v 127) 64 <? 128)
    && (Z.lor (Z.land (Z.lor (Z.land v 127) 64) 127) 64 =? Z.lor (Z.land v 127) 64)) eq_refl b) as Hb.
  reflect in Hb. naive_solver.
Qed.

Lemma clamp_shape raw :
  length raw = KeySize → ∃ b0 mid b31, raw = b0 :: mid ++ [b31] ∧ length mid = 30%nat ∧
    clamp raw = byte_of (Z.land (byte_val b0) 248) :: mid ++ [byte_of (Z.lor (Z.land (byte_val b31) 127) 64)].
Proof.
  unfold KeySize. destruct raw as [|b0 raw]; [done|]. intros Hl. simpl in Hl.
  destruct raw as [|b31 mid _] using rev_ind; [done|]. rewrite length_app in Hl. simpl in Hl.
  exists b0, mid, b31. split_and!; [done|lia|]. unfold clamp. cbn [alter list_alter].
  assert (length mid = 30%nat) as Hm by lia. f_equal. etrans; [apply alter_app_r_alt; lia|]. by rewrite Hm.
Qed.

(** The clamped scalar is a multiple of 8 between 2^254 and 2^255, and clamping
    again changes nothing. *)
Lemma clamp_scalar raw :
  length raw = KeySize →
  length (clamp raw) = KeySize ∧ key_scalar (clamp raw) mod 8 = 0 ∧
  2 ^ 254 ≤ key_scalar (clamp raw) < 2 ^ 255 ∧ clamp (clamp raw) = clamp raw.
Proof.
  intros Hl. destruct (clamp_shape raw Hl) as (b0 & mid & b31 & -> & Hm & Hc).
  pose proof (low_bits_clear b0) as (H0 & H8 & H0i). pose proof (high_bits_set b31) as (H31 & H31i).
  assert (2 ^ 254 ≤ key_scalar (clamp (b0 :: mid ++ [b31])) < 2 ^ 255) as Hrange.
  { rewrite Hc. cbn [key_scalar]. rewrite key_scalar_app, Hm. cbn [key_scalar]. rewrite !byte_val_of by lia.
    pose proof (key_scalar_range mid) as Hr. rewrite Hm in Hr. change (256 ^ Z.of_nat 30) with (2 ^ 240) in *. lia. }
  split; [|split; [|split; [done|]]].
  - rewrite Hc. simpl. rewrite length_app. simpl. unfold KeySize. lia.
  - rewrite Hc. cbn [key_scalar]. rewrite byte_val_of by lia. rewrite Z.add_mod by lia.
    rewrite H8. replace (256 * _) with (8 * (32 * key_scalar (mid ++ [byte_of (Z.lor (Z.land (byte_val b31) 127) 64)]))) by ring.
    rewrite (Z.mul_comm 8), Z.mod_mul by lia. done.
  - rewrite Hc. set (c0 := byte_of (Z.land _ 248)). set (c31 := byte_of (Z.lor _ 64)).
    destruct (clamp_shape (c0 :: mid ++ [c31])) as (d0 & mid' & d31 & Heq & _ & Hd).
    { simpl. rewrite length_app. simpl. unfold KeySize. lia. }
    rewrite Hd. injection Heq as <- Heq. apply app_inj_tail in Heq as [<- <-].
    unfold c0, c31. by rewrite !byte_val_of, H0i, H31i by lia.
Qed.

(** A generated private key is the canonical clamped scalar and comes with its
    public key. *)
Lemma generate_scalar `{Crypto} raw kp :
  length raw = KeySize → Generate (inr raw) = inr kp →
  X25519_base (Private kp) = inr (Public kp) ∧ length (Private kp) = KeySize ∧
  length (Public kp) = KeySize ∧ key_scalar (Private kp) mod 8 = 0 ∧
  2 ^ 254 ≤ key_scalar (Private kp) < 2 ^ 255.
Proof.
  intros Hl Hg. destruct (clamp_scalar raw Hl) as (H1 & H2 & H3 & _). unfold Generate in Hg.
  destruct (X25519_base (clamp raw)) as [|pub] eqn:Hx; [done|]. injection Hg as <-. simpl.
  by apply X25519_size in Hx as Hp.
Qed.

(** ** A stand-in for the primitives: the first 32 bytes *)

Module CryptoExample.
Definition pad (b : list Byte.byte) : list Byte.byte := take 32 (b ++ replicate 32 Byte.x00).

Lemma pad_size b : length (pad b) = 32%nat.
Proof. unfold pad. rewrite length_take, length_app, length_replicate. lia. Qed.

#[export] Instance crypto : Crypto.
Proof.
  refine {| Sum256 := pad; X25519_base := λ s, inr (pad s) |}.
  - apply pad_size.
  - intros s p [= <-]. apply pad_size.
Defined.
End CryptoExample.
