(* ===== verification/Agent.v ===== *)
(** * The WireGuard agent of a runner VM
    (internal/wireguard/agent/reconcile.go, internal/wireguard/agent/agent.go)

    The agent keeps the map of the peers it believes configured on its tunnel
    and converges the tunnel to each polled snapshot. *)
From S2P Require Import Prelude.
From S2P Require Import Effects.
From S2P Require Import Encoding.
From S2P Require Import Resources.
From S2P Require Import Allocation.
From S2P Require Import Overlay.
From S2P Require Import Peers.

Abbreviation PublicKey := (list Byte.byte) (only parsing).

Record AddrPort := { ap_Addr : Addr; ap_Port : Z }.

(** [netip.ParseAddr] and [netip.ParseAddrPort] *)
Class PeerText := {
  ParseAddr : string → result Addr;
  ParseAddrPort : string → result AddrPort
}.

(** [tunnel.Peer]; no endpoint is the zero [netip.AddrPort]. *)
Record TunnelPeer := {
  tp_PublicKey : PublicKey;
  tp_OverlayAddress : Addr;
  tp_Endpoint : option AddrPort
}.

Inductive tunnelE : Type → Type :=
  | AddPeer (p : TunnelPeer) : tunnelE (option error)
  | RemovePeer (pub : PublicKey) : tunnelE (option error)
  (* the order in which a Go map is ranged over *)
  | RangePeers (keys : list PublicKey) : tunnelE (list PublicKey).

Abbreviation tunnelM := (prog tunnelE).
Abbreviation tunnel_history := (list (event tunnelE)).

Section agent.
Context `{PeerText}.

Definition peer_error (p : Peer) (what : string) : error :=
  errors_new ("agent: peer " +:+ pe_AllocationID p +:+ " has a malformed " +:+ what).

(** The texts of the decoders' errors are not kept. *)
Definition DecodePeer (p : Peer) : result TunnelPeer :=
  match base64_decode (pe_PublicKey p) with
  | None => inl (peer_error p "public key")
  | Some raw =>
      if negb (length raw =? KeySize)%nat then inl (peer_error p "public key")
      else
        match ParseAddr (pe_OverlayAddress p) with
        | inl _ => inl (peer_error p "overlay address")
        | inr overlay =>
            if pe_Endpoint p =s "" then
              inr {| tp_PublicKey := raw; tp_OverlayAddress := overlay; tp_Endpoint := None |}
            else
              match ParseAddrPort (pe_Endpoint p) with
              | inl _ => inl (peer_error p "endpoint")
              | inr endpoint =>
                  inr {| tp_PublicKey := raw; tp_OverlayAddress := overlay; tp_Endpoint := Some endpoint |}
              end
        end
  end.

(** [wantedByKey]: the last peer with a key wins; a malformed peer is an error
    of its own. *)
Fixpoint wanted_by_key (wanted : gmap PublicKey (Peer * TunnelPeer)) (next : list Peer)
    : gmap PublicKey (Peer * TunnelPeer) * list error :=
  match next with
  | [] => (wanted, [])
  | p :: next' =>
      match DecodePeer p with
      | inl err => let '(w, es) := wanted_by_key wanted next' in (w, err :: es)
      | inr decoded => wanted_by_key (<[tp_PublicKey decoded := (p, decoded)]> wanted) next'
      end
  end.

(** [for pub, w := range wantedByKey] *)
Fixpoint add_peers (current : gmap PublicKey Peer) (wanted : gmap PublicKey (Peer * TunnelPeer))
    (keys : list PublicKey) (updated : gmap PublicKey Peer) : tunnelM (gmap PublicKey Peer * list error) :=
  match keys with
  | [] => mret (updated, [])
  | pub :: keys' =>
      match wanted !! pub, current !! pub with
      | Some (peer, tunnel), None =>
          e ← call (AddPeer tunnel);
          match e with
          | Some err =>
              '(updated, es) ← add_peers current wanted keys' updated;
              mret (updated, errorf_w ("agent: add peer " +:+ pe_AllocationID peer) err :: es)
          | None => add_peers current wanted keys' (<[pub := peer]> updated)
          end
      | _, _ => add_peers current wanted keys' updated
      end
  end.

(** [for pub, peer := range current] *)
Fixpoint remove_peers (current : gmap PublicKey Peer) (wanted : gmap PublicKey (Peer * TunnelPeer))
    (keys : list PublicKey) (updated : gmap PublicKey Peer) : tunnelM (gmap PublicKey Peer * list error) :=
  match keys with
  | [] => mret (updated, [])
  | pub :: keys' =>
      match current !! pub, wanted !! pub with
      | Some peer, None =>
          e ← call (RemovePeer pub);
          match e with
          | Some err =>
              '(updated, es) ← remove_peers current wanted keys' updated;
              mret (updated, errorf_w ("agent: remove peer " +:+ pe_AllocationID peer) err :: es)
          | None => remove_peers current wanted keys' (delete pub updated)
          end
      | _, _ => remove_peers current wanted keys' updated
      end
  end.

Definition map_keys {V} (m : gmap PublicKey V) : list PublicKey := fst <$> map_to_list m.

(** [Reconcile]: the map of what is configured afterwards and the joined
    errors.  [updated] starts as a copy of [current]. *)
Definition Reconcile (current : gmap PublicKey Peer) (next : list Peer)
    : tunnelM (gmap PublicKey Peer * option error) :=
  let '(wanted, es0) := wanted_by_key ∅ next in
  wanted_keys ← call (RangePeers (map_keys wanted));
  '(updated, es1) ← add_peers current wanted wanted_keys current;
  current_keys ← call (RangePeers (map_keys current));
  '(updated, es2) ← remove_peers current wanted current_keys updated;
  mret (updated, errors_join (es0 ++ es1 ++ es2)).

(** [tunnel.Config] *)
Record TunnelConfig := {
  tc_PrivateKey : list Byte.byte;
  tc_OverlayAddress : Addr;
  tc_ListenPort : Z;
  tc_Peers : list TunnelPeer
}.

(** The loop of [InitialConfig]. *)
Fixpoint initial_peers (current : gmap PublicKey Peer) (ps : list Peer)
    : list TunnelPeer * gmap PublicKey Peer * list error :=
  match ps with
  | [] => ([], current, [])
  | p :: ps' =>
      match DecodePeer p with
      | inl err => let '(peers, current, es) := initial_peers current ps' in (peers, current, err :: es)
      | inr decoded =>
          let '(peers, current, es) := initial_peers (<[tp_PublicKey decoded := p]> current) ps' in
          (decoded :: peers, current, es)
      end
  end.

Definition InitialConfig (payload : CloudInitPayload)
    : result (TunnelConfig * gmap PublicKey Peer * option error) :=
  match base64_decode (pl_PrivateKey payload) with
  | None => inl (errors_new "agent: payload has a malformed private key")
  | Some raw =>
      if negb (length raw =? KeySize)%nat then inl (errors_new "agent: payload has a malformed private key")
      else
        match ParseAddr (pl_OverlayAddress payload) with
        | inl _ => inl (errors_new "agent: payload has a malformed overlay address")
        | inr overlay =>
            let '(peers, current, errs) := initial_peers ∅ (pl_Peers payload) in
            inr ({| tc_PrivateKey := raw; tc_OverlayAddress := overlay;
                    tc_ListenPort := DefaultListenPort; tc_Peers := peers |}, current, errors_join errs)
        end
  end.
End agent.

(** ** Properties *)

(** What a history of calls leaves configured on the tunnel: successful
    additions and removals only. *)
Definition device_step (d : gset PublicKey) (v : event tunnelE) : gset PublicKey :=
  match projT2 v with
  | (e, x) =>
      match e in tunnelE X return X → gset PublicKey with
      | AddPeer p => λ x, if isNone x then {[tp_PublicKey p]} ∪ d else d
      | RemovePeer pub => λ x, if isNone x then d ∖ {[pub]} else d
      | RangePeers _ => λ _, d
      end x
  end.

Definition device (d : gset PublicKey) (h : tunnel_history) : gset PublicKey := foldl device_step d h.

Lemma device_app d h h' : device d (h ++ h') = device (device d h) h'.
Proof. apply foldl_app. Qed.

(** Ranging over a map visits each key once. *)
Definition range_contract : contract tunnelE := λ X e,
  match e in tunnelE X return X → Prop with
  | RangePeers keys => λ visited, visited ≡ₚ keys
  | _ => λ _, True
  end.

Section reconcile.
Context `{PeerText}.

(** The keys a snapshot asks for. *)
Definition wanted_keys (next : list Peer) : gset PublicKey :=
  list_to_set (omap (λ p, match DecodePeer p with inr t => Some (tp_PublicKey t) | inl _ => None end) next).

Lemma wanted_by_key_spec wanted next :
  (∀ pub p t, wanted !! pub = Some (p, t) → tp_PublicKey t = pub) →
  let '(w, es) := wanted_by_key wanted next in
  dom w = dom wanted ∪ wanted_keys next ∧
  (∀ pub p t, w !! pub = Some (p, t) → tp_PublicKey t = pub) ∧
  (es = [] ↔ Forall (λ p, ∃ t, DecodePeer p = inr t) next).
Proof.
  revert wanted. induction next as [|p next IH]; intros wanted Hw; simpl.
  - unfold wanted_keys. simpl. split_and!; [set_solver|done|]. split; [constructor|done].
  - unfold wanted_keys in *. simpl. destruct (DecodePeer p) as [err|t] eqn:Hd.
    + specialize (IH wanted Hw). destruct (wanted_by_key wanted next) as [w es].
      destruct IH as (IH1 & IH2 & _). split_and!; [done|done|]. split; [done|].
      intros [[? Hp] _]%Forall_cons. congruence.
    + specialize (IH (<[tp_PublicKey t := (p, t)]> wanted)).
      destruct (wanted_by_key _ next) as [w es]. destruct IH as (IH1 & IH2 & IH3).
      { intros pub p' t'. rewrite lookup_insert_Some. naive_solver. }
      split_and!; [|done|].
      * rewrite IH1, dom_insert_L. cbn [omap list_omap list_to_set]. set_solver.
      * rewrite IH3, Forall_cons. naive_solver.
Qed.

Section loops.
Context (current : gmap PublicKey Peer) (wanted : gmap PublicKey (Peer * TunnelPeer)).
Context (Hkeys : ∀ pub p t, wanted !! pub = Some (p, t) → tp_PublicKey t = pub).

Lemma wp_add_peers keys updated Q h :
  (∀ h' updated' es,
     dom updated' = device (dom updated) h' →
     (es = [] → ∀ pub, pub ∈ dom updated' ↔
        pub ∈ dom updated ∨ pub ∈ keys ∧ pub ∈ dom wanted ∧ pub ∉ dom current) →
     Q (h ++ h') (updated', es)) →
  wp range_contract Q h (add_peers current wanted keys updated).
Proof.
  revert updated Q h. induction keys as [|pub keys IH]; intros updated Q h HQ; cbn [add_peers].
  - apply wp_ret. rewrite <- (app_nil_r h). apply HQ; [done|]. set_solver.
  - assert (pub ∉ dom wanted ∨ pub ∈ dom current →
      wp range_contract Q h (add_peers current wanted keys updated)) as Hskip.
    { intros Hs. apply IH. intros h' updated' es Hd He. apply HQ; [done|]. intros ->.
      intros k. rewrite (He eq_refl k), elem_of_cons. naive_solver. }
    destruct (wanted !! pub) as [[peer tunnel]|] eqn:Hw; [|apply Hskip; left; by apply not_elem_of_dom].
    destruct (current !! pub) as [|] eqn:Hc; [apply Hskip; right; by eapply elem_of_dom_2|].
    apply wp_call_bind. intros [err|] _.
    + apply wp_bind, IH. intros h' updated' es Hd He. apply wp_ret.
      rewrite <- app_assoc. apply HQ; [|done]. by rewrite device_app.
    + apply IH. intros h' updated' es Hd He. rewrite <- app_assoc. apply HQ.
      * rewrite Hd, device_app, dom_insert_L.
        change (device (dom updated) _) with ({[tp_PublicKey tunnel]} ∪ dom updated).
        by rewrite (Hkeys _ _ _ Hw).
      * intros ->. intros k. rewrite (He eq_refl k), dom_insert, elem_of_cons.
        assert (pub ∈ dom wanted) by (by eapply elem_of_dom_2).
        assert (pub ∉ dom current) by (by apply not_elem_of_dom). set_solver.
Qed.

Lemma wp_remove_peers keys updated Q h :
  (∀ h' updated' es,
     dom updated' = device (dom updated) h' →
     (es = [] → ∀ pub, pub ∈ dom updated' ↔
        pub ∈ dom updated ∧ ¬ (pub ∈ keys ∧ pub ∈ dom current ∧ pub ∉ dom wanted)) →
     Q (h ++ h') (updated', es)) →
  wp range_contract Q h (remove_peers current wanted keys updated).
Proof.
  revert updated Q h. induction keys as [|pub keys IH]; intros updated Q h HQ; cbn [remove_peers].
  - apply wp_ret. rewrite <- (app_nil_r h). apply HQ; [done|]. set_solver.
  - assert (pub ∉ dom current ∨ pub ∈ dom wanted →
      wp range_contract Q h (remove_peers current wanted keys updated)) as Hskip.
    { intros Hs. apply IH. intros h' updated' es Hd He. apply HQ; [done|]. intros ->.
      intros k. rewrite (He eq_refl k), elem_of_cons. naive_solver. }
    destruct (current !! pub) as [peer|] eqn:Hc; [|apply Hskip; left; by apply not_elem_of_dom].
    destruct (wanted !! pub) as [|] eqn:Hw; [apply Hskip; right; by eapply elem_of_dom_2|].
    apply wp_call_bind. intros [err|] _.
    + apply wp_bind, IH. intros h' updated' es Hd He. apply wp_ret.
      rewrite <- app_assoc. apply HQ; [|done]. by rewrite device_app.
    + apply IH. intros h' updated' es Hd He. rewrite <- app_assoc. apply HQ.
      * by rewrite Hd, device_app, dom_delete_L.
      * intros ->. intros k. rewrite (He eq_refl k), dom_delete, elem_of_cons.
        assert (pub ∈ dom current) by (by eapply elem_of_dom_2).
        assert (pub ∉ dom wanted) by (by apply not_elem_of_dom). set_solver.
Qed.
End loops.

Lemma map_keys_elem {V} (m : gmap PublicKey V) k : k ∈ map_keys m ↔ k ∈ dom m.
Proof.
  unfold map_keys. rewrite list_elem_of_fmap, elem_of_dom. split.
  - intros ([k' v] & -> & Hin%elem_of_map_to_list). by exists v.
  - intros [v Hv]. exists (k, v). by rewrite elem_of_map_to_list.
Qed.

Lemma errors_join_None es : errors_join es = None ↔ es = [].
Proof. by destruct es. Qed.

Lemma wp_Reconcile current next Q h :
  (∀ h' updated err,
     dom updated = device (dom current) h' →
     (err = None → dom updated = wanted_keys next ∧ Forall (λ p, ∃ t, DecodePeer p = inr t) next) →
     Q (h ++ h') (updated, err)) →
  wp range_contract Q h (Reconcile current next).
Proof.
  intros HQ. unfold Reconcile. pose proof (wanted_by_key_spec ∅ next) as Hw.
  destruct (wanted_by_key ∅ next) as [wanted es0]. destruct Hw as (Hdom & Hkeys & Hes); [done|].
  apply wp_call_bind. intros wkeys Hwk. apply wp_bind, wp_add_peers; [done|].
  intros h1 u1 es1 Hd1 He1. cbn beta iota. apply wp_call_bind. intros ckeys Hck.
  apply wp_bind, wp_remove_peers; [done|]. intros h2 u2 es2 Hd2 He2. apply wp_ret. rewrite <- !app_assoc. apply HQ.
  - rewrite Hd2, Hd1, !device_app. done.
  - rewrite errors_join_None. intros [Hes0 [Hes1 Hes2]%app_eq_nil]%app_eq_nil. split; [|by apply Hes].
    apply set_eq. intros k. rewrite (He2 Hes2 k), (He1 Hes1 k). simpl in Hwk, Hck.
    rewrite Hwk, Hck, !map_keys_elem. assert (dom wanted = wanted_keys next) as <- by set_solver.
    destruct (decide (k ∈ dom wanted)), (decide (k ∈ dom current)); naive_solver.
Qed.

(** Whatever calls fail, the map [Reconcile] returns holds exactly the
    peers configured on the tunnel afterwards; when it reports no error these
    are exactly the peers of the snapshot, all well formed. *)
Theorem reconcile_converges current next :
  ensures range_contract (Reconcile current next) (λ h '(updated, err),
    dom updated = device (dom current) h ∧
    (err = None → dom updated = wanted_keys next ∧ ∀ p, p ∈ next → ∃ t, DecodePeer p = inr t)).
Proof.
  apply wp_ensures, wp_Reconcile. intros h' updated err Hd He. split; [done|].
  intros Hn. destruct (He Hn) as [? Hf]. split; [done|]. by apply Forall_forall.
Qed.
End reconcile.

(** ** From the controller's records to the agent's tunnel *)

Section mesh.
Context `{PeerText}.

Lemma initial_peers_spec current ps :
  let '(peers, final, es) := initial_peers current ps in
  dom final = dom current ∪ list_to_set (tp_PublicKey <$> peers).
Proof.
  revert current. induction ps as [|p ps IH]; intros current; simpl; [set_solver|].
  destruct (DecodePeer p) as [err|t].
  - specialize (IH current). by destruct (initial_peers current ps) as [[peers final] es].
  - specialize (IH (<[tp_PublicKey t := p]> current)).
    destruct (initial_peers _ ps) as [[peers final] es]. rewrite IH, dom_insert_L. simpl. set_solver.
Qed.

Lemma wanted_keys_elem next k :
  k ∈ wanted_keys next ↔ ∃ p t, p ∈ next ∧ DecodePeer p = inr t ∧ tp_PublicKey t = k.
Proof.
  unfold wanted_keys. rewrite elem_of_list_to_set, list_elem_of_omap. split.
  - intros (p & Hp & Hk). destruct (DecodePeer p) as [|t] eqn:Hd; [done|]. injection Hk as <-. eauto.
  - intros (p & t & Hp & Hd & <-). exists p. by rewrite Hd.
Qed.

Lemma decode_peer_key a t : DecodePeer (peer_of a) = inr t → tp_PublicKey t = WireGuardPublicKey a.
Proof.
  unfold DecodePeer, peer_of. cbn [pe_PublicKey pe_OverlayAddress pe_Endpoint]. rewrite base64_decode_encode.
  destruct (negb _); [done|]. destruct (ParseAddr _); [done|]. destruct (_ =s _); [by intros [= <-]|].
  destruct (ParseAddrPort _); [done|]. by intros [= <-].
Qed.

(** The keys of a snapshot that decodes are those of the other running members
    of the network profile. *)
Lemma snapshot_keys id np allocs :
  np ≠ "" → (∀ p, p ∈ Snapshot id np allocs → ∃ t, DecodePeer p = inr t) →
  ∀ k, k ∈ wanted_keys (Snapshot id np allocs) ↔
    ∃ a, a ∈ allocs ∧ WireGuardPublicKey a = k ∧ k ≠ [] ∧ ID a ≠ "" ∧ ID a ≠ id ∧ NetworkProfile a = np ∧
      al_Phase a = Running ∧ WireGuardOverlayAddress a ≠ "".
Proof.
  intros Hnp Hdec k. rewrite wanted_keys_elem. split.
  - intros (p & t & Hp & Ht & <-). rewrite (snapshot_perm id np allocs Hnp) in Hp.
    apply peers_of_elem in Hp as (a & Ha & Hi & ->). rewrite (decode_peer_key _ _ Ht).
    exists a. apply is_peer_spec in Hi as (? & ? & ? & ? & ? & ?). by split_and!.
  - intros (a & Ha & Hk & Hne & H1 & H2 & H3 & H4 & H5). rewrite <- Hk in Hne.
    assert (peer_of a ∈ Snapshot id np allocs) as Hp.
    { rewrite (snapshot_perm id np allocs Hnp). apply peers_of_elem. exists a. rewrite is_peer_spec. by split_and!. }
    destruct (Hdec _ Hp) as [t Ht]. exists (peer_of a), t. split_and!; [done..|]. by rewrite (decode_peer_key _ _ Ht).
Qed.

End mesh.

(** ** An agent with two peers *)

Module AgentExample.
#[export] Instance text : PeerText :=
  {| ParseAddr := λ s, if s =s "10.0.0.2" then inr {| Is4 := true; addr_val := 167772162 |}
                       else inl (errors_new "unable to parse IP");
     ParseAddrPort := λ s, inl (errors_new "unable to parse endpoint") |}.

Definition key (b : Byte.byte) : PublicKey := replicate KeySize b.

Definition runner (id : string) (b : Byte.byte) : Allocation :=
  {| Resources := []; RejectedAt := ∅; Completed := false; ID := id; Revision := "1"; al_Phase := Running;
     Deadline := zero_time; Attempts := 1; MaxAttempts := 3; al_Offering := zero_offering; Outcomes := ∅;
     al_Catalog := zero_catalog; al_Requirements := zero_requirements; ResourceID := "vm-" +:+ id;
     Ready := true; Retire := false; Condition := ""; RunID := 0; Owner := ""; Repo := "";
     ScaleSetJobID := ""; RetryProcessed := false; NetworkProfile := "mesh"; WireGuardPublicKey := key b;
     WireGuardOverlayAddress := "10.0.0.2"; WireGuardEndpoint := ""; WireGuardPollTokenHash := [];
     TerminalAt := zero_time |}.

Definition runners : list Allocation := [runner "rs-a" Byte.x01; runner "rs-b" Byte.x02; runner "rs-c" Byte.x03].

(** A tunnel every call of which succeeds. *)
Definition tunnel (X : Type) (e : tunnelE X) (n : nat) : nat * X :=
  match e in tunnelE X return nat * X with
  | AddPeer _ => (S n, None)
  | RemovePeer _ => (S n, None)
  | RangePeers keys => (n, keys)
  end.

Definition stale : Peer := peer_of (runner "rs-z" Byte.x09).

(** A tunnel with one peer that is gone by now. *)
Definition current : gmap PublicKey Peer := {[key Byte.x09 := stale]}.
Definition history : tunnel_history :=
  run_history tunnel (Reconcile current (Snapshot "rs-a" "mesh" runners)) 0%nat.

Lemma trace :
  trace_of (Reconcile current (Snapshot "rs-a" "mesh" runners)) history
    (snd (run tunnel (Reconcile current (Snapshot "rs-a" "mesh" runners)) 0%nat)).
Proof. apply run_trace. Qed.

Lemma tunnel_respects {R} (p : tunnelM R) n : Forall (respects range_contract) (run_history tunnel p n).
Proof.
  apply (run_respects tunnel (λ _, True) range_contract); [|done].
  intros X e m m' x _ He. split; [done|]. destruct e; try done. injection He as _ <-. simpl. reflexivity.
Qed.

Definition payload : CloudInitPayload :=
  {| pl_PrivateKey := base64_encode (key Byte.x40); pl_AllocationID := "rs-a"; pl_ControllerURL := "https://c";
     pl_PollToken := "00"; pl_OverlayAddress := "10.0.0.2"; pl_Peers := [stale] |}.
End AgentExample.

Section witnesses.
Import AgentExample.

Lemma reconcile_converges_witness :
  device (dom current) history = {[key Byte.x02; key Byte.x03]} ∧
  dom (fst (snd (run tunnel (Reconcile current (Snapshot "rs-a" "mesh" runners)) 0%nat))) = device (dom current) history.
Proof.
  split; [apply (bool_decide_eq_true_1 _); vm_compute; reflexivity|].
  pose proof (reconcile_converges current (Snapshot "rs-a" "mesh" runners) _ _ trace (tunnel_respects _ _)) as Hr.
  destruct (snd (run tunnel _ _)) as [updated err]. exact (proj1 Hr).
Defined.

Lemma snapshot_exact_witness :
  (pe_AllocationID <$> Snapshot "rs-a" "mesh" runners) = ["rs-b"; "rs-c"] ∧
  Snapshot "rs-a" "mesh" (rev runners) = Snapshot "rs-a" "mesh" runners.
Proof.
  split; [vm_compute; reflexivity|].
  assert (NoDup (ID <$> runners)) as Hn by (apply (bool_decide_eq_true_1 _); vm_compute; reflexivity).
  apply (snapshot_exact "rs-a" "mesh" runners ltac:(discriminate) Hn). apply Permutation_sym, Permutation_rev.
Defined.
End witnesses.

(** ** A poll with the allocation's own token *)

Module PollExample.
Import CryptoExample.

Definition polling : Allocation :=
  set_WireGuardPollTokenHash (pad [Byte.x0a; Byte.x0b]) (AgentExample.runner "rs-a" Byte.x01).

Definition store (X : Type) (e : peersE X) (n : nat) : nat * X :=
  match e in peersE X return nat * X with
  | PLoad _ => (n, inr polling)
  | PList => (n, inr (polling :: AgentExample.runners))
  end.
End PollExample.

Section poll_witness.
Import CryptoExample PollExample.

End poll_witness.
