(* ===== verification/Provider.v ===== *)
(** * Provider configuration and names
    (internal/provider/command.go) *)
From S2P Require Import Prelude.

(** [provider.Config] *)
Record ProviderConfig := {
  AccountID : string;
  Subscription : string;
  ResourceGroup : string;
  SSHPublicKey : string;
  pc_Kind : string;
  Project : string;
  Profile : string;
  Subnet : string;
  SecurityGroup : string;
  pc_Owner : string;
  WireGuardControllerURL : string;
  AzureDiskControllerType : string
}.

Definition name_alphabet : string := "abcdefghijklmnopqrstuvwxyz0123456789-".

(** [s[0] < 'a' || s[0] > 'z'] *)
Definition starts_lower (s : string) : bool :=
  match s with
  | String c _ => (97 <=? N_of_ascii c)%N && (N_of_ascii c <=? 122)%N
  | "" => false
  end.

Definition ValidateName (s : string) : option error :=
  if (strlen s <? 1) || (63 <? strlen s) || (strings_trim s name_alphabet <>s "") || negb (starts_lower s)
  then Some (errors_new "invalid provider-safe name") else None.

(** [Command.Validate] *)
Definition Command_Validate (c : ProviderConfig) : option error :=
  match ValidateName (pc_Owner c) with
  | Some err => Some err
  | None =>
      if (pc_Owner c =s "") || (Subnet c =s "")
      then Some (errors_new "owner and isolated subnet required")
      else if (pc_Kind c =s "aws") && (SecurityGroup c <>s "") && (strlen (AccountID c) =? 12)
              && (strings_trim (AccountID c) "0123456789" =s "")
      then None
      else if (pc_Kind c =s "azure") && (Subscription c <>s "") && (ResourceGroup c <>s "")
              && (SecurityGroup c <>s "") && strings_has_prefix (SSHPublicKey c) "ssh-"
      then None
      else if (pc_Kind c =s "gcp") && (Project c <>s "")
      then None
      else Some (errors_new "aws requires securityGroup and 12-digit accountID; gcp requires project; azure requires subscription, resourceGroup, securityGroup and SSH public key")
  end.
