(* ===== verification/Command.v ===== *)
(** * The provider boundary
    (internal/provider/command.go)

    [Command] guards and dispatches the operations of the three cloud
    adapters; the adapters themselves, the JIT hook and the peer hook are its
    calls. *)
From S2P Require Import Prelude.
From S2P Require Import Effects.
From S2P Require Import Encoding.
From S2P Require Import Resources.
From S2P Require Import Allocation.
From S2P Require Import Provider.
From S2P Require Import Peers.

(** ** Boot scripts *)

Definition nl : string := String (ascii_of_nat 10) "".
Definition dq : string := String (ascii_of_nat 34) "".

(** [strings.Replace(s, old, new, 1)] for a nonempty [old]; [None] when [old]
    does not occur. *)
Fixpoint replace_first (old new s : string) : option string :=
  match cut_prefix old s with
  | Some rest => Some (new +:+ rest)
  | None => match s with "" => None | String c s' => String c <$> replace_first old new s' end
  end.

Definition script_head : string :=
  "#!/bin/bash" +:+ nl +:+ "set -eu" +:+ nl +:+ "umask 077" +:+ nl +:+
  "install -d -m 0700 -o runner -g runner /run/runnerscout" +:+ nl +:+ "printf '%s' '".
Definition script_install : string :=
  "' | base64 -d > /run/runnerscout/jit" +:+ nl +:+ "chown runner:runner /run/runnerscout/jit" +:+ nl.
Definition script_tail : string :=
  " shutdown -h now' EXIT" +:+ nl +:+ "cd /opt/actions-runner" +:+ nl +:+
  "runuser -u runner -- sh -c 'exec ./run.sh --jitconfig " +:+ dq +:+ "$(cat /run/runnerscout/jit)" +:+ dq +:+ "'" +:+ nl.

Definition bootstrapTrap : string := "trap 'rm -f /run/runnerscout/jit;".

Definition Bootstrap (jit : string) : string :=
  script_head +:+ base64_encode (go_bytes jit) +:+ script_install +:+ bootstrapTrap +:+ script_tail.

Definition wireguard_install (wireGuardJSON : string) : string :=
  "printf '%s' '" +:+ base64_encode (go_bytes wireGuardJSON) +:+ "' | base64 -d > /run/runnerscout/wireguard.json" +:+ nl
  +:+ "chown runner:runner /run/runnerscout/wireguard.json" +:+ nl.
Definition extendedTrap : string := "trap 'rm -f /run/runnerscout/jit /run/runnerscout/wireguard.json;".

Definition BootstrapWithWireGuard (jit wireGuardJSON : string) : result string :=
  let script := Bootstrap jit in
  if wireGuardJSON =s "" then inr script
  else
    match replace_first bootstrapTrap (wireguard_install wireGuardJSON +:+ extendedTrap) script with
    | None => inl (errors_new "wireguard: bootstrap script trap line changed shape; refusing to silently drop the wireguard secret file")
    | Some s => inr s
    end.

(** ** Operations *)

Record Command := {
  cmd_Config : ProviderConfig;
  hasBootstrap : bool;                 (* [Bootstrap != nil] *)
  hasNetworkPeers : bool               (* [NetworkPeers != nil] *)
}.

Inductive commandE : Type → Type :=
  | BootstrapJIT (id : string) : commandE (result string)
  | RandRead (n : nat) : commandE (result (list Byte.byte))
  | NetworkPeers (a : Allocation) : commandE (result (list Peer))
  | CloudCreate (kind : string) (a : Allocation) (script : string) : commandE (Creation * option error)
  | CloudObserve (kind : string) (a : Allocation) : commandE (Observation * option error)
  | ReconcileAzureCreation (a : Allocation) : commandE (Observation * option error)
  | CloudDelete (kind : string) (a : Allocation) : commandE (option error).

Abbreviation cmdM := (prog commandE).

(** [json.Marshal] of a payload *)
Class PayloadJSON := { marshal_payload : CloudInitPayload → result string }.

Definition no_creation : Creation :=
  {| cr_ResourceID := ""; cr_Resources := []; cr_WireGuardPublicKey := []; cr_WireGuardPollTokenHash := [];
     cr_WireGuardEndpoint := "" |}.
Definition no_observation : Observation :=
  {| ob_Resources := []; ob_Exists := false; ob_Known := false; ob_Interrupted := false; ob_ResourceID := "" |}.

(** The adapter [switch p.Config.Kind] selects. *)
Definition adapter (p : Command) : string :=
  let kind := pc_Kind (cmd_Config p) in
  if kind =s "aws" then "aws" else if kind =s "azure" then "azure" else "gcp".

(** [fmt.Errorf("%w: %v", lifecycle.ErrNoEffect, err)] *)
Definition no_effect_because (err : error) : error :=
  Err (err_text errNoEffect +:+ ": " +:+ err_text err) [ErrNoEffect].

(** What the wireguard-mode preparation yields. *)
Record WireGuardMaterial := {
  wm_JSON : string;
  wm_PublicKey : list Byte.byte;
  wm_PollTokenHash : list Byte.byte
}.
Definition no_material : WireGuardMaterial := {| wm_JSON := ""; wm_PublicKey := []; wm_PollTokenHash := [] |}.

Definition set_WireGuard (m : WireGuardMaterial) (networkProfile : string) (c : Creation) : Creation :=
  {| cr_ResourceID := cr_ResourceID c; cr_Resources := cr_Resources c;
     cr_WireGuardPublicKey := if (0 <? length (wm_PublicKey m))%nat then wm_PublicKey m else cr_WireGuardPublicKey c;
     cr_WireGuardPollTokenHash :=
       if (0 <? length (wm_PollTokenHash m))%nat then wm_PollTokenHash m else cr_WireGuardPollTokenHash c;
     cr_WireGuardEndpoint := if networkProfile =s "" then "" else cr_WireGuardEndpoint c |}.

Section command.
Context `{Crypto} `{PayloadJSON}.

(** The branch [a.NetworkProfile != ""]. *)
Definition wireguard_material (p : Command) (a : Allocation) : cmdM (result WireGuardMaterial) :=
  if NetworkProfile a =s "" then mret (inr no_material)
  else if negb (hasNetworkPeers p) then mret (inl errNoEffect)
  else
    rk ← call (RandRead KeySize);
    match Generate rk with
    | inl err => mret (inl err)
    | inr keyPair =>
        rt ← call (RandRead PollTokenSize);
        match GeneratePollToken rt with
        | inl err => mret (inl err)
        | inr (pollToken, pollTokenHash) =>
            peers ← call (NetworkPeers a);
            match peers with
            | inl err => mret (inl err)
            | inr peers =>
                mret match marshal_payload
                    {| pl_PrivateKey := base64_encode (Private keyPair); pl_AllocationID := ID a;
                       pl_ControllerURL := WireGuardControllerURL (cmd_Config p); pl_PollToken := pollToken;
                       pl_OverlayAddress := WireGuardOverlayAddress a; pl_Peers := peers |} with
                  | inl err => inl err
                  | inr encoded =>
                      inr {| wm_JSON := encoded; wm_PublicKey := Public keyPair; wm_PollTokenHash := pollTokenHash |}
                  end
            end
        end
    end.

Definition CreateWithResources (p : Command) (a : Allocation) : cmdM (Creation * option error) :=
  let refuse err : cmdM (Creation * option error) := mret (no_creation, Some err) in
  if (ResourceID a <>s "") || (0 <? length (Resources a))%nat
  then refuse (errors_new "cannot create over recorded cloud resources")
  else match ValidateName (ID a) with
  | Some err => refuse err
  | None =>
  match Command_Validate (cmd_Config p) with
  | Some err => refuse err
  | None =>
      if negb (hasBootstrap p) then refuse errNoEffect
      else
        jit ← call (BootstrapJIT (ID a));
        match jit with
        | inl err => refuse (no_effect_because err)
        | inr jit =>
            if jit =s "" then refuse errNoEffect
            else
              material ← wireguard_material p a;
              match material with
              | inl err => refuse err
              | inr m =>
                  match BootstrapWithWireGuard jit (wm_JSON m) with
                  | inl err => refuse err
                  | inr script =>
                      '(creation, err) ← call (CloudCreate (adapter p) a script);
                      mret (set_WireGuard m (NetworkProfile a) creation, err)
                  end
              end
        end
  end
  end.

Definition Create (p : Command) (a : Allocation) : cmdM (string * option error) :=
  '(receipt, err) ← CreateWithResources p a; mret (cr_ResourceID receipt, err).

Definition Observe (p : Command) (a : Allocation) : cmdM (Observation * option error) :=
  let refuse err : cmdM (Observation * option error) := mret (no_observation, Some err) in
  if (0 <? length (Resources a))%nat && (pc_Kind (cmd_Config p) <>s "aws") && (pc_Kind (cmd_Config p) <>s "azure")
  then refuse (errors_new "provider cannot reconcile recorded cloud dependencies")
  else match ValidateName (ID a) with
  | Some err => refuse err
  | None =>
      match Command_Validate (cmd_Config p) with
      | Some err => refuse err
      | None => call (CloudObserve (adapter p) a)
      end
  end.

Definition ReconcileCreation (p : Command) (a : Allocation) : cmdM (Observation * option error) :=
  if negb (phase_eqb (al_Phase a) Creating)
  then mret (no_observation, Some (errors_new "creation reconciliation requires committed intent"))
  else if pc_Kind (cmd_Config p) <>s "azure" then Observe p a
  else match ValidateName (ID a) with
  | Some err => mret (no_observation, Some err)
  | None =>
      match Command_Validate (cmd_Config p) with
      | Some err => mret (no_observation, Some err)
      | None => call (ReconcileAzureCreation a)
      end
  end.

Definition Delete (p : Command) (a : Allocation) : cmdM (option error) :=
  match ValidateName (ID a) with
  | Some err => mret (Some err)
  | None =>
  match Command_Validate (cmd_Config p) with
  | Some err => mret (Some err)
  | None =>
      if pc_Kind (cmd_Config p) =s "aws" then call (CloudDelete "aws" a)
      else if pc_Kind (cmd_Config p) =s "azure" then call (CloudDelete "azure" a)
      else
        '(ob, err) ← Observe p a;
        match err with
        | Some err => mret (Some err)
        | None =>
            if negb (ob_Known ob) then mret (Some (errors_new "resource inventory unknown"))
            else if negb (ob_Exists ob) then mret None
            else if (ResourceID a <>s "") && (ResourceID a <>s ob_ResourceID ob)
            then mret (Some (errors_new "resource identity mismatch"))
            else call (CloudDelete "gcp" (set_ResourceID (ob_ResourceID ob) a))
        end
  end
  end.
End command.

(** ** Properties of boot scripts *)

Lemma string_app_assoc (s t u : string) : (s +:+ t) +:+ u = s +:+ (t +:+ u).
Proof. induction s as [|c s IH]; [done|]. exact (f_equal (String c) IH). Qed.

Lemma string_app_nil (s : string) : s +:+ "" = s.
Proof. induction s as [|c s IH]; [done|]. exact (f_equal (String c) IH). Qed.

Definition base64_text (s : string) : Prop := Forall (.∈ base64_text_chars) (String.list_ascii_of_string s).

Lemma base64_encode_text l : base64_text (base64_encode l).
Proof.
  unfold base64_text, base64_encode. rewrite String.list_ascii_of_string_of_list_ascii. apply base64_chars_text.
Qed.

(** The pattern starts nowhere in [pre] when [s] follows. *)
Fixpoint skips (old pre s : string) : Prop :=
  match pre with
  | "" => True
  | String c pre' => cut_prefix old (pre +:+ s) = None ∧ skips old pre' s
  end.

Lemma replace_skip old new pre s :
  skips old pre s → replace_first old new (pre +:+ s) = String.append pre <$> replace_first old new s.
Proof.
  induction pre as [|c pre IH]; intros Hs.
  - change ("" +:+ s) with s. by destruct (replace_first old new s).
  - destruct Hs as [Hc Hs]. change (String c pre +:+ s) with (String c (pre +:+ s)) in *.
    cbn [replace_first]. rewrite Hc, IH by done. by destruct (replace_first old new s).
Qed.

(** A pattern with a space before any quote does not start inside a base64
    text that a quote follows. *)
Lemma pattern_not_in_base64 p1 p2 b rest :
  Forall (.≠ "'"%char) (String.list_ascii_of_string p1) → base64_text b →
  cut_prefix (p1 +:+ String " " p2) (b +:+ String "'" rest) = None.
Proof.
  assert (∀ c, c ∈ base64_text_chars → Ascii.eqb " " c = false) as Hsp.
  { intros c Hc. assert (Forall (λ c, Ascii.eqb " " c = false) base64_text_chars) as H.
    { repeat (constructor; [reflexivity|]). constructor. }
    rewrite Forall_forall in H. by apply H. }
  revert b. induction p1 as [|d p1 IH]; intros b Hp Hb.
  - destruct b as [|c b]; [done|]. apply Forall_cons in Hb as [Hc _].
    change (cut_prefix _ _) with (if Ascii.eqb " " c then cut_prefix p2 (b +:+ String "'" rest) else None).
    by rewrite Hsp.
  - apply Forall_cons in Hp as [Hd Hp]. destruct b as [|c b].
    + change (cut_prefix _ _) with (if Ascii.eqb d "'" then cut_prefix (p1 +:+ String " " p2) rest else None).
      by apply Ascii.eqb_neq in Hd as ->.
    + apply Forall_cons in Hb as [_ Hb].
      change (cut_prefix _ _) with
        (if Ascii.eqb d c then cut_prefix (p1 +:+ String " " p2) (b +:+ String "'" rest) else None).
      by rewrite IH; destruct (Ascii.eqb d c).
Qed.

Lemma skips_base64 b rest : base64_text b → skips bootstrapTrap b (String "'" rest).
Proof.
  induction b as [|c b IH]; [done|]. intros Hb. split.
  - apply (pattern_not_in_base64 "trap"); [|done]. by repeat constructor.
  - apply IH. by apply Forall_cons in Hb as [_ Hb].
Qed.

Lemma skips_head s : skips bootstrapTrap script_head s.
Proof. vm_compute. repeat split. Qed.

Lemma skips_install s : skips bootstrapTrap script_install (bootstrapTrap +:+ s).
Proof. vm_compute. repeat split. Qed.

Lemma replace_in_script new b :
  base64_text b →
  replace_first bootstrapTrap new (script_head +:+ b +:+ script_install +:+ bootstrapTrap +:+ script_tail)
  = Some (script_head +:+ b +:+ script_install +:+ new +:+ script_tail).
Proof.
  intros Hb. rewrite replace_skip by apply skips_head.
  rewrite replace_skip by apply (skips_base64 b _ Hb). rewrite replace_skip by apply skips_install.
  assert (replace_first bootstrapTrap new (bootstrapTrap +:+ script_tail) = Some (new +:+ script_tail)) as ->.
  { unfold replace_first. destruct (cut_prefix bootstrapTrap (bootstrapTrap +:+ script_tail)) as [t|] eqn:Ht.
    - apply cut_prefix_spec in Ht. apply (String.app_inj _) in Ht as <-. done.
    - vm_compute in Ht. done. }
  done.
Qed.

(** The boot script carries exactly its two secrets.  Whatever the JIT
    token and payload are, the script is the fixed text with the base64 of the
    token between single quotes and, in wireguard mode, the installation of the
    payload before the trap that removes both files; the embedded texts contain
    no quote and decode to the secrets. *)
Theorem bootstrap_embeds jit wireGuardJSON :
  (wireGuardJSON = "" → BootstrapWithWireGuard jit wireGuardJSON = inr (Bootstrap jit)) ∧
  (wireGuardJSON ≠ "" → BootstrapWithWireGuard jit wireGuardJSON = inr
    (script_head +:+ base64_encode (go_bytes jit) +:+ script_install
     +:+ (wireguard_install wireGuardJSON +:+ extendedTrap) +:+ script_tail)) ∧
  ∀ secret, "'"%char ∉ String.list_ascii_of_string (base64_encode (go_bytes secret)) ∧
    go_string <$> base64_decode (base64_encode (go_bytes secret)) = Some secret.
Proof.
  split_and!.
  - by intros ->.
  - intros Hne. unfold BootstrapWithWireGuard, Bootstrap. apply String.eqb_neq in Hne as ->.
    rewrite replace_in_script by apply base64_encode_text. done.
  - intros secret. split.
    + intros Hin. pose proof (base64_encode_text (go_bytes secret)) as Ht. unfold base64_text in Ht.
      rewrite Forall_forall in Ht. by apply Ht, (bool_decide_eq_true_2 _) in Hin.
    + rewrite base64_decode_encode. simpl. f_equal. apply go_string_bytes.
Qed.

(** ** Properties of the operations *)

Definition cloud_create (v : event commandE) : option (string * Allocation * string) :=
  match projT2 v with
  | (e, x) => match e in commandE X with CloudCreate k a s => Some (k, a, s) | _ => None end
  end.

Definition cloud_delete (v : event commandE) : option (string * Allocation) :=
  match projT2 v with
  | (e, x) => match e in commandE X with CloudDelete k a => Some (k, a) | _ => None end
  end.

Section properties.
Context `{Crypto} `{PayloadJSON}.

(** The identities the controller will record are those of the secrets it
    embeds: the public key of the private key, the hash of the poll token. *)
Definition material_ok (p : Command) (a : Allocation) (h : list (event commandE)) (m : WireGuardMaterial) : Prop :=
  NetworkProfile a = "" ∧ m = no_material ∨
  NetworkProfile a ≠ "" ∧ ∃ priv raw peers,
    ev (NetworkPeers a) (inr peers) ∈ h ∧
    X25519_base priv = inr (wm_PublicKey m) ∧ wm_PollTokenHash m = Sum256 raw ∧
    marshal_payload
      {| pl_PrivateKey := base64_encode priv; pl_AllocationID := ID a;
         pl_ControllerURL := WireGuardControllerURL (cmd_Config p); pl_PollToken := hex_encode raw;
         pl_OverlayAddress := WireGuardOverlayAddress a; pl_Peers := peers |} = inr (wm_JSON m).

Lemma wp_material p a Q h :
  (∀ h' e, omap cloud_create h' = [] → Q (h ++ h') (inl e)) →
  (∀ h' m, omap cloud_create h' = [] → material_ok p a h' m → Q (h ++ h') (inr m)) →
  wp no_contract Q h (wireguard_material p a).
Proof.
  intros He Hm. unfold wireguard_material. destruct (String.eqb_spec (NetworkProfile a) "") as [Hn|Hn].
  { apply wp_ret. rewrite <- (app_nil_r h). apply Hm; [done|]. by left. }
  destruct (hasNetworkPeers p); cbn [negb]; [|apply wp_ret; rewrite <- (app_nil_r h); by apply He].
  apply wp_call_bind. intros rk _.
  destruct (Generate rk) as [e|kp] eqn:Hg; [by apply wp_ret, He|].
  apply wp_call_bind. intros rt _. rewrite <- app_assoc.
  destruct (GeneratePollToken rt) as [e|[tok hash]] eqn:Ht; [by apply wp_ret, He|].
  apply wp_call_bind. intros [e|peers] _; rewrite <- app_assoc; [by apply wp_ret, He|].
  apply wp_ret. destruct (marshal_payload _) as [e|encoded] eqn:Hj; [by apply He|].
  apply Hm; [done|]. right. split; [done|]. destruct rk as [|raw]; [done|]. destruct rt as [|raw']; [done|].
  unfold Generate in Hg. destruct (X25519_base (clamp raw)) as [|pub] eqn:Hx; [done|]. injection Hg as <-.
  injection Ht as <- <-. exists (clamp raw), raw', peers. split_and!; try done.
  do 2 right. left.
Qed.

(** A create reaches the cloud at most once, as the last call, and only for
    an allocation without recorded resources, with valid names and
    configuration, after a nonempty JIT token was obtained and with the script
    that embeds it; every other outcome is an error with nothing created.  The
    result is the adapter's, with the identities of the embedded secrets. *)
Theorem create_gated p a :
  ensures no_contract (CreateWithResources p a) (λ h '(creation, err),
    (omap cloud_create h = [] ∧ creation = no_creation ∧ err ≠ None) ∨
    ∃ pre jit script answer m,
      h = pre ++ [ev (CloudCreate (adapter p) a script) (answer, err)] ∧ omap cloud_create pre = [] ∧
      ResourceID a = "" ∧ Resources a = [] ∧ ValidateName (ID a) = None ∧ Command_Validate (cmd_Config p) = None ∧
      ev (BootstrapJIT (ID a)) (inr jit) ∈ pre ∧ jit ≠ "" ∧ BootstrapWithWireGuard jit (wm_JSON m) = inr script ∧
      material_ok p a pre m ∧ creation = set_WireGuard m (NetworkProfile a) answer).
Proof.
  apply wp_ensures. unfold CreateWithResources. cbv zeta.
  destruct (_ || _) eqn:Hrec; [apply wp_ret; by left|]. reflect in Hrec. destruct Hrec as [Hid Hres].
  destruct (ValidateName (ID a)) eqn:Hname; [apply wp_ret; by left|].
  destruct (Command_Validate _) eqn:Hval; [apply wp_ret; by left|].
  destruct (hasBootstrap p); cbn [negb]; [|apply wp_ret; by left].
  apply wp_call_bind. intros [e|jit] _; [apply wp_ret; by left|].
  destruct (String.eqb_spec jit "") as [|Hjit]; [apply wp_ret; by left|].
  apply wp_bind, wp_material; [intros h' e Hc; apply wp_ret; by left|].
  intros h' m Hc Hm. destruct (BootstrapWithWireGuard jit (wm_JSON m)) as [e|script] eqn:Hs;
    [apply wp_ret; by left|].
  apply wp_call_bind. intros [answer err] _. cbn beta iota. apply wp_ret. right.
  eexists (_ ++ h'), jit, script, answer, m. split; [done|]. split_and!; try done.
  - left.
  - destruct Hm as [?|(Hn & priv & raw & peers & Hin & Hm)]; [by left|]. right. split; [done|].
    exists priv, raw, peers. split; [|done]. by right.
Qed.

(** Nothing is deleted under an unproven identity.  Every cloud delete is
    for a valid name under a valid configuration; a GCP delete additionally
    follows, in the same call, an observation that proved the resource to
    exist under an ID that is the recorded one if any is recorded, and it
    deletes that resource. *)
Theorem delete_identified p a :
  ensures no_contract (Delete p a) (λ h r,
    at_every (λ pre v, ∀ kind a', cloud_delete v = Some (kind, a') →
      kind = adapter p ∧ omap cloud_delete pre = [] ∧
      ValidateName (ID a) = None ∧ Command_Validate (cmd_Config p) = None ∧
      (kind = "gcp" → ∃ ob, ev (CloudObserve "gcp" a) (ob, None) ∈ pre ∧ ob_Known ob = true ∧
         ob_Exists ob = true ∧ (ResourceID a = "" ∨ ResourceID a = ob_ResourceID ob) ∧
         a' = set_ResourceID (ob_ResourceID ob) a) ∧
      (kind ≠ "gcp" → a' = a)) h).
Proof.
  apply wp_ensures. unfold Delete.
  destruct (ValidateName (ID a)) eqn:Hname; [apply wp_ret, at_every_nil|].
  destruct (Command_Validate _) eqn:Hval; [apply wp_ret, at_every_nil|].
  destruct (String.eqb_spec (pc_Kind (cmd_Config p)) "aws") as [Hk|Hk].
  { apply wp_call. intros x _. apply at_every_compute. split; [|done]. intros kind a' [= <- <-].
    unfold adapter. rewrite Hk. by split_and!. }
  destruct (String.eqb_spec (pc_Kind (cmd_Config p)) "azure") as [Hk'|Hk'].
  { apply wp_call. intros x _. apply at_every_compute. split; [|done]. intros kind a' [= <- <-].
    unfold adapter. rewrite Hk'. by split_and!. }
  assert (adapter p = "gcp") as Had.
  { unfold adapter. apply String.eqb_neq in Hk, Hk'. by rewrite Hk, Hk'. }
  apply wp_bind. unfold Observe. rewrite Hname, Hval, Had. cbv zeta.
  destruct (_ && _); [by apply wp_ret, wp_ret, at_every_nil|].
  apply wp_call. intros [ob [err|]] _; cbn beta iota.
  { apply wp_ret, at_every_compute. by split. }
  assert (at_every (λ pre v, ∀ kind a', cloud_delete v = Some (kind, a') → False)
    [ev (CloudObserve "gcp" a) (ob, None)]) as Hnone by (apply at_every_compute; by split).
  destruct (ob_Known ob) eqn:Hkn; cbn [negb];
    [|apply wp_ret; intros pre v post Heq kind a' Hd; by destruct (Hnone pre v post Heq kind a' Hd)].
  destruct (ob_Exists ob) eqn:Hex; cbn [negb];
    [|apply wp_ret; intros pre v post Heq kind a' Hd; by destruct (Hnone pre v post Heq kind a' Hd)].
  destruct (_ && _) eqn:Hmis;
    [apply wp_ret; intros pre v post Heq kind a' Hd; by destruct (Hnone pre v post Heq kind a' Hd)|].
  apply wp_call. intros x _. apply at_every_snoc.
  - intros pre v post Heq kind a' Hd. by destruct (Hnone pre v post Heq kind a' Hd).
  - intros kind a' [= <- <-]. split_and!; try done. intros _. exists ob. split_and!; try done; [left|].
    reflect in Hmis. destruct Hmis as [Hm|Hm]; [by left|by right].
Qed.
End properties.

(** ** A create and a delete *)

Module CommandExample.
Import CryptoExample.

#[export] Instance payload_json : PayloadJSON := {| marshal_payload := λ p, inr ("{" +:+ pl_PollToken p +:+ "}") |}.

Definition command : Command :=
  {| cmd_Config :=
       {| AccountID := ""; Subscription := ""; ResourceGroup := ""; SSHPublicKey := ""; pc_Kind := "gcp";
          Project := "p"; Profile := ""; Subnet := "net"; SecurityGroup := ""; pc_Owner := "set";
          WireGuardControllerURL := "https://c"; AzureDiskControllerType := "" |};
     hasBootstrap := true; hasNetworkPeers := true |}.

Definition fresh_allocation : Allocation :=
  {| Resources := []; RejectedAt := ∅; Completed := false; ID := "rs-a"; Revision := "1"; al_Phase := Creating;
     Deadline := zero_time; Attempts := 1; MaxAttempts := 3; al_Offering := zero_offering; Outcomes := ∅;
     al_Catalog := zero_catalog; al_Requirements := zero_requirements; ResourceID := "";
     Ready := false; Retire := false; Condition := ""; RunID := 0; Owner := ""; Repo := "";
     ScaleSetJobID := ""; RetryProcessed := false; NetworkProfile := "mesh"; WireGuardPublicKey := [];
     WireGuardOverlayAddress := "10.0.0.2"; WireGuardEndpoint := ""; WireGuardPollTokenHash := [];
     TerminalAt := zero_time |}.

Definition created : Creation :=
  {| cr_ResourceID := "vm-1"; cr_Resources := []; cr_WireGuardPublicKey := []; cr_WireGuardPollTokenHash := [];
     cr_WireGuardEndpoint := "10.1.0.2:51820" |}.

Definition cloud (X : Type) (e : commandE X) (n : nat) : nat * X :=
  match e in commandE X return nat * X with
  | BootstrapJIT _ => (n, inr "jit-token")
  | RandRead k => (n, inr (replicate k Byte.x41))
  | NetworkPeers _ => (n, inr [])
  | CloudCreate _ _ _ => (S n, (created, None))
  | CloudObserve _ _ => (n, ({| ob_Resources := []; ob_Exists := true; ob_Known := true; ob_Interrupted := false;
                                ob_ResourceID := "vm-1" |}, None))
  | ReconcileAzureCreation _ => (n, (no_observation, None))
  | CloudDelete _ _ => (S n, None)
  end.
End CommandExample.

Section witnesses.
Import CryptoExample CommandExample.

Lemma bootstrap_embeds_witness :
  BootstrapWithWireGuard "trap" "{}" = inr
    (script_head +:+ "dHJhcA==" +:+ script_install +:+ (wireguard_install "{}" +:+ extendedTrap) +:+ script_tail).
Proof. exact (proj1 (proj2 (bootstrap_embeds "trap" "{}")) ltac:(discriminate)). Defined.

Lemma create_gated_witness :
  ∃ pre jit script answer m,
    run_history cloud (CreateWithResources command fresh_allocation) 0%nat
      = pre ++ [ev (CloudCreate "gcp" fresh_allocation script) (answer, None)] ∧
    BootstrapWithWireGuard jit (wm_JSON m) = inr script ∧ material_ok command fresh_allocation pre m.
Proof.
  pose proof (create_gated command fresh_allocation _ _ (run_trace cloud _ 0%nat) ltac:(by apply Forall_true)) as Hc.
  assert (snd (snd (run cloud (CreateWithResources command fresh_allocation) 0%nat)) = None) as Hn
    by (vm_compute; reflexivity).
  destruct (snd (run cloud _ _)) as [creation err]. simpl in Hn. subst err.
  destruct Hc as [(_ & _ & Hne)|(pre & jit & script & answer & m & Hh & _ & _ & _ & _ & _ & _ & _ & Hs & Hm & _)];
    [by destruct Hne|].
  exists pre, jit, script, answer, m. exact (conj Hh (conj Hs Hm)).
Defined.

Lemma delete_identified_witness :
  omap cloud_delete (run_history cloud (Delete command fresh_allocation) 0%nat)
    = [("gcp", set_ResourceID "vm-1" fresh_allocation)] ∧
  Command_Validate (cmd_Config command) = None.
Proof.
  split; [vm_compute; reflexivity|].
  pose proof (delete_identified command fresh_allocation _ _ (run_trace cloud _ 0%nat) ltac:(by apply Forall_true)) as Hd.
  eapply (Hd [_] _ []); vm_compute; reflexivity.
Defined.
End witnesses.
