(* ===== verification/Cloud.v ===== *)
(** * What the cloud adapters share
    (internal/provider)

    Ownership marks, receipts, wrapped errors and the endpoint of a machine;
    facts about the errors an adapter may return. *)
From stdpp Require Import pretty.
From S2P Require Import Prelude.
From S2P Require Import Effects.
From S2P Require Import Resources.
From S2P Require Import Allocation.
From S2P Require Import Peers.

(** The names of the ownership tags and labels. *)
Definition owner_tag : string := "runnerscout-owner".
Definition operation_tag : string := "runnerscout-operation".

(** [fmt.Errorf("...: %w", err)] *)
Definition wrapped (prefix : string) (err : error) : error := Err (prefix +:+ err_text err) (err_chain err).

(** [wireGuardEndpoint] *)
Definition wireGuardEndpoint (privateIP : string) : string :=
  if privateIP =s "" then ""
  else if strings_contains_any privateIP ":" then "[" +:+ privateIP +:+ "]:" +:+ pretty DefaultListenPort
  else privateIP +:+ ":" +:+ pretty DefaultListenPort.

(** A receipt of an adapter: it never sets the wireguard identities. *)
Definition receipt (id : string) (refs : list ResourceReference) (endpoint : string) : Creation :=
  {| cr_ResourceID := id; cr_Resources := refs; cr_WireGuardPublicKey := []; cr_WireGuardPollTokenHash := [];
     cr_WireGuardEndpoint := endpoint |}.

(** Neither of the errors by which an adapter says that nothing was created. *)
Definition no_sentinel (e : error) : Prop := errors_is e ErrNoEffect = false ∧ errors_is e ErrCapacity = false.

Lemma plain_error e : err_chain e = [] → no_sentinel e.
Proof. unfold no_sentinel, errors_is. by intros ->. Qed.

Lemma wrapped_sentinel prefix e : no_sentinel e → no_sentinel (wrapped prefix e).
Proof. done. Qed.

Lemma merge_error x y e : MergeResources x y = inl e → err_chain e = [].
Proof.
  unfold MergeResources. generalize (∅ : gset ResourceReference) (∅ : gmap (string * string) string) (x ++ y).
  intros set ids l. revert set ids. induction l as [|r l IH]; intros set ids; cbn [merge_loop]; [done|].
  destruct (invalid_reference r); [by intros [= <-]|].
  destruct (ids !! ref_key r); cbv zeta; repeat (destruct (_ <>s _) || destruct (_ <? _)%nat);
    try (by intros [= <-]); apply IH.
Qed.

(** A postcondition that may use that the whole history keeps to the contract. *)
Lemma ensures_under {E R} (G : contract E) (Q : list (event E) → R → Prop) (p : prog E R) :
  wp no_contract (λ h r, Forall (respects G) h → Q h r) [] p → ensures G p Q.
Proof. intros Hp h r Ht Hh. exact (trace_wp _ _ _ _ Ht Hp Hh). Qed.

Create HintDb cloud.
#[export] Hint Resolve plain_error wrapped_sentinel : cloud.
#[export] Hint Extern 1 (no_sentinel (errors_new _)) => apply plain_error; reflexivity : cloud.
