(* ===== verification/Tunnel.v ===== *)
(** * The tunnel of a runner VM
    (internal/wireguard/tunnel/tunnel.go)

    The configuration text handed to the wireguard device, and the operations of
    a tunnel as programs over the device's calls.  An address of the model is
    valid, so the code's [IsValid] checks cannot fail; the agent sets no MTU. *)
From stdpp Require Import pretty.
From S2P Require Import Prelude.
From S2P Require Import Effects.
From S2P Require Import Encoding.
From S2P Require Import Resources.
From S2P Require Import Allocation.
From S2P Require Import Overlay.
From S2P Require Import Peers.
From S2P Require Import Command.
From S2P Require Import Agent.

(** ** The configuration protocol *)

(** [netip.AddrPort.String] *)
Class PortText := { addrPort_String : AddrPort → string }.

Section text.
Context `{NetText} `{PortText}.

(** [singleHostPrefix] *)
Definition singleHostPrefix (addr : Addr) : Prefix :=
  {| pfx_Addr := addr; pfx_Bits := if Is4 addr then 32 else 128 |}.

(** [netip.Prefix.String] *)
Definition prefix_String (p : Prefix) : string := addr_String (pfx_Addr p) +:+ "/" +:+ pretty (pfx_Bits p).

(** ["key=%s\n"] *)
Definition uapi_line (key value : string) : string := key +:+ "=" +:+ value +:+ nl.

Definition writePeerBlock (p : TunnelPeer) : string :=
  uapi_line "public_key" (hex_encode (tp_PublicKey p)) +:+
  match tp_Endpoint p with Some e => uapi_line "endpoint" (addrPort_String e) | None => "" end +:+
  uapi_line "allowed_ip" (prefix_String (singleHostPrefix (tp_OverlayAddress p))).

Fixpoint write_peers (peers : list TunnelPeer) : string :=
  match peers with [] => "" | p :: peers' => writePeerBlock p +:+ write_peers peers' end.

Definition uapiConfig (cfg : TunnelConfig) : string :=
  uapi_line "private_key" (hex_encode (tc_PrivateKey cfg)) +:+
  (if tc_ListenPort cfg =? 0 then "" else uapi_line "listen_port" (pretty (tc_ListenPort cfg))) +:+
  write_peers (tc_Peers cfg).
End text.

(** ** Operations *)

Inductive deviceE : Type → Type :=
  | CreateNetTUN (addr : Addr) (mtu : Z) : deviceE (option error)
  | NewDevice : deviceE unit
  | IpcSet (config : string) : deviceE (option error)
  | DeviceUp : deviceE (option error)
  | DeviceRemovePeer (pub : PublicKey) : deviceE unit
  | DeviceClose : deviceE unit.

Abbreviation deviceM := (prog deviceE).

Definition DefaultMTU : Z := 1420.

(** The loop over the peers that [BringUp] starts with. *)
Fixpoint check_peers (seen : gset PublicKey) (peers : list TunnelPeer) : option error :=
  match peers with
  | [] => None
  | p :: peers' =>
      if bool_decide (tp_PublicKey p ∈ seen)
      then Some (errors_new ("wireguard/tunnel: duplicate peer public key " +:+ base64_encode (tp_PublicKey p)))
      else check_peers ({[tp_PublicKey p]} ∪ seen) peers'
  end.

Section operations.
Context `{NetText} `{PortText}.

(** [BringUp]: the error, or a running tunnel. *)
Definition BringUp (cfg : TunnelConfig) : deviceM (option error) :=
  match check_peers ∅ (tc_Peers cfg) with
  | Some err => mret (Some err)
  | None =>
      e ← call (CreateNetTUN (tc_OverlayAddress cfg) DefaultMTU);
      match e with
      | Some err => mret (Some (errorf_w "wireguard/tunnel: create netstack TUN" err))
      | None =>
          _ ← call NewDevice;
          e ← call (IpcSet (uapiConfig cfg));
          match e with
          | Some err => _ ← call DeviceClose; mret (Some (errorf_w "wireguard/tunnel: configure device" err))
          | None =>
              e ← call DeviceUp;
              match e with
              | Some err => _ ← call DeviceClose; mret (Some (errorf_w "wireguard/tunnel: bring device up" err))
              | None => mret None
              end
          end
      end
  end.

(** [AddPeer], [RemovePeer] and [Close] *)
Definition Tunnel_AddPeer (p : TunnelPeer) : deviceM (option error) :=
  e ← call (IpcSet (writePeerBlock p));
  mret match e with
       | Some err => Some (errorf_w ("wireguard/tunnel: add peer " +:+ base64_encode (tp_PublicKey p)) err)
       | None => None
       end.

Definition Tunnel_RemovePeer (pub : PublicKey) : deviceM (option error) :=
  _ ← call (DeviceRemovePeer pub); mret None.

Definition Tunnel_Close : deviceM (option error) := _ ← call DeviceClose; mret None.
End operations.

(** ** Reading the protocol

    The text is lines, each a key and a value around the first ["="]. *)

Definition newline : ascii := ascii_of_nat 10.

(** [lines_of cur l]: the lines of [l] when the characters of [cur] are already
    read of the first; a text that does not end with a newline has no lines. *)
Fixpoint lines_of (cur : list ascii) (l : list ascii) : option (list (list ascii)) :=
  match l with
  | [] => match cur with [] => Some [] | _ => None end
  | ch :: l' =>
      if Ascii.eqb ch newline then cons (reverse cur) <$> lines_of [] l' else lines_of (ch :: cur) l'
  end.

Fixpoint cut_equals (key l : list ascii) : option (list ascii * list ascii) :=
  match l with
  | [] => None
  | ch :: l' => if Ascii.eqb ch "="%char then Some (reverse key, l') else cut_equals (ch :: key) l'
  end.

Definition read_line (l : list ascii) : option (string * string) :=
  '(key, value) ← cut_equals [] l; Some (String.string_of_list_ascii key, String.string_of_list_ascii value).

Definition uapi_read (s : string) : option (list (string * string)) :=
  lines ← lines_of [] (String.list_ascii_of_string s); mapM read_line lines.

(** What the device is to be told. *)
Section settings.
Context `{NetText} `{PortText}.

Definition peer_settings (p : TunnelPeer) : list (string * string) :=
  [("public_key", hex_encode (tp_PublicKey p))] ++
  match tp_Endpoint p with Some e => [("endpoint", addrPort_String e)] | None => [] end ++
  [("allowed_ip", prefix_String (singleHostPrefix (tp_OverlayAddress p)))].

Definition settings (cfg : TunnelConfig) : list (string * string) :=
  [("private_key", hex_encode (tc_PrivateKey cfg))] ++
  (if tc_ListenPort cfg =? 0 then [] else [("listen_port", pretty (tc_ListenPort cfg))]) ++
  (tc_Peers cfg ≫= peer_settings).
End settings.

Definition one_line (s : string) : Prop := newline ∉ String.list_ascii_of_string s.

Lemma lines_step l : ∀ cur rest,
  newline ∉ l → lines_of cur (l ++ newline :: rest) = cons (reverse cur ++ l) <$> lines_of [] rest.
Proof.
  induction l as [|ch l IH]; intros cur rest Hl; cbn [app lines_of].
  - by rewrite Ascii.eqb_refl, app_nil_r.
  - apply not_elem_of_cons in Hl as [Hch Hl]. assert (Ascii.eqb ch newline = false) as -> by (apply Ascii.eqb_neq; congruence).
    rewrite IH by done. by rewrite reverse_cons, <- app_assoc.
Qed.

Lemma cut_step k : ∀ acc v, "="%char ∉ k → cut_equals acc (k ++ "="%char :: v) = Some (reverse acc ++ k, v).
Proof.
  induction k as [|ch k IH]; intros acc v Hk; cbn [app cut_equals].
  - by rewrite app_nil_r.
  - apply not_elem_of_cons in Hk as [Hch Hk]. assert (Ascii.eqb ch "=" = false) as -> by (apply Ascii.eqb_neq; congruence).
    rewrite IH by done. by rewrite reverse_cons, <- app_assoc.
Qed.

Lemma list_ascii_app s t :
  String.list_ascii_of_string (s +:+ t) = String.list_ascii_of_string s ++ String.list_ascii_of_string t.
Proof. induction s as [|ch s IH]; [done|]. exact (f_equal (cons ch) IH). Qed.

Lemma read_uapi_line k v s :
  "="%char ∉ String.list_ascii_of_string k → one_line k → one_line v →
  uapi_read (uapi_line k v +:+ s) = cons (k, v) <$> uapi_read s.
Proof.
  intros Hk Hk1 Hv. unfold uapi_read, uapi_line. rewrite !list_ascii_app, <- !app_assoc.
  change (String.list_ascii_of_string "=") with ["="%char]. change (String.list_ascii_of_string nl) with [newline].
  set (ks := String.list_ascii_of_string k) in *. set (vs := String.list_ascii_of_string v) in *.
  replace (ks ++ ["="%char] ++ vs ++ [newline] ++ String.list_ascii_of_string s)
    with ((ks ++ "="%char :: vs) ++ newline :: String.list_ascii_of_string s) by (by rewrite <- app_assoc).
  assert (read_line (reverse [] ++ (ks ++ "="%char :: vs)) = Some (k, v)) as Hr.
  { change (reverse [] ++ (ks ++ "="%char :: vs)) with (ks ++ "="%char :: vs). unfold read_line. rewrite cut_step by done.
    cbn [mbind option_bind]. change (reverse [] ++ ks) with ks. subst ks vs. by rewrite !String.string_of_list_ascii_of_string. }
  rewrite lines_step by (rewrite not_elem_of_app, not_elem_of_cons; by split_and!).
  destruct (lines_of [] _) as [ls|]; [|done]. cbn [fmap option_fmap option_map mbind option_bind].
  change (mapM read_line ((reverse [] ++ (ks ++ "="%char :: vs)) :: ls))
    with (x ← read_line (reverse [] ++ (ks ++ "="%char :: vs)); rest ← mapM read_line ls; mret (x :: rest)).
  rewrite Hr. cbn [mbind option_bind]. by destruct (mapM read_line ls).
Qed.

Lemma hex_one_line l : one_line (hex_encode l).
Proof.
  unfold one_line, hex_encode. rewrite String.list_ascii_of_string_of_list_ascii.
  assert (∀ v, hex_char v ≠ newline) as Hc.
  { intros v. unfold hex_char. destruct (hex_alphabet !! Z.to_nat v) as [ch|] eqn:Hl; [|done].
    assert (Forall (.≠ newline) hex_alphabet) as Ha by (repeat (constructor; [done|]); constructor).
    rewrite Forall_forall in Ha. apply Ha. by eapply list_elem_of_lookup_2. }
  induction l as [|b l IH]; cbn [hex_chars]; [by apply not_elem_of_nil|].
  rewrite !not_elem_of_cons. split_and!; [intros E; by eapply Hc|intros E; by eapply Hc|done].
Qed.

Lemma one_line_cons ch s : one_line (String ch s) ↔ ch ≠ newline ∧ one_line s.
Proof. unfold one_line. cbn [String.list_ascii_of_string]. rewrite not_elem_of_cons. naive_solver. Qed.

Lemma digits_one_line x : ∀ s, one_line s → one_line (pretty_N_go x s).
Proof.
  induction (N.lt_wf_0 x) as [x _ IH]; intros s Hs.
  assert (x = 0 ∨ 0 < x)%N as [->|Hx] by lia; [by rewrite pretty_N_go_0|].
  rewrite pretty_N_go_step by done. apply IH; [by apply N.div_lt|]. apply one_line_cons. split; [|done].
  unfold pretty_N_char. by repeat case_match.
Qed.

Lemma pretty_N_one_line (x : N) : one_line (pretty x).
Proof.
  assert (one_line "") as H0 by by apply not_elem_of_nil. unfold pretty, pretty_N.
  case_decide; [by apply one_line_cons|by apply digits_one_line].
Qed.

Lemma pretty_one_line (x : Z) : one_line (pretty x).
Proof. destruct x; cbn; [by apply one_line_cons; split; [|apply not_elem_of_nil]|apply pretty_N_one_line|
  apply one_line_cons; split; [done|apply pretty_N_one_line]]. Qed.

(** Read the next line. *)
Ltac plain_text := by vm_compute; intros Hin; repeat (apply elem_of_cons in Hin as [?|Hin]; [done|]); apply not_elem_of_nil in Hin.
Ltac uapi := rewrite read_uapi_line; [|plain_text|plain_text|].

Section reading.
Context `{NetText} `{PortText}.
Context (Haddr : ∀ a, one_line (addr_String a)) (Hport : ∀ e, one_line (addrPort_String e)).

Lemma prefix_one_line p : one_line (prefix_String p).
Proof.
  unfold one_line, prefix_String. rewrite !list_ascii_app, !not_elem_of_app. split_and!; [apply Haddr| |apply pretty_one_line].
  by intros [?|Hin%not_elem_of_nil]%elem_of_cons.
Qed.

Lemma read_peer p s : uapi_read (writePeerBlock p +:+ s) = app (peer_settings p) <$> uapi_read s.
Proof.
  unfold writePeerBlock, peer_settings. rewrite !string_app_assoc. uapi; [|apply hex_one_line].
  destruct (tp_Endpoint p) as [e|].
  - uapi; [|apply Hport]. uapi; [|apply prefix_one_line]. by destruct (uapi_read s).
  - change ("" +:+ ?x) with x. uapi; [|apply prefix_one_line]. by destruct (uapi_read s).
Qed.

Lemma read_peers peers : uapi_read (write_peers peers) = Some (peers ≫= peer_settings).
Proof.
  induction peers as [|p peers IH]; [done|]. cbn [write_peers]. by rewrite read_peer, IH.
Qed.
End reading.

(** The text the device gets says exactly what was meant.  If no address text
    has a newline, reading the rendered configuration line by line gives back the
    private key, the listen port if one is set, and for every peer, in order, its
    key, its endpoint if it has one, and its overlay address as a single-host
    prefix; nothing else is set. *)
Theorem uapi_roundtrip `{NetText} `{PortText} cfg :
  (∀ a, one_line (addr_String a)) → (∀ e, one_line (addrPort_String e)) →
  uapi_read (uapiConfig cfg) = Some (settings cfg).
Proof.
  intros Haddr Hport. unfold uapiConfig, settings. uapi; [|apply hex_one_line].
  destruct (tc_ListenPort cfg =? 0).
  - change ("" +:+ ?x) with x. by rewrite read_peers.
  - uapi; [|apply pretty_one_line]. by rewrite read_peers.
Qed.

(** A tunnel that fails to come up leaves no device, and one that comes up was
    configured with its whole configuration. *)
Theorem bringup_clean `{NetText} `{PortText} cfg :
  ensures no_contract (BringUp cfg) (λ h r,
    match r with
    | None => h = [ev (CreateNetTUN (tc_OverlayAddress cfg) DefaultMTU) None; ev NewDevice tt;
                   ev (IpcSet (uapiConfig cfg)) None; ev DeviceUp None]
    | Some _ => ev NewDevice tt ∈ h → ∃ h', h = h' ++ [ev DeviceClose tt]
    end).
Proof.
  apply wp_ensures. unfold BringUp. destruct (check_peers _ _); [apply wp_ret; by intros ?%not_elem_of_nil|].
  apply wp_call_bind. intros [e|] _; [apply wp_ret; by intros [?|?%not_elem_of_nil]%elem_of_cons|].
  apply wp_call_bind. intros [] _. apply wp_call_bind. intros [e|] _; [apply wp_call_bind; intros [] _; apply wp_ret; by eexists|].
  apply wp_call_bind. intros [e|] _; [apply wp_call_bind; intros [] _; apply wp_ret; by eexists|]. by apply wp_ret.
Qed.

(** A configuration whose peers are distinct is accepted by the checks. *)
Lemma check_peers_spec peers : ∀ seen,
  check_peers seen peers = None ↔ NoDup (tp_PublicKey <$> peers) ∧ ∀ p, p ∈ peers → tp_PublicKey p ∉ seen.
Proof.
  induction peers as [|p peers IH]; intros seen; cbn [check_peers fmap list_fmap].
  - split; [|done]. intros _. split; [constructor|]. intros p. by rewrite elem_of_nil.
  - case_bool_decide as Hin.
    + split; [done|]. intros [_ Hs]. exfalso. apply (Hs p); [left|done].
    + rewrite IH, NoDup_cons, list_elem_of_fmap. set_solver.
Qed.

(** ** A tunnel with one peer *)

Module TunnelExample.
Import OverlayExample.

#[export] Instance ports : PortText :=
  {| addrPort_String := λ e, show (ap_Addr e) +:+ ":" +:+ pretty (ap_Port e) |}.

Lemma show_one_line a : one_line (show a).
Proof.
  assert (∀ p, one_line (bits p)) as Hb.
  { induction p as [p IH|p IH|]; cbn [bits]; [by apply one_line_cons..|]. by apply not_elem_of_nil. }
  unfold show. apply one_line_cons. split; [by destruct (Is4 a)|].
  destruct (addr_val a); apply one_line_cons; (split; [done|]); [by apply not_elem_of_nil|apply Hb|apply Hb].
Qed.

Lemma ports_one_line e : one_line (addrPort_String e).
Proof.
  cbn. unfold one_line. rewrite !list_ascii_app, !not_elem_of_app. split_and!; [apply show_one_line| |apply pretty_one_line].
  by intros [?|Hin%not_elem_of_nil]%elem_of_cons.
Qed.

Definition config : TunnelConfig :=
  {| tc_PrivateKey := [Byte.x40]; tc_OverlayAddress := v4 167772161; tc_ListenPort := 51820;
     tc_Peers := [{| tp_PublicKey := [Byte.x01; Byte.xff]; tp_OverlayAddress := v4 1;
                     tp_Endpoint := Some {| ap_Addr := v4 3; ap_Port := 51820 |} |}] |}.
End TunnelExample.

Import OverlayExample TunnelExample.

Lemma uapi_roundtrip_witness :
  uapi_read (uapiConfig config) = Some (settings config) ∧
  settings config = [("private_key", "40"); ("listen_port", "51820"); ("public_key", "01ff"); ("endpoint", "4p1:51820");
                     ("allowed_ip", "4p/32")].
Proof. split; [exact (uapi_roundtrip config show_one_line ports_one_line)|vm_compute; reflexivity]. Defined.
