(* ===== verification/GithubJobs.v ===== *)
(** * The GitHub REST client
    (internal/githubjobs/githubjobs.go)

    Requests go out through [Do]; decoding a response body is the class
    [JobsJSON].  The unbounded page loop of [AttemptJobs] takes fuel; [None]
    is a loop that has not ended yet. *)
From stdpp Require Import pretty.
From S2P Require Import Prelude.
From S2P Require Import Effects.
From S2P Require Import Recovery.

Record attemptJob := {
  aj_ID : Z;
  aj_RunID : Z;
  RunAttempt : Z;
  aj_RunnerName : string;
  aj_Status : string;
  aj_Conclusion : string
}.
Record attemptJobsResponse := { TotalCount : Z; Jobs : list attemptJob }.

Class JobsJSON := { decode_jobs : string → result attemptJobsResponse }.

Definition errAttemptNotFound : error := Err "GitHub reports no such workflow run attempt" [ErrAttemptNotFound].
Definition errRerunRejected : error := Err "GitHub rejected the rerun-failed-jobs request" [ErrRerunRejected].

Record GithubClient := { BaseURL : string; Token : string }.

Record Request := { rq_Method : string; rq_URL : string; rq_Authorization : string }.
Record HTTPResponse := { StatusCode : Z; Body : string }.

Inductive restE : Type → Type :=
  | Do (r : Request) : restE (result HTTPResponse).

Definition baseURL (c : GithubClient) : string :=
  if BaseURL c <>s "" then BaseURL c else "https://api.github.com".

(** The fixed Accept and API-version headers are left out. *)
Definition github_do (c : GithubClient) (method path : string) : prog restE (result HTTPResponse) :=
  call (Do {| rq_Method := method; rq_URL := baseURL c +:+ path; rq_Authorization := "Bearer " +:+ Token c |}).

Definition run_path (owner repo : string) (runID : Z) : string :=
  "/repos/" +:+ owner +:+ "/" +:+ repo +:+ "/actions/runs/" +:+ pretty runID.

Definition jobs_path (owner repo : string) (runID attempt page : Z) : string :=
  run_path owner repo runID +:+ "/attempts/" +:+ pretty attempt +:+ "/jobs?per_page=100&page=" +:+ pretty page.

Definition rest_job (j : attemptJob) : RESTJob :=
  {| job_ID := aj_ID j; job_RunID := aj_RunID j; job_Attempt := RunAttempt j;
     job_RunnerName := aj_RunnerName j; job_Status := aj_Status j; job_Conclusion := aj_Conclusion j |}.

Section client.
Context `{JobsJSON} (c : GithubClient).

(** The loop from [page] on, with the jobs gathered so far. *)
Fixpoint attempt_pages (fuel : nat) (owner repo : string) (runID attempt page : Z) (jobs : list RESTJob)
    : prog restE (option (result (list RESTJob))) :=
  match fuel with
  | O => mret None
  | S fuel' =>
      response ← github_do c "GET" (jobs_path owner repo runID attempt page);
      match response with
      | inl err => mret (Some (inl err))
      | inr r =>
          if StatusCode r =? 404 then mret (Some (inl errAttemptNotFound))
          else if negb (StatusCode r =? 200) then
            mret (Some (inl (errors_new ("GitHub attempt jobs request failed with status " +:+ pretty (StatusCode r)))))
          else
            match decode_jobs (Body r) with
            | inl _ => mret (Some (inl (errors_new "GitHub attempt jobs response malformed")))
            | inr decoded =>
                let jobs := jobs ++ (rest_job <$> Jobs decoded) in
                if (length (Jobs decoded) =? 0)%nat || (TotalCount decoded <=? Z.of_nat (length jobs))
                then mret (Some (inr jobs))
                else attempt_pages fuel' owner repo runID attempt (page + 1) jobs
            end
      end
  end.

Definition AttemptJobs (fuel : nat) (owner repo : string) (runID attempt : Z)
    : prog restE (option (result (list RESTJob))) :=
  attempt_pages fuel owner repo runID attempt 1 [].

Definition RerunFailedJobs (owner repo : string) (runID : Z) : prog restE (option error) :=
  response ← github_do c "POST" (run_path owner repo runID +:+ "/rerun-failed-jobs");
  match response with
  | inl err => mret (Some err)
  | inr r =>
      mret (if negb (StatusCode r =? 201)
            then Some (Err (err_text errRerunRejected +:+ ": status " +:+ pretty (StatusCode r)) [ErrRerunRejected])
            else None)
  end.
End client.

(** ** Properties *)

Definition pageSize : nat := 100.

(** The jobs of a page. *)
Definition page_of {A} (all : list A) (page : Z) : list A :=
  take pageSize (drop (pageSize * Z.to_nat (page - 1)) all).

Section properties.
Context `{JobsJSON} (c : GithubClient) (owner repo : string) (runID attempt : Z) (all : list attemptJob).

(** GitHub holds the jobs [all] of the attempt and pages through them. *)
Definition jobs_server : contract restE := λ X e,
  match e in restE X return X → Prop with
  | Do r => λ x, ∀ page, 1 ≤ page → rq_URL r = baseURL c +:+ jobs_path owner repo runID attempt page →
      ∃ body, x = inr {| StatusCode := 200; Body := body |} ∧
        decode_jobs body = inr {| TotalCount := Z.of_nat (length all); Jobs := page_of all page |}
  end.

Lemma take_page page : 1 ≤ page →
  take (pageSize * Z.to_nat (page - 1)) all ++ page_of all page = take (pageSize * Z.to_nat (page + 1 - 1)) all.
Proof.
  intros Hp. unfold page_of. replace (pageSize * Z.to_nat (page + 1 - 1))%nat
    with (pageSize * Z.to_nat (page - 1) + pageSize)%nat by (unfold pageSize; lia).
  by rewrite take_take_drop.
Qed.

Lemma last_page page :
  1 ≤ page →
  page_of all page = [] ∨ (length all ≤ pageSize * Z.to_nat (page + 1 - 1))%nat →
  take (pageSize * Z.to_nat (page + 1 - 1)) all = all.
Proof.
  intros Hp [Hnil|Hle]; [|by apply take_ge].
  rewrite <- take_page, Hnil, app_nil_r by done. apply take_ge. unfold page_of in Hnil.
  apply (f_equal length) in Hnil. rewrite length_take, length_drop in Hnil. cbn [length] in Hnil. unfold pageSize in *. lia.
Qed.

Lemma wp_attempt_pages fuel page Q h :
  1 ≤ page → page = 1 ∨ (pageSize * Z.to_nat (page - 1) < length all)%nat →
  (length all < pageSize * (Z.to_nat (page - 1) + fuel))%nat →
  (∀ h', Q (h ++ h') (Some (inr (rest_job <$> all)))) →
  wp jobs_server Q h (attempt_pages c fuel owner repo runID attempt page
    (rest_job <$> take (pageSize * Z.to_nat (page - 1)) all)).
Proof.
  revert page Q h. induction fuel as [|fuel IH]; intros page Q h Hpage Hmore Hfuel HQ; cbn [attempt_pages].
  { exfalso. destruct Hmore as [->|]; simpl in *; lia. }
  unfold github_do. apply wp_call_bind. intros x Hx.
  destruct (Hx page Hpage eq_refl) as (body & -> & Hbody). cbn [StatusCode Body].
  change (200 =? 404) with false. change (negb (200 =? 200)) with false. cbv iota. rewrite Hbody. cbn [Jobs TotalCount].
  rewrite <- fmap_app, take_page by done.
  destruct ((length (page_of all page) =? 0)%nat || _) eqn:Hlast.
  - apply wp_ret. rewrite last_page; [apply HQ|done|].
    reflect in Hlast. destruct Hlast as [Hnil|Hle]; [left|right].
    + exact Hnil.
    + rewrite length_fmap, length_take in Hle. lia.
  - reflect in Hlast. destruct Hlast as [_ Hle]. rewrite length_fmap, length_take in Hle.
    apply IH; [lia|right; lia|unfold pageSize in *; lia|]. intros h'. rewrite <- app_assoc. apply HQ.
Qed.

(** C40: Every job of an attempt is returned, in order, however many pages they
    fill, with one page of fuel for each hundred jobs and one more. *)
Theorem attempt_jobs_complete fuel :
  (length all < pageSize * fuel)%nat →
  ensures jobs_server (AttemptJobs c fuel owner repo runID attempt) (λ h r,
    r = Some (inr (rest_job <$> all))).
Proof.
  intros Hfuel. apply wp_ensures. apply (wp_attempt_pages fuel 1); [lia|by left|exact Hfuel|done].
Qed.
End properties.

(** Whether an answer is a response with a status satisfying [P]. *)
Definition answered (P : Z → Prop) (v : event restE) : Prop :=
  match projT2 v with
  | (e, x) => match e in restE X return X → Prop with
              | Do _ => λ x, ∃ r, x = inr r ∧ P (StatusCode r) end x
  end.

(** A failed transport carries none of the client's own errors. *)
Definition transport_contract : contract restE := λ X e,
  match e in restE X return X → Prop with
  | Do _ => λ x, ∀ err, x = inl err →
      errors_is err ErrAttemptNotFound = false ∧ errors_is err ErrRerunRejected = false
  end.

Section errors.
Context `{JobsJSON} (c : GithubClient).

Lemma wp_attempt_errors fuel owner repo runID attempt page jobs Q h :
  (∀ h' r, (∀ err, r = Some (inl err) → errors_is err ErrAttemptNotFound = true →
     ∃ v, v ∈ h' ∧ answered (λ s, s = 404) v) → Q (h ++ h') r) →
  wp transport_contract Q h (attempt_pages c fuel owner repo runID attempt page jobs).
Proof.
  revert page jobs Q h. induction fuel as [|fuel IH]; intros page jobs Q h HQ; cbn [attempt_pages].
  { apply wp_ret. rewrite <- (app_nil_r h). by apply HQ. }
  unfold github_do. apply wp_call_bind. intros [err|r] Hx.
  { apply wp_ret, HQ. intros err' [= <-] He. destruct (Hx _ eq_refl). congruence. }
  destruct (Z.eqb_spec (StatusCode r) 404) as [Hs|_].
  { apply wp_ret, HQ. intros err _ _. eexists. split; [left|]. by exists r. }
  destruct (negb _); [by apply wp_ret, HQ; intros err [= <-]|].
  destruct (decode_jobs (Body r)) as [|decoded]; [by apply wp_ret, HQ; intros err [= <-]|].
  cbv zeta. destruct (_ || _); [by apply wp_ret, HQ|].
  apply IH. intros h' r' Hr'. rewrite <- app_assoc. apply HQ. intros err He1 He2.
  destruct (Hr' err He1 He2) as (v & Hv & Ha). exists v. split; [by right|done].
Qed.

(** The definitive errors are definitive: "no such attempt" is reported
    only after GitHub answered 404, "rerun rejected" only after GitHub answered
    with a status other than 201, and a rerun counts as accepted only on 201;
    a lost answer is none of the three. *)
Theorem github_answers_definitive fuel owner repo runID attempt :
  ensures transport_contract (AttemptJobs c fuel owner repo runID attempt) (λ h r,
    ∀ err, r = Some (inl err) → errors_is err ErrAttemptNotFound = true →
      ∃ v, v ∈ h ∧ answered (λ s, s = 404) v) ∧
  ensures transport_contract (RerunFailedJobs c owner repo runID) (λ h r,
    (r = None → ∃ v, v ∈ h ∧ answered (λ s, s = 201) v) ∧
    (∀ err, r = Some err → errors_is err ErrRerunRejected = true →
       ∃ v, v ∈ h ∧ answered (λ s, s ≠ 201) v)).
Proof.
  split; apply wp_ensures.
  - by apply wp_attempt_errors.
  - unfold RerunFailedJobs, github_do. apply wp_call_bind. intros [err|r] Hx; apply wp_ret.
    + split; [done|]. intros err' [= <-] He. destruct (Hx _ eq_refl). congruence.
    + destruct (Z.eqb_spec (StatusCode r) 201) as [Hs|Hs]; cbn [negb]; (split; [|intros err]); try done;
        intros; eexists; (split; [left|by exists r]).
Qed.
End errors.

(** ** An attempt with 101 jobs *)

Module GithubExample.
Definition client : GithubClient := {| BaseURL := ""; Token := "t" |}.
Definition job (n : nat) : attemptJob :=
  {| aj_ID := Z.of_nat n; aj_RunID := 7; RunAttempt := 1; aj_RunnerName := "rs-a"; aj_Status := "completed";
     aj_Conclusion := "success" |}.
Definition jobs : list attemptJob := job <$> seq 0 101.

(** A body names its page. *)
Definition page_named (s : string) : Z := if s =s "1" then 1 else if s =s "2" then 2 else 3.

#[export] Instance json : JobsJSON :=
  {| decode_jobs := λ s, inr {| TotalCount := 101; Jobs := page_of jobs (page_named s) |} |}.

Definition url (page : Z) : string := baseURL client +:+ jobs_path "org" "repo" 7 1 page.

Definition server (X : Type) (e : restE X) (n : nat) : nat * X :=
  match e in restE X return nat * X with
  | Do r => (S n, inr {| StatusCode := 200;
                         Body := if rq_URL r =s url 1 then "1" else if rq_URL r =s url 2 then "2" else "3" |})
  end.

Lemma url_inj p q : url p = url q → p = q.
Proof.
  unfold url, jobs_path. intros Hu. do 5 apply (String.app_inj _) in Hu. by apply (inj pretty) in Hu.
Qed.

Lemma server_pages : implements server (λ _, True) (jobs_server client "org" "repo" 7 1 jobs).
Proof.
  intros X e n n' x _ He. split; [done|]. destruct e as [r]. injection He as _ <-.
  intros page Hp Hr. eexists. split; [reflexivity|]. cbn [decode_jobs json]. do 2 f_equal. rewrite Hr.
  change (baseURL client +:+ jobs_path "org" "repo" 7 1 page) with (url page).
  destruct (String.eqb_spec (url page) (url 1)) as [->%url_inj|H1]; [done|].
  destruct (String.eqb_spec (url page) (url 2)) as [->%url_inj|H2]; [done|].
  assert (page ≠ 1) by (intros ->; done). assert (page ≠ 2) by (intros ->; done).
  unfold page_of. rewrite !(drop_ge jobs); [done|..]; change (length jobs) with 101%nat.
  - unfold pageSize. lia.
  - change (Z.to_nat (page_named "3" - 1)) with 2%nat. unfold pageSize. lia.
Qed.
End GithubExample.

Section witnesses.
Import GithubExample.

Lemma attempt_jobs_complete_witness :
  length (run_history server (AttemptJobs client 2 "org" "repo" 7 1) 0%nat) = 2%nat ∧
  snd (run server (AttemptJobs client 2 "org" "repo" 7 1) 0%nat) = Some (inr (rest_job <$> jobs)).
Proof.
  split; [vm_compute; reflexivity|].
  refine (attempt_jobs_complete client "org" "repo" 7 1 jobs 2 _ _ _ (run_trace server _ _) _).
  - change (length jobs) with 101%nat. unfold pageSize. lia.
  - exact (proj1 (run_respects server (λ _, True) _ _ 0%nat server_pages I)).
Defined.

(** A server without the attempt, which refuses reruns. *)
Definition refusing (X : Type) (e : restE X) (n : nat) : nat * X :=
  match e in restE X return nat * X with
  | Do r => (S n, inr {| StatusCode := if rq_Method r =s "GET" then 404 else 422; Body := "" |})
  end.

Lemma github_answers_definitive_witness :
  snd (run refusing (AttemptJobs client 1 "org" "repo" 7 2) 0%nat) = Some (inl errAttemptNotFound) ∧
  (∃ v, v ∈ run_history refusing (AttemptJobs client 1 "org" "repo" 7 2) 0%nat ∧ answered (λ s, s = 404) v).
Proof.
  assert (snd (run refusing (AttemptJobs client 1 "org" "repo" 7 2) 0%nat) = Some (inl errAttemptNotFound)) as Hr
    by (vm_compute; reflexivity).
  split; [exact Hr|].
  refine (proj1 (github_answers_definitive client 1 "org" "repo" 7 2) _ _ (run_trace refusing _ _) _ _ Hr _);
    [|vm_compute; reflexivity].
  refine (proj1 (run_respects refusing (λ _, True) _ _ 0%nat _ I)).
  intros X e n n' x _ He. split; [done|]. destruct e as [r]. injection He as _ <-. intros err [=].
Defined.
End witnesses.
