(* ===== verification/Health.v ===== *)
(** * The health server
    (internal/health/health.go)

    Probes and the peer endpoint of Peers.v behind one [http.ServeMux].  A
    request reaches the mux with the unescaped segments of a clean path; paths
    that are not clean are redirected before any handler runs and are not
    modelled.  The JSON of the peer list is the class [PeersJSON]. *)
From S2P Require Import Prelude.
From S2P Require Import Effects.
From S2P Require Import Encoding.
From S2P Require Import Resources.
From S2P Require Import Allocation.
From S2P Require Import Peers.
From S2P Require Import GithubJobs.

Definition ascii_text (s : string) : Prop := Forall (λ c, (N_of_ascii c < 128)%N) (String.list_ascii_of_string s).

Definition plain_peer (p : Peer) : Prop :=
  ascii_text (pe_AllocationID p) ∧ ascii_text (pe_PublicKey p) ∧
  ascii_text (pe_OverlayAddress p) ∧ ascii_text (pe_Endpoint p).

(** [json.Encoder.Encode] and [json.Decoder.Decode] of [{"peers": ...}].  Text
    that is not UTF-8 does not survive the encoding. *)
Class PeersJSON := {
  encode_peers : list Peer → string;
  decode_peers : string → result (list Peer);
  peers_roundtrip : ∀ peers, Forall plain_peer peers → decode_peers (encode_peers peers) = inr peers
}.

(** ** Status *)

Record Status := { ready : bool; WireGuardPeers : bool (* the handler is mounted *) }.

Definition SetReady (b : bool) (s : Status) : Status := {| ready := b; WireGuardPeers := WireGuardPeers s |}.

Record ServerRequest := { sr_Method : string; sr_Segments : list string; sr_Authorization : string }.

Inductive route := Healthz | Readyz | PeersOf (id : string).

(** The patterns of [Handler]; a wildcard is one segment, not the empty one. *)
Definition match_path (s : Status) (segments : list string) : option route :=
  match segments with
  | [a] => if a =s "healthz" then Some Healthz else if a =s "readyz" then Some Readyz else None
  | [a; b; c; id] =>
      if WireGuardPeers s && (a =s "v1") && (b =s "wireguard") && (c =s "peers") && (id <>s "")
      then Some (PeersOf id) else None
  | _ => None
  end.

Definition reply (code : Z) (body : string) : HTTPResponse := {| StatusCode := code; Body := body |}.

Definition line (s : string) : string := s +:+ go_string [Byte.x0a].

Section handler.
Context `{Crypto} `{PeersJSON}.

(** What [ServeHTTP] of Peers.v writes. *)
Definition write_response (r : Response) : HTTPResponse :=
  match r with
  | Unauthorized => reply 401 ""
  | SnapshotUnavailable => reply 500 (line "peer snapshot unavailable")
  | PeersOK peers => reply 200 (encode_peers peers)
  end.

Definition serve_route (s : Status) (r : route) (authorization : string) : prog peersE HTTPResponse :=
  match r with
  | Healthz => mret (reply 200 (line "alive"))
  | Readyz => mret (if negb (ready s) then reply 503 (line "not ready") else reply 200 (line "ready"))
  | PeersOf id => r ← ServeHTTP id authorization; mret (write_response r)
  end.

(** [GET] patterns also match [HEAD], whose answer has no body. *)
Definition Handler (s : Status) (r : ServerRequest) : prog peersE HTTPResponse :=
  match match_path s (sr_Segments r) with
  | None => mret (reply 404 (line "404 page not found"))
  | Some route =>
      if sr_Method r =s "GET" then serve_route s route (sr_Authorization r)
      else if sr_Method r =s "HEAD" then
        response ← serve_route s route (sr_Authorization r); mret (reply (StatusCode response) "")
      else mret (reply 405 (line "Method Not Allowed"))
  end.
End handler.

(** ** Properties *)

Section properties.
Context `{Crypto} `{PeersJSON}.

Lemma match_path_peers s segments id :
  match_path s segments = Some (PeersOf id) ↔
  WireGuardPeers s = true ∧ segments = ["v1"; "wireguard"; "peers"; id] ∧ id ≠ "".
Proof.
  split.
  - destruct segments as [|a [|b [|c [|d [|]]]]]; cbn; try done; [by repeat case_match|].
    destruct (_ && _ && _ && _ && _) eqn:Hc; [|done]. reflect in Hc. destruct Hc as [[[[? ->] ->] ->] ?]. naive_solver.
  - intros (Hw & -> & Hid). cbn. rewrite Hw. by destruct (String.eqb_spec id "").
Qed.

Lemma match_path_probe s segments route :
  match_path s segments = Some route →
  segments = match route with Healthz => ["healthz"] | Readyz => ["readyz"] | PeersOf id => ["v1"; "wireguard"; "peers"; id] end.
Proof.
  destruct route as [| |id]; [| |by intros (_ & ? & _)%match_path_peers]; destruct segments as [|a [|b [|c [|d [|]]]]]; cbn;
    repeat case_match; try done; by match goal with E : (_ =s _) = true |- _ => apply String.eqb_eq in E as -> end.
Qed.

Lemma wp_peers_route s id authorization :
  wp no_contract (λ h response, ∃ r, served id authorization h r ∧ response = write_response r) []
    (serve_route s (PeersOf id) authorization).
Proof. apply wp_bind. eapply wp_mono; [apply wp_ServeHTTP|]. intros h r Hs. apply wp_ret. eauto. Qed.

Lemma served_reads id authorization h r :
  served id authorization h r → ∃ loaded h', h = ev (PLoad id) loaded :: h' ∧ (h' ≠ [] → authorized authorization loaded).
Proof. intros (loaded & h' & -> & [[Ha _]|(_ & -> & _)]); exists loaded; eexists; (split; [done|]); naive_solver. Qed.

(** What the server answers to each request.  [/healthz] is 200 always and
    [/readyz] exactly when the status is ready, without a call to the store; the
    peer endpoint answers only where it is mounted, and reads other records than
    the named one only for a request that presents that record's token. *)
Theorem handler_served s r :
  ensures no_contract (Handler s r) (λ h response,
    (StatusCode response = 200 →
       (sr_Method r = "GET" ∨ sr_Method r = "HEAD") ∧
       (sr_Segments r = ["healthz"] ∨ (sr_Segments r = ["readyz"] ∧ ready s = true) ∨
        ∃ id, sr_Segments r = ["v1"; "wireguard"; "peers"; id] ∧ WireGuardPeers s = true)) ∧
    (sr_Method r = "GET" → sr_Segments r = ["healthz"] → StatusCode response = 200) ∧
    (sr_Method r = "GET" → sr_Segments r = ["readyz"] → StatusCode response = if ready s then 200 else 503) ∧
    (h ≠ [] → ∃ id loaded h', sr_Segments r = ["v1"; "wireguard"; "peers"; id] ∧ WireGuardPeers s = true ∧
       h = ev (PLoad id) loaded :: h' ∧ (h' ≠ [] → authorized (sr_Authorization r) loaded))).
Proof.
  apply wp_ensures. unfold Handler. destruct (match_path s (sr_Segments r)) as [route|] eqn:Hm.
  2: { apply wp_ret. split_and!; [done|by intros ? Hs; rewrite Hs in Hm..|done]. }
  destruct (String.eqb_spec (sr_Method r) "GET") as [Hg|Hg]; [|destruct (String.eqb_spec (sr_Method r) "HEAD") as [Hh|Hh];
    [|apply wp_ret; by split_and!]].
  all: pose proof (match_path_probe _ _ _ Hm) as Hs; destruct route as [| |id].
  1-2,4-5: apply wp_ret; rewrite Hs; destruct (ready s); cbn; naive_solver.
  all: apply match_path_peers in Hm as (Hw & _ & _); lazymatch goal with |- wp _ _ _ (mbind _ _) => apply wp_bind | _ => idtac end; (eapply wp_mono; [apply wp_peers_route|]);
    intros h response (r' & (loaded & h' & -> & Hr)%served_reads & _); try apply wp_ret; rewrite Hs;
    (split_and!; [intros _; split; [auto|right; right; by exists id]|done|done|intros _; by exists id, loaded, h']).
Qed.
End properties.
