(* ===== verification/AgentRun.v ===== *)
(** * The agent's lifetime
    (internal/wireguard/agent/agent.go, internal/wireguard/agent/client.go,
    cmd/runnerscout-wireguard-agent/main.go)

    [Run] reads the boot payload, brings the tunnel of Tunnel.v up, and
    reconciles it (Agent.v) with each polled snapshot until its context ends.
    The loop takes fuel, one unit per round; [None] is an agent still running.
    Logging, and the fields of [Options] that tests replace, are left out.  The last
    part is a poll answered by the health server over one state of the records. *)
From stdpp Require Import pretty.
From S2P Require Import Prelude.
From S2P Require Import Effects.
From S2P Require Import Encoding.
From S2P Require Import Resources.
From S2P Require Import Allocation.
From S2P Require Import Overlay.
From S2P Require Import Peers.
From S2P Require Import Command.
From S2P Require Import Agent.
From S2P Require Import Tunnel.
From S2P Require Import GithubJobs.
From S2P Require Import Health.

(** [json.Unmarshal] of the payload file. *)
Class PayloadJSON := { decode_payload : string → result CloudInitPayload }.

(** The URL of a request: why it cannot be parsed, or the unescaped segments of
    its path. *)
Class RequestURL := { request_path : string → result (list string) }.

Inductive agentE : Type → Type :=
  | ReadFile (path : string) : agentE (result string)
  | NewTicker (interval : duration) : agentE unit
  (* the [select] of the loop: the context's error, or a tick *)
  | AgentSelect : agentE (option error)
  (* [client.Do] of a GET request, given up after [timeout] *)
  | GetPeers (timeout : duration) (url authorization : string) : agentE (result HTTPResponse)
  | AgentRange (keys : list PublicKey) : agentE (list PublicKey)
  | OnDevice {X} (e : deviceE X) : agentE X.

Abbreviation agentM := (prog agentE).
Abbreviation agent_history := (list (event agentE)).

(** ** The poll request *)

Definition max_body : Z := Z.shiftl 4 20.

(** [io.LimitReader].  A body is the bytes read before the stream ended, by its
    end or by an error: an incomplete value is an error of the decoder in both
    cases. *)
Definition limit_body (s : string) : string := String.substring 0 (Z.to_nat max_body) s.

Definition peers_url (controllerURL allocationID : string) : string :=
  controllerURL +:+ "/v1/wireguard/peers/" +:+ allocationID.

Section poll.
Context `{PeersJSON} `{RequestURL}.

Definition Poll (timeout : duration) (controllerURL allocationID pollToken : string) : agentM (result (list Peer)) :=
  let url := peers_url controllerURL allocationID in
  match request_path url with
  | inl err => mret (inl (errorf_w "agent: build poll request" err))
  | inr _ =>
      resp ← call (GetPeers timeout url (bearer +:+ pollToken));
      mret match resp with
           | inl err => inl (errorf_w "agent: poll request failed" err)
           | inr r =>
               if negb (StatusCode r =? 200)
               then inl (errors_new ("agent: poll request returned status " +:+ pretty (StatusCode r)))
               else
                 match decode_peers (limit_body (Body r)) with
                 | inl err => inl (errorf_w "agent: decode poll response" err)
                 | inr peers => inr peers
                 end
           end
  end.
End poll.

(** ** Run *)

Definition DefaultPollInterval : duration := 30 * Second.

Record AgentOptions := { ao_PayloadPath : string; ao_PollInterval : duration }.

Definition poll_interval (o : AgentOptions) : duration :=
  if ao_PollInterval o <=? 0 then DefaultPollInterval else ao_PollInterval o.

Definition on_device {R} (p : deviceM R) : agentM R := interp (λ X (e : deviceE X), call (OnDevice e)) p.

Section run.
Context `{PeersJSON} `{RequestURL} `{PayloadJSON} `{PeerText} `{NetText} `{PortText}.

Definition LoadPayload (path : string) : agentM (result CloudInitPayload) :=
  data ← call (ReadFile path);
  mret match data with
       | inl err => inl (errorf_w "agent: read payload file" err)
       | inr data =>
           match decode_payload data with
           | inl err => inl (errorf_w "agent: decode payload" err)
           | inr p =>
               if (pl_PrivateKey p =s "") || (pl_OverlayAddress p =s "") || (pl_AllocationID p =s "") ||
                  (pl_ControllerURL p =s "") || (pl_PollToken p =s "")
               then inl (errors_new "agent: payload missing a required field")
               else inr p
           end
       end.

(** The [Tunnel] interface by the methods of [*tunnel.Tunnel]. *)
Definition on_tunnel (X : Type) (e : tunnelE X) : agentM X :=
  match e in tunnelE X return agentM X with
  | AddPeer p => on_device (Tunnel_AddPeer p)
  | RemovePeer pub => on_device (Tunnel_RemovePeer pub)
  | RangePeers keys => call (AgentRange keys)
  end.

Fixpoint run_loop (fuel : nat) (interval : duration) (payload : CloudInitPayload) (current : gmap PublicKey Peer)
    : agentM (option error) :=
  match fuel with
  | O => mret None
  | S fuel =>
      done ← call AgentSelect;
      match done with
      | Some err => mret (Some err)
      | None =>
          peers ← Poll interval (pl_ControllerURL payload) (pl_AllocationID payload) (pl_PollToken payload);
          match peers with
          | inl _ => run_loop fuel interval payload current
          | inr peers =>
              '(current, _) ← interp on_tunnel (Reconcile current peers);
              run_loop fuel interval payload current
          end
      end
  end.

(** From the payload on. *)
Definition run_payload (fuel : nat) (interval : duration) (payload : CloudInitPayload) : agentM (option error) :=
  match InitialConfig payload with
  | inl err => mret (Some (errorf_w "agent: initial config" err))
  | inr (cfg, current, _) =>
      e ← on_device (BringUp cfg);
      match e with
      | Some err => mret (Some (errorf_w "agent: bring up tunnel" err))
      | None =>
          _ ← call (NewTicker interval);
          r ← run_loop fuel interval payload current;
          match r with
          | None => mret None
          | Some err => _ ← on_device Tunnel_Close; mret (Some err)
          end
      end
  end.

(** [Run] returns an error whenever it returns. *)
Definition Run (fuel : nat) (o : AgentOptions) : agentM (option error) :=
  p ← LoadPayload (ao_PayloadPath o);
  match p with
  | inl err => mret (Some err)
  | inr payload => run_payload fuel (poll_interval o) payload
  end.
End run.

(** ** The command *)

(** The checks of [parseOptions] after the flags are read. *)
Definition agent_options (narg : Z) (o : AgentOptions) : result AgentOptions :=
  if negb (narg =? 0) then inl (errors_new "unexpected positional arguments")
  else if ao_PayloadPath o =s "" then inl (errors_new "-payload is required")
  else if ao_PollInterval o <=? 0 then inl (errors_new "-poll-interval must be positive")
  else inr o.

(** ** What the device was told *)

(** The public keys a configuration text names. *)
Definition text_keys (s : string) : list PublicKey :=
  match uapi_read s with
  | Some settings => omap (λ '(key, value), if key =s "public_key" then hex_decode value else None) settings
  | None => []
  end.

(** The peers of the device: keys of accepted texts, less the removed ones. *)
Definition device_peers {X} (e : deviceE X) : X → gset PublicKey → gset PublicKey :=
  match e in deviceE X return X → gset PublicKey → gset PublicKey with
  | IpcSet text => λ x d, if isNone x then list_to_set (text_keys text) ∪ d else d
  | DeviceRemovePeer pub => λ _ d, d ∖ {[pub]}
  | DeviceClose => λ _ _, ∅
  | _ => λ _ d, d
  end.

Definition told_step (d : gset PublicKey) (v : event agentE) : gset PublicKey :=
  match projT2 v with
  | (e, x) => match e in agentE X return X → gset PublicKey with OnDevice e => λ x, device_peers e x d | _ => λ _, d end x
  end.

Definition told (d : gset PublicKey) (h : agent_history) : gset PublicKey := foldl told_step d h.

Lemma told_app d h k : told d (h ++ k) = told (told d h) k.
Proof. apply foldl_app. Qed.

Section texts.
Context `{NetText} `{PortText}.
Context (Haddr : ∀ a, one_line (addr_String a)) (Hport : ∀ e, one_line (addrPort_String e)).

Abbreviation key_of := (λ '(key, value), if (key : string) =s "public_key" then hex_decode value else None).

Lemma peer_keys p : omap key_of (peer_settings p) = [tp_PublicKey p].
Proof.
  unfold peer_settings. rewrite !omap_app. destruct (tp_Endpoint p); cbn; by rewrite hex_decode_encode.
Qed.

Lemma text_keys_peer p : text_keys (writePeerBlock p) = [tp_PublicKey p].
Proof.
  unfold text_keys. assert (writePeerBlock p = writePeerBlock p +:+ "") as -> by (by rewrite string_app_nil).
  rewrite read_peer by done. change (uapi_read "") with (Some (@nil (string * string))). cbn [fmap option_fmap option_map].
  rewrite app_nil_r. apply peer_keys.
Qed.

Lemma text_keys_config cfg : text_keys (uapiConfig cfg) = tp_PublicKey <$> tc_Peers cfg.
Proof.
  unfold text_keys. rewrite (uapi_roundtrip cfg Haddr Hport). unfold settings. rewrite !omap_app.
  assert (omap key_of (tc_Peers cfg ≫= peer_settings) = tp_PublicKey <$> tc_Peers cfg) as ->.
  { induction (tc_Peers cfg) as [|p ps IH]; [done|]. cbn [mbind list_bind fmap list_fmap]. by rewrite omap_app, peer_keys, IH. }
  by destruct (tc_ListenPort cfg =? 0).
Qed.
End texts.

(** ** One reconciliation on the device *)

(** Ranging over a map visits each key once. *)
Definition agent_contract : contract agentE := λ X e,
  match e in agentE X return X → Prop with
  | AgentRange keys => λ visited, visited ≡ₚ keys
  | _ => λ _, True
  end.

(** The calls of a reconciliation, and those of them the device accepted. *)
Definition local (v : event agentE) : Prop :=
  match fst (projT2 v) with
  | AgentRange _ => True
  | OnDevice (IpcSet _) => True
  | OnDevice (DeviceRemovePeer _) => True
  | _ => False
  end.

Definition accepted (v : event agentE) : Prop :=
  match projT2 v with
  | (e, x) =>
      match e in agentE X return X → Prop with
      | OnDevice e => match e in deviceE X return X → Prop with IpcSet _ => λ x, x = None | _ => λ _, True end
      | _ => λ _, True
      end x
  end.

Definition peer_ok (v : event tunnelE) : Prop :=
  match projT2 v with
  | (e, x) => match e in tunnelE X return X → Prop with
              | AddPeer _ => λ x, x = None
              | RemovePeer _ => λ x, x = None
              | RangePeers _ => λ _, True
              end x
  end.

Section reconciled.
Context `{PeerText}.

Lemma wp_add_clean current wanted keys updated h :
  wp range_contract (λ h' '(_, es), ∃ k, h' = h ++ k ∧ (Forall peer_ok k → es = [])) h
    (add_peers current wanted keys updated).
Proof.
  revert updated h. induction keys as [|pub keys IH]; intros updated h; cbn [add_peers].
  - apply wp_ret. exists []. by rewrite app_nil_r.
  - destruct (wanted !! pub) as [[peer tunnel]|]; [|apply IH]. destruct (current !! pub); [apply IH|].
    apply wp_call_bind. intros [err|] _; [apply wp_bind|]; (eapply wp_mono; [apply IH|]); intros h' [u es] (k & -> & Hk);
      [apply wp_ret|]; (eexists; split; [by rewrite <- app_assoc|]); intros [Hv Hf]%Forall_app; [|by apply Hk].
    by apply Forall_inv in Hv.
Qed.

Lemma wp_remove_clean current wanted keys updated h :
  wp range_contract (λ h' '(_, es), ∃ k, h' = h ++ k ∧ (Forall peer_ok k → es = [])) h
    (remove_peers current wanted keys updated).
Proof.
  revert updated h. induction keys as [|pub keys IH]; intros updated h; cbn [remove_peers].
  - apply wp_ret. exists []. by rewrite app_nil_r.
  - destruct (current !! pub) as [peer|]; [|apply IH]. destruct (wanted !! pub); [apply IH|].
    apply wp_call_bind. intros [err|] _; [apply wp_bind|]; (eapply wp_mono; [apply IH|]); intros h' [u es] (k & -> & Hk);
      [apply wp_ret|]; (eexists; split; [by rewrite <- app_assoc|]); intros [Hv Hf]%Forall_app; [|by apply Hk].
    by apply Forall_inv in Hv.
Qed.

Definition decodes (p : Peer) : Prop := ∃ t, DecodePeer p = inr t.

(** A snapshot whose peers decode is reconciled without error by a tunnel
    that accepts every call. *)
Lemma wp_reconcile_clean current next :
  wp range_contract (λ h '(_, err), Forall peer_ok h → Forall decodes next → err = None) [] (Reconcile current next).
Proof.
  unfold Reconcile. pose proof (wanted_by_key_spec ∅ next) as Hw.
  destruct (wanted_by_key ∅ next) as [wanted es0]. destruct Hw as (_ & _ & Hes); [done|].
  apply wp_call_bind. intros wkeys _. apply wp_bind. eapply wp_mono; [apply wp_add_clean|].
  intros h1 [u1 es1] (k1 & -> & H1). apply wp_call_bind. intros ckeys _. apply wp_bind.
  eapply wp_mono; [apply wp_remove_clean|]. intros h2 [u2 es2] (k2 & -> & H2). apply wp_ret.
  rewrite !Forall_app. intros [[[_ Hk1] _] Hk2] Hd. apply errors_join_None. by rewrite (proj2 Hes Hd), H1, H2.
Qed.
End reconciled.

Lemma wp_on_device_call {X R} (G : contract agentE) Q h (e : deviceE X) (f : X → deviceM R) :
  (∀ x, G X (OnDevice e) x → wp G Q (h ++ [ev (OnDevice e) x]) (on_device (f x))) →
  wp G Q h (on_device (call e ≫= f)).
Proof. done. Qed.

Section refined.
Context `{PeerText} `{NetText} `{PortText}.
Context (Haddr : ∀ a, one_line (addr_String a)) (Hport : ∀ e, one_line (addrPort_String e)).

(** The device's history [k] does what the tunnel's history [h] says. *)
Definition carried_out (h : tunnel_history) (k : agent_history) : Prop :=
  Forall local k ∧ (∀ d, told d k = device d h) ∧ (Forall accepted k → Forall peer_ok h).

Lemma carried_snoc h k v w :
  carried_out h k → local w → (∀ d, told_step d w = device_step d v) → (accepted w → peer_ok v) →
  carried_out (h ++ [v]) (k ++ [w]).
Proof.
  intros (Hl & Ht & Ha) Hw Hs Hok. split_and!.
  - apply Forall_app. by split; [|constructor].
  - intros d. rewrite told_app, device_app, Ht. apply Hs.
  - rewrite !Forall_app. intros [Hk Hv]. split; [by apply Ha|]. apply Forall_inv in Hv. constructor; auto.
Qed.

Lemma wp_on_tunnel X (e : tunnelE X) h0 h h' :
  (∃ k, h' = h0 ++ k ∧ carried_out h k) →
  wp agent_contract (λ h2 x, range_contract X e x ∧ ∃ k, h2 = h0 ++ k ∧ carried_out (h ++ [ev e x]) k) h' (on_tunnel X e).
Proof.
  intros (k & -> & Hk). destruct e as [p|pub|keys]; cbn [on_tunnel].
  - apply wp_on_device_call. intros x _. apply wp_ret. split; [done|]. eexists. split; [by rewrite <- app_assoc|].
    apply carried_snoc; [done..| |].
    + intros d. cbn. destruct x; cbn; [done|]. rewrite text_keys_peer by done. cbn. set_solver.
    + cbn. by intros ->.
  - apply wp_on_device_call. intros [] _. apply wp_ret. split; [done|]. eexists. split; [by rewrite <- app_assoc|].
    by apply carried_snoc.
  - apply wp_call. intros x Hx. split; [done|]. eexists. split; [by rewrite <- app_assoc|]. by apply carried_snoc.
Qed.

(** A reconciliation leaves the agent's map equal to the device's peers, and
    both equal to the snapshot when the device accepted every text. *)
Lemma wp_reconcile_device current next h :
  wp agent_contract (λ h' '(updated, _), ∃ k, h' = h ++ k ∧ Forall local k ∧ dom updated = told (dom current) k ∧
     (Forall accepted k → Forall decodes next → dom updated = wanted_keys next)) h
    (interp on_tunnel (Reconcile current next)).
Proof.
  eapply wp_mono; [apply (wp_interp range_contract agent_contract on_tunnel (λ ht h', ∃ k, h' = h ++ k ∧ carried_out ht k)
    (λ ht '(updated, err), (dom updated = device (dom current) ht ∧
       (err = None → dom updated = wanted_keys next)) ∧ (Forall peer_ok ht → Forall decodes next → err = None)) _ [] h)|].
  - intros X e ht h'. apply wp_on_tunnel.
  - exists []. rewrite app_nil_r. split; [done|]. split_and!; [constructor|done|constructor].
  - eapply wp_mono; [apply wp_and; [|apply wp_reconcile_clean]|].
    + apply (wp_Reconcile _ _ (λ ht '(updated, err), dom updated = device (dom current) ht ∧ (err = None → dom updated = wanted_keys next))).
      intros ht u err Hd He. split; [done|]. intros Hn. by apply He.
    + by intros ht [u err] [??].
  - intros h' [u err] (ht & (k & -> & Hl & Ht & Ha) & [Hd Hn] & He). exists k. split_and!; [done..| |].
    + by rewrite Hd, Ht.
    + intros Hk Hx. apply Hn, He; auto.
Qed.
End refined.

(** ** Convergence of the agent *)

Definition is_select (v : event agentE) : Prop := match fst (projT2 v) with AgentSelect => True | _ => False end.

(** The answer of a poll request. *)
Definition poll_answer (v : event agentE) : option (result HTTPResponse) :=
  match projT2 v with
  | (e, x) => match e in agentE X return X → option (result HTTPResponse) with GetPeers _ _ _ => Some | _ => λ _, None end x
  end.

Lemma last_split {A} (P : A → Prop) l x t l' x' t' :
  P x → P x' → Forall (λ y, ¬ P y) t → Forall (λ y, ¬ P y) t' → l ++ x :: t = l' ++ x' :: t' → l = l' ∧ x = x' ∧ t = t'.
Proof.
  intros Hx Hx' Ht Ht' [(k & -> & Hk)|(k & -> & Hk)]%app_eq_inv; destruct k as [|y k]; simplify_eq/=;
    try by rewrite ?app_nil_r.
  - rewrite Forall_app, Forall_cons in Ht'. naive_solver.
  - rewrite Forall_app, Forall_cons in Ht. naive_solver.
Qed.

Lemma local_quiet v : local v → ¬ is_select v.
Proof. destruct v as [X [e x]]. destruct e; by intros ? []. Qed.

Section converges.
Context `{PeersJSON} `{RequestURL} `{PayloadJSON} `{PeerText} `{NetText} `{PortText}.
Context (Haddr : ∀ a, one_line (addr_String a)) (Hport : ∀ e, one_line (addrPort_String e)).

(** [h] ends with a round whose poll gave [peers], after which the device
    accepted every text. *)
Definition good_round (h : agent_history) (peers : list Peer) : Prop :=
  ∃ pre x v r seg, h = pre ++ ev AgentSelect x :: v :: seg ∧ poll_answer v = Some (inr r) ∧ StatusCode r = 200 ∧
    decode_peers (limit_body (Body r)) = inr peers ∧ Forall decodes peers ∧
    Forall (λ w, ¬ is_select w) seg ∧ Forall accepted seg.

Definition converged (pre : agent_history) (v : event agentE) : Prop :=
  is_select v → ∀ peers, good_round pre peers → told ∅ pre = wanted_keys peers.

(** The invariant of the loop: the map is what the device has, and the round
    just ended converged. *)
Definition loop_inv (h : agent_history) (current : gmap PublicKey Peer) : Prop :=
  at_every converged h ∧ told ∅ h = dom current ∧ ∀ peers, good_round h peers → told ∅ h = wanted_keys peers.

Lemma good_round_tail h x t peers :
  Forall (λ w, ¬ is_select w) t → good_round (h ++ ev AgentSelect x :: t) peers →
  ∃ v r seg, t = v :: seg ∧ poll_answer v = Some (inr r) ∧ StatusCode r = 200 ∧
    decode_peers (limit_body (Body r)) = inr peers ∧ Forall decodes peers ∧ Forall accepted seg.
Proof.
  intros Ht (pre & y & v & r & seg & Heq & Hv & Hs & Hd & Hp & Hq & Ha).
  apply (last_split is_select) in Heq as (_ & _ & ->); [by exists v, r, seg|done..|].
  constructor; [|done]. intros Hsel. clear -Hv Hsel. destruct v as [X [e z]]. cbn in Hsel. destruct e; done.
Qed.

Lemma loop_inv_round h current current' t :
  loop_inv h current → Forall (λ w, ¬ is_select w) t → told (dom current) t = dom current' →
  (∀ v r seg peers, t = v :: seg → poll_answer v = Some (inr r) → StatusCode r = 200 →
     decode_peers (limit_body (Body r)) = inr peers → Forall decodes peers → Forall accepted seg →
     dom current' = wanted_keys peers) →
  loop_inv (h ++ ev AgentSelect None :: t) current'.
Proof.
  intros (Hat & Ht & Hg) Hq Htold Hround. rewrite (cons_middle (ev AgentSelect None)), app_assoc.
  assert (told ∅ ((h ++ [ev AgentSelect None]) ++ t) = dom current') as Hd by by rewrite !told_app, Ht.
  split_and!; [|done|].
  - apply (at_every_app _ (λ w, ¬ is_select w)); [|apply at_every_snoc; [done|by intros _]|done]. intros pre v Hv ?. done.
  - intros peers. rewrite <- app_assoc. intros (v & r & seg & -> & Hv & ? & ? & ? & ?)%good_round_tail; [|done].
    rewrite app_assoc. change ([ev AgentSelect None] ++ v :: seg) with (ev AgentSelect None :: v :: seg) in *.
    rewrite Hd. by eapply Hround.
Qed.

Lemma wp_run_loop interval payload Q fuel : ∀ current h,
  (∀ h' r, at_every converged h' → Q h' r) → loop_inv h current →
  wp agent_contract Q h (run_loop fuel interval payload current).
Proof.
  intros current h HQ. revert current h. induction fuel as [|fuel IH]; intros current h HI; cbn [run_loop].
  { apply wp_ret, HQ, HI. }
  apply wp_call_bind. intros [err|] _.
  { apply wp_ret, HQ, at_every_snoc; [apply HI|]. intros _. apply HI. }
  apply wp_bind. unfold Poll. destruct (request_path _).
  - apply wp_ret, IH. by apply (loop_inv_round h current current []).
  - apply wp_call_bind. intros resp _. apply wp_ret. rewrite <- app_assoc.
    set (v := ev (GetPeers _ _ _) resp).
    assert (Forall (λ w, ¬ is_select w) [v]) as Hv by (constructor; [exact id|constructor]).
    destruct resp as [err|r]; [apply IH; apply (loop_inv_round h current current [v]); [done..|]; intros ???? [= <- <-]; done|].
    destruct (StatusCode r =? 200) eqn:Hs; cbn [negb].
    2: { apply IH. apply (loop_inv_round h current current [v]); [done..|]. intros ???? [= <- <-] [= <-] Hs'. lia. }
    destruct (decode_peers (limit_body (Body r))) as [err|peers] eqn:Hd.
    + apply IH. apply (loop_inv_round h current current [v]); [done..|]. intros ???? [= <- <-] [= <-] ?. congruence.
    + apply wp_bind. eapply wp_mono; [by apply wp_reconcile_device|]. intros h' [updated e] (k & -> & Hl & Hu & Hw).
      apply IH. rewrite <- !app_assoc. apply (loop_inv_round h current updated (v :: k)); [done| |by rewrite Hu|].
      * constructor; [by apply Forall_inv in Hv|]. eapply Forall_impl; [exact Hl|]. apply local_quiet.
      * intros ???? [= <- <-] [= <-] _ ???. rewrite Hd in *. simplify_eq. by apply Hw.
Qed.
End converges.

Lemma wp_close {R} (G : contract agentE) Q h (f : option error → agentM R) :
  wp G Q (h ++ [ev (OnDevice DeviceClose) tt]) (f None) → wp G Q h (on_device Tunnel_Close ≫= f).
Proof. intros Hf. apply wp_bind, wp_on_device_call. by intros [] _. Qed.

(** ** Bringing the device up *)

Lemma emits_interp {E F : Type → Type} (P : event F → Prop) (f : ∀ X, E X → prog F X) {R} (p : prog E R) :
  (∀ X (e : E X), emits P (f X e)) → emits P (interp f p).
Proof.
  intros Hf. induction p as [r|X e k IH]; [apply (emits_ret P r)|]. cbn [interp]. apply emits_bind; [apply Hf|apply IH].
Qed.

Definition opens (v : event agentE) : Prop := match fst (projT2 v) with OnDevice NewDevice => True | _ => False end.
Definition closes (v : event agentE) : Prop := match fst (projT2 v) with OnDevice DeviceClose => True | _ => False end.

(** A device is closed once, by the last call. *)
Definition released (h : agent_history) : Prop :=
  Exists opens h → ∃ h' v, h = h' ++ [v] ∧ closes v ∧ Forall (λ w, ¬ closes w) h'.

Section bringup.
Context `{NetText} `{PortText}.

Definition up_events (cfg : TunnelConfig) : agent_history :=
  [ev (OnDevice (CreateNetTUN (tc_OverlayAddress cfg) DefaultMTU)) None; ev (OnDevice NewDevice) tt;
   ev (OnDevice (IpcSet (uapiConfig cfg))) None; ev (OnDevice DeviceUp) None].

Definition is_device (v : event agentE) : Prop := match fst (projT2 v) with OnDevice _ => True | _ => False end.

Lemma wp_bringup G cfg h :
  wp G (λ h' r, ∃ k, h' = h ++ k ∧ Forall is_device k ∧
      match r with None => k = up_events cfg | Some _ => released k end) h (on_device (BringUp cfg)).
Proof.
  assert (∀ k : agent_history, (∀ v, v ∈ k → ¬ opens v) → released k) as Hno.
  { intros k Hk [v [Hv Ho]]%Exists_exists. by destruct (Hk v Hv). }
  assert (∀ k v, closes v → Forall (λ w, ¬ closes w) k → released (k ++ [v])) as Hyes by (intros k v ?? _; by exists k, v).
  unfold BringUp. destruct (check_peers _ _).
  { apply wp_ret. exists []. rewrite app_nil_r. split_and!; [done|constructor|]. apply Hno. by intros v ?%not_elem_of_nil. }
  apply wp_on_device_call. intros [e|] _.
  { apply wp_ret. eexists. split_and!; [done|by repeat constructor|]. apply Hno. intros v ->%list_elem_of_singleton. exact id. }
  apply wp_on_device_call. intros [] _. apply wp_on_device_call. intros [e|] _;
    [|apply wp_on_device_call; intros [e|] _]; [apply wp_on_device_call; intros [] _..|]; apply wp_ret;
    (eexists; split; [by rewrite <- !app_assoc|]); (split; [by repeat constructor|]).
  - apply (Hyes [_; _; _]); [done|]. repeat constructor; exact id.
  - apply (Hyes [_; _; _; _]); [done|]. repeat constructor; exact id.
  - done.
Qed.
End bringup.

Section lifetime.
Context `{PeersJSON} `{RequestURL} `{PayloadJSON} `{PeerText} `{NetText} `{PortText}.

Lemma initial_config_keys payload cfg current skipped :
  InitialConfig payload = inr (cfg, current, skipped) → dom current = list_to_set (tp_PublicKey <$> tc_Peers cfg).
Proof.
  intros Hi. unfold InitialConfig in Hi. destruct (base64_decode _) as [raw|]; [|done].
  destruct (negb _); [done|]. destruct (ParseAddr _); [done|].
  pose proof (initial_peers_spec ∅ (pl_Peers payload)) as Hp.
  destruct (initial_peers ∅ _) as [[peers final'] es]. injection Hi as <- <- _. simpl. rewrite Hp. set_solver.
Qed.

(** Whatever failed before, a poll that answered 200 with
    a snapshot whose peers all decode, followed by device calls that were all
    accepted, leaves the device by the next turn of the loop with exactly the
    keys of that snapshot, as read off the texts it was given. *)
Lemma agent_converges fuel o :
  (∀ a, one_line (addr_String a)) → (∀ e, one_line (addrPort_String e)) →
  ensures agent_contract (Run fuel o) (λ h _, ∀ pre x post peers,
    h = pre ++ ev AgentSelect x :: post → good_round pre peers → told ∅ pre = wanted_keys peers).
Proof.
  intros Haddr Hport. apply wp_ensures. apply (wp_mono _ (λ h _, at_every converged h)).
  2: { intros h _ Hat pre x post peers -> Hg. by apply (Hat pre (ev AgentSelect x) post). }
  assert (∀ h : agent_history, Forall (λ w, ¬ is_select w) h → at_every converged h) as Hquiet.
  { intros h. apply at_every_only. by intros pre v Hv ?. }
  unfold Run, LoadPayload. apply wp_bind, wp_call_bind. intros data _. apply wp_ret. cbn [app].
  set (v := ev (ReadFile _) data). assert (Forall (λ w, ¬ is_select w) [v]) as Hv by (constructor; [exact id|constructor]).
  match goal with |- context [match ?p with inl _ => _ | inr _ => _ end] => destruct p as [err|payload] end.
  { by apply wp_ret, Hquiet. }
  unfold run_payload. destruct (InitialConfig payload) as [err|[[cfg current] skipped]] eqn:Hi; [by apply wp_ret, Hquiet|].
  apply wp_bind. eapply wp_mono; [apply wp_bringup|]. intros h r (k & -> & Hk & Hr).
  assert (Forall (λ w, ¬ is_select w) ([v] ++ k)) as Hvk.
  { apply Forall_app; split; [done|]. eapply Forall_impl; [exact Hk|]. intros [X [e z]]. destruct e; intros [] []. }
  destruct r as [err|]; [by apply wp_ret, Hquiet|]. apply wp_call_bind. intros [] _. subst k.
  set (up := ([v] ++ up_events cfg) ++ [ev (NewTicker _) tt]).
  assert (Forall (λ w, ¬ is_select w) up) as Hup by (apply Forall_app; split; [done|constructor; [exact id|constructor]]).
  apply wp_bind, wp_run_loop; [done..| |].
  - intros h' [err|] Hat; [|by apply wp_ret]. apply wp_close, wp_ret, at_every_snoc; [done|by intros []].
  - split_and!; [by apply Hquiet| |].
    + cbn. rewrite text_keys_config, (initial_config_keys _ _ _ _ Hi) by done. cbn. set_solver.
    + intros peers (pre & y & w & r & seg & Heq & _). rewrite Heq, Forall_app, Forall_cons in Hup.
      destruct Hup as (_ & Hup & _). by destruct Hup.
Qed.
(** C39: the agent's tunnel converges to the controller's records.  Whatever failed
    before, when a poll answered 200 with the snapshot of an allocation whose peers
    all decode, and the device accepted every text since, then by the next turn of
    the loop the device's peers - as read off the texts it was given and the
    removals - are exactly the keys of the other running members of the network
    profile. *)
Theorem mesh_converges fuel o :
  (∀ a, one_line (addr_String a)) → (∀ e, one_line (addrPort_String e)) →
  ensures agent_contract (Run fuel o) (λ h _, ∀ pre x post id np allocs,
    h = pre ++ ev AgentSelect x :: post → np ≠ "" → good_round pre (Snapshot id np allocs) →
    ∀ k, k ∈ told ∅ pre ↔
      ∃ a, a ∈ allocs ∧ WireGuardPublicKey a = k ∧ k ≠ [] ∧ ID a ≠ "" ∧ ID a ≠ id ∧ NetworkProfile a = np ∧
        al_Phase a = Running ∧ WireGuardOverlayAddress a ≠ "").
Proof.
  intros Haddr Hport h r Ht Hh pre x post id np allocs Heq Hnp Hg k.
  rewrite (agent_converges fuel o Haddr Hport h r Ht Hh pre x post _ Heq Hg). apply snapshot_keys; [done|].
  destruct Hg as (? & ? & ? & ? & ? & _ & _ & _ & _ & Hd & _). by apply Forall_forall.
Qed.

(** ** What the agent contacts *)

Definition is_poll (v : event agentE) : Prop := match fst (projT2 v) with GetPeers _ _ _ => True | _ => False end.

(** The calls of an agent with this payload. *)
Definition own_call (interval : duration) (p : CloudInitPayload) (v : event agentE) : Prop :=
  match fst (projT2 v) with
  | GetPeers timeout url authorization =>
      timeout = interval ∧ url = peers_url (pl_ControllerURL p) (pl_AllocationID p) ∧ authorization = bearer +:+ pl_PollToken p
  | NewTicker d => d = interval
  | ReadFile _ => False
  | _ => True
  end.

(** At every position: an own call, and a poll only at a tick. *)
Definition confined (interval : duration) (p : CloudInitPayload) (pre : agent_history) (v : event agentE) : Prop :=
  own_call interval p v ∧ (is_poll v → last pre = Some (ev AgentSelect None)).

Definition quiet_call (v : event agentE) : Prop :=
  match fst (projT2 v) with AgentRange _ | OnDevice _ => True | _ => False end.

Lemma quiet_confined interval p pre v : quiet_call v → confined interval p pre v.
Proof. destruct v as [X [e x]]. destruct e; intros []; by split. Qed.

Lemma emits_on_tunnel X (e : tunnelE X) : emits (λ v, quiet_call v ∧ ¬ closes v) (on_tunnel X e).
Proof.
  destruct e as [p|pub|keys];
    [apply (emits_bind _ (call (OnDevice (IpcSet (writePeerBlock p)))))|apply (emits_bind _ (call (OnDevice (DeviceRemovePeer pub))))|];
    try (intros x; apply (emits_ret _)); apply emits_call; intros x; (split; [done|exact id]).
Qed.

(** The loop after [pre] adds own calls only and closes nothing. *)
Definition tame (interval : duration) (p : CloudInitPayload) (h : agent_history) : Prop :=
  at_every (confined interval p) h ∧ Forall (λ w, ¬ closes w) h.

Lemma tame_snoc interval p h v : tame interval p h → confined interval p h v → ¬ closes v → tame interval p (h ++ [v]).
Proof. intros [Ha Hc] Hv Hn. split; [by apply at_every_snoc|]. apply Forall_app; split; [done|by constructor]. Qed.

Lemma tame_app interval p h k : tame interval p h → Forall (λ v, quiet_call v ∧ ¬ closes v) k → tame interval p (h ++ k).
Proof.
  intros [Ha Hc] [Hk Hn]%Forall_and. split; [|by apply Forall_app].
  apply (at_every_app _ quiet_call); [apply quiet_confined|done..].
Qed.

Lemma wp_loop_tame interval p fuel : ∀ current h,
  tame interval p h → wp no_contract (λ h' _, tame interval p h') h (run_loop fuel interval p current).
Proof.
  induction fuel as [|fuel IH]; intros current h Hh; cbn [run_loop]; [by apply wp_ret|].
  apply wp_call_bind. intros stop _. assert (tame interval p (h ++ [ev AgentSelect stop])) as Hs
    by (apply tame_snoc; [done|by split|exact id]).
  destruct stop as [err|]; [by apply wp_ret|]. apply wp_bind. unfold Poll.
  destruct (request_path _); [by apply wp_ret, IH|]. apply wp_call_bind. intros resp _. apply wp_ret.
  set (v := ev (GetPeers _ _ _) resp). assert (tame interval p ((h ++ [ev AgentSelect None]) ++ [v])) as Hv.
  { apply tame_snoc; [done| |exact id]. split; [done|]. intros _. by rewrite last_snoc. }
  match goal with |- wp _ _ _ (match ?x with inl _ => _ | inr _ => _ end) => destruct x as [e|peers] end; [by apply IH|].
  apply wp_bind. apply (emits_interp _ _ _ emits_on_tunnel). intros k [updated e] Hk. by apply IH, tame_app.
Qed.
Lemma poll_interval_positive o : 0 < poll_interval o.
Proof. unfold poll_interval. destruct (ao_PollInterval o <=? 0) eqn:Hc; [done|lia]. Qed.

(** From the payload on: own calls only, and the device is closed by the time
    the agent returns. *)
Lemma wp_payload_confined interval p fuel :
  wp no_contract (λ h r, at_every (confined interval p) h ∧ (r ≠ None → released h)) [] (run_payload fuel interval p).
Proof.
  assert (at_every (confined interval p) [] ∧ released []) as [Hn Hr] by (split; [apply at_every_nil|by intros ?%Exists_nil]).
  unfold run_payload. destruct (InitialConfig p) as [err|[[cfg current] skipped]]; [by apply wp_ret|].
  apply wp_bind. eapply wp_mono; [apply wp_bringup|]. intros h r (k & -> & Hk & Hcase). cbn [app].
  assert (Forall quiet_call k) as Hq by (eapply Forall_impl; [exact Hk|]; intros [X [e x]]; by destruct e).
  assert (at_every (confined interval p) k) as Ha by (apply (at_every_only _ quiet_call); [apply quiet_confined|done]).
  destruct r as [err|]; [by apply wp_ret|]. apply wp_call_bind. intros [] _. apply wp_bind.
  eapply wp_mono; [apply wp_loop_tame|].
  - apply tame_snoc; [|by split|exact id]. split; [done|]. subst k. repeat constructor; exact id.
  - intros h' [err|] [Hat Hc]; [|by apply wp_ret]. apply wp_close, wp_ret. split; [by apply at_every_snoc; [|split]|].
    intros _ _. by exists h', (ev (OnDevice DeviceClose) tt).
Qed.

(** One file is read; the rest of the history is the payload's. *)
Definition contacts (o : AgentOptions) (h : agent_history) (r : option error) : Prop :=
  ∃ data h', h = ev (ReadFile (ao_PayloadPath o)) data :: h' ∧
    (h' = [] ∨ ∃ text p, data = inr text ∧ decode_payload text = inr p ∧
       pl_ControllerURL p ≠ "" ∧ pl_AllocationID p ≠ "" ∧ pl_PollToken p ≠ "" ∧
       at_every (confined (poll_interval o) p) h') ∧
    (r ≠ None → released h').

(** The agent is confined to its allocation.  It reads one file; unless that
    holds a complete payload it makes no other call.  Every request it makes goes
    to the controller and the allocation of that payload with the payload's token,
    directly after a tick and with a positive timeout; and an agent that returns
    has closed the device it opened, once, by its last call. *)
Theorem agent_confined fuel o : ensures no_contract (Run fuel o) (contacts o) ∧ 0 < poll_interval o.
Proof.
  split; [|apply poll_interval_positive]. apply wp_ensures. unfold Run, LoadPayload.
  apply wp_bind, wp_call_bind. intros data _. apply wp_ret. cbn [app].
  assert (∀ err, wp no_contract (contacts o) [ev (ReadFile (ao_PayloadPath o)) data] (mret (Some err))) as Hstop.
  { intros err. apply wp_ret. exists data, []. split_and!; [done|by left|by intros _ ?%Exists_nil]. }
  destruct data as [err|text]; [apply Hstop|]. destruct (decode_payload text) as [err|p] eqn:Hd; [apply Hstop|].
  destruct (_ || _) eqn:Hc; [apply Hstop|]. reflect in Hc.
  eapply wp_mono; [apply wp_shift, wp_payload_confined|]. intros h r (k & -> & Ha & Hr).
  exists (inr text), k. split_and!; [done| |done]. right. exists text, p. naive_solver.
Qed.
End lifetime.

(** ** An agent with a stale peer, polling twice *)

Module AgentRunExample.
Import OverlayExample TunnelExample AgentExample.

(** A codec: the binary digits of an injective coding of the list. *)
#[export] Instance Peer_countable : Countable Peer :=
  inj_countable'
    (λ p, (pe_AllocationID p, pe_PublicKey p, pe_OverlayAddress p, pe_Endpoint p))
    (λ '(a, b, c, d), {| pe_AllocationID := a; pe_PublicKey := b; pe_OverlayAddress := c; pe_Endpoint := d |})
    (λ p, ltac:(by destruct p)).

Fixpoint of_digits (s : string) : positive :=
  match s with
  | EmptyString => xH
  | String c s => if Ascii.eqb c "0" then xO (of_digits s) else xI (of_digits s)
  end.

Lemma of_digits_bits p : of_digits (bits p) = p.
Proof. induction p as [p IH|p IH|]; cbn; by rewrite ?IH. Qed.

#[export] Instance peers_json : PeersJSON.
Proof.
  refine {| encode_peers := λ l, bits (encode l);
            decode_peers := λ s, match decode (of_digits s) with Some l => inr l | None => inl (errors_new "unexpected end of JSON input") end |}.
  intros peers _. by rewrite of_digits_bits, decode_encode.
Defined.

#[export] Instance urls : RequestURL :=
  {| request_path := λ s, if s =s "https://c/v1/wireguard/peers/rs-a" then inr ["v1"; "wireguard"; "peers"; "rs-a"]
                          else inl (errors_new "invalid URL") |}.

#[export] Instance payloads : PayloadJSON :=
  {| decode_payload := λ s, if s =s "{}" then inl (errors_new "unexpected end of JSON input") else inr AgentExample.payload |}.

Definition settings_file : AgentOptions := {| ao_PayloadPath := "/run/runnerscout/wireguard.json"; ao_PollInterval := 0 |}.

Definition polled : list Peer := Snapshot "rs-a" "mesh" AgentExample.runners.

Definition a_device {X} (e : deviceE X) : X :=
  match e in deviceE X return X with
  | CreateNetTUN _ _ => None
  | NewDevice => tt
  | IpcSet _ => None
  | DeviceUp => None
  | DeviceRemovePeer _ => tt
  | DeviceClose => tt
  end.

(** The first request is lost, the second answered; the third turn of the loop
    ends the agent. *)
Definition world (X : Type) (e : agentE X) (n : nat) : nat * X :=
  match e in agentE X return nat * X with
  | ReadFile _ => (n, inr "{...}")
  | NewTicker _ => (n, tt)
  | AgentSelect => (S n, if (n <? 2)%nat then None else Some (errors_new "context canceled"))
  | GetPeers _ _ _ => (n, if (n =? 1)%nat then inl (errors_new "timeout") else inr (reply 200 (encode_peers polled)))
  | AgentRange keys => (n, keys)
  | OnDevice e => (n, a_device e)
  end.

Definition lived : agent_history := run_history world (Run 3 settings_file) 0%nat.

Lemma world_respects : Forall (respects agent_contract) lived.
Proof.
  apply (run_respects world (λ _, True) agent_contract); [|done].
  intros X e m m' x _ He. split; [done|]. destruct e; try done. injection He as _ <-. simpl. reflexivity.
Qed.
End AgentRunExample.

Section witnesses.
Import OverlayExample TunnelExample AgentExample AgentRunExample.

(** Before its last turn the agent has replaced the stale peer by the two of
    the snapshot. *)
Lemma mesh_converges_witness :
  told ∅ (take 6 lived) = {[key Byte.x09]} ∧ told ∅ (take 15 lived) = {[key Byte.x02; key Byte.x03]} ∧
  (key Byte.x02 ∈ told ∅ (take 15 lived) ↔
     ∃ a, a ∈ runners ∧ WireGuardPublicKey a = key Byte.x02 ∧ key Byte.x02 ≠ [] ∧ ID a ≠ "" ∧ ID a ≠ "rs-a" ∧
       NetworkProfile a = "mesh" ∧ al_Phase a = Running ∧ WireGuardOverlayAddress a ≠ "").
Proof.
  split; [apply (bool_decide_eq_true_1 _); vm_compute; reflexivity|].
  split; [apply (bool_decide_eq_true_1 _); vm_compute; reflexivity|].
  apply (@mesh_converges _ _ _ _ OverlayExample.text _ 3 settings_file show_one_line ports_one_line lived _ (run_trace world _ _)
    world_respects (take 15 lived) (Some (errors_new "context canceled")) (drop 16 lived) "rs-a" "mesh" runners).
  - vm_compute. reflexivity.
  - discriminate.
  - exists (take 8 lived), None, (ev (GetPeers (30 * Second) "https://c/v1/wireguard/peers/rs-a" "Bearer 00")
      (inr (reply 200 (encode_peers polled)))), (reply 200 (encode_peers polled)), (take 5 (drop 10 lived)).
    split; [vm_compute; reflexivity|]. split; [reflexivity|]. split; [reflexivity|]. split; [vm_compute; reflexivity|].
    split; [repeat (constructor; [eexists; vm_compute; reflexivity|]); constructor|].
    split; vm_compute; repeat (constructor; [first [exact id|exact I|reflexivity]|]); constructor.
Defined.

(** The same agent has closed its device. *)
Lemma agent_confined_witness : contacts settings_file lived (Some (errors_new "context canceled")) ∧ Exists opens lived.
Proof.
  split; [|vm_compute; do 2 right; left; exact I].
  exact (proj1 (agent_confined 3 settings_file) lived _ (run_trace world _ _) ltac:(by apply Forall_true)).
Defined.
End witnesses.

(** ** A poll from the agent to the records and back *)

Lemma substring_all (s : string) : ∀ n, (String.length s ≤ n)%nat → String.substring 0 n s = s.
Proof.
  induction s as [|c s IH]; intros [|n] Hn; cbn in *; [done..|lia|]. by rewrite IH by lia.
Qed.

Lemma limit_body_fits s : strlen s ≤ max_body → limit_body s = s.
Proof. intros Hs. apply substring_all. unfold strlen in Hs. lia. Qed.

(** Records whose peers are plain text. *)
Definition plain_record (a : Allocation) : Prop :=
  ascii_text (ID a) ∧ ascii_text (WireGuardOverlayAddress a) ∧ ascii_text (WireGuardEndpoint a).

Lemma base64_ascii l : ascii_text (base64_encode l).
Proof.
  unfold ascii_text, base64_encode. rewrite String.list_ascii_of_string_of_list_ascii.
  eapply Forall_impl; [apply base64_chars_text|]. apply Forall_forall.
  repeat (constructor; [reflexivity|]). constructor.
Qed.

Lemma snapshot_peers_plain id np allocs : Forall plain_record allocs → Forall plain_peer (Snapshot id np allocs).
Proof.
  intros Ha. destruct (decide (np = "")) as [->|Hnp]; [constructor|].
  apply Forall_forall. intros p Hp. rewrite snapshot_perm in Hp by done. apply peers_of_elem in Hp as (a & Hin & _ & ->).
  rewrite Forall_forall in Ha. destruct (Ha a Hin) as (? & ? & ?). split_and!; [done|apply base64_ascii|done|done].
Qed.

Section served.
Context `{Crypto} `{PeersJSON} `{RequestURL}.

(** One state of the store. *)
Context (load : string → result Allocation) (listed : result (list Allocation)).

Definition store (X : Type) (e : peersE X) (w : unit) : unit * X :=
  match e in peersE X return unit * X with
  | PLoad id => (w, load id)
  | PList => (w, listed)
  end.

Definition serve (s : Status) (segments : list string) (authorization : string) : HTTPResponse :=
  snd (run store (Handler s {| sr_Method := "GET"; sr_Segments := segments; sr_Authorization := authorization |}) tt).

(** A request fails on the way, or is answered by the server. *)
Definition answered (s : Status) : contract agentE := λ X e,
  match e in agentE X return X → Prop with
  | GetPeers _ url authorization => λ x,
      ∀ r segments, x = inr r → request_path url = inr segments → r = serve s segments authorization
  | _ => λ _, True
  end.

(** What the endpoint answers over this store. *)
Definition endpoint_answer (id authorization : string) (r : Response) : Prop :=
  authorized authorization (load id) ∧
    ((∃ err, listed = inl err ∧ r = SnapshotUnavailable) ∨
     ∃ a allocs, load id = inr a ∧ listed = inr allocs ∧ r = PeersOK (Snapshot id (NetworkProfile a) allocs))
  ∨ ¬ authorized authorization (load id) ∧ r = Unauthorized.

Definition store_contract : contract peersE := λ X e,
  match e in peersE X return X → Prop with PLoad id => λ x, x = load id | PList => λ x, x = listed end.

Lemma endpoint_answers id authorization w : endpoint_answer id authorization (snd (run store (ServeHTTP id authorization) w)).
Proof.
  assert (implements store (λ _, True) store_contract) as Hi.
  { intros X e w0 w' x _. destruct e; by intros [= <- <-]. }
  destruct (run_respects store _ _ (ServeHTTP id authorization) w Hi I) as [Hr _].
  pose proof (trace_wp _ _ _ _ (run_trace store (ServeHTTP id authorization) w) (wp_ServeHTTP id authorization)) as
    (loaded & h' & Heq & Hcase).
  rewrite Heq in Hr. apply Forall_cons in Hr as [Hl Hr]. cbn in Hl. subst loaded. unfold endpoint_answer.
  destruct Hcase as [(Ha & [(err & -> & ->)|(a & allocs & Hl & -> & ->)])|(Ha & -> & ->)]; [| |by right];
    left; (split; [done|]); apply Forall_inv in Hr; cbn in Hr; [left|right]; naive_solver.
Qed.

Lemma serve_peers s id authorization :
  WireGuardPeers s = true → id ≠ "" →
  ∃ r, serve s ["v1"; "wireguard"; "peers"; id] authorization = write_response r ∧ endpoint_answer id authorization r.
Proof.
  intros Hw Hid. eexists. split; [|apply (endpoint_answers id authorization tt)]. unfold serve, Handler. cbn [sr_Segments sr_Method sr_Authorization].
  rewrite (proj2 (match_path_peers s _ id) (conj Hw (conj eq_refl Hid))). cbn [String.eqb Ascii.eqb Bool.eqb serve_route].
  change ("GET" =s "GET") with true. cbn iota. rewrite run_bind. by destruct (run store (ServeHTTP id authorization) tt).
Qed.

(** C38: a poll and its answer.  Over a store whose records are plain text and whose
    snapshots fit the agent's limit, through a server that mounts the endpoint: a
    poll that succeeds presented a token whose hash is on the allocation's live
    record, and returns exactly that allocation's snapshot; and a poll that reached
    the server with the token issued for the record succeeds. *)
Theorem poll_served s timeout url id token :
  WireGuardPeers s = true → id ≠ "" →
  request_path (peers_url url id) = inr ["v1"; "wireguard"; "peers"; id] →
  (∀ a allocs, load id = inr a → listed = inr allocs → Forall plain_record allocs ∧
     strlen (encode_peers (Snapshot id (NetworkProfile a) allocs)) ≤ max_body) →
  ensures (answered s) (Poll timeout url id token) (λ h r,
    (∀ peers, r = inr peers → ∃ a allocs, load id = inr a ∧ listed = inr allocs ∧
       authorized (bearer +:+ token) (inr a) ∧ peers = Snapshot id (NetworkProfile a) allocs) ∧
    (∀ raw hash a allocs, GeneratePollToken (inr raw) = inr (token, hash) → load id = inr a → listed = inr allocs →
       WireGuardPollTokenHash a = hash → al_Phase a ≠ Deleted → al_Phase a ≠ TimedOut →
       (∃ v response, v ∈ h ∧ poll_answer v = Some (inr response)) →
       r = inr (Snapshot id (NetworkProfile a) allocs))).
Proof.
  intros Hw Hid Hu Hplain. apply wp_ensures. unfold Poll. rewrite Hu. apply wp_call_bind. intros resp Hresp. apply wp_ret.
  destruct resp as [err|response].
  { split; [done|]. intros raw hash a allocs _ _ _ _ _ _ (v & response & ->%list_elem_of_singleton & Hv). done. }
  cbn in Hresp. rewrite (Hresp response _ eq_refl Hu). clear Hresp.
  destruct (serve_peers s id (bearer +:+ token) Hw Hid) as (r & -> & Hr). split.
  - intros peers Hp. destruct Hr as [(Ha & [(err & _ & ->)|(a & allocs & Hl & Hls & ->)])|(_ & ->)]; [done| |done].
    cbn in Hp. destruct (Hplain _ _ Hl Hls) as [Hpl Hfit]. rewrite limit_body_fits, peers_roundtrip in Hp by eauto using snapshot_peers_plain.
    injection Hp as <-. exists a, allocs. by rewrite <- Hl.
  - intros raw hash a allocs Hg Hl Hls Hh Hp1 Hp2 _. destruct (Hplain _ _ Hl Hls) as [Hpl Hfit].
    pose proof (poll_token_accepted _ _ _ _ Hg Hh Hp1 Hp2) as Ha. rewrite <- Hl in Ha.
    destruct Hr as [(_ & [(err & Hls' & ->)|(a' & allocs' & Hl' & Hls' & ->)])|(Hna & _)]; [congruence| |done].
    rewrite Hl in Hl'. rewrite Hls in Hls'. simplify_eq. cbn. by rewrite limit_body_fits, peers_roundtrip by eauto using snapshot_peers_plain.
Qed.
End served.

(** ** A poll with the token just issued *)

Module PollServedExample.
Import CryptoExample AgentExample AgentRunExample.

Definition raw : list Byte.byte := [Byte.x0a; Byte.x0b].
Definition load_record (id : string) : result Allocation :=
  if id =s "rs-a" then inr (set_WireGuardPollTokenHash (Sum256 raw) (runner "rs-a" Byte.x01)) else inl (errors_new "not found").
Definition status : Status := {| ready := false; WireGuardPeers := true |}.
Definition answer : HTTPResponse := reply 200 (encode_peers polled).
Definition history : agent_history :=
  [ev (GetPeers (30 * Second) "https://c/v1/wireguard/peers/rs-a" "Bearer 0a0b") (inr answer)].

Lemma history_answered : Forall (respects (answered load_record (inr runners) status)) history.
Proof. constructor; [|constructor]. cbn. intros r segments [= <-] [= <-]. vm_compute. reflexivity. Qed.
End PollServedExample.

Section witness.
Import CryptoExample AgentExample AgentRunExample PollServedExample.

Lemma poll_served_witness :
  ∃ r, trace_of (Poll (30 * Second) "https://c" "rs-a" "0a0b") history r ∧ r = inr polled.
Proof.
  eexists. split.
  { apply (trace_vis _ (GetPeers (30 * Second) "https://c/v1/wireguard/peers/rs-a" "Bearer 0a0b")). apply trace_ret. }
  apply (poll_served load_record (inr runners) status (30 * Second) "https://c" "rs-a" "0a0b" eq_refl ltac:(discriminate) eq_refl)
    with (h := history) (raw := raw) (hash := Sum256 raw) (a := set_WireGuardPollTokenHash (Sum256 raw) (runner "rs-a" Byte.x01)).
  - intros a allocs [= <-] [= <-]. split; [|vm_compute; discriminate].
    repeat (constructor; [split_and!; vm_compute; repeat (constructor; [reflexivity|]); constructor|]). constructor.
  - apply (trace_vis _ (GetPeers (30 * Second) "https://c/v1/wireguard/peers/rs-a" "Bearer 0a0b")). apply trace_ret.
  - exact history_answered.
  - reflexivity.
  - reflexivity.
  - reflexivity.
  - reflexivity.
  - discriminate.
  - discriminate.
  - exists (ev (GetPeers (30 * Second) "https://c/v1/wireguard/peers/rs-a" "Bearer 0a0b") (inr answer)), answer. split; [left|reflexivity].
Defined.
End witness.
