(* ===== verification/Register.v ===== *)
(** * Registering a scale set
    (cmd/e2e-register-scale-set/main.go)

    The command that registers or deletes one scale set, over the calls of the
    scale-set client.  Parsing of flags and writing to the terminal are left out;
    the ID printed on success is the one in the result, and error texts are kept
    without the names they quote. *)
From S2P Require Import Prelude.
From S2P Require Import Effects.
From S2P Require Import Peers.

Record reg_options := {
  r_githubURL : string;
  r_name : string;
  r_runnerGroup : string;
  r_tokenPath : string;
  r_appClientID : string;
  r_appKeyPath : string;
  r_appInstallationID : Z;
  deleteScaleSet : bool;
  evidencePath : string
}.

(** [parseOptions] after the flags are read. *)
Definition parse_register (narg : Z) (o : reg_options) : result reg_options :=
  let appMode := (r_appClientID o <>s "") || negb (r_appInstallationID o =? 0) || (r_appKeyPath o <>s "") in
  let patMode := r_tokenPath o <>s "" in
  if negb (narg =? 0) then inl (errors_new "unexpected positional arguments")
  else if (r_githubURL o =s "") || (r_name o =s "") || (r_runnerGroup o =s "")
  then inl (errors_new "-github-url, -name and -runner-group are required")
  else if Bool.eqb appMode patMode
  then inl (errors_new "exactly one of -github-token-file or the complete -github-app-* trio is required")
  else if appMode && ((r_appClientID o =s "") || (r_appInstallationID o <=? 0) || (r_appKeyPath o =s ""))
  then inl (errors_new "complete GitHub App settings required: -github-app-client-id, -github-app-installation-id, -github-app-key-file")
  else inr o.

Inductive action := Absent | DeletedSet | Existing | CreatedSet.

(** [result] without the time; no ID is zero. *)
Record reg_result := { re_Action : action; re_Name : string; re_RunnerGroupID : Z; re_ScaleSetID : Z }.

Inductive registerE : Type → Type :=
  | RegReadFile (path : string) : registerE (result string)
  | NewTokenClient (url token : string) : registerE (option error)
  | NewAppClient (url clientID : string) (installation : Z) (key : string) : registerE (option error)
  | GetRunnerGroupByName (name : string) : registerE (result Z)
  | GetRunnerScaleSet (group : Z) (name : string) : registerE (result (option Z))
  | CreateRunnerScaleSet (group : Z) (name : string) : registerE (result Z)
  | DeleteRunnerScaleSet (id : Z) : registerE (option error)
  | WriteEvidence (path : string) (r : reg_result) : registerE (option error).

Abbreviation regM := (prog registerE).

Definition buildClient (o : reg_options) : regM (option error) :=
  if r_tokenPath o <>s "" then
    token ← call (RegReadFile (r_tokenPath o));
    match token with
    | inl _ => mret (Some (errors_new "cannot read GitHub token file"))
    | inr token =>
        if strings_trim_space token =s "" then mret (Some (errors_new "cannot read GitHub token file"))
        else
          e ← call (NewTokenClient (r_githubURL o) (strings_trim_space token));
          mret match e with Some err => Some (errorf_w "GitHub client initialization failed" err) | None => None end
    end
  else
    key ← call (RegReadFile (r_appKeyPath o));
    match key with
    | inl _ => mret (Some (errors_new "cannot read GitHub App private-key file"))
    | inr key =>
        if key =s "" then mret (Some (errors_new "cannot read GitHub App private-key file"))
        else
          e ← call (NewAppClient (r_githubURL o) (r_appClientID o) (r_appInstallationID o) key);
          mret match e with Some err => Some (errorf_w "GitHub client initialization failed" err) | None => None end
    end.

Definition reg_of (o : reg_options) (a : action) (group id : Z) : reg_result :=
  {| re_Action := a; re_Name := r_name o; re_RunnerGroupID := group; re_ScaleSetID := id |}.

(** [run] *)
Definition register (o : reg_options) : regM (result reg_result) :=
  group ← call (GetRunnerGroupByName (r_runnerGroup o));
  match group with
  | inl err => mret (inl (errorf_w "resolve runner group" err))
  | inr group =>
      existing ← call (GetRunnerScaleSet group (r_name o));
      match existing with
      | inl err => mret (inl (errorf_w "look up existing scale set" err))
      | inr existing =>
          if deleteScaleSet o then
            match existing with
            | None => mret (inr (reg_of o Absent group 0))
            | Some id =>
                e ← call (DeleteRunnerScaleSet id);
                mret match e with
                     | Some err => inl (errorf_w "delete scale set" err)
                     | None => inr (reg_of o DeletedSet group id)
                     end
            end
          else
            match existing with
            | Some id => mret (inr (reg_of o Existing group id))
            | None =>
                created ← call (CreateRunnerScaleSet group (r_name o));
                mret match created with
                     | inl err => inl (errorf_w "create scale set" err)
                     | inr id => inr (reg_of o CreatedSet group id)
                     end
            end
      end
  end.

(** The exit status of [main] on parsed options. *)
Definition register_main (o : reg_options) : regM Z :=
  e ← buildClient o;
  match e with
  | Some _ => mret 1
  | None =>
      r ← register o;
      match r with
      | inl _ => mret 1
      | inr r =>
          if evidencePath o =s "" then mret 0
          else
            e ← call (WriteEvidence (evidencePath o) r);
            mret match e with Some _ => 1 | None => 0 end
      end
  end.

(** ** A scale-set service

    Scale sets by group and name, with IDs that are not used again. *)

Record Service := { sets : gmap (Z * string) Z; next_id : Z; group_of : string → option Z }.

Definition service (X : Type) (e : registerE X) (w : Service) : Service * X :=
  match e in registerE X return Service * X with
  | RegReadFile _ => (w, inr "secret")
  | NewTokenClient _ _ => (w, None)
  | NewAppClient _ _ _ _ => (w, None)
  | GetRunnerGroupByName name => (w, match group_of w name with Some g => inr g | None => inl (errors_new "no such group") end)
  | GetRunnerScaleSet group name => (w, inr (sets w !! (group, name)))
  | CreateRunnerScaleSet group name =>
      match sets w !! (group, name) with
      | Some _ => (w, inl (errors_new "already exists"))
      | None => ({| sets := <[(group, name) := next_id w]> (sets w); next_id := next_id w + 1; group_of := group_of w |},
                 inr (next_id w))
      end
  | DeleteRunnerScaleSet id =>
      ({| sets := filter (λ kv, kv.2 ≠ id) (sets w); next_id := next_id w; group_of := group_of w |}, None)
  | WriteEvidence _ _ => (w, None)
  end.

(** No two scale sets share an ID. *)
Definition service_ok (w : Service) : Prop :=
  (∀ k k' id, sets w !! k = Some id → sets w !! k' = Some id → k = k') ∧ ∀ k id, sets w !! k = Some id → id < next_id w.

Definition removed (id : Z) (w : Service) : Service :=
  {| sets := filter (λ kv, kv.2 ≠ id) (sets w); next_id := next_id w; group_of := group_of w |}.
Definition added (k : Z * string) (w : Service) : Service :=
  {| sets := <[k := next_id w]> (sets w); next_id := next_id w + 1; group_of := group_of w |}.

Lemma register_run o w g :
  group_of w (r_runnerGroup o) = Some g →
  run service (register o) w =
    match sets w !! (g, r_name o), deleteScaleSet o with
    | None, true => (w, inr (reg_of o Absent g 0))
    | Some id, true => (removed id w, inr (reg_of o DeletedSet g id))
    | Some id, false => (w, inr (reg_of o Existing g id))
    | None, false => (added (g, r_name o) w, inr (reg_of o CreatedSet g (next_id w)))
    end.
Proof.
  intros Hg. unfold register. cbn [run mbind prog_bind call service]. rewrite Hg. cbn [run mbind prog_bind call service].
  destruct (sets w !! (g, r_name o)) as [id|] eqn:Hs, (deleteScaleSet o); cbn [run mbind prog_bind call service mret prog_ret]; try done.
  by rewrite Hs.
Qed.

Lemma removed_spec id w k : service_ok w → sets w !! k = Some id →
  service_ok (removed id w) ∧ sets (removed id w) !! k = None ∧ ∀ k', k' ≠ k → sets (removed id w) !! k' = sets w !! k'.
Proof.
  intros [Hinj Hlt] Hs. cbn. split_and!; [split|..].
  - intros k1 k2 x [Hk1 _]%map_lookup_filter_Some [Hk2 _]%map_lookup_filter_Some. by eapply Hinj.
  - intros k1 x [Hk _]%map_lookup_filter_Some. by eapply Hlt.
  - apply map_lookup_filter_None. right. intros x Hx. rewrite Hs in Hx. injection Hx as <-. cbn. congruence.
  - intros k' Hk. destruct (sets w !! k') as [x|] eqn:Hx; [apply map_lookup_filter_Some|apply map_lookup_filter_None; by left].
    split; [done|]. cbn. intros ->. destruct Hk. by eapply Hinj.
Qed.

Lemma added_ok w k : service_ok w → service_ok (added k w).
Proof.
  intros [Hinj Hlt]. split; cbn.
  - intros k1 k2 x. rewrite !lookup_insert_Some. intros [[<- <-]|[Hk Hx]] [[<- Hx']|[Hk' Hx']]; try done.
    + apply Hlt in Hx'. lia.
    + subst. apply Hlt in Hx. lia.
    + by eapply Hinj.
  - intros k1 x. rewrite lookup_insert_Some. intros [[_ <-]|[_ Hx%Hlt]]; lia.
Qed.

(** Registering converges and is idempotent: whatever the service held, the set
    of that name is there afterwards (or gone, for a deletion), every other set is
    as it was, and a second run changes nothing and reports the same ID. *)
Theorem register_idempotent o w g :
  service_ok w → group_of w (r_runnerGroup o) = Some g →
  let '(w1, r1) := run service (register o) w in
  let '(w2, r2) := run service (register o) w1 in
  service_ok w1 ∧ w2 = w1 ∧
  (∀ k, k ≠ (g, r_name o) → sets w1 !! k = sets w !! k) ∧
  (if deleteScaleSet o then sets w1 !! (g, r_name o) = None ∧ r2 = inr (reg_of o Absent g 0)
   else ∃ id, sets w1 !! (g, r_name o) = Some id ∧ r2 = inr (reg_of o Existing g id) ∧
     (r1 = inr (reg_of o Existing g id) ∨ r1 = inr (reg_of o CreatedSet g id) ∧ sets w !! (g, r_name o) = None)).
Proof.
  intros Hw Hg. rewrite (register_run o w g Hg).
  destruct (sets w !! (g, r_name o)) as [id|] eqn:Hs; destruct (deleteScaleSet o) eqn:Hdel.
  - destruct (removed_spec _ _ _ Hw Hs) as (Hok & Hgone & Hrest). rewrite (register_run o (removed id w) g Hg), Hgone, Hdel.
    by split_and!.
  - rewrite (register_run o w g Hg), Hs, Hdel. split_and!; [done..|]. exists id. auto.
  - rewrite (register_run o w g Hg), Hs, Hdel. by split_and!.
  - assert (sets (added (g, r_name o) w) !! (g, r_name o) = Some (next_id w)) as Ha by apply lookup_insert_eq.
    rewrite (register_run o (added (g, r_name o) w) g Hg), Ha, Hdel. split_and!; [by apply added_ok|done| |].
    + intros k Hk. cbn. by rewrite lookup_insert_ne.
    + exists (next_id w). split_and!; [done..|by right].
Qed.

(** ** A service with one other set *)

Module RegisterExample.
Definition wanted : reg_options :=
  {| r_githubURL := "https://github.com/acme/app"; r_name := "scout"; r_runnerGroup := "Default"; r_tokenPath := "/token";
     r_appClientID := ""; r_appKeyPath := ""; r_appInstallationID := 0; deleteScaleSet := false; evidencePath := "" |}.
Definition world : Service :=
  {| sets := {[(1, "other") := 7]}; next_id := 8; group_of := λ name, if name =s "Default" then Some 1 else None |}.

Lemma world_ok : service_ok world.
Proof.
  assert (∀ k id, sets world !! k = Some id → k = (1, "other") ∧ id = 7) as Hk
    by (intros k id Hs; change ((({[(1, "other") := 7]} : gmap (Z * string) Z) !! k) = Some id) in Hs;
        by apply lookup_singleton_Some in Hs as [<- <-]).
  split; [intros k k' id [-> _]%Hk [-> _]%Hk; done|]. intros k id [_ ->]%Hk. done.
Qed.
End RegisterExample.

Section witness.
Import RegisterExample.

Lemma register_idempotent_witness :
  snd (run service (register wanted) world) = inr (reg_of wanted CreatedSet 1 8) ∧
  let w1 := fst (run service (register wanted) world) in
  fst (run service (register wanted) w1) = w1.
Proof.
  split; [vm_compute; reflexivity|].
  pose proof (register_idempotent wanted world 1 world_ok eq_refl) as Hr. cbv zeta.
  destruct (run service (register wanted) world) as [w1 r1]. cbn [fst].
  destruct (run service (register wanted) w1) as [w2 r2]. exact (proj1 (proj2 Hr)).
Defined.
End witness.
