(* ===== verification/Fleet.v ===== *)
(** * The fleet record and the operator's configuration
    (internal/operator/operator.go, budget.go, control.go)

    One ConfigMap per scale set holds the admission state: [readFleet] and
    [saveFleet] read and write it over the calls of [operatorE]. *)
From S2P Require Import Prelude.
From S2P Require Import Effects.
From S2P Require Import Placement.
From S2P Require Import Admission.
From S2P Require Import Recovery.
From S2P Require Import Resources.
From S2P Require Import Allocation.
From S2P Require Import State.
From S2P Require Import Provider.

(** [operator.Config] *)
Record Config := {
  CatalogPath : string;
  cfg_Name : string;
  Namespace : string;
  GitHubURL : string;
  ScaleSetID : Z;
  MaxRunners : Z;
  ProvisioningSeconds : Z;
  MaxLifetimeSeconds : Z;
  cfg_Requirements : Requirements;
  cfg_Catalog : Catalog;
  cfg_Providers : gmap string ProviderConfig;
  Retry : Policy;
  AWSPriceRefresh : bool;
  AzurePriceRefresh : bool;
  GCPPriceRefresh : bool;
  AzureInterruptionQueueURL : string;
  cfg_NetworkProfile : string;
  NetworkOverlayCIDRs : list string;
  BudgetDailyMicros : Z
}.

(** A rerun request whose outcome GitHub never confirmed. *)
Record pendingRerun := { pr_Attempt : Z; pr_JobID : Z; pr_NotFoundPolls : Z }.

Record fleet := {
  BindingVersion : Z;
  fl_Condition : string;
  Binding : string;
  Released : gmap string bool;
  fl_Admission : State;
  Created : gmap string time;
  Reserved : gmap string Z;
  fl_Pending : gmap string Allocation;
  RetriesUsedByRun : gmap Z Z;
  PendingReruns : gmap Z pendingRerun;
  Pruned : gmap string bool
}.

Definition set_fl_Condition (v : string) (f : fleet) : fleet :=
  {| BindingVersion := BindingVersion f; fl_Condition := v; Binding := Binding f;
     Released := Released f; fl_Admission := fl_Admission f; Created := Created f;
     Reserved := Reserved f; fl_Pending := fl_Pending f; RetriesUsedByRun := RetriesUsedByRun f;
     PendingReruns := PendingReruns f; Pruned := Pruned f |}.
Definition set_Binding (version : Z) (v : string) (f : fleet) : fleet :=
  {| BindingVersion := version; fl_Condition := fl_Condition f; Binding := v;
     Released := Released f; fl_Admission := fl_Admission f; Created := Created f;
     Reserved := Reserved f; fl_Pending := fl_Pending f; RetriesUsedByRun := RetriesUsedByRun f;
     PendingReruns := PendingReruns f; Pruned := Pruned f |}.
Definition set_Released (v : gmap string bool) (f : fleet) : fleet :=
  {| BindingVersion := BindingVersion f; fl_Condition := fl_Condition f; Binding := Binding f;
     Released := v; fl_Admission := fl_Admission f; Created := Created f;
     Reserved := Reserved f; fl_Pending := fl_Pending f; RetriesUsedByRun := RetriesUsedByRun f;
     PendingReruns := PendingReruns f; Pruned := Pruned f |}.
Definition set_Admission (v : State) (f : fleet) : fleet :=
  {| BindingVersion := BindingVersion f; fl_Condition := fl_Condition f; Binding := Binding f;
     Released := Released f; fl_Admission := v; Created := Created f;
     Reserved := Reserved f; fl_Pending := fl_Pending f; RetriesUsedByRun := RetriesUsedByRun f;
     PendingReruns := PendingReruns f; Pruned := Pruned f |}.
Definition set_Created (v : gmap string time) (f : fleet) : fleet :=
  {| BindingVersion := BindingVersion f; fl_Condition := fl_Condition f; Binding := Binding f;
     Released := Released f; fl_Admission := fl_Admission f; Created := v;
     Reserved := Reserved f; fl_Pending := fl_Pending f; RetriesUsedByRun := RetriesUsedByRun f;
     PendingReruns := PendingReruns f; Pruned := Pruned f |}.
Definition set_Reserved (v : gmap string Z) (f : fleet) : fleet :=
  {| BindingVersion := BindingVersion f; fl_Condition := fl_Condition f; Binding := Binding f;
     Released := Released f; fl_Admission := fl_Admission f; Created := Created f;
     Reserved := v; fl_Pending := fl_Pending f; RetriesUsedByRun := RetriesUsedByRun f;
     PendingReruns := PendingReruns f; Pruned := Pruned f |}.
Definition set_fl_Pending (v : gmap string Allocation) (f : fleet) : fleet :=
  {| BindingVersion := BindingVersion f; fl_Condition := fl_Condition f; Binding := Binding f;
     Released := Released f; fl_Admission := fl_Admission f; Created := Created f;
     Reserved := Reserved f; fl_Pending := v; RetriesUsedByRun := RetriesUsedByRun f;
     PendingReruns := PendingReruns f; Pruned := Pruned f |}.
Definition set_RetriesUsedByRun (v : gmap Z Z) (f : fleet) : fleet :=
  {| BindingVersion := BindingVersion f; fl_Condition := fl_Condition f; Binding := Binding f;
     Released := Released f; fl_Admission := fl_Admission f; Created := Created f;
     Reserved := Reserved f; fl_Pending := fl_Pending f; RetriesUsedByRun := v;
     PendingReruns := PendingReruns f; Pruned := Pruned f |}.
Definition set_PendingReruns (v : gmap Z pendingRerun) (f : fleet) : fleet :=
  {| BindingVersion := BindingVersion f; fl_Condition := fl_Condition f; Binding := Binding f;
     Released := Released f; fl_Admission := fl_Admission f; Created := Created f;
     Reserved := Reserved f; fl_Pending := fl_Pending f; RetriesUsedByRun := RetriesUsedByRun f;
     PendingReruns := v; Pruned := Pruned f |}.
Definition set_Pruned (v : gmap string bool) (f : fleet) : fleet :=
  {| BindingVersion := BindingVersion f; fl_Condition := fl_Condition f; Binding := Binding f;
     Released := Released f; fl_Admission := fl_Admission f; Created := Created f;
     Reserved := Reserved f; fl_Pending := fl_Pending f; RetriesUsedByRun := RetriesUsedByRun f;
     PendingReruns := PendingReruns f; Pruned := v |}.

(** [f.Admission.Admitted = n] *)
Definition set_fleet_Admitted (n : Z) (f : fleet) : fleet :=
  set_Admission (set_Admitted n (fl_Admission f)) f.

(** ** Budget (budget.go) *)

(** The price ceiling times the lifetime, rounded up to a whole micro; int64
    arithmetic, division truncates. *)
Definition reservationMicros (maxPriceMicros maxLifetimeSeconds : Z) : Z :=
  Z.quot (wrap64 (wrap64 (maxPriceMicros * maxLifetimeSeconds) + 3599)) 3600.

(** The last record of each id wins, as in the loop that fills [phase]. *)
Definition phase_by_id (allocs : list Allocation) : gmap string Phase :=
  foldl (λ m a, <[ID a := al_Phase a]> m) ∅ allocs.

(** Whether the reservation of [id] counts against [now]'s day. *)
Definition counts_today (f : fleet) (phase : gmap string Phase) (now : time) (id : string) : bool :=
  negb (bool_decide (phase !! id = Some TimedOut)) &&
  match Created f !! id with
  | Some created => utc_day now =? utc_day created
  | None => false
  end.

Definition spentToday (f : fleet) (allocs : list Allocation) (now : time) : Z :=
  let phase := phase_by_id allocs in
  map_fold (λ id reserved total,
    if counts_today f phase now id then wrap64 (total + reserved) else total) 0 (Reserved f).

(** ** Calls of the operator *)

(** [prices.Quote] *)
Record Quote := { q_PriceMicros : Z; q_Currency : string; q_ObservedAt : time }.

(** [azurequeue.Result] *)
Record QueueResult := { qr_ResourceID : string; qr_Preempted : bool; qr_Err : option error }.

Inductive operatorE : Type → Type :=
  (* the ConfigMaps of the namespace *)
  | MapsGet (name : string) : operatorE (result ConfigMap)
  | MapsCreate (cm : ConfigMap) : operatorE (result ConfigMap)
  | MapsUpdate (cm : ConfigMap) : operatorE (result ConfigMap)
  (* the allocation store *)
  | StoreList : operatorE (result (list Allocation))
  | StoreLoad (id : string) : operatorE (result Allocation)
  | StoreSave (a : Allocation) (revision : string) : operatorE (result Allocation)
  | StoreDelete (id : string) : operatorE (option error)
  (* clock, random names, the order in which a Go map is ranged over *)
  | TimeNow : operatorE time
  | NewUUID : operatorE string
  | RangeKeys (keys : list string) : operatorE (list string)
  (* the catalog file, at most four MiB of it *)
  | ReadCatalog (path : string) : operatorE (option string)
  (* price and interruption observers *)
  | AWSObserve (region zone machine : string) : operatorE (result Quote)
  | AzureObserve (region zone machine : string) : operatorE (result Quote)
  | GCPObserve (coreSkuID ramSkuID : string) (cpu memoryMiB : Z) : operatorE (result Quote)
  | PollInterruptions : operatorE (result (list QueueResult))
  (* one step of the allocation state machine, with the cooldowns and the
     interruption snapshot it sees *)
  | ControllerStep (cooldowns : gmap string time) (interrupted : gmap string bool)
      (id : string) : operatorE (option error)
  (* GitHub *)
  | Deregister (id : string) : operatorE (option error)
  | AttemptJobs (owner repo : string) (runID attempt : Z) : operatorE (result (list RESTJob))
  | RerunFailedJobs (owner repo : string) (runID : Z) : operatorE (option error).

Abbreviation opM := (prog operatorE).

(** The operator: its configuration, which optional collaborators are set and
    the two mode flags. *)
Record Operator := {
  op_Config : Config;
  hasAWSPrices : bool;
  hasAzurePrices : bool;
  hasGCPPrices : bool;
  hasInterruptions : bool;
  hasGitHubJobs : bool;
  hasRunners : bool;
  paused : bool;
  draining : bool
}.

(** The text format of the fleet record and the fingerprint of a configuration
    (SHA-256 of its JSON). *)
Class FleetCodec := {
  fleet_marshal : fleet → result string;
  fleet_unmarshal : string → result fleet;
  fingerprint : Config → string
}.

(** ** Binding *)

Section binding.
Context `{FleetCodec}.

Definition binding_view (limit : Z) (c : Config) : Config :=
  {| CatalogPath := ""; cfg_Name := cfg_Name c; Namespace := Namespace c; GitHubURL := GitHubURL c;
     ScaleSetID := ScaleSetID c; MaxRunners := limit; ProvisioningSeconds := ProvisioningSeconds c;
     MaxLifetimeSeconds := MaxLifetimeSeconds c; cfg_Requirements := cfg_Requirements c;
     cfg_Catalog := zero_catalog; cfg_Providers := cfg_Providers c; Retry := Retry c;
     AWSPriceRefresh := AWSPriceRefresh c; AzurePriceRefresh := AzurePriceRefresh c;
     GCPPriceRefresh := GCPPriceRefresh c; AzureInterruptionQueueURL := AzureInterruptionQueueURL c;
     cfg_NetworkProfile := cfg_NetworkProfile c; NetworkOverlayCIDRs := NetworkOverlayCIDRs c;
     BudgetDailyMicros := 0 |}.

Definition bindingWithLimit (c : Config) (limit : Z) : string := fingerprint (binding_view limit c).
Definition binding (c : Config) : string := bindingWithLimit c 0.

Definition SameBinding (a b : Config) : bool := binding a =s binding b.

(** ** Reading and writing the fleet *)

Definition fleet_name (c : Config) : string := cfg_Name c +:+ "-fleet".
Definition fleet_key : string := "fleet".

Definition initial_fleet_map (c : Config) : ConfigMap :=
  {| cm_Name := fleet_name c; cm_ResourceVersion := "";
     cm_Labels := {[owner_label := cfg_Name c]}; cm_Data := {[fleet_key := "{}"]} |}.

(** The checks of [readFleet] on the decoded record. *)
Definition check_fleet (c : Config) (f : fleet) : result fleet :=
  if (Binding f <>s "") && (Binding f <>s binding c)
     && negb ((BindingVersion f =? 0)
              && existsb (λ limit, Binding f =s bindingWithLimit c limit) (seqZ 1 10))
  then inl (errors_new "provider or class binding changed; restore original configuration for cleanup")
  else if negb (BindingVersion f =? 0) && negb (BindingVersion f =? 2)
  then inl (errors_new "unsupported fleet binding version")
  else inr (set_Binding 2 (binding c) f).

(** [readFleet]; a nil map of the decoded record is an empty one. *)
Definition readFleet (c : Config) (create : bool) : opM (result (ConfigMap * fleet)) :=
  r ← call (MapsGet (fleet_name c));
  r ← match r with
      | inl e => if errors_is e APINotFound then
                   if create then call (MapsCreate (initial_fleet_map c))
                   else mret (inr (initial_fleet_map c))
                 else mret (inl e)
      | inr cm => mret (inr cm)
      end;
  mret match r with
       | inl e => inl e
       | inr cm =>
           if negb (owned (cfg_Name c) cm) then inl (errors_new "fleet ownership mismatch")
           else match fleet_unmarshal (map_get "" (cm_Data cm) fleet_key) with
           | inl e => inl e
           | inr f => match check_fleet c f with inl e => inl e | inr f => inr (cm, f) end
           end
       end.

Definition loadFleet (c : Config) : opM (result (ConfigMap * fleet)) := readFleet c true.

(** [cm.Data["fleet"] = s] *)
Definition put_fleet (s : string) (cm : ConfigMap) : ConfigMap :=
  {| cm_Name := cm_Name cm; cm_ResourceVersion := cm_ResourceVersion cm; cm_Labels := cm_Labels cm;
     cm_Data := <[fleet_key := s]> (cm_Data cm) |}.

Definition saveFleet (cm : ConfigMap) (f : fleet) : opM (option error) :=
  match fleet_marshal f with
  | inl e => mret (Some e)
  | inr s =>
      r ← call (MapsUpdate (put_fleet s cm));
      mret match r with inl e => Some e | inr _ => None end
  end.
End binding.
