(* ===== verification/Operator.v ===== *)
(** * The operator: demand, jobs, reconciliation
    (internal/operator/operator.go, prices.go, azure_interruptions.go, control.go)

    The handlers are programs over [operatorE]; each is one critical section of
    the operator's mutex.  [Tick] starts the steps of its allocations
    concurrently; here each step runs at the point where it is started, which
    fixes one of their orders (System.v treats interleaved steps). *)
From S2P Require Import Prelude.
From S2P Require Import Effects.
From S2P Require Import Placement.
From S2P Require Import Admission.
From S2P Require Import Recovery.
From S2P Require Import Resources.
From S2P Require Import Allocation.
From S2P Require Import State.
From S2P Require Import Overlay.
From S2P Require Import Provider.
From S2P Require Import Fleet.

(** ** Live prices (prices.go) *)

Definition observe_offering (q : result Quote) (o : Offering) : Offering :=
  match q with
  | inl _ =>
      {| off_ID := off_ID o; off_Provider := off_Provider o; off_Region := off_Region o;
         off_Zone := off_Zone o; off_Machine := off_Machine o; off_Image := off_Image o;
         off_CPU := off_CPU o; off_MemoryMiB := off_MemoryMiB o;
         off_Architecture := off_Architecture o; off_Vendor := off_Vendor o;
         off_Capabilities := off_Capabilities o; off_Spot := off_Spot o;
         off_PriceMicros := off_PriceMicros o; off_Currency := off_Currency o;
         off_ObservedAt := zero_time; off_GCPSkuRefs := off_GCPSkuRefs o |}
  | inr quote =>
      {| off_ID := off_ID o; off_Provider := off_Provider o; off_Region := off_Region o;
         off_Zone := off_Zone o; off_Machine := off_Machine o; off_Image := off_Image o;
         off_CPU := off_CPU o; off_MemoryMiB := off_MemoryMiB o;
         off_Architecture := off_Architecture o; off_Vendor := off_Vendor o;
         off_Capabilities := off_Capabilities o; off_Spot := off_Spot o;
         off_PriceMicros := q_PriceMicros quote; off_Currency := q_Currency quote;
         off_ObservedAt := q_ObservedAt quote; off_GCPSkuRefs := off_GCPSkuRefs o |}
  end.

(** The loop of the three refreshes: offerings for which [observe] makes no
    call stay as they are. *)
Fixpoint refresh_offerings (observe : Offering → option (opM (result Quote)))
    (l : list Offering) : opM (list Offering) :=
  match l with
  | [] => mret []
  | o :: l' =>
      o' ← match observe o with
           | None => mret o
           | Some m => q ← m; mret (observe_offering q o)
           end;
      rest ← refresh_offerings observe l';
      mret (o' :: rest)
  end.

Definition refresh_catalog (enabled : bool) (observe : Offering → option (opM (result Quote)))
    (catalog : Catalog) : opM Catalog :=
  if enabled then
    offerings ← refresh_offerings observe (Offerings catalog);
    mret {| Offerings := offerings; Complete := Complete catalog |}
  else mret catalog.

Definition refreshAWSPrices (o : Operator) : Catalog → opM Catalog :=
  refresh_catalog (hasAWSPrices o) (λ off,
    if (off_Provider off <>s "aws") || negb (off_Spot off) then None
    else Some (call (AWSObserve (off_Region off) (off_Zone off) (off_Machine off)))).

Definition refreshAzurePrices (o : Operator) : Catalog → opM Catalog :=
  refresh_catalog (hasAzurePrices o) (λ off,
    if (off_Provider off <>s "azure") || negb (off_Spot off) then None
    else Some (call (AzureObserve (off_Region off) (off_Zone off) (off_Machine off)))).

Definition refreshGCPPrices (o : Operator) : Catalog → opM Catalog :=
  refresh_catalog (hasGCPPrices o) (λ off,
    if off_Provider off <>s "gcp" then None
    else match off_GCPSkuRefs off with
         | None => None
         | Some refs => Some (call (GCPObserve (CoreSkuID refs) (RamSkuID refs) (off_CPU off) (off_MemoryMiB off)))
         end).

(** ** Azure interruptions (azure_interruptions.go) *)

(** The snapshot built from the results of one poll. *)
Definition interruption_snapshot (results : list QueueResult) : gmap string bool :=
  foldl (λ m r,
    if isSome (qr_Err r) || (qr_ResourceID r =s "") then m
    else <[qr_ResourceID r := map_get false m (qr_ResourceID r) || qr_Preempted r]> m) ∅ results.

Definition pollAzureInterruptions (o : Operator) : opM (gmap string bool) :=
  if negb (hasInterruptions o) then mret ∅
  else r ← call PollInterruptions;
       mret match r with inl _ => ∅ | inr results => interruption_snapshot results end.

Section operator.
Context `{FleetCodec} `{NetText}.
(** The strict decoder of a catalog document: its first value, and whether
    anything follows. *)
Context (decode_catalog : string → result (Catalog * bool)).

(** [catalog] *)
Definition catalog (c : Config) : opM (result Catalog) :=
  if CatalogPath c =s "" then mret (inr (cfg_Catalog c))
  else r ← call (ReadCatalog (CatalogPath c));
       mret match r with
            | None => inl (errors_new "catalog unavailable")
            | Some text =>
                match decode_catalog text with
                | inl _ => inl (errors_new "invalid catalog")
                | inr (cat, trailing) =>
                    if trailing : bool then inl (errors_new "invalid catalog trailer") else inr cat
                end
            end.

(** ** HandleDesiredRunnerCount *)

(** One turn of the first loop over the records. *)
Definition release_one (fa : fleet * Z) (a : Allocation) : fleet * Z :=
  let '(f, active) := fa in
  let f := if is_terminal (al_Phase a) && negb (map_get false (Released f) (ID a)) then
             let f := if 0 <? st_Admitted (fl_Admission f)
                      then set_fleet_Admitted (st_Admitted (fl_Admission f) - 1) f else f in
             set_Released (<[ID a := true]> (Released f)) f
           else f in
  (f, if is_terminal (al_Phase a) then active else active + 1).

Definition release (f : fleet) (allocs : list Allocation) : fleet * Z := foldl release_one (f, 0) allocs.

(** Pending admissions without a record. *)
Definition unrepresented (f : fleet) (allocs : list Allocation) : Z :=
  Z.of_nat (length (List.filter (λ id, negb (slices_contains (ID <$> allocs) id))
                      (fst <$> map_to_list (fl_Pending f)))).

(** How many of [n] slots the budget affords. *)
Definition affordable (c : Config) (f : fleet) (allocs : list Allocation) (now : time) : Z :=
  let unit := reservationMicros (req_MaxPriceMicros (cfg_Requirements c)) (MaxLifetimeSeconds c) in
  let remaining := wrap64 (BudgetDailyMicros c - spentToday f allocs now) in
  if (0 <? unit) && (0 <? remaining) then Z.quot remaining unit else 0.

(** The addresses in use on the profile. *)
Definition overlay_taken (c : Config) (f : fleet) (allocs : list Allocation) : gset string :=
  list_to_set (WireGuardOverlayAddress <$>
    List.filter (λ a, (NetworkProfile a =s cfg_NetworkProfile c) && negb (is_terminal (al_Phase a))
                      && (WireGuardOverlayAddress a <>s "")) allocs) ∪
  list_to_set (WireGuardOverlayAddress <$>
    List.filter (λ a, (NetworkProfile a =s cfg_NetworkProfile c) && (WireGuardOverlayAddress a <>s ""))
      (snd <$> map_to_list (fl_Pending f))).

(** [for range n]: addresses for a batch. *)
Fixpoint overlay_batch (cidrs : list string) (n : nat) (taken : gset string) : result (list string) :=
  match n with
  | O => inr []
  | S n =>
      match NextOverlayAddress cidrs taken with
      | inl e => inl e
      | inr addr =>
          match overlay_batch cidrs n ({[addr]} ∪ taken) with
          | inl e => inl e
          | inr rest => inr (addr :: rest)
          end
      end
  end.

Definition new_allocation (c : Config) (cat : Catalog) (id : string) (now : time) (overlay : string)
    : Allocation :=
  {| Resources := []; RejectedAt := ∅; Completed := false; ID := id; Revision := "";
     al_Phase := Pending; Deadline := time_add now (seconds (ProvisioningSeconds c));
     Attempts := 0; MaxAttempts := 3; al_Offering := zero_offering; Outcomes := ∅;
     al_Catalog := cat; al_Requirements := cfg_Requirements c; ResourceID := ""; Ready := false;
     Retire := false; Condition := ""; RunID := 0; Owner := ""; Repo := ""; ScaleSetJobID := "";
     RetryProcessed := false; NetworkProfile := cfg_NetworkProfile c; WireGuardPublicKey := [];
     WireGuardOverlayAddress := overlay; WireGuardEndpoint := ""; WireGuardPollTokenHash := [];
     TerminalAt := zero_time |}.

(** [for i := range n]: admit the batch; [addresses] runs out first when the
    profile has none. *)
Fixpoint admit_all (c : Config) (cat : Catalog) (n : nat) (addresses : list string) (f : fleet)
    : opM fleet :=
  match n with
  | O => mret f
  | S n =>
      uuid ← call NewUUID;
      let id := "rs-" +:+ uuid in
      now ← call TimeNow;
      let f := set_Created (<[id := now]> (Created f)) f in
      let f := if 0 <? BudgetDailyMicros c then
                 set_Reserved (<[id := reservationMicros (req_MaxPriceMicros (cfg_Requirements c))
                                         (MaxLifetimeSeconds c)]> (Reserved f)) f
               else f in
      let a := new_allocation c cat id now (default "" (head addresses)) in
      admit_all c cat n (tail addresses) (set_fl_Pending (<[id := a]> (fl_Pending f)) f)
  end.

(** The closure [refuse]. *)
Definition refuse (cm : ConfigMap) (f : fleet) (active n : Z) (reason : string) : opM (Z * option error) :=
  e ← saveFleet cm (set_fl_Condition reason (set_fleet_Admitted (st_Admitted (fl_Admission f) - n) f));
  mret (active, e).

(** From the overlay addresses to the end. *)
Definition admit_batch (c : Config) (cm : ConfigMap) (f : fleet) (allocs : list Allocation)
    (active n : Z) (cat : Catalog) : opM (Z * option error) :=
  let addresses := if (0 <? n) && (cfg_NetworkProfile c <>s "")
                   then overlay_batch (NetworkOverlayCIDRs c) (Z.to_nat n) (overlay_taken c f allocs)
                   else inr [] in
  match addresses with
  | inl _ => refuse cm f active n "OverlayAddressPoolExhausted"
  | inr addresses =>
      f ← admit_all c cat (Z.to_nat n) addresses (set_fl_Condition "DemandObserved" f);
      e ← saveFleet cm f;
      mret match e with Some err => (active, Some err) | None => (active + n, None) end
  end.

(** Catalog, prices and the placement dry run. *)
Definition admit_priced (o : Operator) (cm : ConfigMap) (f : fleet) (allocs : list Allocation)
    (active n : Z) : opM (Z * option error) :=
  let c := op_Config o in
  r ← catalog c;
  match r with
  | inl _ => if 0 <? n then refuse cm f active n "CatalogUnavailable"
             else admit_batch c cm f allocs active n zero_catalog
  | inr cat =>
      cat ← refreshAWSPrices o cat;
      cat ← refreshAzurePrices o cat;
      cat ← refreshGCPPrices o cat;
      if 0 <? n then
        now ← call TimeNow;
        match Choose now (cfg_Requirements c) cat ∅ with
        | inl _ => refuse cm f active n "CatalogNotAdmissible"
        | inr _ => admit_batch c cm f allocs active n cat
        end
      else admit_batch c cm f allocs active n cat
  end.

(** After [Reconcile] granted [n]: the budget and the retention limit. *)
Definition admit_affordable (o : Operator) (cm : ConfigMap) (f : fleet) (allocs : list Allocation)
    (active n : Z) : opM (Z * option error) :=
  let c := op_Config o in
  let continue f n :=
    if (0 <? n) && (1000 <? Z.of_nat (size (Created f)) + n)
    then mret (active, Some (errors_new "retained allocation limit reached; operator maintenance required"))
    else admit_priced o cm f allocs active n in
  if (0 <? n) && (0 <? BudgetDailyMicros c) then
    now ← call TimeNow;
    let m := affordable c f allocs now in
    if m <? n then
      let f := set_fleet_Admitted (st_Admitted (fl_Admission f) - (n - m)) f in
      if m =? 0 then e ← saveFleet cm (set_fl_Condition "BudgetExhausted" f); mret (active, e)
      else continue f m
    else continue f n
  else continue f n.

Definition HandleDesiredRunnerCount (o : Operator) (count : Z) : opM (Z * option error) :=
  let c := op_Config o in
  try (λ e, mret (0, Some e)) (loadFleet c) (λ '(cm, f),
  try (λ e, mret (0, Some e)) (call StoreList) (λ allocs,
    let '(f, stored) := release f allocs in
    let active := stored + unrepresented f allocs in
    if paused o || draining o then
      e ← saveFleet cm (set_fl_Condition
        (if draining o then "ScaleSetDeleting" else "AdmissionsSuspended") f);
      mret (active, e)
    else
      let '(s, r) := Reconcile (fl_Admission f) count active (MaxRunners c) (active =? 0) in
      match r with
      | inl e => mret (active, Some e)
      | inr n => admit_affordable o cm (set_Admission s f) allocs active n
      end)).

(** ** Job events *)

Record JobStarted := { js_RunnerName : string; js_WorkflowRunID : Z; js_OwnerName : string;
                       js_RepositoryName : string; js_JobID : string }.

Definition job_started (j : JobStarted) (a : Allocation) : Allocation :=
  let a := set_Ready true a in
  if RunID a =? 0 then
    set_ScaleSetJobID (js_JobID j) (set_Repo (js_RepositoryName j) (set_Owner (js_OwnerName j)
      (set_RunID (js_WorkflowRunID j) a)))
  else a.

Definition job_completed (a : Allocation) : Allocation := set_Completed true (set_Retire true a).

(** Load, update and save one record; a missing record is no error. *)
Definition update_record (id : string) (g : Allocation → Allocation) : opM (option error) :=
  r ← call (StoreLoad id);
  match r with
  | inl e => mret (if errors_is e APINotFound then None else Some e)
  | inr a => r ← call (StoreSave (g a) (Revision a));
             mret match r with inl e => Some e | inr _ => None end
  end.

Definition HandleJobStarted (j : option JobStarted) : opM (option error) :=
  match j with
  | None => mret (Some (errors_new "nil job start"))
  | Some j => update_record (js_RunnerName j) (job_started j)
  end.

Definition HandleJobCompleted (runnerName : option string) : opM (option error) :=
  match runnerName with
  | None => mret (Some (errors_new "nil job completion"))
  | Some id => update_record id job_completed
  end.
End operator.
