(* ===== verification/Queue.v ===== *)
(** * Azure interruption events
    (internal/azureevents/azureevents.go, internal/azurequeue/azurequeue.go)

    Messages of a Storage Queue are decoded, classified and deleted; the
    operator turns the results of a poll into its interruption snapshot
    ([Operator.interruption_snapshot]).  [json.Unmarshal] into [cloudEvent] is
    the class [EventJSON]. *)
From S2P Require Import Prelude.
From S2P Require Import Effects.
From S2P Require Import Encoding.
From S2P Require Import Placement.
From S2P Require Import Fleet.
From S2P Require Import Operator.

(** ** azureevents *)

Record annotationProperties := {
  TargetResourceID : string;
  AnnotationName : string;
  Reason : string;
  ap_Context : string;
  Category : string
}.
Record resourceInfo := { ri_Type : string; ri_Properties : option annotationProperties }.
Record eventData := { ed_ResourceInfo : option resourceInfo }.
Record cloudEvent := { ce_Type : string; ce_Data : option eventData }.

Class EventJSON := { unmarshal_event : list Byte.byte → result cloudEvent }.

Definition resourceAnnotatedEventType : string :=
  "Microsoft.ResourceNotifications.HealthResources.ResourceAnnotated".
Definition resourceAnnotationResourceInfoType : string := "Microsoft.ResourceHealth/resourceAnnotations".
Definition preemptedAnnotationName : string := "VirtualMachinePreempted".

(** The segments between slashes. *)
Fixpoint segments (s : string) : list string :=
  match s with
  | "" => [""]
  | String c s' =>
      if Ascii.eqb c "/" then "" :: segments s'
      else match segments s' with
           | [] => [String c ""]
           | seg :: segs => String c seg :: segs
           end
  end.

(** [armResourceID.MatchString]: the expression is anchored at both ends and
    its classes match one or more characters other than a slash. *)
Definition arm_match (s : string) : bool :=
  match segments s with
  | [empty; subscriptions; sub; groups; group; providers; namespace; type; name] =>
      (empty =s "") && (subscriptions =s "subscriptions") && (sub <>s "") && (groups =s "resourceGroups")
      && (group <>s "") && (providers =s "providers") && (namespace <>s "") && (type <>s "") && (name <>s "")
  | _ => false
  end.

Section queue.
Context `{EventJSON}.

Definition ParsePreemptionEvent (data : list Byte.byte) : result (string * bool) :=
  match unmarshal_event data with
  | inl err => inl (Err ("azureevents: malformed CloudEvents payload: " +:+ err_text err) (err_chain err))
  | inr event =>
      if ce_Type event <>s resourceAnnotatedEventType
      then inl (errors_new "azureevents: unsupported or missing event type")
      else
        match (d ← ce_Data event; i ← ed_ResourceInfo d; p ← ri_Properties i; Some (i, p)) with
        | None => inl (errors_new "azureevents: event data incomplete")
        | Some (info, props) =>
            if ri_Type info <>s resourceAnnotationResourceInfoType
            then inl (errors_new "azureevents: unexpected resourceInfo type")
            else if AnnotationName props =s ""
            then inl (errors_new "azureevents: annotation name missing")
            else if (Reason props =s "") || (ap_Context props =s "") || (Category props =s "")
            then inl (errors_new "azureevents: annotation context incomplete")
            else if TargetResourceID props =s ""
            then inl (errors_new "azureevents: target resource id missing")
            else if negb (arm_match (TargetResourceID props))
            then inl (errors_new "azureevents: target resource id is not a valid ARM resource ID")
            else inr (TargetResourceID props, AnnotationName props =s preemptedAnnotationName)
        end
  end.

(** ** azurequeue *)

Definition defaultMaxMessages : Z := 32.

Record DequeuedMessage := {
  MessageID : option string;
  PopReceipt : option string;
  MessageText : option string
}.

Record Client := {
  hasQueue : bool;                     (* [Queue != nil] *)
  MaxMessages : Z;
  VisibilityTimeoutSeconds : Z
}.

Inductive queueE : Type → Type :=
  | DequeueMessages (max : Z) (visibility : option Z) : queueE (result (list (option DequeuedMessage)))
  | DeleteMessage (messageID popReceipt : string) : queueE (option error).

Fixpoint looksLikeJSONObject (data : list Byte.byte) : bool :=
  match data with
  | [] => false
  | b :: data' =>
      if bool_decide (b ∈ [Byte.x20; Byte.x09; Byte.x0a; Byte.x0d]) then looksLikeJSONObject data'
      else bool_decide (b = Byte.x7b)
  end.

Definition decodeMessageBody (text : string) : list Byte.byte :=
  match base64_decode text with
  | Some decoded => if looksLikeJSONObject decoded then decoded else go_bytes text
  | None => go_bytes text
  end.

Definition classify (m : option DequeuedMessage) : QueueResult :=
  match m with
  | Some {| MessageID := Some _; PopReceipt := Some _; MessageText := Some text |} =>
      match ParsePreemptionEvent (decodeMessageBody text) with
      | inl err => {| qr_ResourceID := ""; qr_Preempted := false; qr_Err := Some err |}
      | inr (resourceID, preempted) =>
          {| qr_ResourceID := resourceID; qr_Preempted := preempted; qr_Err := None |}
      end
  | _ => {| qr_ResourceID := ""; qr_Preempted := false;
            qr_Err := Some (errors_new "azurequeue: dequeued message identity incomplete") |}
  end.

(** The loop over the dequeued messages; the answer of a deletion is dropped. *)
Fixpoint classify_all (ms : list (option DequeuedMessage)) : prog queueE (list QueueResult) :=
  match ms with
  | [] => mret []
  | m :: ms' =>
      let result := classify m in
      _ ← (match m, qr_Err result with
           | Some {| MessageID := Some id; PopReceipt := Some receipt |}, None =>
               _ ← call (DeleteMessage id receipt); mret ()
           | _, _ => mret ()
           end);
      results ← classify_all ms'; mret (result :: results)
  end.

Definition Poll (c : Client) : prog queueE (result (list QueueResult)) :=
  if negb (hasQueue c) then mret (inl (errors_new "azurequeue: Client.Queue is required"))
  else
    let max := if MaxMessages c =? 0 then defaultMaxMessages else MaxMessages c in
    let visibility := if VisibilityTimeoutSeconds c =? 0 then None else Some (VisibilityTimeoutSeconds c) in
    response ← call (DequeueMessages max visibility);
    match response with
    | inl err => mret (inl err)
    | inr ms => results ← classify_all ms; mret (inr results)
    end.
End queue.

(** ** ARM resource IDs *)

Definition slashless (s : string) : Prop := segments s = [s].
Definition segment (s : string) : Prop := slashless s ∧ s ≠ "".

Lemma segments_nonempty s : segments s ≠ [].
Proof. destruct s as [|c s]; simpl; [done|]. destruct (Ascii.eqb c "/"); [done|]. by destruct (segments s). Qed.

Lemma slashless_cons c s : slashless (String c s) ↔ c ≠ "/"%char ∧ slashless s.
Proof.
  unfold slashless. simpl. destruct (Ascii.eqb_spec c "/") as [->|Hne].
  - split; [intros [= ]|by intros []].
  - pose proof (segments_nonempty s). destruct (segments s) as [|seg segs]; [done|]. naive_solver.
Qed.

Lemma segments_app s t : slashless s → segments (s +:+ String "/" t) = s :: segments t.
Proof.
  induction s as [|c s IH]; [done|]. intros [Hc Hs]%slashless_cons. simpl. rewrite IH by done.
  by destruct (Ascii.eqb_spec c "/").
Qed.

Lemma segments_cons s seg segs :
  segments s = seg :: segs →
  slashless seg ∧ ((segs = [] ∧ s = seg) ∨ ∃ t, s = seg +:+ String "/" t ∧ segments t = segs).
Proof.
  revert seg segs. induction s as [|c s IH]; intros seg segs; simpl; [intros [= <- <-]; split; [done|by left]|].
  destruct (Ascii.eqb_spec c "/") as [->|Hne].
  - intros [= <- <-]. split; [done|]. right. by exists s.
  - pose proof (segments_nonempty s). destruct (segments s) as [|seg' segs']; [done|].
    intros [= <- <-]. destruct (IH seg' segs' eq_refl) as (Hs & Hcase). split; [by apply slashless_cons|].
    destruct Hcase as [[-> ->]|(t & -> & Ht)]; [by left|]. right. by exists t.
Qed.

Lemma segments_single s seg : segments s = [seg] → s = seg.
Proof. intros (_ & [[_ ->]|(t & _ & Ht)])%segments_cons; [done|]. by apply segments_nonempty in Ht. Qed.

(** The expression matches exactly the IDs
    /subscriptions/S/resourceGroups/G/providers/N/T/V. *)
Lemma arm_match_spec s :
  arm_match s = true ↔ ∃ sub group namespace type name,
    segment sub ∧ segment group ∧ segment namespace ∧ segment type ∧ segment name ∧
    s = "/subscriptions/" +:+ sub +:+ "/resourceGroups/" +:+ group +:+ "/providers/" +:+ namespace
          +:+ "/" +:+ type +:+ "/" +:+ name.
Proof.
  split.
  - unfold arm_match. intros Hm.
    destruct (segments s) as [|s0 [|s1 [|s2 [|s3 [|s4 [|s5 [|s6 [|s7 [|s8 [|]]]]]]]]]] eqn:Hs; try done.
    reflect in Hm. destruct Hm as [[[[[[[[-> ->] Hm2] ->] Hm4] ->] Hm6] Hm7] Hm8].
    repeat match type of Hs with
    | segments _ = _ :: _ :: _ =>
        let H := fresh "Hseg" in let t := fresh "t" in
        apply segments_cons in Hs as (H & [[Hs _]|(t & -> & Hs)]); [done|]
    end.
    pose proof (segments_single _ _ Hs) as ->. change (slashless s8) in Hs. exists s2, s4, s6, s7, s8. by split_and!.
  - intros (sub & group & ns & type & name & [Ha ?] & [Hb ?] & [Hc ?] & [Hd ?] & [He ?] & ->).
    assert (segments ("/subscriptions/" +:+ sub +:+ "/resourceGroups/" +:+ group +:+ "/providers/" +:+ ns
      +:+ "/" +:+ type +:+ "/" +:+ name) =
      ["" ; "subscriptions"; sub; "resourceGroups"; group; "providers"; ns; type; name]) as Hs.
    { etrans; [apply (segments_app "" ("subscriptions/" +:+ _)); done|]. f_equal.
      etrans; [apply (segments_app "subscriptions"); done|]. f_equal.
      etrans; [apply (segments_app sub ("resourceGroups/" +:+ _)); done|]. f_equal.
      etrans; [apply (segments_app "resourceGroups"); done|]. f_equal.
      etrans; [apply (segments_app group ("providers/" +:+ _)); done|]. f_equal.
      etrans; [apply (segments_app "providers"); done|]. f_equal.
      etrans; [by apply (segments_app ns)|]. f_equal. etrans; [by apply (segments_app type)|]. by f_equal. }
    unfold arm_match. rewrite Hs. reflect. naive_solver.
Qed.

(** ** Message bodies *)

Lemma base64_bytes_text l bs : base64_bytes l = Some bs → Forall (.∈ base64_text_chars) l.
Proof.
  assert (∀ c v, base64_value c = Some v → c ∈ base64_text_chars) as Hv.
  { unfold base64_value. intros c v. destruct (char_index base64_alphabet c) eqn:Hc; [|done].
    intros _. right. by eapply char_index_in. }
  assert ("="%char ∈ base64_text_chars) as Hpad by left.
  revert bs. cut (∀ n l bs, (length l < n)%nat → base64_bytes l = Some bs → Forall (.∈ base64_text_chars) l).
  { intros Hall bs Hb. apply (Hall (S (length l)) l bs); [lia|done]. }
  induction n as [|n IH]; [intros; lia|]. clear l.
  intros [|c0 [|c1 [|c2 [|c3 l]]]] bs Hlen Hb; cbn [base64_bytes] in Hb; try done.
  destruct (base64_value c0) eqn:H0; [|done]. destruct (base64_value c1) eqn:H1; [|done].
  destruct (base64_value c2) eqn:H2; [destruct (base64_value c3) eqn:H3|].
  - destruct (base64_bytes l) as [rest|] eqn:Hl; [|done]. simpl in Hlen.
    repeat (constructor; [by eapply Hv|]). apply (IH l rest); [lia|done].
  - destruct (Ascii.eqb_spec c3 "=") as [->|]; [|done]. destruct l; [|done].
    repeat (constructor; [first [by eapply Hv|exact Hpad]|]). constructor.
  - destruct (Ascii.eqb_spec c2 "=") as [->|]; [|done]. destruct (Ascii.eqb_spec c3 "=") as [->|]; [|done].
    destruct l; [|done]. repeat (constructor; [first [by eapply Hv|exact Hpad]|]). constructor.
Qed.

Lemma json_object_brace data : looksLikeJSONObject data = true → Byte.x7b ∈ data.
Proof.
  induction data as [|b data IH]; simpl; [done|]. case_bool_decide; [intros; right; auto|].
  intros ->%bool_decide_eq_true_1. left.
Qed.

Lemma go_string_ascii l : String.list_ascii_of_string (go_string l) = Ascii.ascii_of_byte <$> l.
Proof. induction l as [|b l IH]; [done|]. simpl. by f_equal. Qed.

Lemma json_not_base64 data : looksLikeJSONObject data = true → base64_decode (go_string data) = None.
Proof.
  intros Hj%json_object_brace. destruct (base64_decode (go_string data)) as [bs|] eqn:Hd; [|done].
  unfold base64_decode in Hd. rewrite go_string_ascii in Hd. apply base64_bytes_text in Hd.
  rewrite Forall_forall in Hd. specialize (Hd "{"%char).
  assert ("{"%char ∈ base64_text_chars) as Hin.
  { apply Hd, list_filter_In. split; [|reflexivity]. apply list_elem_of_fmap. by exists Byte.x7b. }
  by apply (bool_decide_eq_true_2 _) in Hin.
Qed.

(** A JSON object is recovered from a message whether it was delivered
    base64-encoded or as it is. *)
Theorem message_body_recovered payload :
  looksLikeJSONObject payload = true →
  decodeMessageBody (base64_encode payload) = payload ∧ decodeMessageBody (go_string payload) = payload.
Proof.
  intros Hj. unfold decodeMessageBody. rewrite base64_decode_encode, Hj, json_not_base64 by done.
  split; [done|]. apply go_bytes_string.
Qed.

(** ** Classification *)

Section properties.
Context `{EventJSON}.

(** The payload is a complete annotation of the ARM resource [rid]. *)
Definition annotates (data : list Byte.byte) (rid name : string) : Prop :=
  ∃ ev info d p, unmarshal_event data = inr ev ∧ ce_Type ev = resourceAnnotatedEventType ∧
    ce_Data ev = Some d ∧ ed_ResourceInfo d = Some info ∧ ri_Properties info = Some p ∧
    ri_Type info = resourceAnnotationResourceInfoType ∧ AnnotationName p = name ∧ name ≠ "" ∧
    Reason p ≠ "" ∧ ap_Context p ≠ "" ∧ Category p ≠ "" ∧ TargetResourceID p = rid ∧ arm_match rid = true.

Lemma parse_spec data rid preempted :
  ParsePreemptionEvent data = inr (rid, preempted) ↔
  ∃ name, annotates data rid name ∧ preempted = (name =s preemptedAnnotationName).
Proof.
  unfold ParsePreemptionEvent, annotates. split.
  - intros Hp. destruct (unmarshal_event data) as [|ev] eqn:Hu; [done|].
    destruct (String.eqb_spec (ce_Type ev) resourceAnnotatedEventType); [|done].
    destruct (ce_Data ev) as [d|] eqn:Hd; [|done]. cbn [mbind option_bind negb] in Hp.
    destruct (ed_ResourceInfo d) as [info|] eqn:Hi; [|done]. cbn [mbind option_bind] in Hp.
    destruct (ri_Properties info) as [p|] eqn:Hpr; [|done]. cbn [mbind option_bind] in Hp.
    destruct (String.eqb_spec (ri_Type info) resourceAnnotationResourceInfoType); [|done].
    destruct (String.eqb_spec (AnnotationName p) ""); [done|].
    destruct ((Reason p =s "") || _ || _) eqn:Hc; [done|]. reflect in Hc. destruct Hc as [[? ?] ?].
    destruct (String.eqb_spec (TargetResourceID p) ""); [done|].
    destruct (arm_match (TargetResourceID p)) eqn:Hm; [|done]. cbn [negb] in Hp. injection Hp as <- <-.
    exists (AnnotationName p). split; [|done]. exists ev, info, d, p. by split_and!.
  - intros (name & (ev & info & d & p & -> & -> & -> & Hi & Hpr & Ht & Hn & Hne & H1 & H2 & H3 & Hr & Hm) & ->).
    rewrite String.eqb_refl. cbn [negb mbind option_bind]. rewrite Hi. cbn [mbind option_bind].
    rewrite Hpr. cbn [mbind option_bind]. rewrite Ht, String.eqb_refl. cbn [negb].
    apply String.eqb_neq in H1, H2, H3, Hne as Hne'. rewrite Hn, Hne', H1, H2, H3. cbn [orb].
    rewrite Hr, Hm. destruct (String.eqb_spec rid "") as [->|]; [done|]. done.
Qed.

(** The message has its identity and its body annotates [rid]. *)
Definition message_annotates (m : option DequeuedMessage) (rid name : string) : Prop :=
  ∃ id receipt text, m = Some {| MessageID := Some id; PopReceipt := Some receipt; MessageText := Some text |} ∧
    annotates (decodeMessageBody text) rid name.

Lemma classify_spec m rid preempted :
  classify m = {| qr_ResourceID := rid; qr_Preempted := preempted; qr_Err := None |} ↔
  ∃ name, message_annotates m rid name ∧ preempted = (name =s preemptedAnnotationName).
Proof.
  unfold message_annotates. split.
  - unfold classify. destruct m as [[[id|] [receipt|] [text|]]|]; try done.
    destruct (ParsePreemptionEvent _) as [|[rid' pre]] eqn:Hp; [done|]. intros [= -> ->].
    apply parse_spec in Hp as (name & Ha & ->). exists name. split; [|done]. by exists id, receipt, text.
  - intros (name & (id & receipt & text & -> & Ha) & ->). simpl.
    assert (ParsePreemptionEvent (decodeMessageBody text) = inr (rid, name =s preemptedAnnotationName)) as ->
      by (apply parse_spec; eauto). done.
Qed.

Lemma annotates_nonempty data rid name : annotates data rid name → rid ≠ "".
Proof. intros (ev & info & d & p & H'). intros ->. destruct_and! H'. done. Qed.

(** What a fold of the snapshot's loop adds to a map. *)
Lemma snapshot_fold rs m rid :
  map_get false (foldl (λ m r,
    if isSome (qr_Err r) || (qr_ResourceID r =s "") then m
    else <[qr_ResourceID r := map_get false m (qr_ResourceID r) || qr_Preempted r]> m) m rs) rid = true ↔
  map_get false m rid = true ∨
  ∃ r, r ∈ rs ∧ qr_Err r = None ∧ qr_ResourceID r ≠ "" ∧ qr_ResourceID r = rid ∧ qr_Preempted r = true.
Proof.
  revert m. induction rs as [|r rs IH]; intros m; simpl; [set_solver|]. rewrite IH. clear IH.
  setoid_rewrite elem_of_cons.
  destruct (isSome (qr_Err r) || (qr_ResourceID r =s "")) eqn:Hc.
  - assert (qr_Err r ≠ None ∨ qr_ResourceID r = "") as Hskip.
    { reflect in Hc. destruct Hc as [Hc|Hc]; [left; by destruct (qr_Err r)|by right]. }
    naive_solver.
  - reflect in Hc. destruct Hc as [He Hr]. unfold map_get.
    destruct (decide (qr_ResourceID r = rid)) as [<-|Hne].
    + rewrite lookup_insert_eq. simpl. rewrite orb_true_iff. naive_solver.
    + rewrite lookup_insert_ne by done. naive_solver.
Qed.

(** The snapshot of a poll reports a resource preempted exactly when one of
    its messages carries a complete, well-formed preemption annotation of that
    ARM resource; nothing malformed or ambiguous counts. *)
Theorem preemption_confirmed ms rid :
  interruption_snapshot (classify <$> ms) !! rid = Some true ↔
  ∃ m, m ∈ ms ∧ message_annotates m rid preemptedAnnotationName.
Proof.
  assert (interruption_snapshot (classify <$> ms) !! rid = Some true ↔
          map_get false (interruption_snapshot (classify <$> ms)) rid = true) as ->.
  { unfold map_get. destruct (_ !! rid) as [[]|]; naive_solver. }
  unfold interruption_snapshot. rewrite snapshot_fold. setoid_rewrite list_elem_of_fmap. split.
  - intros [Hm|(r & (m & -> & Hm) & He & Hne & Hr & Hp)]; [done|]. exists m. split; [done|].
    destruct (proj1 (classify_spec m rid true)) as (name & Ha & Hname).
    { destruct (classify m) as [rid' pre err]. simpl in *. by subst. }
    symmetry in Hname. apply String.eqb_eq in Hname as ->. done.
  - intros (m & Hm & Ha). right. exists (classify m). split; [by exists m|].
    rewrite (proj2 (classify_spec m rid true)) by (by exists preemptedAnnotationName). simpl.
    split_and!; try done. destruct Ha as (? & ? & ? & _ & Ha). by eapply annotates_nonempty.
Qed.

(** ** Polling *)

Definition deletion (v : event queueE) : option (string * string) :=
  match projT2 v with
  | (e, x) => match e in queueE X with DeleteMessage id receipt => Some (id, receipt) | _ => None end
  end.

(** The identity of a message classified without error. *)
Definition deletable (m : option DequeuedMessage) : option (string * string) :=
  match m, qr_Err (classify m) with
  | Some {| MessageID := Some id; PopReceipt := Some receipt |}, None => Some (id, receipt)
  | _, _ => None
  end.

Lemma wp_classify_all ms Q h :
  (∀ h', omap deletion h' = omap deletable ms → Forall (λ v, is_Some (deletion v)) h' →
     Q (h ++ h') (classify <$> ms)) →
  wp no_contract Q h (classify_all ms).
Proof.
  revert Q h. induction ms as [|m ms IH]; intros Q h HQ; cbn [classify_all].
  - apply wp_ret. rewrite <- (app_nil_r h). by apply HQ.
  - cbv zeta. apply wp_bind.
    assert (∀ h0, omap deletion h0 = option_list (deletable m) → Forall (λ v, is_Some (deletion v)) h0 →
      wp no_contract Q (h ++ h0) (results ← classify_all ms; mret (classify m :: results))) as Hrest.
    { intros h0 Hd Hf. apply wp_bind, IH. intros h' Hd' Hf'. apply wp_ret. rewrite <- app_assoc.
      apply (HQ (h0 ++ h')); [|by apply Forall_app]. rewrite omap_app, Hd, Hd'. simpl.
      by destruct (deletable m). }
    assert (deletable m = None → wp no_contract Q h (results ← classify_all ms; mret (classify m :: results))) as Hskip.
    { intros Hn. rewrite <- (app_nil_r h). apply Hrest; [by rewrite Hn|constructor]. }
    unfold deletable in *.
    destruct m as [[[id|] [receipt|] text]|]; try by apply wp_ret, Hskip.
    destruct (qr_Err (classify _)) eqn:He; [by apply wp_ret, Hskip|].
    apply wp_call_bind. intros x _. apply wp_ret, Hrest; [done|]. constructor; [by eexists|constructor].
Qed.

(** A poll reports every dequeued message and deletes exactly those it
    classified; a message it could not classify stays in the queue.  When the
    request itself fails nothing is reported and nothing deleted. *)
Theorem poll_deletes_classified c :
  ensures no_contract (Poll c) (λ h r,
    match r with
    | inl _ => omap deletion h = []
    | inr results => ∃ max visibility ms h',
        h = ev (DequeueMessages max visibility) (inr ms) :: h' ∧ max ≠ 0 ∧
        results = classify <$> ms ∧ omap deletion h = omap deletable ms
    end).
Proof.
  apply wp_ensures. unfold Poll. destruct (hasQueue c); cbn [negb]; [|by apply wp_ret].
  cbv zeta. apply wp_call_bind. intros [err|ms] _; [by apply wp_ret|].
  apply wp_bind, wp_classify_all. intros h' Hd _. apply wp_ret.
  eexists _, _, ms, h'. split; [done|]. split; [|by split].
  destruct (Z.eqb_spec (MaxMessages c) 0); unfold defaultMaxMessages; lia.
Qed.
End properties.

(** ** A queue with a preemption, another annotation and a malformed message *)

Module QueueExample.
Definition vm : string := "/subscriptions/s/resourceGroups/g/providers/Microsoft.Compute/virtualMachines/rs-a".

Definition event_of (name : string) : cloudEvent :=
  {| ce_Type := resourceAnnotatedEventType;
     ce_Data := Some {| ed_ResourceInfo := Some {| ri_Type := resourceAnnotationResourceInfoType;
       ri_Properties := Some {| TargetResourceID := vm; AnnotationName := name; Reason := "Preempted";
         ap_Context := "Platform Initiated"; Category := "Unplanned" |} |} |} |}.

#[export] Instance json : EventJSON :=
  {| unmarshal_event := λ data,
       if go_string data =s "{preempted}" then inr (event_of preemptedAnnotationName)
       else if go_string data =s "{live}" then inr (event_of "VirtualMachineLive")
       else inl (errors_new "invalid character") |}.

Definition message (id text : string) : option DequeuedMessage :=
  Some {| MessageID := Some id; PopReceipt := Some ("receipt-" +:+ id); MessageText := Some text |}.

Definition messages : list (option DequeuedMessage) :=
  [message "1" (base64_encode (go_bytes "{preempted}")); message "2" "{live}"; message "3" "{"; None].

Definition queue (X : Type) (e : queueE X) (n : nat) : nat * X :=
  match e in queueE X return nat * X with
  | DequeueMessages _ _ => (n, inr messages)
  | DeleteMessage _ _ => (S n, None)
  end.

Definition client : Client := {| hasQueue := true; MaxMessages := 0; VisibilityTimeoutSeconds := 0 |}.
End QueueExample.

Section witnesses.
Import QueueExample.

Lemma message_body_recovered_witness :
  decodeMessageBody (base64_encode (go_bytes "{preempted}")) = go_bytes "{preempted}" ∧
  decodeMessageBody "{preempted}" = go_bytes "{preempted}".
Proof. exact (message_body_recovered (go_bytes "{preempted}") eq_refl). Defined.

Lemma preemption_confirmed_witness :
  message_annotates (message "1" (base64_encode (go_bytes "{preempted}"))) vm preemptedAnnotationName ∧
  interruption_snapshot (classify <$> messages) !! vm = Some true.
Proof.
  assert (message_annotates (message "1" (base64_encode (go_bytes "{preempted}"))) vm preemptedAnnotationName) as Hm.
  { eexists _, _, _. split; [reflexivity|]. eexists _, _, _, _. repeat (split; [vm_compute; try reflexivity; discriminate|]).
    vm_compute. reflexivity. }
  split; [exact Hm|]. apply preemption_confirmed. exists (message "1" (base64_encode (go_bytes "{preempted}"))).
  split; [left|exact Hm].
Defined.

Lemma poll_deletes_classified_witness :
  omap deletion (run_history queue (Poll client) 0%nat) = [("1", "receipt-1"); ("2", "receipt-2")] ∧
  ∃ max visibility ms h', run_history queue (Poll client) 0%nat
    = ev (DequeueMessages max visibility) (inr ms) :: h' ∧ max ≠ 0.
Proof.
  split; [vm_compute; reflexivity|].
  pose proof (poll_deletes_classified client _ _ (run_trace queue (Poll client) 0%nat)
    ltac:(by apply Forall_true)) as Hp.
  destruct (snd (run queue (Poll client) 0%nat)) as [e|results] eqn:Hr; [vm_compute in Hr; discriminate|].
  destruct Hp as (max & visibility & ms & h' & Hh & Hmax & _). exists max, visibility, ms, h'. exact (conj Hh Hmax).
Defined.
End witnesses.
