(* ===== verification/Tick.v ===== *)
(** * Reconciliation, bounded reruns, pruning and draining
    (internal/operator/operator.go [Tick], [pruneTerminalAllocations];
     retry.go; control.go) *)
From S2P Require Import Prelude.
From S2P Require Import Effects.
From S2P Require Import Placement.
From S2P Require Import Admission.
From S2P Require Import Recovery.
From S2P Require Import Resources.
From S2P Require Import Allocation.
From S2P Require Import State.
From S2P Require Import Provider.
From S2P Require Import Fleet.
From S2P Require Import Operator.

(** ** Modes (control.go) *)

Definition PauseAdmissions (p : bool) (o : Operator) : Operator :=
  {| op_Config := op_Config o; hasAWSPrices := hasAWSPrices o; hasAzurePrices := hasAzurePrices o;
     hasGCPPrices := hasGCPPrices o; hasInterruptions := hasInterruptions o;
     hasGitHubJobs := hasGitHubJobs o; hasRunners := hasRunners o; paused := p; draining := draining o |}.

Definition Drain (o : Operator) : Operator :=
  {| op_Config := op_Config o; hasAWSPrices := hasAWSPrices o; hasAzurePrices := hasAzurePrices o;
     hasGCPPrices := hasGCPPrices o; hasInterruptions := hasInterruptions o;
     hasGitHubJobs := hasGitHubJobs o; hasRunners := hasRunners o; paused := true; draining := true |}.

(** ** Reruns (retry.go) *)

Definition rerunReconciliationPolls : Z := 3.

Inductive rerunOutcome := rerunStillAmbiguous | rerunConfirmedHappened | rerunConfirmedDidNotHappen.

Definition failed_job (id : Z) (j : RESTJob) : bool :=
  (job_ID j =? id) && (job_Status j =s "completed") && (job_Conclusion j =s "failure").

Definition set_NotFoundPolls (n : Z) (pr : pendingRerun) : pendingRerun :=
  {| pr_Attempt := pr_Attempt pr; pr_JobID := pr_JobID pr; pr_NotFoundPolls := n |}.

Definition reconcilePendingRerun (owner repo : string) (runID : Z) (pr : pendingRerun)
    : opM (rerunOutcome * pendingRerun) :=
  next ← call (AttemptJobs owner repo runID (pr_Attempt pr + 1));
  let ambiguous := mret (rerunStillAmbiguous, pr) in
  match next with
  | inr (_ :: _) => mret (rerunConfirmedHappened, pr)
  | inr [] => ambiguous
  | inl nextErr =>
      if negb (errors_is nextErr ErrAttemptNotFound) then ambiguous
      else
        original ← call (AttemptJobs owner repo runID (pr_Attempt pr));
        match original with
        | inl _ => ambiguous
        | inr jobs =>
            if existsb (failed_job (pr_JobID pr)) jobs then
              let pr := set_NotFoundPolls (pr_NotFoundPolls pr + 1) pr in
              if rerunReconciliationPolls <=? pr_NotFoundPolls pr
              then mret (rerunConfirmedDidNotHappen, pr)
              else mret (rerunStillAmbiguous, pr)
            else mret (rerunStillAmbiguous, set_NotFoundPolls 0 pr)
        end
  end.

(** Save a record; a conflict is not a failure. *)
Definition save_tolerant (a : Allocation) : opM (list error) :=
  r ← call (StoreSave a (Revision a));
  mret match r with
       | inl e => if errors_is e ErrConflict then [] else [e]
       | inr _ => []
       end.

(** Request a rerun when the evidence admits one. *)
Definition request_rerun (c : Config) (a : Allocation) (f : fleet) : opM fleet :=
  let retriesUsed := default 0 (RetriesUsedByRun f !! RunID a) in
  let attempt := retriesUsed + 1 in
  let stillPending := isSome (PendingReruns f !! RunID a) in
  jobs ← call (AttemptJobs (Owner a) (Repo a) (RunID a) attempt);
  match jobs with
  | inl _ => mret f
  | inr jobs =>
      let evidence := {| ev_ScaleSetJobID := ScaleSetJobID a; ev_RunnerName := ID a; ev_RunID := RunID a;
                         ev_Attempt := attempt; ev_ProviderInterrupted := true; ev_Jobs := jobs;
                         ev_RetriesUsed := retriesUsed; ev_RequestPending := stillPending |} in
      match Eligible (Retry c) evidence with
      | inl _ => mret f
      | inr j =>
          rerunErr ← call (RerunFailedJobs (Owner a) (Repo a) (RunID a));
          mret match rerunErr with
               | None => set_RetriesUsedByRun (<[RunID a := attempt]> (RetriesUsedByRun f)) f
               | Some e =>
                   if errors_is e ErrRerunRejected then f
                   else set_PendingReruns (<[RunID a := {| pr_Attempt := attempt; pr_JobID := job_ID j;
                                                           pr_NotFoundPolls := 0 |}]> (PendingReruns f)) f
               end
      end
  end.

(** From the evaluation of one interruption to its save. *)
Definition evaluate_interruption (c : Config) (a : Allocation) (f : fleet) : opM (fleet * list error) :=
  f ← request_rerun c a f;
  let a := if isSome (PendingReruns f !! RunID a) then a else set_RetryProcessed true a in
  es ← save_tolerant a;
  mret (f, es).

(** The body of the loop over the interrupted allocations. *)
Definition retry_one (c : Config) (a : Allocation) (f : fleet) : opM (fleet * list error) :=
  match PendingReruns f !! RunID a with
  | None => evaluate_interruption c a f
  | Some pr =>
      '(outcome, resolved) ← reconcilePendingRerun (Owner a) (Repo a) (RunID a) pr;
      match outcome with
      | rerunConfirmedHappened =>
          let f := set_RetriesUsedByRun (<[RunID a := pr_Attempt resolved]> (RetriesUsedByRun f)) f in
          let f := set_PendingReruns (delete (RunID a) (PendingReruns f)) f in
          es ← save_tolerant (set_RetryProcessed true a);
          mret (f, es)
      | rerunConfirmedDidNotHappen =>
          evaluate_interruption c a (set_PendingReruns (delete (RunID a) (PendingReruns f)) f)
      | rerunStillAmbiguous =>
          evaluate_interruption c a (set_PendingReruns (<[RunID a := resolved]> (PendingReruns f)) f)
      end
  end.

Fixpoint retry_all (c : Config) (l : list Allocation) (f : fleet) : opM (fleet * list error) :=
  match l with
  | [] => mret (f, [])
  | a :: l' =>
      '(f, es) ← retry_one c a f;
      '(f, es') ← retry_all c l' f;
      mret (f, es ++ es')
  end.

Definition interrupted_unprocessed (a : Allocation) : bool :=
  phase_eqb (al_Phase a) Deleted && (Condition a =s "ResourceAbsentConfirmedInterruption")
  && negb (RetryProcessed a) && negb (RunID a =? 0).

Section tick.
Context `{FleetCodec}.

Definition processInterruptionRetries (o : Operator) : opM (option error) :=
  let c := op_Config o in
  if negb (hasGitHubJobs o) || negb (Enabled (Retry c)) then mret None
  else
    try (λ e, mret (Some e)) (call StoreList) (λ allocs,
      let pending := List.filter interrupted_unprocessed allocs in
      if (length pending =? 0)%nat then mret None
      else
        try (λ e, mret (Some e)) (loadFleet c) (λ '(cm, f),
          '(f, failures) ← retry_all c pending f;
          e ← saveFleet cm f;
          mret (errors_join (failures ++ option_list e)))).

(** ** Pruning *)

Definition terminalRetention : duration := 24 * Hour.

(** The guards of a candidate, after the clock was read at [now]. *)
Definition prunable (f : fleet) (a : Allocation) : bool :=
  phase_eqb (al_Phase a) TimedOut ||
  (phase_eqb (al_Phase a) Deleted && map_get false (Released f) (ID a)).

Fixpoint prune_candidates (allocs : list Allocation) (f : fleet) (toDelete : list string)
    : opM (fleet * list string * list error) :=
  match allocs with
  | [] => mret (f, toDelete, [])
  | a :: allocs' =>
      young ← (if is_zero (TerminalAt a) then mret true
               else now ← call TimeNow; mret (time_sub now (TerminalAt a) <? terminalRetention));
      if (young : bool) || negb (prunable f a) then prune_candidates allocs' f toDelete
      else
        e ← call (Deregister (ID a));
        match e with
        | Some err =>
            '(f, ids, es) ← prune_candidates allocs' f toDelete;
            mret (f, ids, err :: es)
        | None =>
            prune_candidates allocs' (set_Pruned (<[ID a := true]> (Pruned f)) f) (toDelete ++ [ID a])
        end
  end.

Fixpoint delete_all (ids : list string) : opM (list error) :=
  match ids with
  | [] => mret []
  | id :: ids' =>
      e ← call (StoreDelete id);
      es ← delete_all ids';
      mret (option_list e ++ es)
  end.

Definition pruneTerminalAllocations (o : Operator) (allocs : list Allocation) : opM (option error) :=
  if negb (hasRunners o) then mret None
  else
    try (λ e, mret (Some e)) (loadFleet (op_Config o)) (λ '(cm, f),
      '(f, toDelete, failures) ← prune_candidates allocs f [];
      saved ← (if (length toDelete =? 0)%nat then mret None else saveFleet cm f);
      match saved with
      | Some err => mret (errors_join (failures ++ [err]))
      | None => es ← delete_all toDelete; mret (errors_join (failures ++ es))
      end).

(** ** Tick *)

(** Move the pending admissions into the store, in the order of the range. *)
Fixpoint materialize (o : Operator) (keys : list string) (f : fleet) : opM (result fleet) :=
  match keys with
  | [] => mret (inr f)
  | id :: keys' =>
      match fl_Pending f !! id with
      | None => materialize o keys' f
      | Some a =>
          r ← call (StoreSave (if draining o then set_Retire true a else a) "");
          let next := materialize o keys' (set_fl_Pending (delete id (fl_Pending f)) f) in
          match r with
          | inl e => if errors_is e ErrConflict then next else mret (inl e)
          | inr _ => next
          end
      end
  end.

Definition cooldown : duration := 5 * Minute.

(** Later ends win. *)
Definition extend_cooldowns (cooldowns : gmap string time) (ends : gmap string time) : gmap string time :=
  map_fold (λ pool until m,
    if after until (map_get zero_time m pool) then <[pool := until]> m else m) cooldowns ends.

Definition cooldown_ends (a : Allocation) : gmap string time :=
  (λ at_, time_add at_ cooldown) <$> RejectedAt a.

(** One turn of the loop over the records: a failure, or the outcome of the
    step that was started. *)
Definition tick_one (o : Operator) (f : fleet) (cooldowns : gmap string time)
    (interrupted : gmap string bool) (a : Allocation)
    : opM (error + option error * gmap string time) :=
  match Created f !! ID a with
  | None => mret (inl (errors_new "allocation has no durable lifetime origin"))
  | Some created =>
      retire ← (if Retire a then mret false
                else if draining o then mret true
                else now ← call TimeNow;
                     mret (negb (before now (time_add created (seconds (MaxLifetimeSeconds (op_Config o)))))));
      saved ← (if retire : bool
               then r ← call (StoreSave (set_Retire true a) (Revision a));
                    mret match r with inl e => Some e | inr _ => None end
               else mret None);
      match saved with
      | Some e => mret (inl e)
      | None =>
          stepErr ← call (ControllerStep cooldowns interrupted (ID a));
          updated ← call (StoreLoad (ID a));
          mret (inr (stepErr, match updated with inr u => cooldown_ends u | inl _ => ∅ end))
      end
  end.

Fixpoint tick_all (o : Operator) (f : fleet) (cooldowns : gmap string time)
    (interrupted : gmap string bool) (allocs : list Allocation)
    : opM (list error * list (option error * gmap string time)) :=
  match allocs with
  | [] => mret ([], [])
  | a :: allocs' =>
      r ← tick_one o f cooldowns interrupted a;
      '(failures, results) ← tick_all o f cooldowns interrupted allocs';
      mret match r with
           | inl e => (e :: failures, results)
           | inr out => (failures, out :: results)
           end
  end.

(** The joined failures, and the cooldowns left on the controller unless the
    tick stopped before it reset them. *)
Definition Tick (o : Operator) : opM (option error * option (gmap string time)) :=
  let c := op_Config o in
  let stop (e : error) : opM (option error * option (gmap string time)) := mret (Some e, None) in
  try stop (loadFleet c) (λ '(cm, f),
    keys ← call (RangeKeys (fst <$> map_to_list (fl_Pending f)));
    try stop (materialize o keys f) (λ f,
      e ← saveFleet cm f;
      match e with
      | Some err => stop err
      | None =>
          try stop (call StoreList) (λ allocs,
            let cooldowns := foldl (λ m a, extend_cooldowns m (cooldown_ends a)) ∅ allocs in
            interrupted ← pollAzureInterruptions o;
            '(failures, results) ← tick_all o f cooldowns interrupted allocs;
            let cooldowns := foldl (λ m r, extend_cooldowns m (snd r)) cooldowns results in
            retried ← processInterruptionRetries o;
            pruned ← pruneTerminalAllocations o allocs;
            mret (errors_join (failures ++ (results ≫= option_list ∘ fst)
                               ++ option_list retried ++ option_list pruned), Some cooldowns))
      end)).

(** ** Drained (control.go) *)

Fixpoint recorded_terminal (f : fleet) (allocs : list Allocation) : result bool :=
  match allocs with
  | [] => inr true
  | a :: allocs' =>
      if isNone (Created f !! ID a) then inl (errors_new "allocation has no durable lifetime origin")
      else if negb (is_terminal (al_Phase a)) then inr false
      else recorded_terminal f allocs'
  end.

Definition Drained (o : Operator) : opM (result bool) :=
  try (λ e, mret (inl e)) (readFleet (op_Config o) false) (λ '(_, f),
    if negb (size (fl_Pending f) =? 0)%nat then mret (inr false)
    else
      try (λ e, mret (inl e)) (call StoreList) (λ allocs,
        mret match recorded_terminal f allocs with
             | inr true => inr (forallb (λ id, slices_contains (ID <$> allocs) id || map_get false (Pruned f) id)
                                  (fst <$> map_to_list (Created f)))
             | r => r
             end)).
End tick.
