(* ===== verification/FleetProps.v ===== *)
(** * Budget and binding of a fleet *)
From S2P Require Import Prelude.
From S2P Require Import Effects.
From S2P Require Import Placement.
From S2P Require Import Admission.
From S2P Require Import Recovery.
From S2P Require Import Resources.
From S2P Require Import Allocation.
From S2P Require Import State.
From S2P Require Import Overlay.
From S2P Require Import Provider.
From S2P Require Import Fleet.
From S2P Require Import Operator.

(** ** Reservations *)

Definition maxLifetime : Z := 21600.
Definition maxReservation : Z := 600000000000.

Lemma reservation_spec p s :
  0 ≤ p ≤ maxPriceMicrosCeiling → 0 ≤ s ≤ maxLifetime →
  let r := reservationMicros p s in
  3600 * (r - 1) < p * s ≤ 3600 * r ∧ 0 ≤ r ≤ maxReservation.
Proof.
  unfold maxPriceMicrosCeiling, maxLifetime, maxReservation, reservationMicros. intros Hp Hs.
  assert (0 ≤ p * s ≤ 100000000000 * 21600) by nia.
  rewrite (wrap64_id (p * s)) by (unfold in_int64, min_int64, max_int64; lia).
  rewrite wrap64_id by (unfold in_int64, min_int64, max_int64; lia).
  rewrite Z.quot_div_nonneg by lia.
  pose proof (Z.div_mod (p * s + 3599) 3600 ltac:(lia)).
  pose proof (Z.mod_pos_bound (p * s + 3599) 3600 ltac:(lia)). lia.
Qed.

(** A reservation is the exact ceiling of price times lifetime.  Within the
    bounds that validation allows (a price of at most 100,000 USD per hour, a
    lifetime of at most six hours) int64 arithmetic does not overflow and the
    reservation is the least number of micros that covers the worst case. *)
Theorem reservation_ceiling p s :
  0 ≤ p ≤ maxPriceMicrosCeiling → 0 ≤ s ≤ maxLifetime →
  let r := reservationMicros p s in
  3600 * (r - 1) < p * s ≤ 3600 * r ∧ 0 ≤ r ≤ maxReservation.
Proof. apply reservation_spec. Qed.

Lemma reservation_ceiling_witness : reservationMicros 100000000000 21600 = 600000000000 ∧
  100000000000 * 21600 ≤ 3600 * reservationMicros 100000000000 21600.
Proof.
  split; [vm_compute; reflexivity|].
  apply (reservation_ceiling 100000000000 21600); vm_compute; split; discriminate.
Defined.

(** ** Spend of the day *)

(** The reservations counted today, as an unbounded sum. *)
Definition spent (f : fleet) (allocs : list Allocation) (now : time) : Z :=
  let phase := phase_by_id allocs in
  foldr (λ '(id, reserved) total, if counts_today f phase now id then total + reserved else total) 0
    (map_to_list (Reserved f)).

(** A fleet as admission builds it: few allocations, each with a validated
    reservation. *)
Definition reserved_ok (f : fleet) : Prop :=
  (size (Reserved f) ≤ 1000)%nat ∧
  ∀ id r, Reserved f !! id = Some r → 0 ≤ r ≤ maxReservation.

Lemma spent_exact f allocs now :
  reserved_ok f → spentToday f allocs now = spent f allocs now ∧
  0 ≤ spent f allocs now ≤ 1000 * maxReservation.
Proof.
  intros [Hsize Hr]. unfold spentToday, spent. rewrite map_fold_foldr.
  assert (length (map_to_list (Reserved f)) ≤ 1000)%nat as Hlen by (by rewrite length_map_to_list).
  assert (∀ id r, (id, r) ∈ map_to_list (Reserved f) → 0 ≤ r ≤ maxReservation) as Hb
    by (intros id r; rewrite elem_of_map_to_list; apply Hr).
  set (phase := phase_by_id allocs). clearbody phase.
  enough (foldr (uncurry (λ id reserved total, if counts_today f phase now id then wrap64 (total + reserved) else total)) 0
            (map_to_list (Reserved f)) =
          foldr (λ '(id, reserved) total, if counts_today f phase now id then total + reserved else total) 0
            (map_to_list (Reserved f)) ∧
    0 ≤ foldr (λ '(id, reserved) total, if counts_today f phase now id then total + reserved else total) 0
            (map_to_list (Reserved f)) ≤ Z.of_nat (length (map_to_list (Reserved f))) * maxReservation)
    as [? ?] by (unfold maxReservation in *; split; [done|lia]).
  induction (map_to_list (Reserved f)) as [|[id r] l IH]; simpl; [lia|].
  destruct IH as [IH Hbound]; [simpl in Hlen; lia|intros i x Hx; apply (Hb i); by right|].
  pose proof (Hb id r ltac:(left)) as Hr'. simpl in Hlen. unfold maxReservation in *.
  rewrite IH. destruct (counts_today f phase now id); [|lia].
  rewrite wrap64_id by (unfold in_int64, min_int64, max_int64; lia). lia.
Qed.

(** What the budget affords, in exact arithmetic. *)
Lemma affordable_spec c f allocs now n :
  reserved_ok f → 0 ≤ BudgetDailyMicros c ≤ max_int64 →
  0 ≤ req_MaxPriceMicros (cfg_Requirements c) ≤ maxPriceMicrosCeiling →
  0 ≤ MaxLifetimeSeconds c ≤ maxLifetime →
  0 < n ≤ affordable c f allocs now →
  spent f allocs now +
    n * reservationMicros (req_MaxPriceMicros (cfg_Requirements c)) (MaxLifetimeSeconds c)
  ≤ BudgetDailyMicros c.
Proof.
  intros Hf Hb Hp Hl Hn. destruct (spent_exact f allocs now Hf) as [Hs Hsb].
  pose proof (reservation_spec _ _ Hp Hl) as [_ Hr].
  unfold affordable in Hn. rewrite Hs in Hn.
  set (u := reservationMicros _ _) in *.
  rewrite wrap64_id in Hn by (unfold in_int64, min_int64, max_int64, maxReservation in *; lia).
  destruct (Z.ltb_spec 0 u), (Z.ltb_spec 0 (BudgetDailyMicros c - spent f allocs now));
    simpl in Hn; try lia.
  rewrite Z.quot_div_nonneg in Hn by lia.
  pose proof (Z.mul_div_le (BudgetDailyMicros c - spent f allocs now) u ltac:(lia)). nia.
Qed.
