(* ===== verification/OperatorProps.v ===== *)
(** * Properties of admission

    Slots are released once, addresses of a batch are distinct, a batch stays
    within capacity, budget and retention, and a saved fleet records exactly the
    admitted batch. *)
From S2P Require Import Prelude.
From S2P Require Import Effects.
From S2P Require Import Placement.
From S2P Require Import Admission.
From S2P Require Import Recovery.
From S2P Require Import Resources.
From S2P Require Import Allocation.
From S2P Require Import State.
From S2P Require Import Overlay.
From S2P Require Import Provider.
From S2P Require Import Fleet.
From S2P Require Import FleetProps.
From S2P Require Import Operator.

(** ** Releasing slots *)

(** The records whose slot a call releases: the first of each terminal id that
    was not released before. *)
Fixpoint newly_released (released : gmap string bool) (allocs : list Allocation) : list string :=
  match allocs with
  | [] => []
  | a :: allocs' =>
      if is_terminal (al_Phase a) && negb (map_get false released (ID a))
      then ID a :: newly_released (<[ID a := true]> released) allocs'
      else newly_released released allocs'
  end.

Definition active_of (allocs : list Allocation) : Z :=
  Z.of_nat (length (List.filter (λ a, negb (is_terminal (al_Phase a))) allocs)).

(** [id] is listed in a terminal phase. *)
Definition listed_terminal (allocs : list Allocation) (id : string) : bool :=
  existsb (λ a, is_terminal (al_Phase a) && (ID a =s id)) allocs.

Lemma map_get_insert {V} (zero : V) m k v i :
  map_get zero (<[k := v]> m) i = if k =s i then v else map_get zero m i.
Proof.
  unfold map_get. rewrite lookup_insert. destruct (String.eqb_spec k i); case_decide; done.
Qed.

Lemma release_from f n allocs :
  0 ≤ st_Admitted (fl_Admission f) →
  ∃ m, foldl release_one (f, n) allocs =
    (set_fleet_Admitted
       (Z.max 0 (st_Admitted (fl_Admission f) - Z.of_nat (length (newly_released (Released f) allocs))))
       (set_Released m f), n + active_of allocs) ∧
    ∀ id, map_get false m id = map_get false (Released f) id || listed_terminal allocs id.
Proof.
  unfold active_of. revert f n. induction allocs as [|a allocs IH]; intros f n Hf; simpl.
  - exists (Released f). split; [|intros; by rewrite orb_false_r].
    rewrite Z.sub_0_r, Z.max_r, Z.add_0_r by done. by destruct f as [? ? ? ? []].
  - destruct (is_terminal (al_Phase a)) eqn:Ht; simpl.
    + destruct (map_get false (Released f) (ID a)) eqn:Hrel; simpl.
      * destruct (IH f n Hf) as (m & -> & Hm). exists m. split; [done|]. intros id. rewrite Hm.
        destruct (String.eqb_spec (ID a) id) as [<-|]; [by rewrite Hrel|done].
      * edestruct (IH (set_Released (<[ID a := true]> (Released f))
          (if 0 <? st_Admitted (fl_Admission f)
           then set_fleet_Admitted (st_Admitted (fl_Admission f) - 1) f else f)) n) as (m & Heq & Hm);
          [destruct (Z.ltb_spec 0 (st_Admitted (fl_Admission f))); simpl; lia|].
        exists m. split.
        -- destruct (Z.ltb_spec 0 (st_Admitted (fl_Admission f))); simpl in Heq |- *; rewrite Heq;
             f_equal; unfold set_fleet_Admitted, set_Admission, set_Released, set_Admitted; simpl;
             f_equal; f_equal; lia.
        -- intros id. rewrite Hm. destruct (0 <? _); simpl; rewrite map_get_insert;
             destruct (ID a =s id); simpl; by rewrite ?orb_true_r, ?orb_true_l.
    + destruct (IH f (n + 1) Hf) as (m & -> & Hm). exists m. split; [f_equal; lia|done].
Qed.

Lemma release_stable f n allocs :
  (∀ id, listed_terminal allocs id = true → map_get false (Released f) id = true) →
  foldl release_one (f, n) allocs = (f, n + active_of allocs).
Proof.
  unfold active_of. revert n. induction allocs as [|a allocs IH]; intros n Hr; simpl; [f_equal; lia|].
  assert (∀ id, listed_terminal allocs id = true → map_get false (Released f) id = true) as Hr'
    by (intros id Hid; apply Hr; simpl; by rewrite Hid, orb_true_r).
  destruct (is_terminal (al_Phase a)) eqn:Ht; simpl.
  - rewrite (Hr (ID a)); simpl; [by apply IH|by rewrite Ht, String.eqb_refl].
  - rewrite IH by done. f_equal. lia.
Qed.

Lemma release_spec f allocs :
  0 ≤ st_Admitted (fl_Admission f) →
  ∃ m, release f allocs =
    (set_fleet_Admitted
       (Z.max 0 (st_Admitted (fl_Admission f) - Z.of_nat (length (newly_released (Released f) allocs))))
       (set_Released m f), active_of allocs) ∧
    ∀ id, map_get false m id = map_get false (Released f) id || listed_terminal allocs id.
Proof. intros Hf. apply (release_from f 0 allocs Hf). Qed.

(** A terminal allocation gives back its slot exactly once.  The first loop
    counts the allocations that are not terminal, lowers the admitted counter by
    one (not below zero) for each terminal id that was not released before, and
    marks exactly those; running it again on the same records changes nothing. *)
Theorem release_once f allocs :
  0 ≤ st_Admitted (fl_Admission f) →
  let '(f', active) := release f allocs in
  active = active_of allocs ∧
  st_Admitted (fl_Admission f') =
    Z.max 0 (st_Admitted (fl_Admission f) - Z.of_nat (length (newly_released (Released f) allocs))) ∧
  (∀ id, map_get false (Released f') id = map_get false (Released f) id || listed_terminal allocs id) ∧
  Created f' = Created f ∧ fl_Pending f' = fl_Pending f ∧
  release f' allocs = (f', active).
Proof.
  intros Hf. destruct (release_spec f allocs Hf) as (m & -> & Hm). split_and!; try done.
  apply release_stable. simpl. intros id Hid. by rewrite Hm, Hid, orb_true_r.
Qed.

(** ** A batch of overlay addresses *)

Section overlay.
Context `{NetText}.

(** The addresses of a batch are pairwise distinct, free and usable; the
    batch is complete or refused as a whole. *)
Theorem overlay_batch_distinct cidrs n taken l :
  unmapped cidrs → overlay_batch cidrs n taken = inr l →
  length l = n ∧ NoDup l ∧ ∀ s, s ∈ l → s ∉ taken ∧ ∃ c, c ∈ cidrs ∧ usable c s.
Proof.
  intros Hu. revert taken l. induction n as [|n IH]; intros taken l; simpl.
  - intros [= <-]. split_and!; [done|constructor|]. by intros s ?%elem_of_nil.
  - destruct (NextOverlayAddress cidrs taken) as [|addr] eqn:Hn; [done|].
    destruct (overlay_batch cidrs n _) as [|rest] eqn:Hr; [done|]. intros [= <-].
    destruct (next_overlay_first cidrs taken addr Hu Hn)
      as (Hni & before & c & after & p & j & -> & Hp & Hj & Hs & _).
    destruct (IH _ _ Hr) as (Hlen & Hnd & Hall). simpl. split_and!.
    + by rewrite Hlen.
    + constructor; [|done]. intros Hin. destruct (Hall _ Hin) as [Hnot _]. set_solver.
    + intros s [->|Hin]%elem_of_cons.
      * split; [done|]. exists c. split; [rewrite elem_of_app, elem_of_cons; by right; left|].
        by exists p, j.
      * destruct (Hall _ Hin) as [Hnot Hus]. split; [set_solver|done].
Qed.
End overlay.

(** ** The loops of admission *)

Definition runner_id (uuid : string) : string := "rs-" +:+ uuid.

(** What [admit_all] does to the fleet, given the names and instants it draws. *)
Fixpoint admit_pure (c : Config) (cat : Catalog) (addresses : list string) (f : fleet)
    (uts : list (string * time)) : fleet :=
  match uts with
  | [] => f
  | (uuid, now) :: uts' =>
      let id := runner_id uuid in
      let f := set_Created (<[id := now]> (Created f)) f in
      let f := if 0 <? BudgetDailyMicros c then
                 set_Reserved (<[id := reservationMicros (req_MaxPriceMicros (cfg_Requirements c))
                                         (MaxLifetimeSeconds c)]> (Reserved f)) f
               else f in
      let a := new_allocation c cat id now (default "" (head addresses)) in
      admit_pure c cat (tail addresses) (set_fl_Pending (<[id := a]> (fl_Pending f)) f) uts'
  end.

Definition admit_events (uts : list (string * time)) : list (event operatorE) :=
  uts ≫= λ '(u, t), [ev NewUUID u; ev TimeNow t].

Lemma wp_admit G c cat n addresses f Q h :
  (∀ uts, length uts = n → Q (h ++ admit_events uts) (admit_pure c cat addresses f uts)) →
  wp G Q h (admit_all c cat n addresses f).
Proof.
  revert addresses f Q h. induction n as [|n IH]; intros addresses f Q h HQ; simpl.
  - specialize (HQ [] eq_refl). by rewrite app_nil_r in HQ.
  - intros u _ t _. apply IH. intros uts Hlen.
    specialize (HQ ((u, t) :: uts)). simpl in HQ. rewrite <- !app_assoc. simpl. apply HQ. by rewrite Hlen.
Qed.

(** Calls that change no record, draw no name and start nothing. *)
Definition is_quiet (v : event operatorE) : bool :=
  match v with existT _ (e, _) =>
    match e with
    | MapsUpdate _ | StoreSave _ _ | StoreDelete _ | NewUUID | ControllerStep _ _ _
    | Deregister _ | RerunFailedJobs _ _ _ => false
    | _ => true
    end
  end.

Definition quiet (h : list (event operatorE)) : Prop := Forall (λ v, is_quiet v = true) h.

Lemma quiet_nil : quiet [].
Proof. constructor. Qed.
Lemma quiet_app h1 h2 : quiet h1 → quiet h2 → quiet (h1 ++ h2).
Proof. apply Forall_app_2. Qed.
#[local] Hint Resolve quiet_nil quiet_app : core.

(** [o'] is [o], or [o] with the outcome of an observation of its price. *)
Definition repriced (o o' : Offering) : Prop := o' = o ∨ ∃ q, o' = observe_offering q o.

Definition refreshed (cat cat' : Catalog) : Prop :=
  Complete cat' = Complete cat ∧ Forall2 repriced (Offerings cat) (Offerings cat').

Lemma refreshed_refl cat : refreshed cat cat.
Proof. split; [done|]. induction (Offerings cat); constructor; [by left|done]. Qed.

Definition price_observer (observe : Offering → option (opM (result Quote))) : Prop :=
  ∀ o m, observe o = Some m → ∃ e, m = call e ∧ ∀ x, is_quiet (ev e x) = true.

Lemma wp_refresh_offerings G observe l Q h :
  price_observer observe →
  (∀ h' l', quiet h' → Forall2 repriced l l' → Q (h ++ h') l') →
  wp G Q h (refresh_offerings observe l).
Proof.
  intros Hobs. revert Q h. induction l as [|o l IH]; intros Q h HQ; simpl.
  - specialize (HQ [] []). rewrite app_nil_r in HQ. by apply HQ.
  - apply wp_bind.
    assert (∀ h1 o', quiet h1 → repriced o o' →
      wp G Q (h ++ h1) (rest ← refresh_offerings observe l; mret (o' :: rest))) as Hrest.
    { intros h1 o' Hh1 Ho'. apply wp_bind, IH. intros h2 l' Hh2 Hl'. apply wp_ret.
      rewrite <- app_assoc. apply HQ; [by auto|by constructor]. }
    destruct (observe o) as [m|] eqn:Ho.
    + destruct (Hobs o m Ho) as (e & -> & He). intros q _. apply Hrest.
      * by repeat constructor.
      * right. by exists q.
    + apply wp_ret. specialize (Hrest [] o). rewrite app_nil_r in Hrest. apply Hrest; [done|by left].
Qed.

Lemma wp_refresh_catalog G enabled observe cat Q h :
  price_observer observe →
  (∀ h' cat', quiet h' → refreshed cat cat' → Q (h ++ h') cat') →
  wp G Q h (refresh_catalog enabled observe cat).
Proof.
  intros Hobs HQ. unfold refresh_catalog. destruct enabled.
  - apply wp_bind, wp_refresh_offerings; [done|]. intros h' l' Hh' Hl'. apply wp_ret. by apply HQ.
  - apply wp_ret. specialize (HQ [] cat). rewrite app_nil_r in HQ. apply HQ; [done|apply refreshed_refl].
Qed.

Section refresh.
Context (G : contract operatorE) (o : Operator) (cat : Catalog) (h : list (event operatorE)).
Context (Q : list (event operatorE) → Catalog → Prop).
Context (HQ : ∀ h' cat', quiet h' → refreshed cat cat' → Q (h ++ h') cat').

Ltac observer := intros off m; repeat case_match; try discriminate; intros Hm; injection Hm as <-;
  eexists; split; [reflexivity|done].

Lemma wp_refreshAWS : wp G Q h (refreshAWSPrices o cat).
Proof using HQ. apply wp_refresh_catalog; [observer|done]. Qed.
Lemma wp_refreshAzure : wp G Q h (refreshAzurePrices o cat).
Proof using HQ. apply wp_refresh_catalog; [observer|done]. Qed.
Lemma wp_refreshGCP : wp G Q h (refreshGCPPrices o cat).
Proof using HQ. apply wp_refresh_catalog; [observer|done]. Qed.
End refresh.

(** ** The fleet record *)

Section fleet.
Context `{FleetCodec} (G : contract operatorE).

(** The fleet [f] was read from the object [cm]. *)
Definition fleet_read (c : Config) (h : list (event operatorE)) (cm : ConfigMap) (f : fleet) : Prop :=
  (ev (MapsGet (fleet_name c)) (inr cm) ∈ h ∨ ev (MapsCreate (initial_fleet_map c)) (inr cm) ∈ h) ∧
  owned (cfg_Name c) cm = true ∧
  ∃ f0, fleet_unmarshal (map_get "" (cm_Data cm) fleet_key) = inr f0 ∧ check_fleet c f0 = inr f.

Lemma fleet_read_mono c h h' cm f : fleet_read c h cm f → (∀ v, v ∈ h → v ∈ h') → fleet_read c h' cm f.
Proof. intros [Hin Hr] Hsub. split; [naive_solver|done]. Qed.

Lemma wp_loadFleet c (Q : list (event operatorE) → result (ConfigMap * fleet) → Prop) h :
  (∀ h' e, quiet h' → Q (h ++ h') (inl e)) →
  (∀ h' cm f, quiet h' → fleet_read c h' cm f → Q (h ++ h') (inr (cm, f))) →
  wp G Q h (loadFleet c).
Proof.
  intros He Hr. unfold loadFleet, readFleet. apply wp_call_bind. intros r _. apply wp_bind.
  assert (∀ h' r', quiet h' →
    (∀ cm, r' = inr cm → ev (MapsGet (fleet_name c)) (inr cm) ∈ h' ∨
                         ev (MapsCreate (initial_fleet_map c)) (inr cm) ∈ h') →
    Q (h ++ h') (match r' with
       | inl e => inl e
       | inr cm =>
           if negb (owned (cfg_Name c) cm) then inl (errors_new "fleet ownership mismatch")
           else match fleet_unmarshal (map_get "" (cm_Data cm) fleet_key) with
           | inl e => inl e
           | inr f => match check_fleet c f with inl e => inl e | inr f => inr (cm, f) end
           end
       end)) as Hend.
  { intros h' [e|cm] Hq Hin; [by apply He|].
    destruct (owned (cfg_Name c) cm) eqn:Hown; [|by apply He]. simpl.
    destruct (fleet_unmarshal _) as [|f0] eqn:Hu; [by apply He|].
    destruct (check_fleet c f0) as [|f] eqn:Hc; [by apply He|].
    apply Hr; [done|]. split; [by apply Hin|]. split; [done|]. by exists f0. }
  destruct r as [e|cm].
  - destruct (errors_is e APINotFound); simpl.
    + intros r' _. rewrite <- app_assoc. apply Hend; [by repeat constructor|].
      intros cm ->. right. by right; left.
    + apply He. by repeat constructor.
  - apply (Hend _ (inr cm)); [by repeat constructor|]. intros cm' [= ->]. left. by left.
Qed.

Lemma wp_saveFleet cm f (Q : list (event operatorE) → option error → Prop) h :
  (∀ e, Q h (Some e)) →
  (∀ s e, fleet_marshal f = inr s → Q (h ++ [ev (MapsUpdate (put_fleet s cm)) (inl e)]) (Some e)) →
  (∀ s cm', fleet_marshal f = inr s → Q (h ++ [ev (MapsUpdate (put_fleet s cm)) (inr cm')]) None) →
  wp G Q h (saveFleet cm f).
Proof.
  intros H1 H2 H3. unfold saveFleet. destruct (fleet_marshal f) as [|s] eqn:Hm; [by apply wp_ret|].
  intros [e|cm'] _; simpl; [by apply H2|by apply H3].
Qed.
End fleet.

Lemma wp_catalog G decode_catalog c (Q : list (event operatorE) → result Catalog → Prop) h :
  (∀ h' r, quiet h' → Q (h ++ h') r) → wp G Q h (catalog decode_catalog c).
Proof.
  intros HQ. unfold catalog. destruct (CatalogPath c =s "").
  - apply wp_ret. rewrite <- (app_nil_r h). by apply HQ.
  - intros r _. apply wp_ret. apply HQ. by repeat constructor.
Qed.

(** ** One demand message *)

(** The names drawn, and the fleet objects written, in a history. *)
Definition uuid_of (v : event operatorE) : option string :=
  match v with existT _ (e, x) =>
    (match e in operatorE X return X → option string with
     | NewUUID => λ u, Some u
     | _ => λ _, None
     end) x
  end.
Definition update_of (v : event operatorE) : option ConfigMap :=
  match v with existT _ (e, _) => match e with MapsUpdate cm => Some cm | _ => None end end.

Definition uuids (h : list (event operatorE)) : list string := omap uuid_of h.
Definition updates (h : list (event operatorE)) : list ConfigMap := omap update_of h.

Lemma uuids_app h1 h2 : uuids (h1 ++ h2) = uuids h1 ++ uuids h2.
Proof. apply omap_app. Qed.
Lemma updates_app h1 h2 : updates (h1 ++ h2) = updates h1 ++ updates h2.
Proof. apply omap_app. Qed.

Lemma updates_one v : update_of v = None → updates [v] = [].
Proof. intros Hv. unfold updates. csimpl. by rewrite Hv. Qed.

Lemma uuids_quiet h : quiet h → uuids h = [].
Proof.
  induction 1 as [|[X [e x]] h Hv _ IH]; [done|]. unfold uuids in *. csimpl. rewrite IH.
  by destruct e.
Qed.
Lemma updates_quiet h : quiet h → updates h = [].
Proof.
  induction 1 as [|[X [e x]] h Hv _ IH]; [done|]. unfold updates in *. csimpl. rewrite IH.
  by destruct e.
Qed.
Lemma uuids_admit uts : uuids (admit_events uts) = uts.*1.
Proof. induction uts as [|[u t] uts IH]; [done|]. unfold uuids in *. csimpl. by rewrite IH. Qed.
Lemma updates_admit uts : updates (admit_events uts) = [].
Proof. induction uts as [|[u t] uts IH]; [done|]. unfold updates in *. csimpl. by rewrite IH. Qed.

Lemma affordable_nonneg c f allocs now : 0 ≤ affordable c f allocs now.
Proof.
  unfold affordable. destruct (Z.ltb_spec 0 (reservationMicros (req_MaxPriceMicros (cfg_Requirements c))
    (MaxLifetimeSeconds c))), (Z.ltb_spec 0 (wrap64 (BudgetDailyMicros c - spentToday f allocs now)));
    simpl; try lia. apply Z.quot_pos; lia.
Qed.

Lemma admit_events_times uts t : t ∈ uts.*2 → ev TimeNow t ∈ admit_events uts.
Proof.
  intros ([u t'] & -> & Hin)%list_elem_of_fmap. unfold admit_events.
  apply list_elem_of_bind. exists (u, t'). split; [|done]. right. by left.
Qed.

Section demand.
Context `{FleetCodec} `{NetText} (o : Operator).
#[local] Abbreviation c := (op_Config o).

(** What justifies a batch of [k] admissions. *)
Definition batch_justified (h : list (event operatorE)) (f : fleet)
    (allocs : list Allocation) (active : Z) (k : nat) (cat : Catalog) (addresses : list string) : Prop :=
  paused o = false ∧ draining o = false ∧
  active + Z.of_nat k ≤ MaxRunners c ∧
  Z.of_nat (size (Created f)) + Z.of_nat k ≤ 1000 ∧
  (0 < BudgetDailyMicros c → ∃ now, ev TimeNow now ∈ h ∧ Z.of_nat k ≤ affordable c f allocs now) ∧
  (∃ now off, ev TimeNow now ∈ h ∧ Choose now (cfg_Requirements c) cat ∅ = inr off) ∧
  (cfg_NetworkProfile c ≠ "" →
     overlay_batch (NetworkOverlayCIDRs c) k (overlay_taken c f allocs) = inr addresses).

(** The fleet written by a call that drew the names and instants [uts]. *)
Definition fleet_written (h : list (event operatorE)) (f : fleet)
    (allocs : list Allocation) (uts : list (string * time)) (f' : fleet) : Prop :=
  let '(f1, stored) := release f allocs in
  ∃ cat addresses cond adm,
    f' = admit_pure c cat addresses (set_fl_Condition cond (set_Admission adm f1)) uts ∧
    (st_Admitted adm = st_Admitted (fl_Admission f1) + Z.of_nat (length uts) ∨
     st_Admitted adm = Z.of_nat (length uts)) ∧
    (admission_ok (fl_Admission f1) → admission_ok adm) ∧
    (uts ≠ [] → batch_justified h f1 allocs (stored + unrepresented f1 allocs) (length uts) cat addresses).

Definition demand_post (h : list (event operatorE)) : Prop :=
  ∀ cm', cm' ∈ updates h → ∃ cm f allocs uts f' s,
    fleet_read c h cm f ∧ ev StoreList (inr allocs) ∈ h ∧
    cm' = put_fleet s cm ∧ fleet_marshal f' = inr s ∧ uuids h = uts.*1 ∧
    (∀ t, t ∈ uts.*2 → ev TimeNow t ∈ h) ∧ fleet_written h f allocs uts f'.

Lemma demand_quiet h : updates h = [] → demand_post h.
Proof. intros Hu cm'. rewrite Hu. by intros ?%elem_of_nil. Qed.

Section batch.
Context (G : contract operatorE) (cm : ConfigMap) (f f1 : fleet) (allocs : list Allocation) (stored : Z).
Context (Hrel : release f allocs = (f1, stored)).
#[local] Abbreviation active := (stored + unrepresented f1 allocs).

(** The history so far: the fleet and the records were read, nothing written. *)
Definition observed (h : list (event operatorE)) : Prop :=
  updates h = [] ∧ uuids h = [] ∧ fleet_read c h cm f ∧ ev StoreList (inr allocs) ∈ h.

Lemma observed_app h h' : observed h → quiet h' → observed (h ++ h').
Proof.
  intros (Hu & Hd & Hr & Hl) Hq. split_and!.
  - by rewrite updates_app, Hu, updates_quiet.
  - by rewrite uuids_app, Hd, uuids_quiet.
  - eapply fleet_read_mono; [done|]. intros v. rewrite elem_of_app. tauto.
  - rewrite elem_of_app. tauto.
Qed.

Lemma observed_call X (e : operatorE X) x h :
  observed h → is_quiet (ev e x) = true → observed (h ++ [ev e x]).
Proof. intros Hh He. apply observed_app; [done|]. by constructor. Qed.

(** The admitted counter is what it was, or zero, plus the grant. *)
Definition granted (adm : State) (n : Z) : Prop :=
  (st_Admitted adm = st_Admitted (fl_Admission f1) + n ∨ st_Admitted adm = n) ∧
  (admission_ok (fl_Admission f1) → st_Admitted adm ≤ 100).

Lemma granted_less adm n m : granted adm n → 0 ≤ m ≤ n →
  granted (set_Admitted (st_Admitted adm - (n - m)) adm) m.
Proof.
  intros [Hg Hb] Hm. split; simpl; [destruct Hg; [left|right]; lia|].
  intros Hok. specialize (Hb Hok). unfold admission_ok in Hok. lia.
Qed.

(** A save that admits [uts] ends a demand as described. *)
Lemma wp_save_batch h uts cat addresses cond adm
    (Q : list (event operatorE) → option error → Prop) :
  observed h →
  granted adm (Z.of_nat (length uts)) →
  (uts ≠ [] → batch_justified h f1 allocs active (length uts) cat addresses) →
  (∀ h' e, demand_post h' → Q h' e) →
  wp G Q (h ++ admit_events uts)
    (saveFleet cm (admit_pure c cat addresses (set_fl_Condition cond (set_Admission adm f1)) uts)).
Proof using Hrel.
  intros (Hu & Hd & Hr & Hl) Hg Hj HQ.
  assert (∀ s x, fleet_marshal (admit_pure c cat addresses (set_fl_Condition cond (set_Admission adm f1)) uts) = inr s →
    demand_post ((h ++ admit_events uts) ++ [ev (MapsUpdate (put_fleet s cm)) x])) as Hpost.
  { intros s x Hs cm'. rewrite !updates_app, Hu, updates_admit. simpl.
    intros [->|[]%elem_of_nil]%elem_of_cons.
    exists cm, f, allocs, uts, (admit_pure c cat addresses (set_fl_Condition cond (set_Admission adm f1)) uts), s.
    split_and!; try done.
    - eapply fleet_read_mono; [done|]. intros v. rewrite !elem_of_app. tauto.
    - rewrite !elem_of_app. tauto.
    - rewrite !uuids_app, Hd, uuids_admit. simpl. by rewrite app_nil_r.
    - intros t Ht. rewrite !elem_of_app. left. right. by apply admit_events_times.
    - unfold fleet_written. rewrite Hrel. exists cat, addresses, cond, adm. split; [done|]. split; [apply Hg|].
      split; [intros Hok; destruct Hg as [Hg Hle]; specialize (Hle Hok); unfold admission_ok in *; lia|].
      intros Hne. destruct (Hj Hne) as (? & ? & ? & ? & Hb & Ho & ?).
      split_and!; try done.
      + intros Hpos. destruct (Hb Hpos) as (now & Hn & ?). exists now. rewrite !elem_of_app. tauto.
      + destruct Ho as (now & off & Hn & ?). exists now, off. rewrite !elem_of_app. tauto. }
  apply wp_saveFleet; intros; apply HQ; auto.
  apply demand_quiet. by rewrite updates_app, Hu, updates_admit.
Qed.

(** Saves that admit nothing. *)
Lemma wp_save_none h cond adm (Q : list (event operatorE) → option error → Prop) :
  observed h → granted adm 0 → (∀ h' e, demand_post h' → Q h' e) →
  wp G Q h (saveFleet cm (set_fl_Condition cond (set_Admission adm f1))).
Proof using Hrel.
  intros Ho Hg HQ. rewrite <- (app_nil_r h).
  apply (wp_save_batch h [] zero_catalog [] cond adm Q); done.
Qed.

Lemma wp_refuse h adm n reason :
  observed h → granted adm n → 0 ≤ n →
  wp G (λ h' _, demand_post h') h (refuse cm (set_Admission adm f1) active n reason).
Proof using Hrel.
  intros Ho Hg Hn. unfold refuse. apply wp_bind.
  apply (wp_save_none h reason (set_Admitted (st_Admitted adm - n) adm)); [done| |by intros h' e Hp; apply wp_ret].
  rewrite <- (Z.sub_0_r n). by apply (granted_less adm n 0).
Qed.

(** The guards established before addresses are drawn. *)
Definition priced (h : list (event operatorE)) (n : Z) (cat : Catalog) : Prop :=
  paused o = false ∧ draining o = false ∧ active + n ≤ MaxRunners c ∧
  Z.of_nat (size (Created f1)) + n ≤ 1000 ∧
  (0 < BudgetDailyMicros c → ∃ now, ev TimeNow now ∈ h ∧ n ≤ affordable c f1 allocs now) ∧
  ∃ now off, ev TimeNow now ∈ h ∧ Choose now (cfg_Requirements c) cat ∅ = inr off.

Lemma wp_admit_batch h adm n cat :
  observed h → granted adm n → 0 ≤ n → (0 < n → priced h n cat) →
  wp G (λ h' _, demand_post h') h (admit_batch c cm (set_Admission adm f1) allocs active n cat).
Proof using Hrel.
  intros Ho Hg Hn Hp. unfold admit_batch.
  destruct (if _ && _ then _ else _) as [e|addresses] eqn:Ha; [by apply wp_refuse|].
  apply wp_bind, wp_admit. intros uts Hlen. apply wp_bind.
  assert (n = Z.of_nat (length uts)) as Hn' by lia.
  apply (wp_save_batch h uts cat addresses "DemandObserved" adm);
    [done|by rewrite <- Hn'| |by intros h' e Hpost; apply wp_ret].
  intros Hne. assert (0 < n) as Hpos by (destruct uts; [done|simpl in *; lia]).
  destruct (Hp Hpos) as (? & ? & ? & ? & Hb & Hc). unfold batch_justified. rewrite <- Hn'.
  split_and!; try done. intros Hprof. apply String.eqb_neq in Hprof.
  destruct (Z.ltb_spec 0 n); [|lia]. rewrite Hprof in Ha. by rewrite Hlen.
Qed.

(** The guards established before the catalog is read. *)
Definition afforded (h : list (event operatorE)) (n : Z) : Prop :=
  paused o = false ∧ draining o = false ∧ active + n ≤ MaxRunners c ∧
  Z.of_nat (size (Created f1)) + n ≤ 1000 ∧
  (0 < BudgetDailyMicros c → ∃ now, ev TimeNow now ∈ h ∧ n ≤ affordable c f1 allocs now).

Lemma afforded_priced h h' n cat now off :
  afforded h n → Choose now (cfg_Requirements c) cat ∅ = inr off →
  priced (h ++ h' ++ [ev TimeNow now]) n cat.
Proof.
  intros (? & ? & ? & ? & Hb) Hc. split_and!; try done.
  - intros Hpos. destruct (Hb Hpos) as (t & Ht & ?). exists t. rewrite elem_of_app. tauto.
  - exists now, off. rewrite !elem_of_app, elem_of_cons. tauto.
Qed.

Lemma wp_admit_priced decode_catalog h adm n :
  observed h → granted adm n → 0 ≤ n → (0 < n → afforded h n) →
  wp G (λ h' _, demand_post h') h (admit_priced decode_catalog o cm (set_Admission adm f1) allocs active n).
Proof using Hrel.
  intros Ho Hg Hn Ha. unfold admit_priced. apply wp_bind, wp_catalog. intros h0 [e|cat] Hq0.
  - destruct (Z.ltb_spec 0 n); [apply wp_refuse; auto using observed_app|].
    apply wp_admit_batch; auto using observed_app. lia.
  - apply wp_bind, wp_refreshAWS. intros h1 cat1 Hq1 _.
    apply wp_bind, wp_refreshAzure. intros h2 cat2 Hq2 _.
    apply wp_bind, wp_refreshGCP. intros h3 cat3 Hq3 _.
    assert (observed ((((h ++ h0) ++ h1) ++ h2) ++ h3)) as Ho' by auto using observed_app.
    destruct (Z.ltb_spec 0 n); [|apply wp_admit_batch; auto; lia].
    apply wp_call_bind. intros now _. destruct (Choose _ _ _ _) as [e|off] eqn:Hch.
    + apply wp_refuse; [|done|done]. by apply observed_call.
    + apply wp_admit_batch; [by apply observed_call|done|done|]. intros Hpos.
      rewrite <- !(app_assoc h). by eapply afforded_priced; auto.
Qed.

Lemma wp_admit_affordable decode_catalog h s n :
  observed h → granted s n → 0 ≤ n →
  (0 < n → paused o = false ∧ draining o = false ∧ active + n ≤ MaxRunners c) →
  wp G (λ h' _, demand_post h') h
    (admit_affordable decode_catalog o cm (set_Admission s f1) allocs active n).
Proof using Hrel.
  intros Ho Hg Hn Hcap. unfold admit_affordable.
  assert (∀ h' adm m, observed h' → granted adm m → 0 ≤ m ≤ n →
    (0 < m → 0 < BudgetDailyMicros c → ∃ now, ev TimeNow now ∈ h' ∧ m ≤ affordable c f1 allocs now) →
    wp G (λ h' _, demand_post h') h'
      (if (0 <? m) && (1000 <? Z.of_nat (size (Created (set_Admission adm f1))) + m)
       then mret (active, Some (errors_new "retained allocation limit reached; operator maintenance required"))
       else admit_priced decode_catalog o cm (set_Admission adm f1) allocs active m)) as Hcont.
  { intros h' adm m Ho' Hg' Hm Hb. simpl. destruct (_ && _) eqn:Hlim.
    - apply wp_ret, demand_quiet. apply Ho'.
    - apply wp_admit_priced; [done|done|lia|]. intros Hpos. destruct (Hcap ltac:(lia)) as (? & ? & ?).
      reflect in Hlim. split_and!; try done; try lia. intros Hbud. by apply Hb. }
  destruct (_ && _) eqn:Hbud; reflect in Hbud.
  - apply wp_call_bind. intros now _. set (m := affordable _ _ _ _).
    assert (m = affordable c f1 allocs now) as Hm by done.
    assert (0 ≤ m) as Hm0 by apply affordable_nonneg.
    assert (observed (h ++ [ev TimeNow now])) as Ho' by (by apply observed_call).
    assert (ev TimeNow now ∈ h ++ [ev TimeNow now]) as Hin by (rewrite elem_of_app; right; left).
    destruct (Z.ltb_spec m n).
    + destruct (Z.eqb_spec m 0).
      * apply wp_bind. apply (wp_save_none _ "BudgetExhausted" (set_Admitted (st_Admitted s - (n - m)) s));
          [done| |by intros h2 e2 Hp; apply wp_ret].
        replace 0 with m by done. apply granted_less; [done|lia].
      * apply (Hcont _ (set_Admitted (st_Admitted s - (n - m)) s) m);
          [done|apply granted_less; [done|lia]|lia|]. intros _ _. exists now. split; [done|lia].
    + apply Hcont; [done|done|lia|]. intros _ _. exists now. split; [done|lia].
  - apply Hcont; [done|done|lia|]. intros. lia.
Qed.
End batch.

Section handler.
Context (decode_catalog : string → result (Catalog * bool)).

Lemma demand_spec count :
  ensures no_contract (HandleDesiredRunnerCount decode_catalog o count) (λ h _, demand_post h).
Proof.
  apply wp_ensures. unfold HandleDesiredRunnerCount, try.
  apply wp_bind, wp_loadFleet.
  { intros h' e Hq. apply wp_ret, demand_quiet. by apply updates_quiet. }
  intros h' cm f Hq Hr. simpl. apply wp_call_bind. intros [e|allocs] _.
  { apply wp_ret, demand_quiet. by rewrite updates_app, updates_quiet. }
  assert (observed cm f allocs (h' ++ [ev StoreList (inr allocs)])) as Ho.
  { split_and!.
    - by rewrite updates_app, updates_quiet.
    - by rewrite uuids_app, uuids_quiet.
    - eapply fleet_read_mono; [done|]. intros v. rewrite elem_of_app. tauto.
    - rewrite elem_of_app. right. by left. }
  destruct (release f allocs) as [f1 stored] eqn:Hrel.
  destruct (_ || _) eqn:Hmode.
  - apply wp_bind.
    apply (wp_save_none no_contract cm f f1 allocs stored Hrel _ _ (fl_Admission f1)); [done| |].
    + split; [by left; rewrite Z.add_0_r|]. unfold admission_ok. lia.
    + intros h1 e Hp. by apply wp_ret.
  - destruct (Reconcile _ _ _ _ _) as [s [e|n]] eqn:Hrec.
    { apply wp_ret, demand_quiet. apply Ho. }
    apply reconcile_shape in Hrec as (s0 & -> & Hn & Hd & Hact & Hlim & _ & Hs0 & Hcase).
    reflect in Hmode.
    apply (wp_admit_affordable no_contract cm f f1 allocs stored Hrel); [done| |lia|].
    + split; simpl; [|unfold admission_ok in *; lia].
      destruct Hcase as [->|[[_ ->]|(_ & _ & _ & ->)]]; simpl; [by left..|by right].
    + intros Hpos. destruct Hmode. split_and!; [done|done|lia].
Qed.
End handler.
End demand.

(** ** A failed observation *)

(** One failed price observation stops every placement.  After a refresh in
    which the observation of one in-scope offering failed, placement fails on
    the whole catalog, whatever the other offerings and their prices. *)
Theorem failed_refresh_blocks now r cat outcomes o e :
  observe_offering (inl e) o ∈ Offerings cat → in_scope o r = true →
  ∃ err, Choose now r cat outcomes = inl err.
Proof.
  intros Hin Hsc. unfold Choose. destruct (Validate r); [by eexists|].
  destruct (negb _); [by eexists|].
  destruct (Placement.scan _ _ _ _ _ _) as [err|s] eqn:Hs; [by eexists|]. exfalso.
  apply Placement.scan_spec in Hs as [_ [Hall _]].
  destruct (Hall _ Hin) as (_ & _ & Hv). specialize (Hv Hsc).
  unfold invalid_pool, observe_offering in Hv. simpl in Hv. by rewrite !orb_true_r in Hv.
Qed.
