(* ===== verification/DemandProps.v ===== *)
(** * What a demand message may do to a fleet

    The theorems on [HandleDesiredRunnerCount] and the invariant of the fleet
    record. *)
From S2P Require Import Prelude.
From S2P Require Import Effects.
From S2P Require Import Placement.
From S2P Require Import Admission.
From S2P Require Import Recovery.
From S2P Require Import Resources.
From S2P Require Import Allocation.
From S2P Require Import Lifecycle.
From S2P Require Import LifecycleProps.
From S2P Require Import LifecycleSafety.
From S2P Require Import State.
From S2P Require Import Overlay.
From S2P Require Import Provider.
From S2P Require Import Fleet.
From S2P Require Import FleetProps.
From S2P Require Import Operator.
From S2P Require Import OperatorProps.

(** The clock reads an instant after the zero Time. *)
Definition clock_contract : contract operatorE := λ X e,
  match e in operatorE X return X → Prop with
  | TimeNow => λ t, 0 < t
  | _ => λ _, True
  end.

(** The limits [Config.Validate] enforces and the arithmetic relies on. *)
Definition config_ok (c : Config) : Prop :=
  Validate (cfg_Requirements c) = None ∧ 1 ≤ MaxRunners c ≤ 10 ∧
  1 ≤ ProvisioningSeconds c ≤ 600 ∧ ProvisioningSeconds c ≤ MaxLifetimeSeconds c ≤ maxLifetime ∧
  0 ≤ BudgetDailyMicros c ≤ max_int64.

Lemma config_price c : config_ok c → 0 ≤ req_MaxPriceMicros (cfg_Requirements c) ≤ maxPriceMicrosCeiling.
Proof.
  intros [Hv _]. unfold Validate in Hv. destruct (_ || _) eqn:Hb in Hv; [done|]. reflect in Hb. lia.
Qed.

(** ** The fleet invariant *)

(** What holds of the maps of a fleet: every pending admission is a well-formed
    record under its own id, and pending and reserved ids are created ids. *)
Definition fleet_maps_ok (f : fleet) : Prop :=
  (∀ id a, fl_Pending f !! id = Some a → ID a = id ∧ record_ok a ∧ is_Some (Created f !! id)) ∧
  (∀ id r, Reserved f !! id = Some r → 0 ≤ r ≤ maxReservation ∧ is_Some (Created f !! id)).

Definition fleet_ok (f : fleet) : Prop :=
  admission_ok (fl_Admission f) ∧ fleet_maps_ok f ∧ (size (Created f) ≤ 1000)%nat.

Lemma fleet_ok_reserved f : fleet_ok f → reserved_ok f.
Proof.
  intros (_ & [_ Hr] & Hs). split; [|by intros id r Hi; apply (Hr id)].
  assert (dom (Reserved f) ⊆ dom (Created f)) as Hsub%subseteq_size.
  { intros id [r Hi]%elem_of_dom. apply elem_of_dom. by apply (Hr id r). }
  rewrite !size_dom in Hsub. lia.
Qed.

Lemma new_allocation_ok c cat u now overlay :
  config_ok c → 0 < now → record_ok (new_allocation c cat (runner_id u) now overlay).
Proof.
  intros (_ & _ & Hp & _) Hnow. unfold new_allocation, record_ok. simpl.
  split; [vm_compute; reflexivity|]. split; [by intros|]. split; [lia|]. split; [lia|].
  split; [done|]. split; [|split; [done|by intros []]].
  unfold time_add, seconds, zero_time, Second.
  rewrite wrap64_id by (unfold in_int64, min_int64, max_int64; lia). lia.
Qed.

Lemma admit_pure_ok c cat addresses f uts :
  config_ok c → (∀ t, t ∈ uts.*2 → 0 < t) → fleet_maps_ok f →
  fleet_maps_ok (admit_pure c cat addresses f uts) ∧
  (size (Created (admit_pure c cat addresses f uts)) ≤ size (Created f) + length uts)%nat ∧
  fl_Admission (admit_pure c cat addresses f uts) = fl_Admission f ∧
  Released (admit_pure c cat addresses f uts) = Released f.
Proof.
  intros Hc. revert addresses f. induction uts as [|[u t] uts IH]; intros addresses f Ht Hf; simpl.
  { split_and!; try done. lia. }
  set (f1 := set_fl_Pending _ _).
  assert (Created f1 = <[runner_id u := t]> (Created f) ∧ fl_Admission f1 = fl_Admission f ∧
    Released f1 = Released f ∧
    fl_Pending f1 = <[runner_id u := new_allocation c cat (runner_id u) t (default "" (head addresses))]> (fl_Pending f) ∧
    (∀ id r, Reserved f1 !! id = Some r → Reserved f !! id = Some r ∨
      id = runner_id u ∧ r = reservationMicros (req_MaxPriceMicros (cfg_Requirements c)) (MaxLifetimeSeconds c)))
    as (HC & HA & HR & HP & HS).
  { unfold f1. destruct (0 <? BudgetDailyMicros c); simpl; split_and!; try done; try (by left).
    intros id r [[<- <-]|[_ Hi]]%lookup_insert_Some; [by right|by left]. }
  clearbody f1. destruct Hf as [HfP HfR].
  destruct (IH (tail addresses) f1) as (H1 & H2 & H3 & H4).
  { intros t' Ht'. apply Ht. by right. }
  { split.
    - intros id a. rewrite HP, HC. intros [[<- <-]|[Hne Hi]]%lookup_insert_Some.
      + split_and!; [done| |rewrite lookup_insert_eq; by eexists].
        apply new_allocation_ok; [done|]. apply Ht. by left.
      + destruct (HfP id a Hi) as (? & ? & ?). split_and!; [done|done|]. by rewrite lookup_insert_ne.
    - intros id r Hi. rewrite HC. destruct (HS id r Hi) as [Hi'|[-> ->]].
      + destruct (HfR id r Hi') as [? ?]. split; [done|].
        rewrite lookup_insert. case_decide; [by eexists|done].
      + rewrite lookup_insert_eq. split; [|by eexists].
        pose proof Hc as (_ & _ & Hp & Hl & _).
        apply reservation_spec; [by apply config_price|]. unfold maxLifetime in *. lia. }
  split_and!; [done| |by rewrite H3|by rewrite H4].
  rewrite HC, map_size_insert in H2. destruct (Created f !! runner_id u); simpl in *; lia.
Qed.

Section demand.
Context `{FleetCodec} `{NetText} (decode_catalog : string → result (Catalog * bool)) (o : Operator).
#[local] Abbreviation c := (op_Config o).

(** A demand message admits a justified batch and records exactly it.
    Every fleet object the call writes is the one it read, with the slots of
    terminal records released and one pending record, creation time and
    reservation added per name it drew; the admitted counter is what it was (or
    zero, after a reset) plus the size of the batch.  A non-empty batch is
    admitted only outside pause and drain, keeps the active allocations within
    MaxRunners and the retained ones within 1000, is within the budget that was
    left, has passed a placement dry run on the catalog it records, and carries
    distinct free overlay addresses when a profile asks for them. *)
Theorem demand_batch count :
  ensures no_contract (HandleDesiredRunnerCount decode_catalog o count) (λ h _,
    ∀ cm', cm' ∈ updates h → ∃ cm f allocs uts f' s,
      fleet_read c h cm f ∧ ev StoreList (inr allocs) ∈ h ∧
      cm' = put_fleet s cm ∧ fleet_marshal f' = inr s ∧ uuids h = uts.*1 ∧
      (∀ t, t ∈ uts.*2 → ev TimeNow t ∈ h) ∧
      let '(f1, stored) := release f allocs in
      ∃ cat addresses cond adm,
        f' = admit_pure c cat addresses (set_fl_Condition cond (set_Admission adm f1)) uts ∧
        (st_Admitted adm = st_Admitted (fl_Admission f1) + Z.of_nat (length uts) ∨
         st_Admitted adm = Z.of_nat (length uts)) ∧
        (admission_ok (fl_Admission f1) → admission_ok adm) ∧
        (uts ≠ [] →
           batch_justified o h f1 allocs (stored + unrepresented f1 allocs) (length uts) cat addresses)).
Proof. exact (demand_spec o decode_catalog count). Qed.

Lemma release_ok f allocs f1 stored :
  release f allocs = (f1, stored) → fleet_ok f →
  fleet_ok f1 ∧ Created f1 = Created f ∧ Reserved f1 = Reserved f.
Proof.
  intros Hr (Ha & Hm & Hs). destruct (release_spec f allocs) as (m & Heq & _); [by apply Ha|].
  rewrite Hr in Heq. injection Heq as -> _. split; [|done]. split; [|done].
  unfold admission_ok in *. simpl. lia.
Qed.

(** C12: the fleet invariant survives every demand message.  If the fleet that
    was read satisfies it (a counter within 0..100, well-formed pending records
    under created ids, bounded reservations, at most 1000 created ids), so does
    every fleet the call writes. *)
Theorem demand_keeps_fleet count :
  config_ok c →
  ensures clock_contract (HandleDesiredRunnerCount decode_catalog o count) (λ h _,
    ∀ cm', cm' ∈ updates h → ∃ cm f f' s,
      fleet_read c h cm f ∧ cm' = put_fleet s cm ∧ fleet_marshal f' = inr s ∧
      (fleet_ok f → fleet_ok f')).
Proof.
  intros Hc h r Ht Hclock cm' Hin.
  destruct (demand_spec o decode_catalog count h r Ht ltac:(by apply Forall_true) cm' Hin)
    as (cm & f & allocs & uts & f' & s & Hr & _ & -> & Hs & _ & Htimes & Hw).
  exists cm, f, f', s. split_and!; try done. intros Hf.
  unfold fleet_written in Hw. destruct (release f allocs) as [f1 stored] eqn:Hrel.
  destruct (release_ok _ _ _ _ Hrel Hf) as ((Ha1 & Hm1 & Hs1) & _ & _).
  destruct Hw as (cat & addresses & cond & adm & -> & _ & Hadm & Hj).
  destruct (admit_pure_ok c cat addresses (set_fl_Condition cond (set_Admission adm f1)) uts)
    as (Hm & Hsz & HA & _); [done| |done|].
  { intros t Ht'. specialize (Htimes t Ht'). rewrite Forall_forall in Hclock. by apply Hclock in Htimes. }
  split_and!; [rewrite HA; by apply Hadm|done|].
  destruct uts as [|ut uts]; [simpl in *; lia|].
  destruct (Hj ltac:(done)) as (_ & _ & _ & Hlim & _). simpl in *. lia.
Qed.

(** C11: the daily budget is never exceeded by an admission.  With a budget set,
    the reservations counted against the day at the instant the budget was
    checked, plus the reservations of the whole batch, are within it. *)
Theorem demand_within_budget count :
  config_ok c → 0 < BudgetDailyMicros c →
  ensures no_contract (HandleDesiredRunnerCount decode_catalog o count) (λ h _,
    ∀ cm', cm' ∈ updates h → uuids h ≠ [] → ∃ cm f allocs now,
      fleet_read c h cm f ∧ ev StoreList (inr allocs) ∈ h ∧ ev TimeNow now ∈ h ∧
      (fleet_ok f → spent (fst (release f allocs)) allocs now +
         Z.of_nat (length (uuids h)) *
           reservationMicros (req_MaxPriceMicros (cfg_Requirements c)) (MaxLifetimeSeconds c)
         ≤ BudgetDailyMicros c)).
Proof.
  intros Hc Hb h r Ht _ cm' Hin Hne.
  destruct (demand_spec o decode_catalog count h r Ht ltac:(by apply Forall_true) cm' Hin)
    as (cm & f & allocs & uts & f' & s & Hr & Hl & -> & Hs & Hu & _ & Hw).
  unfold fleet_written in Hw. destruct (release f allocs) as [f1 stored] eqn:Hrel.
  destruct Hw as (cat & addresses & cond & adm & _ & _ & _ & Hj).
  assert (uts ≠ []) as Hne' by (intros ->; rewrite Hu in Hne; done).
  destruct (Hj Hne') as (_ & _ & _ & _ & Hbud & _). destruct (Hbud Hb) as (now & Hnow & Haff).
  exists cm, f, allocs, now. rewrite Hrel. simpl. split_and!; try done. intros Hf.
  destruct (release_ok _ _ _ _ Hrel Hf) as (Hf1 & _ & _). rewrite Hu, length_fmap.
  pose proof Hc as (_ & _ & ? & ? & ?).
  apply affordable_spec; [by apply fleet_ok_reserved|done|by apply config_price|
    unfold maxLifetime in *; lia|]. destruct uts; [done|simpl in *; lia].
Qed.
End demand.
