(* ===== verification/PruneProps.v ===== *)
(** * Pruning and draining

    A record is deleted only after its retention, with its registration
    confirmed gone and the fleet marked first; a drained fleet has every
    allocation accounted for. *)
From S2P Require Import Prelude.
From S2P Require Import Effects.
From S2P Require Import Placement.
From S2P Require Import Admission.
From S2P Require Import Recovery.
From S2P Require Import Resources.
From S2P Require Import Allocation.
From S2P Require Import State.
From S2P Require Import Overlay.
From S2P Require Import Provider.
From S2P Require Import Fleet.
From S2P Require Import Operator.
From S2P Require Import OperatorProps.
From S2P Require Import Tick.

Abbreviation op_history := (list (event operatorE)).

Definition deleted_id (v : event operatorE) : option string :=
  match v with existT _ (e, _) => match e with StoreDelete id => Some id | _ => None end end.

Definition no_deletes (h : op_history) : Prop := Forall (λ v, deleted_id v = None) h.

Lemma quiet_no_deletes h : quiet h → no_deletes h.
Proof. intros Hq. eapply Forall_impl; [exact Hq|]. by intros [X [[] x]]. Qed.

(** After a part without deletions, every deletion has that part before it. *)
Lemma deletes_after (P : op_history → event operatorE → Prop) h1 h2 :
  no_deletes h1 →
  (∀ pre v post, h2 = pre ++ v :: post → is_Some (deleted_id v) → P (h1 ++ pre) v) →
  at_every (λ pre v, is_Some (deleted_id v) → P pre v) (h1 ++ h2).
Proof.
  intros Hn HP pre v post Heq [id Hid].
  apply app_eq_inv in Heq as [(k & -> & Hk)|(k & -> & Hk)].
  - destruct k as [|v' k]; simplify_eq/=.
    + specialize (HP [] v post eq_refl). rewrite !app_nil_r in HP. apply HP. by eexists.
    + exfalso. apply Forall_app in Hn as [_ Hn]. apply Forall_cons in Hn as [Hv _]. congruence.
  - apply (HP k v post); [done|by eexists].
Qed.

(** ** Candidates *)

Section candidates.
Context (all : list Allocation) (f0 : fleet).

(** Why the record [id] may go: it was listed terminal, kept for the retention
    time, its slot was released unless it timed out, and its registration was
    confirmed gone. *)
Definition may_prune (h : op_history) (id : string) : Prop :=
  ∃ a now, a ∈ all ∧ ID a = id ∧ TerminalAt a ≠ zero_time ∧ ev TimeNow now ∈ h ∧
    terminalRetention ≤ time_sub now (TerminalAt a) ∧
    (al_Phase a = TimedOut ∨ al_Phase a = Deleted ∧ map_get false (Released f0) id = true) ∧
    ev (Deregister id) None ∈ h.

Lemma may_prune_mono h h' id : may_prune h id → (∀ v, v ∈ h → v ∈ h') → may_prune h' id.
Proof. intros (a & now & ? & ? & ? & ? & ? & ? & ?) Hsub. exists a, now. split_and!; auto. Qed.

(** The state of the loop: only the pruned marks change, and each marked
    candidate may be pruned. *)
Definition pruning (h : op_history) (f : fleet) (ids : list string) : Prop :=
  no_deletes h ∧ updates h = [] ∧
  (∃ marks, f = set_Pruned marks f0 ∧ (∀ id, Pruned f0 !! id = Some true → marks !! id = Some true)) ∧
  ∀ id, id ∈ ids → Pruned f !! id = Some true ∧ may_prune h id.

Lemma pruning_call X (e : operatorE X) x h f ids :
  pruning h f ids → deleted_id (ev e x) = None → update_of (ev e x) = None →
  pruning (h ++ [ev e x]) f ids.
Proof.
  intros (Hn & Hu & Hf & Hi) Hd Hup. split_and!; try done.
  - apply Forall_app_2; [done|]. by constructor.
  - by rewrite updates_app, Hu, updates_one.
  - intros id Hid. destruct (Hi id Hid) as [? Hm]. split; [done|].
    eapply may_prune_mono; [done|]. intros v. rewrite elem_of_app. tauto.
Qed.

Lemma wp_prune_candidates G allocs f ids h (Q : op_history → fleet * list string * list error → Prop) :
  (∀ a, a ∈ allocs → a ∈ all) → pruning h f ids →
  (∀ h' f' ids' es, pruning h' f' ids' → (∀ v, v ∈ h → v ∈ h') → Q h' (f', ids', es)) →
  wp G Q h (prune_candidates allocs f ids).
Proof.
  revert f ids h Q. induction allocs as [|a allocs IH]; intros f ids h Q Hsub Hp HQ; simpl.
  { by apply HQ. }
  assert (∀ b, b ∈ allocs → b ∈ all) as Hsub' by (intros b Hb; apply Hsub; by right).
  apply wp_bind.
  assert (∀ h1, pruning h1 f ids → (∀ v, v ∈ h → v ∈ h1) →
    wp G Q h1 (prune_candidates allocs f ids)) as Hskip.
  { intros h1 Hp1 Hs1. apply IH; [done|done|]. intros h' f' ids' es Hp' Hs'. apply HQ; [done|].
    intros v Hv. auto. }
  destruct (is_zero (TerminalAt a)) eqn:Hz.
  { apply wp_ret. simpl. by apply Hskip. }
  apply wp_call_bind. intros now _. apply wp_ret.
  assert (∀ v, v ∈ h → v ∈ h ++ [ev TimeNow now]) as Hin1 by (intros v; rewrite elem_of_app; tauto).
  destruct (_ || _) eqn:Hg; [apply Hskip; [by apply pruning_call|done]|].
  reflect in Hg. destruct Hg as [Hage Hpr].
  apply wp_call_bind. intros e _.
  assert (pruning ((h ++ [ev TimeNow now]) ++ [ev (Deregister (ID a)) e]) f ids) as Hp2
    by (by repeat apply pruning_call).
  assert (∀ v, v ∈ h → v ∈ (h ++ [ev TimeNow now]) ++ [ev (Deregister (ID a)) e]) as Hin2
    by (intros v; rewrite !elem_of_app; tauto).
  destruct e as [err|].
  - apply wp_bind, IH; [done|done|]. intros h' f' ids' es Hp' Hs'. apply HQ; [done|]. auto.
  - apply IH; [done| |intros h' f' ids' es Hp' Hs'; apply HQ; [done|auto]].
    destruct Hp2 as (Hn & Hu & (marks & -> & Hmarks) & Hi). split_and!; try done.
    + eexists. split; [reflexivity|]. intros id Hid. simpl. rewrite lookup_insert.
      case_decide; [done|by apply Hmarks].
    + intros id [Hid|[->|[]%elem_of_nil]%elem_of_cons]%elem_of_app.
      * destruct (Hi id Hid) as [Hpr' ?]. split; [|done]. simpl in *. rewrite lookup_insert.
        by case_decide.
      * split; [simpl; by rewrite lookup_insert_eq|].
        exists a, now. split_and!; [apply Hsub; by left|done| | |lia| |].
        -- unfold is_zero in Hz. by reflect in Hz.
        -- rewrite !elem_of_app. left. right. by left.
        -- unfold prunable, phase_eqb in Hpr. reflect in Hpr.
           unfold set_Pruned in Hpr. simpl in Hpr. tauto.
        -- rewrite !elem_of_app. right. by left.
Qed.
End candidates.

Lemma wp_delete_all G ids h (Q : op_history → list error → Prop) :
  (∀ h' es, Forall (λ v, ∃ id, id ∈ ids ∧ deleted_id v = Some id) h' → Q (h ++ h') es) →
  wp G Q h (delete_all ids).
Proof.
  revert h Q. induction ids as [|id ids IH]; intros h Q HQ; simpl.
  { specialize (HQ [] []). rewrite app_nil_r in HQ. by apply HQ. }
  intros e _. apply wp_bind, IH. intros h' es Hh'. apply wp_ret. rewrite <- app_assoc. apply HQ.
  constructor; [exists id; split; [left|done]|].
  eapply Forall_impl; [exact Hh'|]. intros v (i & Hi & ?). exists i. split; [by right|done].
Qed.

Section prune.
Context `{FleetCodec} (o : Operator).
#[local] Abbreviation c := (op_Config o).

(** C13: pruning is confirmed and marked first.  Every record that pruning
    deletes was listed in a terminal phase with a terminal time at least the
    retention ago, its admission slot was already released (a timed-out one
    needs no release), its runner registration was confirmed gone in this pass,
    and a fleet that marks it as pruned was durably saved before; a failed save
    deletes nothing. *)
Theorem prune_confirmed allocs :
  ensures no_contract (pruneTerminalAllocations o allocs) (λ h _,
    at_every (λ pre v, is_Some (deleted_id v) → ∃ id cm f f' s cm',
      deleted_id v = Some id ∧ fleet_read c pre cm f ∧ may_prune allocs f pre id ∧
      ev (MapsUpdate (put_fleet s cm)) (inr cm') ∈ pre ∧ fleet_marshal f' = inr s ∧
      Pruned f' !! id = Some true) h).
Proof.
  apply wp_ensures. unfold pruneTerminalAllocations, try.
  assert (∀ h', no_deletes h' → at_every (λ pre v, is_Some (deleted_id v) → ∃ id cm f f' s cm',
      deleted_id v = Some id ∧ fleet_read c pre cm f ∧ may_prune allocs f pre id ∧
      ev (MapsUpdate (put_fleet s cm)) (inr cm') ∈ pre ∧ fleet_marshal f' = inr s ∧
      Pruned f' !! id = Some true) h') as Hnone.
  { intros h' Hn. rewrite <- (app_nil_r h'). apply deletes_after; [done|].
    intros pre v post Heq. by destruct pre. }
  destruct (hasRunners o); [|apply wp_ret, Hnone; constructor]. cbn [negb].
  apply wp_bind, wp_loadFleet; [intros h' e Hq; apply wp_ret, Hnone; by apply quiet_no_deletes|].
  intros h0 cm f Hq Hr. cbn beta iota. apply wp_bind.
  apply (wp_prune_candidates allocs f); [done| |].
  { split_and!; [by apply quiet_no_deletes|by apply updates_quiet| |by intros id ?%elem_of_nil].
    exists (Pruned f). split; [by destruct f|done]. }
  intros h1 f1 ids es (Hnd & Hu & _ & Hids) Hsub. apply wp_bind.
  destruct (length ids =? 0)%nat eqn:Hlen.
  { destruct ids; [|done]. by apply Hnone. }
  apply wp_saveFleet.
  - intros e. apply wp_ret. by apply Hnone.
  - intros s e Hs. apply wp_ret, Hnone. apply Forall_app_2; [done|]. by constructor.
  - intros s cm' Hs. apply wp_bind, wp_delete_all. intros h2 es2 Hh2. apply wp_ret.
    apply deletes_after; [apply Forall_app_2; [done|by constructor]|].
    intros pre v post -> _. apply Forall_app in Hh2 as [_ Hh2]. apply Forall_cons in Hh2 as [(id & Hin & Hid) _].
    destruct (Hids id Hin) as [Hpr Hmay]. exists id, cm, f, f1, s, cm'. split_and!; try done.
    + eapply fleet_read_mono; [done|]. intros w Hw. rewrite !elem_of_app. left. left. by apply Hsub.
    + eapply may_prune_mono; [done|]. intros w Hw. rewrite !elem_of_app. tauto.
    + rewrite !elem_of_app. left. right. by left.
Qed.
End prune.

(** ** Draining *)

Section drained.
Context `{FleetCodec} (o : Operator).
#[local] Abbreviation c := (op_Config o).

(** The fleet [f] was read, or there is no fleet object and it is the initial one. *)
Definition fleet_seen (h : op_history) (f : fleet) : Prop :=
  ∃ cm f0, (ev (MapsGet (fleet_name c)) (inr cm) ∈ h ∨
            cm = initial_fleet_map c ∧ ∃ e, ev (MapsGet (fleet_name c)) (inl e) ∈ h ∧
              errors_is e APINotFound = true) ∧
    owned (cfg_Name c) cm = true ∧
    fleet_unmarshal (map_get "" (cm_Data cm) fleet_key) = inr f0 ∧ check_fleet c f0 = inr f.

(** Every allocation ever admitted is accounted for: none pending, every record
    terminal, and each created id recorded or pruned. *)
Definition all_resolved (f : fleet) (allocs : list Allocation) : Prop :=
  fl_Pending f = ∅ ∧
  (∀ a, a ∈ allocs → is_terminal (al_Phase a) = true ∧ is_Some (Created f !! ID a)) ∧
  ∀ id, is_Some (Created f !! id) →
    (∃ a, a ∈ allocs ∧ ID a = id) ∨ map_get false (Pruned f) id = true.

Lemma recorded_terminal_spec f allocs :
  recorded_terminal f allocs = inr true ↔
  ∀ a, a ∈ allocs → is_terminal (al_Phase a) = true ∧ is_Some (Created f !! ID a).
Proof.
  induction allocs as [|a allocs IH]; simpl.
  { split; [|done]. by intros _ a ?%elem_of_nil. }
  destruct (Created f !! ID a) eqn:Hc; simpl.
  - destruct (is_terminal (al_Phase a)) eqn:Ht; simpl.
    + rewrite IH. split.
      * intros Hall b [->|Hb]%elem_of_cons; [split; [done|by eexists]|by apply Hall].
      * intros Hall b Hb. apply Hall. by right.
    + split; [done|]. intros Hall. destruct (Hall a ltac:(left)). congruence.
  - split; [done|]. intros Hall. destruct (Hall a ltac:(left)) as [_ [??]]. congruence.
Qed.

Lemma created_accounted f allocs :
  forallb (λ id, slices_contains (ID <$> allocs) id || map_get false (Pruned f) id)
    (fst <$> map_to_list (Created f)) = true ↔
  ∀ id, is_Some (Created f !! id) →
    (∃ a, a ∈ allocs ∧ ID a = id) ∨ map_get false (Pruned f) id = true.
Proof.
  rewrite forallb_forall. split.
  - intros Hall id [t Ht]. specialize (Hall id). rewrite orb_true_iff, slices_contains_spec in Hall.
    destruct Hall as [Hin|?]; [|left|by right].
    + apply list_elem_of_In, list_elem_of_fmap. exists (id, t). by rewrite elem_of_map_to_list.
    + apply list_elem_of_fmap in Hin as (a & -> & Ha). by exists a.
  - intros Hall id Hin. apply list_elem_of_In, list_elem_of_fmap in Hin as ([i t] & -> & Ht%elem_of_map_to_list).
    rewrite orb_true_iff, slices_contains_spec. destruct (Hall i) as [(a & Ha & <-)|?]; [by eexists| |by right].
    left. simpl. by apply list_elem_of_fmap_2.
Qed.

(** A scale set is reported drained exactly when every allocation ever
    admitted is resolved, by the fleet and the complete list of records that
    were read; a pending admission, a record in any other phase or a created id
    without record or pruning mark keeps it undrained. *)
Theorem drained_iff_resolved :
  ensures no_contract (Drained o) (λ h r, ∀ b, r = inr b →
    ∃ f, fleet_seen h f ∧
      ((fl_Pending f ≠ ∅ ∧ b = false) ∨
       ∃ allocs, ev StoreList (inr allocs) ∈ h ∧ (b = true ↔ all_resolved f allocs))).
Proof.
  apply wp_ensures. unfold Drained, try, readFleet.
  assert (∀ h f, fleet_seen h f →
    wp no_contract (λ h r, ∀ b, r = inr b → ∃ f, fleet_seen h f ∧
      ((fl_Pending f ≠ ∅ ∧ b = false) ∨
       ∃ allocs, ev StoreList (inr allocs) ∈ h ∧ (b = true ↔ all_resolved f allocs))) h
      (if negb (size (fl_Pending f) =? 0)%nat then mret (inr false)
       else r ← call StoreList;
         match r with
         | inl e => mret (inl e)
         | inr allocs => mret match recorded_terminal f allocs with
             | inr true => inr (forallb (λ id, slices_contains (ID <$> allocs) id || map_get false (Pruned f) id)
                                  (fst <$> map_to_list (Created f)))
             | r => r
             end
         end)) as Hmain.
  { intros h f Hf. destruct (Nat.eqb_spec (size (fl_Pending f)) 0) as [Hs|Hs]; simpl.
    - apply map_size_empty_inv in Hs. intros [e|allocs] _; [done|]. intros b Hb.
      exists f. split.
      { destruct Hf as (cm & f0 & Hin & Hr). exists cm, f0. split; [|done].
        destruct Hin as [?|[? (e & ? & ?)]]; [left; rewrite elem_of_app; tauto|right].
        split; [done|]. exists e. rewrite elem_of_app. tauto. }
      right. exists allocs. split; [rewrite elem_of_app; right; left|].
      unfold all_resolved. rewrite <- recorded_terminal_spec, <- created_accounted.
      destruct (recorded_terminal f allocs) as [|[]]; [done| |]; injection Hb as <-; naive_solver.
    - intros b [= <-]. exists f. split; [done|]. left. split; [|done].
      intros He. apply Hs. by rewrite He, map_size_empty. }
  apply wp_bind, wp_call_bind. intros r _. apply wp_bind.
  destruct r as [e|cm].
  - destruct (errors_is e APINotFound) eqn:He; [|by apply wp_ret, wp_ret, wp_ret].
    do 2 apply wp_ret. destruct (owned _ _) eqn:Hown; [|by apply wp_ret].
    destruct (fleet_unmarshal _) as [|f0] eqn:Hu; [by apply wp_ret|].
    destruct (check_fleet c f0) as [|f] eqn:Hc; [by apply wp_ret|].
    apply Hmain. exists (initial_fleet_map c), f0. split; [|done]. right. split; [done|].
    exists e. split; [by left|done].
  - do 2 apply wp_ret. destruct (owned _ _) eqn:Hown; [|by apply wp_ret].
    destruct (fleet_unmarshal _) as [|f0] eqn:Hu; [by apply wp_ret|].
    destruct (check_fleet c f0) as [|f] eqn:Hc; [by apply wp_ret|].
    apply Hmain. exists cm, f0. split; [|done]. left. by left.
Qed.
End drained.
