(* ===== verification/Control.v ===== *)
(** * The loops of a worker
    (internal/operator/operator.go, [runLeader]; control.go, [RunCleanup] and
    [RunRecovery])

    A worker ticks on a timer: with a message session of GitHub, or to recover
    or clean up without one.  [Tick] and [Drained] are the programs of Tick.v;
    the scale-set client, the listener, the timer and the readiness flag are
    calls.  The listener's goroutine calls the handlers of Operator.v, which
    the operator's mutex serialises with the ticks.  A loop takes fuel; [None]
    is a loop that is still running. *)
From S2P Require Import Prelude.
From S2P Require Import Effects.
From S2P Require Import Resources.
From S2P Require Import Allocation.
From S2P Require Import State.
From S2P Require Import Peers.
From S2P Require Import Fleet.
From S2P Require Import Operator.
From S2P Require Import Tick.
From S2P Require Import PruneProps.

(** What a select found ready. *)
Inductive ready_case := CtxDone (err : error) | ListenerDone (err : option error) | TickerFired.

Inductive controlE : Type → Type :=
  | OnOperator {X} (e : operatorE X) : controlE X
  | ControlCtxErr : controlE (option error)
  | SetReady (ready : bool) : controlE unit
  | GetRunnerScaleSetByID (id : Z) : controlE (result string)          (* its name *)
  | MessageSessionClient (id : Z) : controlE (option error)
  | NewListener : controlE (option error)
  | StartListener : controlE unit
  | Select : controlE ready_case
  | JoinListener : controlE unit
  | CloseSession : controlE unit.

Abbreviation controlM := (prog controlE).

Definition operator {R} (p : opM R) : controlM R := interp (λ X e, call (OnOperator e)) p.

Section loops.
Context `{AllocationCodec} `{FleetCodec}.

(** ** Cleanup and recovery (control.go) *)

(** The select of these loops has no listener. *)
Definition interval : controlM (option error) :=
  c ← call Select;
  mret (match c with CtxDone err => Some err | _ => None end).

Fixpoint cleanup_loop (fuel : nat) (o : Operator) : controlM (option (option error)) :=
  match fuel with
  | O => mret None
  | S fuel =>
      _ ← operator (Tick o);
      drained ← operator (Drained o);
      match drained with
      | inr true => mret (Some None)
      | _ =>
          stop ← interval;
          match stop with Some err => mret (Some (Some err)) | None => cleanup_loop fuel o end
      end
  end.
Definition RunCleanup (fuel : nat) (o : Operator) : controlM (option (option error)) := cleanup_loop fuel (Drain o).

Fixpoint recovery_loop (fuel : nat) (o : Operator) : controlM (option (option error)) :=
  match fuel with
  | O => mret None
  | S fuel =>
      _ ← operator (Tick o);
      stop ← interval;
      match stop with Some err => mret (Some (Some err)) | None => recovery_loop fuel o end
  end.
Definition RunRecovery (fuel : nat) (o : Operator) : controlM (option (option error)) :=
  recovery_loop fuel (PauseAdmissions true o).

(** ** The session (operator.go) *)

Definition tick_result (o : Operator) : controlM (option error) := '(e, _) ← operator (Tick o); mret e.

Fixpoint session_loop (fuel : nat) (o : Operator) : controlM (option (option error)) :=
  match fuel with
  | O => mret None
  | S fuel =>
      c ← call Select;
      match c with
      | CtxDone err => mret (Some (Some err))
      | ListenerDone err => mret (Some err)
      | TickerFired =>
          e ← tick_result o;
          _ ← call (SetReady (isNone e));
          session_loop fuel o
      end
  end.

(** From the lookup of the scale set on; the deferred calls run when it returns. *)
Definition with_listener (fuel : nat) (o : Operator) (startupErr : option error) : controlM (option (option error)) :=
  e ← call NewListener;
  match e with
  | Some err => mret (Some (Some err))
  | None =>
      _ ← call StartListener;
      _ ← call (SetReady (isNone startupErr));
      r ← session_loop fuel o;
      match r with None => mret None | Some r => _ ← call JoinListener; mret (Some r) end
  end.

Definition with_session (fuel : nat) (o : Operator) (startupErr : option error) : controlM (option (option error)) :=
  name ← call (GetRunnerScaleSetByID (ScaleSetID (op_Config o)));
  match name with
  | inl err => mret (Some (Some (errorf_w "scale-set lookup failed" err)))
  | inr name =>
      if name <>s cfg_Name (op_Config o) then mret (Some (Some (errors_new "scale-set name mismatch")))
      else
        e ← call (MessageSessionClient (ScaleSetID (op_Config o)));
        match e with
        | Some err => mret (Some (Some (errorf_w "scale-set session failed" err)))
        | None =>
            r ← with_listener fuel o startupErr;
            match r with None => mret None | Some r => _ ← call CloseSession; mret (Some r) end
        end
  end.

Definition runLeader (fuel : nat) (o : Operator) : controlM (option (option error)) :=
  _ ← call (SetReady false);
  startupErr ← tick_result o;
  ctx ← call ControlCtxErr;
  r ← match ctx with
      | Some err => mret (Some (Some err))
      | None => with_session fuel o startupErr
      end;
  match r with None => mret None | Some r => _ ← call (SetReady false); mret (Some r) end.
End loops.

(** ** Properties *)

Definition lift (v : event operatorE) : event controlE :=
  match v with existT _ (e, x) => existT _ (OnOperator e, x) end.

Lemma wp_operator {R} (p : opM R) h (Q : list (event controlE) → R → Prop) :
  (∀ k r, trace_of p k r → Q (h ++ (lift <$> k)) r) → wp no_contract Q h (operator p).
Proof.
  revert h Q. induction p as [r|X e k IH]; intros h Q HQ.
  - specialize (HQ [] r (trace_ret r)). by rewrite app_nil_r in HQ.
  - apply wp_bind, wp_call. intros x _. apply IH. intros k' r Ht. rewrite <-app_assoc.
    apply (HQ (ev e x :: k') r). by constructor.
Qed.

Definition is_ready (v : event controlE) : bool :=
  match v with existT _ (e, _) => match e with SetReady ready => ready | _ => false end end.
Definition is_tick_call (v : event controlE) : bool :=
  match v with existT _ (e, _) => match e with OnOperator _ => true | _ => false end end.

Section properties.
Context `{AllocationCodec} `{FleetCodec} (o : Operator).

(** The latest tick of a history succeeded. *)
Definition tick_succeeded (h : list (event controlE)) : Prop :=
  ∃ pre k mid cooldowns, h = pre ++ (lift <$> k) ++ mid ∧ trace_of (Tick o) k (None, cooldowns)
    ∧ Forall (λ v, is_tick_call v = false) mid.

(** Ready is said with a session listened to and after a successful tick. *)
Definition ready_justified (pre : list (event controlE)) (v : event controlE) : Prop :=
  is_ready v = true → ev StartListener () ∈ pre ∧ tick_succeeded pre.
Definition justified : list (event controlE) → Prop := at_every ready_justified.

Lemma justified_snoc h v : justified h → is_ready v = false → justified (h ++ [v]).
Proof. intros Hh Hv. apply at_every_snoc; [done|]. unfold ready_justified. congruence. Qed.
#[local] Hint Resolve justified_snoc : core.

Lemma justified_lift h k : justified h → justified (h ++ (lift <$> k)).
Proof.
  intros Hh. apply (at_every_app _ (λ v, is_ready v = false)); [|done|].
  - intros pre v Hv. unfold ready_justified. congruence.
  - apply Forall_fmap. apply Forall_true. by intros [X [e x]].
Qed.

Lemma tick_succeeded_snoc h v : tick_succeeded h → is_tick_call v = false → tick_succeeded (h ++ [v]).
Proof.
  intros (pre & k & mid & cd & -> & Ht & Hm) Hv. exists pre, k, (mid ++ [v]), cd. rewrite <-!app_assoc. split_and!; [done..|].
  apply Forall_app_2; [done|by constructor].
Qed.

Lemma wp_tick h (Q : list (event controlE) → option error → Prop) :
  justified h →
  (∀ k e, justified (h ++ k) → (∃ l, k = lift <$> l) → (e = None → tick_succeeded (h ++ k)) → Q (h ++ k) e) →
  wp no_contract Q h (tick_result o).
Proof.
  intros Hh HQ. unfold tick_result. apply wp_bind, wp_operator. intros k [e cd] Ht. apply wp_ret.
  apply HQ; [by apply justified_lift|eauto|]. intros ->. exists h, k, [], cd. by rewrite app_nil_r.
Qed.

Lemma wp_set_ready {R} h (e : option error) (p : controlM R) (Q : list (event controlE) → R → Prop) :
  justified h → ev StartListener () ∈ h → (e = None → tick_succeeded h) →
  (justified (h ++ [ev (SetReady (isNone e)) ()]) → wp no_contract Q (h ++ [ev (SetReady (isNone e)) ()]) p) →
  wp no_contract Q h (call (SetReady (isNone e)) ≫= λ _, p).
Proof.
  intros Hh Hl Ht Hp. apply wp_call_bind. intros [] _. apply Hp. apply at_every_snoc; [done|].
  intros Hr. destruct e; [done|]. auto.
Qed.

Lemma wp_session_loop fuel h :
  justified h → ev StartListener () ∈ h →
  wp no_contract (λ h' _, justified h' ∧ ev StartListener () ∈ h') h (session_loop fuel o).
Proof.
  revert h. induction fuel as [|fuel IH]; intros h Hh Hl; cbn [session_loop]; [by apply wp_ret|].
  apply wp_call_bind. intros c _.
  assert (Hh' : justified (h ++ [ev Select c])) by auto.
  assert (Hl' : ev StartListener () ∈ h ++ [ev Select c]) by (rewrite elem_of_app; auto).
  destruct c as [err|err|]; [by apply wp_ret..|]. apply wp_bind, wp_tick; [done|]. intros k e Hk _ Ht.
  apply wp_set_ready; [done|rewrite elem_of_app; auto|done|]. intros Hj. apply IH; [done|]. rewrite !elem_of_app in *. tauto.
Qed.

(** Did a listener start, was a session opened? *)
Definition is_start (v : event controlE) : bool :=
  match v with existT _ (e, _) => match e with StartListener => true | _ => false end end.
Definition is_opened (v : event controlE) : bool :=
  match v with
  | existT _ (e, x) =>
      match e in controlE X return X → bool with MessageSessionClient _ => λ err, isNone err | _ => λ _, false end x
  end.
Definition started (h : list (event controlE)) : bool := existsb is_start h.
Definition opened (h : list (event controlE)) : bool := existsb is_opened h.

Lemma lift_quiet k : started (lift <$> k) = false ∧ opened (lift <$> k) = false.
Proof. induction k as [|[X [e x]] k IH]; [done|]. done. Qed.

(** How a history of the leader ends: the listener is joined, then the session
    is closed, then the worker is not ready. *)
Definition listener_joined (h : list (event controlE)) : Prop :=
  started h = true → ∃ pre, h = pre ++ [ev JoinListener ()].
Definition session_closed (h : list (event controlE)) : Prop :=
  opened h = true → ∃ pre, h = pre ++ [ev CloseSession ()] ∧ listener_joined pre.

Lemma wp_with_listener fuel startupErr h :
  justified h → started h = false → (startupErr = None → tick_succeeded h) →
  wp no_contract (λ h' r, justified h' ∧ (r ≠ None → listener_joined h')) h (with_listener fuel o startupErr).
Proof.
  intros Hh Hs Ht. unfold with_listener. apply wp_call_bind. intros [err|] _.
  { apply wp_ret. split; [auto|]. intros _. unfold listener_joined, started in *. rewrite existsb_app, Hs. done. }
  apply wp_call_bind. intros [] _. apply wp_set_ready; [auto|rewrite elem_of_app; right; by left| |].
  { intros He. by do 2 (apply tick_succeeded_snoc; [|done]); apply Ht. }
  intros Hj. apply wp_bind. eapply wp_mono; [apply wp_session_loop; [done|]|].
  { rewrite !elem_of_app. left; right. by left. }
  intros h' [r|] [Hj' _]; [|by apply wp_ret]. apply wp_call_bind. intros [] _. apply wp_ret. split; [auto|].
  intros _ _. by exists h'.
Qed.

Lemma wp_with_session fuel startupErr h :
  justified h → started h = false → opened h = false → (startupErr = None → tick_succeeded h) →
  wp no_contract (λ h' r, justified h' ∧ (r ≠ None → session_closed h')) h (with_session fuel o startupErr).
Proof.
  intros Hh Hs Ho Ht. unfold with_session.
  assert (Hstop : ∀ (v : event controlE) h, justified h → is_ready v = false → opened h = false → is_opened v = false →
    justified (h ++ [v]) ∧ (∀ r : option error, Some r ≠ None → session_closed (h ++ [v]))).
  { intros v h0 Hh0 Hv Ho0 Hv'. split; [auto|]. intros _ _. unfold session_closed, opened in *. rewrite existsb_app, Ho0. cbn. by rewrite Hv'. }
  apply wp_call_bind. intros [err|name] _; [apply wp_ret; split; [auto|]; intros _; by apply Hstop with (r := None)|].
  destruct (name <>s cfg_Name (op_Config o)); [apply wp_ret; split; [auto|]; intros _; by apply Hstop with (r := None)|].
  apply wp_call_bind. intros [err|] _.
  { apply wp_ret. split; [auto|]. intros _. unfold session_closed, opened in *. rewrite !existsb_app, Ho. done. }
  apply wp_bind. eapply wp_mono; [apply wp_with_listener|].
  - auto.
  - unfold started in *. rewrite !existsb_app, Hs. done.
  - intros He. by do 2 (apply tick_succeeded_snoc; [|done]); apply Ht.
  - intros h' [r|] [Hj Hl]; [|by apply wp_ret]. apply wp_call_bind. intros [] _. apply wp_ret. split; [auto|].
    intros _ _. exists h'. split; [done|]. by apply Hl.
Qed.

(** A worker says it is ready only while its listener runs and when its latest
    tick succeeded; and when it returns, its listener has been joined before
    its session was closed, and it is not ready. *)
Theorem leader_discipline fuel :
  ensures no_contract (runLeader fuel o) (λ h r,
    justified h ∧ (r ≠ None → ∃ pre, h = pre ++ [ev (SetReady false) ()] ∧ session_closed pre)).
Proof.
  apply wp_ensures. unfold runLeader. apply wp_call_bind. intros [] _.
  assert (Hj : justified ([] ++ [ev (SetReady false) ()])) by (apply justified_snoc; [apply at_every_nil|done]).
  apply wp_bind, wp_tick; [done|]. intros k e Hk [l ->] Ht. apply wp_call_bind. intros ctx _.
  destruct (lift_quiet l) as [Hs Ho].
  assert (Hs' : started (([] ++ [ev (SetReady false) ()]) ++ (lift <$> l)) = false)
    by (unfold started in *; rewrite !existsb_app, Hs; done).
  assert (Ho' : opened (([] ++ [ev (SetReady false) ()]) ++ (lift <$> l)) = false)
    by (unfold opened in *; rewrite !existsb_app, Ho; done).
  set (h := ([] ++ [ev (SetReady false) ()]) ++ (lift <$> l)) in *. apply wp_bind.
  eapply wp_mono with (Q := λ h' r, justified h' ∧ (r ≠ None → session_closed h')).
  - destruct ctx as [err|].
    + apply wp_ret. split; [auto|]. intros _. unfold session_closed, opened in *. rewrite existsb_app, Ho'. done.
    + apply wp_with_session; [auto|unfold started in *; rewrite existsb_app, Hs'; done|unfold opened in *; rewrite existsb_app, Ho'; done|].
      intros He. apply tick_succeeded_snoc; [by apply Ht|done].
  - intros h' [r|] [Hj' Hc]; [|by apply wp_ret]. apply wp_call_bind. intros [] _. apply wp_ret. split; [auto|].
    intros _. exists h'. split; [done|]. by apply Hc.
Qed.

(** Cleanup ends without an error only when the scale set was seen drained: by
    the last calls, every allocation ever admitted is resolved. *)
Theorem cleanup_complete fuel :
  ensures no_contract (RunCleanup fuel o) (λ h r, r = Some None →
    ∃ pre k f allocs, h = pre ++ (lift <$> k) ∧ trace_of (Drained (Drain o)) k (inr true)
      ∧ fleet_seen (Drain o) k f ∧ ev StoreList (inr allocs) ∈ k ∧ all_resolved f allocs).
Proof.
  apply wp_ensures. unfold RunCleanup. generalize (@nil (event controlE)).
  induction fuel as [|fuel IH]; intros h; cbn [cleanup_loop]; [by apply wp_ret|].
  apply wp_bind, wp_operator. intros k0 [e cd] _. apply wp_bind, wp_operator. intros k drained Ht.
  assert (Hloop : wp no_contract (λ h r, r = Some None → ∃ pre k f allocs, h = pre ++ (lift <$> k)
      ∧ trace_of (Drained (Drain o)) k (inr true) ∧ fleet_seen (Drain o) k f
      ∧ ev StoreList (inr allocs) ∈ k ∧ all_resolved f allocs) ((h ++ (lift <$> k0)) ++ (lift <$> k))
      (stop ← interval; match stop with Some err => mret (Some (Some err)) | None => cleanup_loop fuel (Drain o) end)).
  { apply wp_bind. unfold interval. apply wp_call_bind. intros [] _; apply wp_ret; [by apply wp_ret|apply IH..]. }
  destruct drained as [err|[]]; [exact Hloop| |exact Hloop]. apply wp_ret. intros _.
  destruct (drained_iff_resolved (Drain o) k _ Ht (Forall_true _ _ (λ _, I)) true eq_refl) as (f & Hf & Hcase).
  destruct Hcase as [[_ ?]|(allocs & Hin & Hiff)]; [done|].
  eexists _, k, f, allocs. split_and!; [reflexivity|done|exact Hf|done|]. by apply Hiff.
Qed.
End properties.
