(* ===== verification/RetryProps.v ===== *)
(** * Bounded reruns

    Reruns are requested only with complete evidence and within the retry
    policy, and an unresolved request blocks the next one. *)
From S2P Require Import Prelude.
From S2P Require Import Effects.
From S2P Require Import Placement.
From S2P Require Import Admission.
From S2P Require Import Recovery.
From S2P Require Import Resources.
From S2P Require Import Allocation.
From S2P Require Import State.
From S2P Require Import Overlay.
From S2P Require Import Provider.
From S2P Require Import Fleet.
From S2P Require Import Operator.
From S2P Require Import OperatorProps.
From S2P Require Import Tick.
From S2P Require Import PruneProps.

Section retries.
Context (c : Config).
#[local] Abbreviation policy := (Retry c).

Definition used (f : fleet) (run : Z) : Z := default 0 (RetriesUsedByRun f !! run).

(** The counters stay within the policy, and an unresolved request is the one
    after the retries already used. *)
Definition retry_ok (f : fleet) : Prop :=
  (∀ run, 0 ≤ used f run ≤ Z.max 0 (MaxRetries policy)) ∧
  ∀ run pr, PendingReruns f !! run = Some pr →
    pr_Attempt pr = used f run + 1 ∧ pr_Attempt pr ≤ MaxRetries policy.

Definition rerun_of (v : event operatorE) : option (string * string * Z) :=
  match v with existT _ (e, _) =>
    match e with RerunFailedJobs owner repo run => Some (owner, repo, run) | _ => None end
  end.

(** The evidence [processInterruptionRetries] assembles. *)
Definition evidence_of (a : Allocation) (n : Z) (jobs : list RESTJob) (pending : bool) : Evidence :=
  {| ev_ScaleSetJobID := ScaleSetJobID a; ev_RunnerName := ID a; ev_RunID := RunID a;
     ev_Attempt := n + 1; ev_ProviderInterrupted := true; ev_Jobs := jobs;
     ev_RetriesUsed := n; ev_RequestPending := pending |}.

(** A rerun request for [run] is justified by an interrupted allocation among
    [all], by jobs GitHub reported for the attempt after the [n] retries used,
    and by the policy. *)
Definition rerun_backed (all : list Allocation) (pre : op_history) (v : event operatorE) : Prop :=
  ∀ owner repo run, rerun_of v = Some (owner, repo, run) →
    ev StoreList (inr all) ∈ pre ∧
    ∃ a n jobs j, a ∈ all ∧ interrupted_unprocessed a = true ∧
      owner = Owner a ∧ repo = Repo a ∧ run = RunID a ∧
      ev (AttemptJobs owner repo run (n + 1)) (inr jobs) ∈ pre ∧
      rerun_justified policy (evidence_of a n jobs false) j.

Context (all : list Allocation) (base : op_history).

(** The history so far: it extends [base], in which the records were listed,
    nothing was written to the fleet, every request is backed. *)
Definition retrying (h : op_history) : Prop :=
  updates h = [] ∧ (ev StoreList (inr all) ∈ base ∧ ∀ v, v ∈ base → v ∈ h) ∧
  at_every (rerun_backed all) h.

Lemma retrying_call X (e : operatorE X) x h :
  retrying h → update_of (ev e x) = None → rerun_of (ev e x) = None → retrying (h ++ [ev e x]).
Proof.
  intros (Hu & Hl & Hr) Hup Hre. split; [by rewrite updates_app, Hu, updates_one|].
  split; [split; [apply Hl|]; intros v Hv; rewrite elem_of_app; left; by apply (proj2 Hl)|]. apply at_every_snoc; [done|]. intros owner repo run. by rewrite Hre.
Qed.
#[local] Hint Resolve retrying_call : core.

Lemma used_insert f run n run' :
  used (set_RetriesUsedByRun (<[run := n]> (RetriesUsedByRun f)) f) run' =
  if decide (run = run') then n else used f run'.
Proof. unfold used. simpl. rewrite lookup_insert. by case_decide. Qed.

Section loop.
Context (G : contract operatorE) (K : Prop).

Lemma wp_save_tolerant a h (Q : op_history → list error → Prop) :
  retrying h → (∀ h' es, retrying h' → Q h' es) → wp G Q h (save_tolerant a).
Proof. intros Hh HQ. unfold save_tolerant. intros r _. apply wp_ret, HQ. by apply retrying_call. Qed.

Lemma wp_request_rerun a f h (Q : op_history → fleet → Prop) :
  a ∈ all → interrupted_unprocessed a = true → retrying h → (K → retry_ok f) →
  (∀ h' f', retrying h' → (K → retry_ok f') → Q h' f') →
  wp G Q h (request_rerun c a f).
Proof.
  intros Ha Hi Hh Hf HQ. unfold request_rerun. apply wp_call_bind. intros [e|jobs] _.
  { apply wp_ret, HQ; auto. }
  destruct (Eligible _ _) as [e|j] eqn:He; [apply wp_ret, HQ; auto|].
  apply eligible_spec in He as Hj. fold (used f (RunID a)) in *.
  assert (PendingReruns f !! RunID a = None) as Hnp.
  { destruct Hj as (_ & _ & _ & _ & Hp & _). simpl in Hp. by destruct (PendingReruns f !! RunID a). }
  assert (used f (RunID a) < MaxRetries policy) as Hlt.
  { destruct Hj as (_ & _ & _ & [_ Hlt] & _). done. }
  apply wp_call_bind. intros re _.
  assert (retrying ((h ++ [ev (AttemptJobs (Owner a) (Repo a) (RunID a) (used f (RunID a) + 1)) (inr jobs)])
    ++ [ev (RerunFailedJobs (Owner a) (Repo a) (RunID a)) re])) as Hh'.
  { pose proof Hh as (Hu & Hl & _). split; [by rewrite !updates_app, Hu|].
    split; [split; [apply Hl|]; intros v Hv; rewrite !elem_of_app; left; left; by apply (proj2 Hl)|].
    apply at_every_snoc.
    - by apply retrying_call.
    - intros owner repo run [= <- <- <-]. split; [rewrite elem_of_app; left; by apply (proj2 Hl), Hl|]. exists a, (used f (RunID a)), jobs, j. split_and!; try done.
      + rewrite elem_of_app. right. by left.
      + by rewrite Hnp in Hj. }
  apply wp_ret, HQ; [done|]. intros HK. destruct (Hf HK) as [Hused Hpend].
  pose proof (Hused (RunID a)) as Hub. destruct re as [e|].
  - destruct (errors_is e ErrRerunRejected); [done|]. split; [done|].
    intros run pr. simpl. intros [[<- <-]|[Hne Hpr]]%lookup_insert_Some; [|by apply Hpend].
    simpl. split; [done|lia].
  - split.
    + intros run. rewrite used_insert. case_decide; [lia|apply Hused].
    + intros run pr. simpl. rewrite used_insert. intros Hpr. case_decide as Hrun; [|by apply Hpend].
      subst run. congruence.
Qed.

Lemma wp_evaluate a f h (Q : op_history → fleet * list error → Prop) :
  a ∈ all → interrupted_unprocessed a = true → retrying h → (K → retry_ok f) →
  (∀ h' f' es, retrying h' → (K → retry_ok f') → Q h' (f', es)) →
  wp G Q h (evaluate_interruption c a f).
Proof.
  intros Ha Hi Hh Hf HQ. unfold evaluate_interruption. apply wp_bind, wp_request_rerun; try done.
  intros h' f' Hh' Hf'. apply wp_bind, wp_save_tolerant; [done|]. intros h2 es Hh2. by apply wp_ret, HQ.
Qed.

Lemma retry_ok_resolved f run :
  retry_ok f → retry_ok (set_PendingReruns (delete run (PendingReruns f)) f).
Proof.
  intros [Hu Hp]. split; [done|]. intros run' pr. simpl. intros [_ Hpr]%lookup_delete_Some. by apply Hp.
Qed.

Lemma wp_retry_one a f h (Q : op_history → fleet * list error → Prop) :
  a ∈ all → interrupted_unprocessed a = true → retrying h → (K → retry_ok f) →
  (∀ h' f' es, retrying h' → (K → retry_ok f') → Q h' (f', es)) →
  wp G Q h (retry_one c a f).
Proof.
  intros Ha Hi Hh Hf HQ. unfold retry_one.
  destruct (PendingReruns f !! RunID a) as [pr|] eqn:Hpr; [|by apply wp_evaluate].
  assert (K → pr_Attempt pr = used f (RunID a) + 1 ∧ pr_Attempt pr ≤ MaxRetries policy) as Hatt
    by (intros HK; by apply (Hf HK)).
  assert (∀ h' outcome resolved, retrying h' → pr_Attempt resolved = pr_Attempt pr →
    wp G Q h' match outcome with
      | rerunConfirmedHappened =>
          let f := set_RetriesUsedByRun (<[RunID a := pr_Attempt resolved]> (RetriesUsedByRun f)) f in
          let f := set_PendingReruns (delete (RunID a) (PendingReruns f)) f in
          es ← save_tolerant (set_RetryProcessed true a); mret (f, es)
      | rerunConfirmedDidNotHappen =>
          evaluate_interruption c a (set_PendingReruns (delete (RunID a) (PendingReruns f)) f)
      | rerunStillAmbiguous =>
          evaluate_interruption c a (set_PendingReruns (<[RunID a := resolved]> (PendingReruns f)) f)
      end) as Hend.
  { intros h' outcome resolved Hh' Hres. destruct outcome.
    - apply wp_evaluate; try done. intros HK. destruct (Hf HK) as [Hu Hp].
      split; [done|]. intros run pr'. simpl.
      intros [[<- <-]|[_ Hpr']]%lookup_insert_Some; [rewrite Hres; by apply Hatt|by apply Hp].
    - cbv zeta. apply wp_bind, wp_save_tolerant; [done|]. intros h2 es Hh2. apply wp_ret, HQ; [done|].
      intros HK. destruct (Hf HK) as [Hu Hp]. specialize (Hatt HK). split.
      + intros run. change (used (set_PendingReruns _ ?g) run) with (used g run).
        rewrite used_insert. case_decide; [specialize (Hu (RunID a)); lia|apply Hu].
      + intros run pr'. simpl. intros [Hne Hpr']%lookup_delete_Some.
        change (used (set_PendingReruns _ ?g) run) with (used g run). rewrite used_insert.
        case_decide; [done|]. by apply Hp.
    - apply wp_evaluate; try done. intros HK. by apply retry_ok_resolved, Hf. }
  apply wp_bind. unfold reconcilePendingRerun. apply wp_call_bind. intros next _.
  assert (∀ x, retrying (h ++ [ev (AttemptJobs (Owner a) (Repo a) (RunID a) (pr_Attempt pr + 1)) x])) as Hh1 by auto.
  destruct next as [e|[|j js]].
  2: by apply wp_ret, (Hend _ rerunStillAmbiguous).
  2: by apply wp_ret, (Hend _ rerunConfirmedHappened).
  destruct (errors_is e ErrAttemptNotFound); [|by apply wp_ret, (Hend _ rerunStillAmbiguous)].
  cbn [negb]. cbv zeta. apply wp_call_bind.
  intros [e2|jobs] _; [apply wp_ret, (Hend _ rerunStillAmbiguous); auto|].
  destruct (existsb _ _); [destruct (_ <=? _)|]; apply wp_ret.
  - apply (Hend _ rerunConfirmedDidNotHappen (set_NotFoundPolls (pr_NotFoundPolls pr + 1) pr)); auto.
  - apply (Hend _ rerunStillAmbiguous (set_NotFoundPolls (pr_NotFoundPolls pr + 1) pr)); auto.
  - apply (Hend _ rerunStillAmbiguous (set_NotFoundPolls 0 pr)); auto.
Qed.

Lemma wp_retry_all l f h (Q : op_history → fleet * list error → Prop) :
  (∀ a, a ∈ l → a ∈ all ∧ interrupted_unprocessed a = true) → retrying h → (K → retry_ok f) →
  (∀ h' f' es, retrying h' → (K → retry_ok f') → Q h' (f', es)) →
  wp G Q h (retry_all c l f).
Proof.
  revert f h Q. induction l as [|a l IH]; intros f h Q Hl Hh Hf HQ; [by apply wp_ret, HQ|].
  cbn [retry_all]. destruct (Hl a ltac:(left)) as [Ha Hi].
  apply wp_bind, wp_retry_one; try done. intros h1 f1 es1 Hh1 Hf1.
  apply wp_bind, IH; try done; [intros b Hb; apply Hl; by right|].
  intros h2 f2 es2 Hh2 Hf2. by apply wp_ret, HQ.
Qed.
End loop.
End retries.

Section process.
Context `{FleetCodec} (o : Operator).
#[local] Abbreviation c := (op_Config o).

(** What a pass may have done. *)
Definition retry_post (h : op_history) : Prop :=
  at_every (λ pre v, is_Some (rerun_of v) → ∃ allocs, rerun_backed c allocs pre v) h ∧
  ∀ cm', cm' ∈ updates h → ∃ cm f f' s,
    fleet_read c h cm f ∧ cm' = put_fleet s cm ∧ fleet_marshal f' = inr s ∧
    (retry_ok c f → retry_ok c f').

Lemma retry_post_quiet h : quiet h → retry_post h.
Proof.
  intros Hq. split.
  - intros pre v post -> [x Hv]. apply Forall_app in Hq as [_ [Hq _]%Forall_cons].
    destruct v as [X [[] y]]; done.
  - intros cm'. rewrite updates_quiet by done. by intros ?%elem_of_nil.
Qed.

Lemma retrying_post all base h : retrying c all base h → retry_post h.
Proof.
  intros (Hu & _ & Hr). split.
  - intros pre v post Heq _. exists all. by eapply Hr.
  - intros cm'. rewrite Hu. by intros ?%elem_of_nil.
Qed.

End process.
