(* ===== verification/TickProps.v ===== *)
(** * One reconciliation pass

    An accepted admission leaves the fleet record only once the store has it;
    steps run only on records with a durable origin. *)
From S2P Require Import Prelude.
From S2P Require Import Effects.
From S2P Require Import Placement.
From S2P Require Import Admission.
From S2P Require Import Recovery.
From S2P Require Import Resources.
From S2P Require Import Allocation.
From S2P Require Import State.
From S2P Require Import Overlay.
From S2P Require Import Provider.
From S2P Require Import Fleet.
From S2P Require Import Operator.
From S2P Require Import OperatorProps.
From S2P Require Import Tick.
From S2P Require Import PruneProps.

(** ** Programs that do not write the fleet *)

(** [p] makes no fleet update and its results satisfy [R]. *)
Fixpoint calm {X} (R : X → Prop) (p : opM X) : Prop :=
  match p with
  | Ret r => R r
  | Vis e k => (∀ x, update_of (ev e x) = None) ∧ ∀ x, calm R (k x)
  end.

Lemma calm_bind {X Y} (R : X → Prop) (S : Y → Prop) (p : opM X) (g : X → opM Y) :
  calm R p → (∀ x, R x → calm S (g x)) → calm S (p ≫= g).
Proof.
  intros Hp Hg. induction p as [r|Z e k IH]; simpl in *; [by apply Hg|].
  destruct Hp as [He Hk]. split; [done|]. intros x. by apply IH.
Qed.

Lemma calm_call {X Y} (S : Y → Prop) (e : operatorE X) (g : X → opM Y) :
  (∀ x, update_of (ev e x) = None) → (∀ x, calm S (g x)) → calm S (call e ≫= g).
Proof. done. Qed.

Lemma calm_ret {X} (R : X → Prop) x : R x → calm R (mret x).
Proof. done. Qed.

Definition no_updates (h : op_history) : Prop := Forall (λ v, update_of v = None) h.

Lemma quiet_no_updates h : quiet h → no_updates h.
Proof. intros Hq. eapply Forall_impl; [exact Hq|]. by intros [X [[] x]]. Qed.

Lemma calm_wp {X} G (R : X → Prop) (p : opM X) (Q : op_history → X → Prop) h :
  calm R p → (∀ d r, no_updates d → R r → Q (h ++ d) r) → wp G Q h p.
Proof.
  revert h. induction p as [r|Z e k IH]; intros h Hp HQ; simpl in *.
  - rewrite <- (app_nil_r h). apply HQ; [constructor|done].
  - destruct Hp as [He Hk]. intros x _. apply IH; [done|]. intros d r Hd Hr. rewrite <- app_assoc.
    apply HQ; [|done]. constructor; [exact (He x)|done].
Qed.

Ltac calm_step :=
  match goal with
  | |- calm _ (mret _) => apply calm_ret
  | |- calm _ (call _ ≫= _) => apply calm_call; [reflexivity|intros ?]
  | |- calm _ (mbind _ (mret _)) => apply (calm_bind (λ _, True)); [done|intros ? _]
  | |- calm _ (match ?x with _ => _ end) => destruct x eqn:?
  | |- calm _ (mbind _ (match _ with _ => _ end)) =>
      apply (calm_bind (λ _, True)); [repeat calm_step; try done|intros ? _]
  end.

(** [f'] differs from [f] in no pending admission. *)
Definition same_pending (f f' : fleet) : Prop := fl_Pending f' = fl_Pending f.

Lemma calm_save_tolerant a : calm (λ _, True) (save_tolerant a).
Proof. done. Qed.

Lemma calm_request_rerun c a f : calm (same_pending f) (request_rerun c a f).
Proof. unfold request_rerun, same_pending. repeat (cbv zeta; calm_step); try done. by repeat case_match. Qed.

Lemma calm_evaluate c a f : calm (λ r, same_pending f (fst r)) (evaluate_interruption c a f).
Proof.
  unfold evaluate_interruption. eapply calm_bind; [apply calm_request_rerun|]. intros f' Hf'. cbv zeta.
  eapply calm_bind; [apply calm_save_tolerant|]. by intros es _.
Qed.

Lemma calm_retry_one c a f : calm (λ r, same_pending f (fst r)) (retry_one c a f).
Proof.
  unfold retry_one. destruct (_ !! _) as [pr|]; [|apply calm_evaluate].
  apply (calm_bind (λ _, True)).
  { unfold reconcilePendingRerun. repeat (cbv zeta; calm_step); done. }
  intros [outcome resolved] _. destruct outcome; [apply (calm_evaluate c a (set_PendingReruns _ f))| |
    apply (calm_evaluate c a (set_PendingReruns _ f))].
  cbv zeta. eapply calm_bind; [apply calm_save_tolerant|]. by intros es _.
Qed.

Lemma calm_retry_all c l f : calm (λ r, same_pending f (fst r)) (retry_all c l f).
Proof.
  revert f. induction l as [|a l IH]; intros f; [done|]. cbn [retry_all].
  eapply calm_bind; [apply calm_retry_one|]. intros [f1 es1] H1. simpl in H1.
  eapply calm_bind; [apply IH|]. intros [f2 es2] H2. simpl in *. unfold same_pending in *. congruence.
Qed.

Lemma calm_prune_candidates allocs f ids :
  calm (λ r, same_pending f (fst (fst r))) (prune_candidates allocs f ids).
Proof.
  revert f ids. induction allocs as [|a allocs IH]; intros f ids; [done|]. cbn [prune_candidates].
  apply (calm_bind (λ _, True)); [by destruct (is_zero _)|]. intros young _.
  destruct (_ || _); [apply IH|]. apply calm_call; [done|]. intros [err|]; [|apply (IH (set_Pruned _ f))].
  eapply calm_bind; [apply IH|]. intros [[f1 ids1] es1] H1. done.
Qed.

Lemma calm_delete_all ids : calm (λ _, True) (delete_all ids).
Proof.
  induction ids as [|id ids IH]; [done|]. cbn [delete_all]. apply calm_call; [done|]. intros e.
  eapply calm_bind; [apply IH|done].
Qed.

Lemma calm_tick_all o f cd it allocs : calm (λ _, True) (tick_all o f cd it allocs).
Proof.
  induction allocs as [|a allocs IH]; [done|]. cbn [tick_all]. apply (calm_bind (λ _, True)).
  - unfold tick_one. repeat (cbv zeta; calm_step); done.
  - intros r _. eapply calm_bind; [apply IH|]. by intros [es rs] _.
Qed.

(** ** Pending admissions *)

Section tick.
Context `{FleetCodec} (o : Operator) (G : contract operatorE).
#[local] Abbreviation c := (op_Config o).

(** The store took a record for the admission [a], or already had one under its
    name; a draining operator stores it retired. *)
Definition stored_for (h : op_history) (a : Allocation) : Prop :=
  ∃ r, ev (StoreSave (if draining o then set_Retire true a else a) "") r ∈ h ∧
    match r with inl e => errors_is e ErrConflict = true | inr _ => True end.

(** A fleet update loses no pending admission. *)
Definition keeps_pending (pre : op_history) (v : event operatorE) : Prop :=
  ∀ cm', update_of v = Some cm' → ∃ cm f f' s,
    fleet_read c pre cm f ∧ cm' = put_fleet s cm ∧ fleet_marshal f' = inr s ∧
    ∀ id a, fl_Pending f !! id = Some a → fl_Pending f' !! id = Some a ∨ stored_for pre a.

Definition kept (h : op_history) : Prop := at_every keeps_pending h.

Lemma kept_app h d : kept h → no_updates d → kept (h ++ d).
Proof.
  intros Hh. revert h Hh. induction d as [|v d IH]; intros h Hh Hd; [by rewrite app_nil_r|].
  inversion Hd as [|? ? Hv Hd']; subst. rewrite cons_middle, app_assoc. apply IH; [|done].
  apply at_every_snoc; [done|]. intros cm'. congruence.
Qed.

Lemma stored_for_mono h h' a : stored_for h a → (∀ v, v ∈ h → v ∈ h') → stored_for h' a.
Proof. intros (r & Hr & ?) Hsub. exists r. auto. Qed.

(** A save after a read of [f], when what it drops is stored. *)
Lemma wp_save_kept h cm f f' (Q : op_history → option error → Prop) :
  kept h → fleet_read c h cm f →
  (∀ id a, fl_Pending f !! id = Some a → fl_Pending f' !! id = Some a ∨ stored_for h a) →
  (∀ h' e, kept h' → Q h' e) → wp G Q h (saveFleet cm f').
Proof.
  intros Hh Hr Hp HQ.
  assert (∀ s x, fleet_marshal f' = inr s → kept (h ++ [ev (MapsUpdate (put_fleet s cm)) x])) as Hup.
  { intros s x Hs. apply at_every_snoc; [done|]. intros cm' [= <-]. exists cm, f, f', s. done. }
  apply wp_saveFleet; intros; apply HQ; auto.
Qed.

Lemma wp_materialize keys f h (Q : op_history → result fleet → Prop) :
  (∀ d e, no_updates d → Q (h ++ d) (inl e)) →
  (∀ d f', no_updates d →
     (∀ id a, fl_Pending f !! id = Some a → fl_Pending f' !! id = Some a ∨ stored_for (h ++ d) a) →
     Q (h ++ d) (inr f')) →
  wp G Q h (materialize o keys f).
Proof.
  revert f h Q. induction keys as [|id keys IH]; intros f h Q He Hr; cbn [materialize].
  { apply wp_ret. rewrite <- (app_nil_r h). apply Hr; [constructor|by left]. }
  destruct (fl_Pending f !! id) as [a|] eqn:Ha; [|by apply IH].
  apply wp_call_bind. intros r _. cbv zeta.
  assert (match r with inl e => errors_is e ErrConflict = true | inr _ => True end →
    wp G Q (h ++ [ev (StoreSave (if draining o then set_Retire true a else a) "") r])
      (materialize o keys (set_fl_Pending (delete id (fl_Pending f)) f))) as Hnext.
  { intros Hok. apply IH.
    - intros d e Hd. rewrite <- app_assoc. apply He. by constructor.
    - intros d f' Hd Hf'. rewrite <- app_assoc. apply Hr; [by constructor|]. intros id' a' Ha'.
      destruct (decide (id' = id)) as [->|Hne].
      + right. rewrite Ha in Ha'. injection Ha' as <-. exists r. split; [|done].
        rewrite elem_of_app. right. by left.
      + rewrite app_assoc. rewrite <- app_assoc in Hf' |- *. apply Hf'. simpl. by rewrite lookup_delete_ne. }
  destruct r as [e|a']; [|by apply Hnext].
  destruct (errors_is e ErrConflict) eqn:Hc; [by apply Hnext|]. apply wp_ret, He. by constructor.
Qed.

Lemma wp_retries_kept h (Q : op_history → option error → Prop) :
  kept h → (∀ h' e, kept h' → Q h' e) → wp G Q h (processInterruptionRetries o).
Proof.
  intros Hh HQ. unfold processInterruptionRetries, try.
  assert (∀ d, kept h → no_updates d → ∀ e, Q (h ++ d) e) as Hquiet by (intros; by apply HQ, kept_app).
  destruct (_ || _); [by apply wp_ret, HQ|]. apply wp_call_bind.
  intros [e|allocs] _; [apply wp_ret, Hquiet; [done|by repeat constructor]|].
  cbv zeta. destruct (length _ =? 0)%nat; [apply wp_ret, Hquiet; [done|by repeat constructor]|].
  assert (kept (h ++ [ev StoreList (inr allocs)])) as Hh1 by (apply kept_app; [done|by repeat constructor]).
  apply wp_bind, wp_loadFleet.
  { intros h' e Hq. apply wp_ret, HQ, kept_app; [done|by apply quiet_no_updates]. }
  intros h' cm f Hq Hr. apply wp_bind. eapply calm_wp; [apply calm_retry_all|].
  intros d [f' es] Hd Hf'. apply wp_bind. simpl in Hf'.
  apply (wp_save_kept _ cm f); [| | |intros h2 e Hk; by apply wp_ret, HQ].
  - apply kept_app; [|done]. apply kept_app; [done|by apply quiet_no_updates].
  - eapply fleet_read_mono; [done|]. intros v. rewrite !elem_of_app. tauto.
  - intros id a Ha. left. by rewrite Hf'.
Qed.

Lemma wp_prune_kept allocs h (Q : op_history → option error → Prop) :
  kept h → (∀ h' e, kept h' → Q h' e) → wp G Q h (pruneTerminalAllocations o allocs).
Proof.
  intros Hh HQ. unfold pruneTerminalAllocations, try.
  destruct (hasRunners o); [|by apply wp_ret, HQ]. cbn [negb]. apply wp_bind, wp_loadFleet.
  { intros h' e Hq. apply wp_ret, HQ, kept_app; [done|by apply quiet_no_updates]. }
  intros h' cm f Hq Hr. apply wp_bind. eapply calm_wp; [apply calm_prune_candidates|].
  intros d [[f' ids] es] Hd Hf'. simpl in Hf'. apply wp_bind.
  assert (kept ((h ++ h') ++ d)) as Hk.
  { apply kept_app; [|done]. apply kept_app; [done|by apply quiet_no_updates]. }
  assert (∀ h2 e, kept h2 → wp G Q h2 match e with
      | Some err => mret (errors_join (es ++ [err]))
      | None => es0 ← delete_all ids; mret (errors_join (es ++ es0))
      end) as Hend.
  { intros h2 [err|] Hk2; [by apply wp_ret, HQ|]. apply wp_bind.
    eapply calm_wp; [apply calm_delete_all|]. intros d2 es2 Hd2 _. by apply wp_ret, HQ, kept_app. }
  destruct (length ids =? 0)%nat; [by apply wp_ret, (Hend _ None)|].
  apply (wp_save_kept _ cm f); [done| | |done].
  - eapply fleet_read_mono; [done|]. intros v. rewrite !elem_of_app. tauto.
  - intros id a Ha. left. by rewrite Hf'.
Qed.
End tick.

(** C15: no accepted admission is lost.  Every fleet a tick writes (after moving
    the pending admissions, after reruns, after pruning) still holds each
    pending admission of the fleet it was read from, unless the store confirmed
    a record for it in this tick, or already had one under that name. *)
Theorem tick_keeps_admissions `{FleetCodec} o :
  ensures no_contract (Tick o) (λ h _, at_every (keeps_pending o) h).
Proof.
  apply wp_ensures. change (λ h _, at_every (keeps_pending o) h) with
    (λ h (_ : option error * option (gmap string time)), kept o h). unfold Tick, try.
  apply wp_bind, wp_loadFleet.
  { intros h' e Hq. apply wp_ret. by apply (kept_app o [] h'), quiet_no_updates; [apply at_every_nil|]. }
  intros h0 cm f Hq Hr.
  assert (∀ x, kept o (([] ++ h0) ++ [ev (RangeKeys (fst <$> map_to_list (fl_Pending f))) x])) as Hk0.
  { intros x. apply kept_app; [|by repeat constructor].
    apply (kept_app o [] h0); [apply at_every_nil|by apply quiet_no_updates]. }
  apply wp_call_bind. intros keys _. apply wp_bind, wp_materialize.
  { intros d e Hd. by apply wp_ret, kept_app. }
  intros d f' Hd Hf'. apply wp_bind.
  apply (wp_save_kept o no_contract _ cm f); [by apply kept_app| |done|].
  { eapply fleet_read_mono; [done|]. intros v. rewrite !elem_of_app. tauto. }
  intros h1 [e|] Hk1; [by apply wp_ret|]. apply wp_call_bind.
  intros [e|allocs] _; [apply wp_ret, kept_app; [done|by repeat constructor]|].
  cbv zeta. apply wp_bind, (calm_wp _ (λ _, True)).
  { unfold pollAzureInterruptions. by destruct (hasInterruptions o). }
  intros d2 it Hd2 _. apply wp_bind. eapply calm_wp; [apply calm_tick_all|].
  intros d3 [es rs] Hd3 _. apply wp_bind, wp_retries_kept.
  { do 2 (apply kept_app; [|done]). apply kept_app; [done|by repeat constructor]. }
  intros h2 e2 Hk2. apply wp_bind, wp_prune_kept; [done|]. intros h3 e3 Hk3. by apply wp_ret.
Qed.

(** ** Steps *)

Definition stepped (v : event operatorE) : option string :=
  match v with existT _ (e, _) => match e with ControllerStep _ _ id => Some id | _ => None end end.

(** [a] may be stepped: it has an origin, and it is retired (or was, just now,
    durably) unless the operator is not draining and its lifetime is not over. *)
Definition step_allowed (o : Operator) (f : fleet) (pre : op_history) (a : Allocation) : Prop :=
  ∃ created, Created f !! ID a = Some created ∧
    (Retire a = true ∨
     (∃ a', ev (StoreSave (set_Retire true a) (Revision a)) (inr a') ∈ pre) ∨
     draining o = false ∧ ∃ now, ev TimeNow now ∈ pre ∧
       now < time_add created (seconds (MaxLifetimeSeconds (op_Config o)))).

Section steps.
Context (o : Operator) (f : fleet) (cd : gmap string time) (it : gmap string bool) (all : list Allocation).

Definition step_ok (pre : op_history) (v : event operatorE) : Prop :=
  ∀ id, stepped v = Some id → ∃ a, a ∈ all ∧ ID a = id ∧ step_allowed o f pre a.

Lemma wp_tick_one a h (Q : op_history → error + option error * gmap string time → Prop) G :
  a ∈ all → at_every step_ok h → (∀ h' r, at_every step_ok h' → Q h' r) →
  wp G Q h (tick_one o f cd it a).
Proof.
  intros Ha Hh HQ. unfold tick_one. destruct (Created f !! ID a) as [created|] eqn:Hc; [|by apply wp_ret, HQ].
  assert (∀ X (e : operatorE X) x h, stepped (ev e x) = None → at_every step_ok h →
    at_every step_ok (h ++ [ev e x])) as Hsnoc.
  { intros X e x h' Hs Hh'. apply at_every_snoc; [done|]. intros id. congruence. }
  assert (∀ h', at_every step_ok h' → step_allowed o f h' a →
    wp G Q h' (stepErr ← call (ControllerStep cd it (ID a)); updated ← call (StoreLoad (ID a));
      mret (inr (stepErr, match updated with inr u => cooldown_ends u | inl _ => ∅ end)))) as Hstep.
  { intros h' Hh' Hok. apply wp_call_bind. intros se _. apply wp_call_bind. intros u _.
    apply wp_ret, HQ, Hsnoc; [done|]. apply at_every_snoc; [done|]. intros id [= <-]. by exists a. }
  assert (∀ h', at_every step_ok h' → wp G Q h'
    (saved ← (r ← call (StoreSave (set_Retire true a) (Revision a));
              mret match r with inl e => Some e | inr _ => None end);
     match saved with
     | Some e => mret (inl e)
     | None => stepErr ← call (ControllerStep cd it (ID a)); updated ← call (StoreLoad (ID a));
         mret (inr (stepErr, match updated with inr u => cooldown_ends u | inl _ => ∅ end))
     end)) as Hretire.
  { intros h' Hh'. apply wp_bind, wp_call_bind. intros [e|a'] _; apply wp_ret; [by apply wp_ret, HQ, Hsnoc|].
    apply Hstep; [by apply Hsnoc|]. exists created. split; [done|]. right. left. exists a'.
    rewrite elem_of_app. right. by left. }
  apply wp_bind. destruct (Retire a) eqn:Hret.
  - apply wp_ret, wp_bind, wp_ret. apply Hstep; [done|]. exists created. auto.
  - destruct (draining o) eqn:Hdr; [by apply wp_ret, Hretire|].
    apply wp_call_bind. intros now _. apply wp_ret. unfold before.
    destruct (Z.ltb_spec now (time_add created (seconds (MaxLifetimeSeconds (op_Config o))))); cbn [negb];
      [|by apply Hretire, Hsnoc].
    apply wp_bind, wp_ret. apply Hstep; [by apply Hsnoc|]. exists created. split; [done|]. right. right.
    split; [done|]. exists now. split; [|done]. rewrite elem_of_app. right. by left.
Qed.

Lemma wp_tick_all allocs h (Q : op_history → list error * list (option error * gmap string time) → Prop) G :
  (∀ a, a ∈ allocs → a ∈ all) → at_every step_ok h → (∀ h' r, at_every step_ok h' → Q h' r) →
  wp G Q h (tick_all o f cd it allocs).
Proof.
  revert h Q. induction allocs as [|a allocs IH]; intros h Q Hsub Hh HQ; [by apply wp_ret, HQ|].
  cbn [tick_all]. apply wp_bind, wp_tick_one; [apply Hsub; by left|done|]. intros h1 r Hh1.
  apply wp_bind, IH; [intros b Hb; apply Hsub; by right|done|]. intros h2 [es rs] Hh2. by apply wp_ret, HQ.
Qed.
End steps.

(** Lifetimes and draining are enforced before every step.  A tick steps
    only listed records with a durable creation time; one that is past its
    maximum lifetime, or any record while draining, is stepped only retired:
    the listed record was retired, or a save that retires it succeeded first. *)
Theorem tick_steps_retired o f cd it allocs :
  ensures no_contract (tick_all o f cd it allocs) (λ h _, at_every (λ pre v, ∀ id,
    stepped v = Some id → ∃ a, a ∈ allocs ∧ ID a = id ∧ step_allowed o f pre a) h).
Proof.
  apply wp_ensures. apply (wp_tick_all o f cd it allocs); [done|apply at_every_nil|done].
Qed.
