(* ===== verification/OperatorExample.v ===== *)
(** * Executions of the operator

    Concrete runs of the operator's programs: the theorems on demand, reruns,
    pruning, draining and ticks are applied to them. *)
From S2P Require Import Prelude.
From S2P Require Import Effects.
From S2P Require Import Placement.
From S2P Require Import Admission.
From S2P Require Import Recovery.
From S2P Require Import Resources.
From S2P Require Import Allocation.
From S2P Require Import State.
From S2P Require Import Overlay.
From S2P Require Import Provider.
From S2P Require Import Fleet.
From S2P Require Import FleetProps.
From S2P Require Import Operator.
From S2P Require Import OperatorProps.
From S2P Require Import DemandProps.
From S2P Require Import Tick.
From S2P Require Import PruneProps.
From S2P Require Import RetryProps.
From S2P Require Import TickProps.
Import OverlayExample.

Module OperatorExample.
Definition now : time := PlacementExample.now.

Definition config : Config :=
  {| CatalogPath := ""; cfg_Name := "set"; Namespace := "ns"; GitHubURL := "https://github.com/org";
     ScaleSetID := 1; MaxRunners := 3; ProvisioningSeconds := 600; MaxLifetimeSeconds := 3600;
     cfg_Requirements := PlacementExample.requirements; cfg_Catalog := PlacementExample.catalog;
     cfg_Providers := ∅;
     Retry := {| Enabled := true; MaxRetries := 2; AcknowledgeRepeatedEffects := true |};
     AWSPriceRefresh := false; AzurePriceRefresh := false; GCPPriceRefresh := false;
     AzureInterruptionQueueURL := ""; cfg_NetworkProfile := "mesh";
     NetworkOverlayCIDRs := ["10.0.0.0/29"]; BudgetDailyMicros := 500000 |}.

Definition operator : Operator :=
  {| op_Config := config; hasAWSPrices := false; hasAzurePrices := false; hasGCPPrices := false;
     hasInterruptions := false; hasGitHubJobs := true; hasRunners := true; paused := false;
     draining := false |}.

(** A record of this operator. *)
Definition record (id : string) (phase : Phase) (condition : string) (terminal : time) : Allocation :=
  set_TerminalAt terminal (set_Condition condition (set_Phase phase (set_Repo "repo" (set_Owner "org"
    (set_RunID 7 (new_allocation config PlacementExample.catalog id now "")))))).

Definition interrupted : Allocation :=
  record "rs-a" Deleted "ResourceAbsentConfirmedInterruption" (now - 25 * Hour).

Definition empty_fleet : fleet :=
  {| BindingVersion := 2; fl_Condition := ""; Binding := ""; Released := ∅;
     fl_Admission := {| Cohort := 0; st_Admitted := 0; ResetObserved := false |}; Created := ∅;
     Reserved := ∅; fl_Pending := ∅; RetriesUsedByRun := ∅; PendingReruns := ∅; Pruned := ∅ |}.

(** A fleet with one admission pending and one interrupted allocation released. *)
Definition busy_fleet : fleet :=
  set_fl_Pending {["rs-b" := new_allocation config PlacementExample.catalog "rs-b" now ""]}
    (set_Created {["rs-a" := now - 26 * Hour; "rs-b" := now]} (set_Released {["rs-a" := true]} empty_fleet)).

#[export] Instance codec : FleetCodec := {|
  fleet_marshal := λ _, inr "saved";
  fleet_unmarshal := λ s, if s =s "busy" then inr busy_fleet else inr empty_fleet;
  fingerprint := λ _, "fp"
|}.

Definition fleet_map (text : string) : ConfigMap :=
  {| cm_Name := "set-fleet"; cm_ResourceVersion := "v1"; cm_Labels := {[owner_label := "set"]};
     cm_Data := {[fleet_key := text]} |}.

Definition failed : RESTJob :=
  {| job_ID := 70; job_RunID := 7; job_Attempt := 1; job_RunnerName := "rs-a";
     job_Status := "completed"; job_Conclusion := "failure" |}.

Definition timeout : error := errors_new "timeout".

(** An environment: the fleet text, the listed records, the answers to fleet
    updates and rerun requests; names are drawn from a counter. *)
Section env.
Context (text : string) (listing : list Allocation) (update : result ConfigMap) (rerun : option error).
Definition env (X : Type) (e : operatorE X) (n : nat) : nat * X :=
  match e in operatorE X return nat * X with
  | MapsGet _ => (n, inr (fleet_map text))
  | MapsCreate cm => (n, inr cm)
  | MapsUpdate _ => (n, update)
  | StoreList => (n, inr listing)
  | StoreLoad _ => (n, inl (Err "not found" [APINotFound]))
  | StoreSave a _ => (n, inr a)
  | StoreDelete _ => (n, None)
  | TimeNow => (n, now)
  | NewUUID => (S n, String (ascii_of_nat (48 + n)) "")
  | RangeKeys keys => (n, keys)
  | ReadCatalog _ => (n, None)
  | AWSObserve _ _ _ => (n, inl timeout)
  | AzureObserve _ _ _ => (n, inl timeout)
  | GCPObserve _ _ _ _ => (n, inl timeout)
  | PollInterruptions => (n, inr [])
  | ControllerStep _ _ _ => (n, None)
  | Deregister _ => (n, None)
  | AttemptJobs _ _ _ attempt => (n, if attempt =? 1 then inr [failed] else inl (errors_new "unavailable"))
  | RerunFailedJobs _ _ _ => (n, rerun)
  end.

Definition history {R} (p : opM R) : op_history := run_history env p 0%nat.
Definition outcome {R} (p : opM R) : R := snd (run env p 0%nat).

Lemma history_trace {R} (p : opM R) : trace_of p (history p) (outcome p).
Proof. apply run_trace. Qed.
End env.

Definition no_catalog (s : string) : result (Catalog * bool) := inl (errors_new "").
Definition saved : result ConfigMap := inr (fleet_map "saved").
Definition lost : result ConfigMap := inl (Err "conflict" [APIConflict]).

Definition demand_history : op_history :=
  history "{}" [] saved None (HandleDesiredRunnerCount no_catalog operator 5).
End OperatorExample.

Section witnesses.
Import OperatorExample.

Lemma demand_trace :
  trace_of (HandleDesiredRunnerCount no_catalog operator 5) demand_history
    (outcome "{}" [] saved None (HandleDesiredRunnerCount no_catalog operator 5)).
Proof. exact (history_trace "{}" [] saved None _). Qed.

(** Five runners are wanted, three allowed, two affordable. *)
Lemma demand_admits_two : uuids demand_history = ["0"; "1"] ∧ updates demand_history = [fleet_map "saved"].
Proof. split; vm_compute; reflexivity. Qed.

Lemma any_trace {E R} (p : prog E R) h r : trace_of p h r → Forall (respects no_contract) h.
Proof. intros _. by apply Forall_true. Qed.

Lemma demand_batch_witness :
  uuids demand_history = ["0"; "1"] ∧
  ∃ cm f allocs (uts : list (string * time)), fleet_read config demand_history cm f ∧
    ev StoreList (inr allocs) ∈ demand_history ∧ uuids demand_history = uts.*1.
Proof.
  split; [apply demand_admits_two|].
  destruct (demand_batch no_catalog operator 5 _ _ demand_trace (any_trace _ _ _ demand_trace)
    (fleet_map "saved")) as (cm & f & allocs & uts & f' & s & H1 & H2 & _ & _ & H3 & _).
  - rewrite (proj2 demand_admits_two). left.
  - exists cm, f, allocs, uts. exact (conj H1 (conj H2 H3)).
Defined.

Lemma example_config_ok : config_ok config.
Proof. unfold config_ok. repeat split; try (vm_compute; discriminate). Qed.

Lemma demand_clock : Forall (respects clock_contract) demand_history.
Proof.
  apply (run_respects (env "{}" [] saved None) (λ _, True) clock_contract); [|done].
  intros X e n n' x _ He. split; [done|]. destruct e; try done. injection He as _ <-.
  vm_compute. reflexivity.
Qed.

Lemma demand_keeps_fleet_witness :
  ∃ cm f f' s, fleet_read config demand_history cm f ∧ fleet_map "saved" = put_fleet s cm ∧
    (fleet_ok f → fleet_ok f').
Proof.
  destruct (demand_keeps_fleet no_catalog operator 5 example_config_ok _ _ demand_trace demand_clock
    (fleet_map "saved")) as (cm & f & f' & s & H1 & H2 & _ & H3).
  - rewrite (proj2 demand_admits_two). left.
  - exists cm, f, f', s. exact (conj H1 (conj H2 H3)).
Defined.

Lemma demand_within_budget_witness :
  uuids demand_history ≠ [] ∧ ∃ cm f allocs now, fleet_read config demand_history cm f ∧
    (fleet_ok f → spent (fst (release f allocs)) allocs now + 2 * 200000 ≤ 500000).
Proof.
  assert (uuids demand_history ≠ []) as Hne by (rewrite (proj1 demand_admits_two); discriminate).
  split; [exact Hne|].
  destruct (demand_within_budget no_catalog operator 5 example_config_ok eq_refl _ _ demand_trace
    (any_trace _ _ _ demand_trace) (fleet_map "saved")) as (cm & f & allocs & t & H1 & _ & _ & H2).
  - rewrite (proj2 demand_admits_two). left.
  - exact Hne.
  - exists cm, f, allocs, t. split; [exact H1|]. intros Hf. specialize (H2 Hf).
    rewrite (proj1 demand_admits_two) in H2. exact H2.
Defined.

Lemma release_once_witness :
  release busy_fleet [interrupted] = (busy_fleet, 0) ∧
  fst (release empty_fleet [interrupted]) ≠ empty_fleet ∧
  release (fst (release empty_fleet [interrupted])) [interrupted] =
    (fst (release empty_fleet [interrupted]), 0).
Proof.
  split; [vm_compute; reflexivity|]. split; [vm_compute; discriminate|].
  pose proof (release_once empty_fleet [interrupted] ltac:(vm_compute; discriminate)) as H.
  destruct (release empty_fleet [interrupted]) as [f n] eqn:Hr. destruct H as (Hn & _ & _ & _ & _ & Hi).
  simpl. rewrite Hi, Hn. reflexivity.
Defined.

Lemma overlay_batch_distinct_witness :
  ∃ l, overlay_batch ["10.0.0.0/29"] 2 ∅ = inr l ∧ NoDup l.
Proof.
  destruct (overlay_batch ["10.0.0.0/29"] 2 ∅) as [e|l] eqn:Hl; [vm_compute in Hl; discriminate|].
  exists l. split; [reflexivity|].
  refine (proj1 (proj2 (overlay_batch_distinct ["10.0.0.0/29"] 2 ∅ l _ Hl))).
  intros c p [->|[]%elem_of_nil]%elem_of_cons [= <-]. vm_compute. reflexivity.
Defined.

Lemma failed_refresh_blocks_witness :
  ∃ err, Choose now PlacementExample.requirements
    {| Offerings := [observe_offering (inl timeout) (PlacementExample.offering "a" true 40000);
                     PlacementExample.offering "b" true 40000];
       Complete := {["aws" := true]} |} ∅ = inl err.
Proof.
  apply (failed_refresh_blocks now PlacementExample.requirements _ ∅
    (PlacementExample.offering "a" true 40000) timeout); [left|vm_compute; reflexivity].
Defined.

(** ** Pruning, reruns and ticks *)

Definition prune_history : op_history :=
  history "busy" [interrupted] saved None (pruneTerminalAllocations operator [interrupted]).

Lemma prune_confirmed_witness :
  ∃ pre v post, prune_history = pre ++ v :: post ∧ deleted_id v = Some "rs-a" ∧
    ev (Deregister "rs-a") None ∈ pre.
Proof.
  pose proof (history_trace "busy" [interrupted] saved None (pruneTerminalAllocations operator [interrupted])) as Ht.
  pose proof (prune_confirmed operator [interrupted] _ _ Ht (any_trace _ _ _ Ht)) as Hall.
  assert (prune_history = take 4 prune_history ++ nth 4 prune_history (ev TimeNow 0) :: drop 5 prune_history)
    as Heq by (vm_compute; reflexivity).
  eexists _, _, _. split; [exact Heq|]. split; [vm_compute; reflexivity|].
  destruct (Hall _ _ _ Heq) as (id & cm & f & f' & s & cm' & Hid & _ & Hmay & _).
  - vm_compute. eexists. reflexivity.
  - vm_compute in Hid. injection Hid as <-.
    destruct Hmay as (a & t & _ & _ & _ & _ & _ & _ & Hd). exact Hd.
Defined.

Definition drained_history : op_history :=
  history "{}" [] saved None (Drained operator).

Lemma drained_iff_resolved_witness :
  outcome "{}" [] saved None (Drained operator) = inr true ∧
  ∃ f, fleet_seen operator drained_history f.
Proof.
  split; [vm_compute; reflexivity|].
  pose proof (history_trace "{}" [] saved None (Drained operator)) as Ht.
  destruct (drained_iff_resolved operator _ _ Ht (any_trace _ _ _ Ht) true) as (f & Hf & _).
  - vm_compute. reflexivity.
  - exists f. exact Hf.
Defined.

Definition rerun_history (update : result ConfigMap) (rerun : option error) : op_history :=
  history "busy" [interrupted] update rerun (processInterruptionRetries operator).


Lemma tick_keeps_admissions_witness :
  at_every (keeps_pending operator) (history "busy" [interrupted] saved None (Tick operator)).
Proof.
  pose proof (history_trace "busy" [interrupted] saved None (Tick operator)) as Ht.
  exact (tick_keeps_admissions operator _ _ Ht (any_trace _ _ _ Ht)).
Defined.

Lemma tick_steps_retired_witness :
  at_every (λ pre v, ∀ id, stepped v = Some id →
      ∃ a, a ∈ [interrupted] ∧ ID a = id ∧ step_allowed operator busy_fleet pre a)
    (history "busy" [] saved None (tick_all operator busy_fleet ∅ ∅ [interrupted])).
Proof.
  pose proof (history_trace "busy" [] saved None (tick_all operator busy_fleet ∅ ∅ [interrupted])) as Ht.
  exact (tick_steps_retired operator busy_fleet ∅ ∅ [interrupted] _ _ Ht (any_trace _ _ _ Ht)).
Defined.

(** Every answer to a fleet update is the loss. *)
Definition update_lost : contract operatorE := λ X e,
  match e in operatorE X return X → Prop with MapsUpdate _ => λ x, x = lost | _ => λ _, True end.

(** An ambiguous rerun request is not durable before it is made.  When
    GitHub's answer to the request is lost and the fleet update after it fails,
    no durable record of the request remains: the next pass over the same
    fleet and record requests the same rerun again. *)
Theorem ambiguous_rerun_repeats :
  let h := rerun_history lost (Some timeout) in
  let request := ev (RerunFailedJobs "org" "repo" 7) (Some timeout) in
  request ∈ h ∧
  (∀ cm x, ev (MapsUpdate cm) x ∈ h → x = lost) ∧
  outcome "busy" [interrupted] lost (Some timeout) (processInterruptionRetries operator) ≠ None ∧
  request ∈ rerun_history saved (Some timeout).
Proof.
  split_and!.
  - apply (list_elem_of_lookup_2 _ 3). vm_compute. reflexivity.
  - assert (Forall (respects update_lost) (rerun_history lost (Some timeout))) as H.
    { apply (run_respects (env "busy" [interrupted] lost (Some timeout)) (λ _, True) update_lost); [|done].
      intros X e n n' x _ He. split; [done|]. destruct e; try done. by injection He as _ <-. }
    intros cm x Hin. rewrite Forall_forall in H. exact (H _ Hin).
  - vm_compute. discriminate.
  - apply (list_elem_of_lookup_2 _ 3). vm_compute. reflexivity.
Qed.
End witnesses.
