(* ===== verification/Api.v ===== *)
(** * Configuration objects
    (api/v1alpha1/types.go; the part of [metav1.ObjectMeta] the sources read)

    Defaults and bounds of the CRD schema are enforced by the API server and
    are not part of the types. *)
From S2P Require Import Prelude.
From S2P Require Import Placement.
From S2P Require Import Recovery.

Module Api.
Record ObjectMeta := {
  om_Name : string;
  om_Namespace : string;
  om_UID : string;
  om_ResourceVersion : string;
  om_Generation : Z;
  om_DeletionTimestamp : option time;
  om_Finalizers : list string
}.

Record Condition := {
  cond_Type : string;
  cond_Status : string;
  cond_Reason : string;
  cond_ObservedGeneration : Z;
  cond_LastTransitionTime : time
}.
Record ConfigurationStatus := { st_ObservedGeneration : Z; st_Conditions : list Condition }.

Record SecretKeyReference := { sk_Name : string; sk_Key : string }.

Record ProviderConnection := {
  pcn_Kind : string;
  pcn_AccountID : string;
  pcn_Subscription : string;
  pcn_ResourceGroup : string;
  pcn_SSHPublicKey : string;
  pcn_Project : string;
  pcn_Profile : string;
  pcn_Subnet : string;
  pcn_SecurityGroup : string
}.
Record ProviderConfigSpec := {
  Connection : ProviderConnection;
  CredentialEnvironment : gmap string SecretKeyReference
}.
Record ProviderConfig := {
  pcf_Meta : ObjectMeta;
  pcf_Spec : ProviderConfigSpec;
  pcf_Status : ConfigurationStatus
}.

(** [Resources] *)
Record ClassResources := {
  res_CPU : Z;
  res_MemoryMiB : Z;
  res_Architecture : string;
  res_Vendor : string;
  res_Capabilities : list string
}.
Record PlacementPolicy := {
  pp_Policy : string;
  pp_Regions : list string;
  pp_MaxPriceMicros : Z;
  pp_AllowOnDemand : bool
}.

(** A [LocalReference] is its name; [RetryPolicy] has the fields of
    [recovery.Policy]. *)
Record RunnerClassSpec := {
  rc_Resources : ClassResources;
  rc_Placement : PlacementPolicy;
  rc_Providers : list string;
  CatalogRef : string;
  NetworkRef : option string;
  rc_Retry : Policy
}.
Record RunnerClass := {
  rc_Meta : ObjectMeta;
  rc_Spec : RunnerClassSpec;
  rc_Status : ConfigurationStatus
}.

Record GitHubAuthentication := {
  auth_Mode : string;
  auth_SecretRef : SecretKeyReference;
  AppClientID : string;
  AppInstallationID : Z
}.
Record GitHubScaleSet := {
  gh_URL : string;
  gh_ScaleSetID : Z;
  gh_Auth : GitHubAuthentication
}.
Record RunnerScaleSetSpec := {
  RunnerClassRef : string;
  ss_GitHub : GitHubScaleSet;
  ss_MaxRunners : Z;
  ss_ProvisioningSeconds : Z;
  ss_MaxLifetimeSeconds : Z;
  ss_Suspend : bool;
  BudgetRef : option string
}.
Record RunnerScaleSet := {
  ss_Meta : ObjectMeta;
  ss_Spec : RunnerScaleSetSpec;
  ss_Status : ConfigurationStatus
}.

(** [Offering] has the fields of [placement.Offering], which mirrors it. *)
Record CapacityCatalogSpec := {
  cc_Offerings : list Offering;
  cc_Complete : gmap string bool;
  PriceRefresh : gmap string bool
}.
Record CapacityCatalog := {
  cc_Meta : ObjectMeta;
  cc_Spec : CapacityCatalogSpec;
  cc_Status : ConfigurationStatus
}.

Record NetworkMapping := {
  nm_ProviderRef : string;
  nm_Region : string;
  nm_NetworkID : string;
  nm_SubnetID : string;
  nm_CIDRs : list string
}.
Record NetworkProfileSpec := {
  np_Mode : string;
  np_Mappings : list NetworkMapping;
  np_AllowedServices : list string;
  np_EnrollmentRef : option SecretKeyReference
}.
Record NetworkProfile := {
  np_Meta : ObjectMeta;
  np_Spec : NetworkProfileSpec;
  np_Status : ConfigurationStatus
}.

Record CapacityBudget := {
  cb_Meta : ObjectMeta;
  DailyBudgetMicros : Z;               (* [Spec.DailyBudgetMicros] *)
  cb_Status : ConfigurationStatus
}.
End Api.
