(* ===== verification/ConfigCheck.v ===== *)
(** * Validation of the operator's configuration
    (internal/operator/operator.go, [Config.Validate];
     internal/provider/credentials.go, [CredentialVariable])

    The name grammars of k8s.io/apimachinery and [url.Parse] are the class
    [NameRules]. *)
From S2P Require Import Prelude.
From S2P Require Import Effects.
From S2P Require Import Placement.
From S2P Require Import Admission.
From S2P Require Import Recovery.
From S2P Require Import Resources.
From S2P Require Import Allocation.
From S2P Require Import State.
From S2P Require Import Overlay.
From S2P Require Import Provider.
From S2P Require Import Fleet.
From S2P Require Import FleetProps.
From S2P Require Import Operator.
From S2P Require Import OperatorProps.
From S2P Require Import DemandProps.

(** The parts of a parsed URL. *)
Record URL := {
  url_Scheme : string;
  url_Host : string;
  url_User : bool;                     (* [User != nil] *)
  url_RawQuery : string;
  url_Fragment : string;
  url_Path : string
}.

Class NameRules := {
  IsDNS1123Label : string → bool;
  IsDNS1123Subdomain : string → bool;
  IsConfigMapKey : string → bool;
  url_Parse : string → result URL
}.

(** The first error of a list of checks. *)
Fixpoint first_error (checks : list (option error)) : option error :=
  match checks with
  | [] => None
  | Some e :: _ => Some e
  | None :: checks' => first_error checks'
  end.

Definition reject (b : bool) (msg : string) : option error := if b then Some (errors_new msg) else None.

Section validate.
Context `{NetText} `{NameRules}.

(** [err != nil || prefix != prefix.Masked()] *)
Definition canonical_cidr (cidr : string) : bool :=
  match ParsePrefix cidr with inl _ => false | inr p => bool_decide (p = Masked p) end.

Definition check_github_url (s : string) : option error :=
  reject match url_Parse s with
         | inl _ => true
         | inr u => (url_Scheme u <>s "https") || (url_Host u <>s "github.com") || url_User u
                    || (url_RawQuery u <>s "") || (url_Fragment u <>s "") || (strings_trim (url_Path u) "/" =s "")
         end "GitHub.com organization or repository HTTPS URL required".

Definition check_network (c : Config) : option error :=
  first_error
    [reject ((cfg_NetworkProfile c <>s "") && negb (IsDNS1123Label (cfg_NetworkProfile c)))
       "invalid network profile name";
     reject ((cfg_NetworkProfile c =s "") && negb (length (NetworkOverlayCIDRs c) =? 0)%nat)
       "overlay CIDRs require a wireguard network profile";
     if cfg_NetworkProfile c <>s "" then
       first_error
         [reject (length (NetworkOverlayCIDRs c) =? 0)%nat "wireguard network profile requires overlay CIDRs";
          reject (negb (forallb canonical_cidr (NetworkOverlayCIDRs c))) "invalid overlay CIDR"]
     else None].

Definition check_provider (c : Config) (name : string) : option error :=
  match cfg_Providers c !! name with
  | None => Some (errors_new "missing provider configuration")
  | Some p =>
      first_error
        [ValidateName name;
         reject (pc_Owner p <>s cfg_Name c) "provider owner must match controller name";
         Command_Validate p]
  end.

(** [Config.Validate] *)
Definition Config_Validate (c : Config) : option error :=
  first_error
    ([ValidateName (cfg_Name c);
      check_network c;
      reject ((Namespace c =s "") || (ScaleSetID c <? 1) || (MaxRunners c <? 1) || (10 <? MaxRunners c)
              || (ProvisioningSeconds c <? 1) || (600 <? ProvisioningSeconds c)
              || (MaxLifetimeSeconds c <? ProvisioningSeconds c) || (21600 <? MaxLifetimeSeconds c))
        "invalid namespace, scale set, capacity or time limits";
      reject (BudgetDailyMicros c <? 0) "budget ceiling cannot be negative";
      check_github_url (GitHubURL c);
      Validate (cfg_Requirements c)]
     ++ (check_provider c <$> req_Providers (cfg_Requirements c))).

(** ** Properties *)

Lemma first_error_None checks : first_error checks = None ↔ ∀ e, e ∈ checks → e = None.
Proof.
  induction checks as [|[e|] checks IH]; simpl.
  - split; [by intros _ e ?%elem_of_nil|done].
  - split; [done|]. intros Hall. specialize (Hall (Some e) ltac:(left)). done.
  - rewrite IH. setoid_rewrite elem_of_cons. naive_solver.
Qed.

Lemma reject_None b msg : reject b msg = None ↔ b = false.
Proof. by destruct b. Qed.

(** What a provider entry of a valid configuration satisfies. *)
Definition provider_ok (c : Config) (name : string) : Prop :=
  ∃ p, cfg_Providers c !! name = Some p ∧ ValidateName name = None ∧ pc_Owner p = cfg_Name c ∧
    Command_Validate p = None.

Lemma check_provider_None c name : check_provider c name = None ↔ provider_ok c name.
Proof.
  unfold check_provider, provider_ok. destruct (cfg_Providers c !! name) as [p|]; [|naive_solver].
  rewrite first_error_None. split.
  - intros Hall. exists p. split; [done|]. split; [by apply Hall; left|].
    split; [|by apply Hall; right; right; left].
    assert (reject (pc_Owner p <>s cfg_Name c) "provider owner must match controller name" = None) as Hr
      by (apply Hall; right; left).
    apply reject_None in Hr. by reflect in Hr.
  - intros (p' & [= <-] & H1 & H2 & H3) e He.
    repeat (apply elem_of_cons in He as [->|He]; [try done|]); [|by apply elem_of_nil in He].
    apply reject_None. by reflect.
Qed.

(** The network part: a profile has canonical CIDRs, no profile has none. *)
Definition network_ok (c : Config) : Prop :=
  cfg_NetworkProfile c = "" ∧ NetworkOverlayCIDRs c = [] ∨
  cfg_NetworkProfile c ≠ "" ∧ IsDNS1123Label (cfg_NetworkProfile c) = true ∧ NetworkOverlayCIDRs c ≠ [] ∧
    ∀ cidr, cidr ∈ NetworkOverlayCIDRs c → ∃ p, ParsePrefix cidr = inr p ∧ p = Masked p.

Lemma canonical_cidr_spec cidr : canonical_cidr cidr = true ↔ ∃ p, ParsePrefix cidr = inr p ∧ p = Masked p.
Proof.
  unfold canonical_cidr. destruct (ParsePrefix cidr) as [|p]; [naive_solver|].
  rewrite bool_decide_eq_true. naive_solver.
Qed.

Lemma check_network_None c : check_network c = None ↔ network_ok c.
Proof.
  unfold check_network, network_ok. cbn [first_error].
  destruct (String.eqb_spec (cfg_NetworkProfile c) "") as [Hn|Hn]; cbn [negb andb reject].
  - destruct (NetworkOverlayCIDRs c) as [|x l]; cbn [length Nat.eqb negb reject]; [naive_solver|].
    split; [done|]. intros [[_ ?]|[? _]]; done.
  - destruct (IsDNS1123Label (cfg_NetworkProfile c)); cbn [negb reject]; [|naive_solver].
    destruct (NetworkOverlayCIDRs c) as [|x l] eqn:Hl; [naive_solver|]. cbn [length Nat.eqb reject].
    destruct (forallb canonical_cidr (x :: l)) eqn:Hf; cbn [negb reject].
    + split; [|done]. intros _. right. split_and!; try done. intros cidr Hc.
      apply canonical_cidr_spec. rewrite forallb_elem in Hf. by apply Hf.
    + split; [done|]. intros [[? _]|(_ & _ & _ & Hall)]; [done|].
      assert (forallb canonical_cidr (x :: l) = true) as Ht; [|congruence].
      apply forallb_elem. intros cidr Hc. by apply canonical_cidr_spec, Hall.
Qed.

(** What validation establishes. *)
Definition config_valid (c : Config) : Prop :=
  ValidateName (cfg_Name c) = None ∧ network_ok c ∧ Namespace c ≠ "" ∧ 1 ≤ ScaleSetID c ∧
  1 ≤ MaxRunners c ≤ 10 ∧ 1 ≤ ProvisioningSeconds c ≤ 600 ∧
  ProvisioningSeconds c ≤ MaxLifetimeSeconds c ≤ 21600 ∧ 0 ≤ BudgetDailyMicros c ∧
  check_github_url (GitHubURL c) = None ∧ Validate (cfg_Requirements c) = None ∧
  ∀ name, name ∈ req_Providers (cfg_Requirements c) → provider_ok c name.

Lemma first_error_Forall checks : first_error checks = None ↔ Forall (λ e, e = None) checks.
Proof. by rewrite first_error_None, Forall_forall. Qed.

Lemma validate_spec c : Config_Validate c = None ↔ config_valid c.
Proof.
  unfold Config_Validate, config_valid. rewrite first_error_Forall, Forall_app, !Forall_cons, Forall_nil.
  rewrite Forall_fmap, Forall_forall. unfold compose. setoid_rewrite check_provider_None.
  rewrite check_network_None, !reject_None. reflect. intuition lia.
Qed.

End validate.

(** [credentialVariables] and [CredentialVariable] *)
Definition credentialVariables (kind : string) : list string :=
  if kind =s "aws" then
    ["AWS_ACCESS_KEY_ID"; "AWS_SECRET_ACCESS_KEY"; "AWS_SESSION_TOKEN"; "AWS_SHARED_CREDENTIALS_FILE";
     "AWS_CONFIG_FILE"; "AWS_WEB_IDENTITY_TOKEN_FILE"; "AWS_ROLE_ARN"]
  else if kind =s "azure" then
    ["AZURE_CLIENT_ID"; "AZURE_TENANT_ID"; "AZURE_FEDERATED_TOKEN_FILE"; "AZURE_CLIENT_SECRET";
     "AZURE_CLIENT_CERTIFICATE_PATH"; "AZURE_CLIENT_CERTIFICATE_PASSWORD"; "AZURE_CLIENT_SEND_CERTIFICATE_CHAIN"]
  else if kind =s "gcp" then
    ["GOOGLE_APPLICATION_CREDENTIALS"; "CLOUDSDK_AUTH_CREDENTIAL_FILE_OVERRIDE"; "GCP_BILLING_API_KEY"]
  else [].

Definition CredentialVariable (kind name : string) : bool := slices_contains (credentialVariables kind) name.
