(* ===== verification/Scope.v ===== *)
(** * The credential scope of a provider
    (internal/provider/credentials.go, newGCPSDK of gcp_credentials.go)

    [NewCommand] takes an environment, checks it and builds the one identity it
    selects; [azure_credentials] is the credential an Azure client uses
    (azure_sdk.go).  The process environment, the certificate file and the SDKs'
    credential constructors are calls. *)
From S2P Require Import Prelude.
From S2P Require Import Effects.
From S2P Require Import Provider.
From S2P Require Import ConfigCheck.
From S2P Require Import Credentials.
From S2P Require Import GcpCredentials.

(** The Azure credential that is constructed. *)
Inductive AzureCredential :=
  | WorkloadIdentity (client tenant file : string)
  | ClientSecret (tenant client secret : string)
  | ClientCertificate (tenant client certificate : string) (chain : bool)
  | ManagedIdentity (client : string).

(** The credential [AzureSDK] selects by the environment of the process when it
    was given none. *)
Inductive AmbientCredential := AmbientWorkload | AmbientEnvironment | AmbientManaged (client : string).

Inductive scopeE : Type → Type :=
  | LookupEnv (name : string) : scopeE (option string)
  | ReadCertificate (path : string) : scopeE (result string)
  | ParseCertificates (data password : string) : scopeE (option error)
  | NewAzureCredential (c : AzureCredential) : scopeE (option error)
  | NewAmbientCredential (c : AmbientCredential) : scopeE (option error)
  | NewComputeService : scopeE (option error)
  | OnGcp {X} (e : gcpCredE X) : scopeE X.

Abbreviation scopeM := (prog scopeE).

(** What the command authenticates with. *)
Inductive Scope :=
  | AzureScope (c : AzureCredential)
  | AwsScope (values : gmap string string) (profile : string)
  | GcpScope (file : option gcpFileCredential) (billingAPIKey : string).

Definition scope_error {A} (text : string) : scopeM (result A) := mret (inl (errors_new text)).

(** [strconv.ParseBool] *)
Definition ParseBool (s : string) : option bool :=
  if slices_contains ["1"; "t"; "T"; "true"; "TRUE"; "True"] s then Some true
  else if slices_contains ["0"; "f"; "F"; "false"; "FALSE"; "False"] s then Some false
  else None.

(** ** Azure *)

Section azure.
Context (env : gmap string string).
Notation value := (map_get "" env).

Definition azure_modes : nat :=
  length (filter (λ v, v ≠ "") [value "AZURE_FEDERATED_TOKEN_FILE"; value "AZURE_CLIENT_SECRET"; value "AZURE_CLIENT_CERTIFICATE_PATH"]).

(** The credentials are incomplete or ambiguous. *)
Definition azure_ambiguous : bool :=
  (1 <? azure_modes)%nat
  || (azure_modes =? 1)%nat && ((value "AZURE_CLIENT_ID" =s "") || (value "AZURE_TENANT_ID" =s ""))
  || (azure_modes =? 0)%nat && (value "AZURE_TENANT_ID" <>s "")
  || (value "AZURE_CLIENT_CERTIFICATE_PATH" =s "")
     && ((value "AZURE_CLIENT_CERTIFICATE_PASSWORD" <>s "") || (value "AZURE_CLIENT_SEND_CERTIFICATE_CHAIN" <>s "")).

Definition constructed (c : AzureCredential) : scopeM (result AzureCredential) :=
  e ← call (NewAzureCredential c);
  mret (match e with Some err => inl err | None => inr c end).

Definition azure_certificate (client tenant certificate : string) : scopeM (result AzureCredential) :=
  data ← call (ReadCertificate certificate);
  match data with
  | inl err => mret (inl err)
  | inr data =>
      e ← call (ParseCertificates data (value "AZURE_CLIENT_CERTIFICATE_PASSWORD"));
      match e with
      | Some err => mret (inl err)
      | None =>
          let chain := value "AZURE_CLIENT_SEND_CERTIFICATE_CHAIN" in
          if chain <>s "" then
            match ParseBool chain with
            | None => scope_error "invalid syntax"
            | Some chain => constructed (ClientCertificate tenant client certificate chain)
            end
          else constructed (ClientCertificate tenant client certificate false)
      end
  end.

Definition azureCredential : scopeM (result AzureCredential) :=
  let client := value "AZURE_CLIENT_ID" in
  let tenant := value "AZURE_TENANT_ID" in
  let file := value "AZURE_FEDERATED_TOKEN_FILE" in
  let secret := value "AZURE_CLIENT_SECRET" in
  let certificate := value "AZURE_CLIENT_CERTIFICATE_PATH" in
  if azure_ambiguous then scope_error "incomplete or ambiguous Azure credentials"
  else if file <>s "" then constructed (WorkloadIdentity client tenant file)
  else if secret <>s "" then constructed (ClientSecret tenant client secret)
  else if certificate <>s "" then azure_certificate client tenant certificate
  else constructed (ManagedIdentity client).
End azure.

(** [AzureSDK.credentials]: the first call decides, later ones repeat it. *)
Record AzureSDK := {
  sdk_Credential : option AzureCredential;
  sdk_once : option (result (AzureCredential + AmbientCredential))
}.

Definition getenv (name : string) : scopeM string := v ← call (LookupEnv name); mret (default "" v).

Definition ambient (c : AmbientCredential) : scopeM (result (AzureCredential + AmbientCredential)) :=
  e ← call (NewAmbientCredential c);
  mret match e with Some err => inl err | None => inr (inr c) end.

Definition select_credential (a : AzureSDK) : scopeM (result (AzureCredential + AmbientCredential)) :=
  match sdk_Credential a with
  | Some c => mret (inr (inl c))
  | None =>
      file ← getenv "AZURE_FEDERATED_TOKEN_FILE";
      if file <>s "" then ambient AmbientWorkload
      else
        secret ← getenv "AZURE_CLIENT_SECRET";
        certificate ← (if secret <>s "" then mret "" else getenv "AZURE_CLIENT_CERTIFICATE_PATH");
        if (secret <>s "") || (certificate <>s "") then ambient AmbientEnvironment
        else
          id ← getenv "AZURE_CLIENT_ID";
          ambient (AmbientManaged id)
  end.

Definition azure_credentials (a : AzureSDK) : scopeM (AzureSDK * result (AzureCredential + AmbientCredential)) :=
  match sdk_once a with
  | Some r => mret (a, r)
  | None =>
      r ← select_credential a;
      mret ({| sdk_Credential := sdk_Credential a; sdk_once := Some r |}, r)
  end.

(** ** AWS *)

(** The sources of an AWS environment are mixed or incomplete. *)
Definition aws_ambiguous (values : gmap string string) (profile : string) : bool :=
  let set := λ name, map_get "" values name <>s "" in
  let static := set "AWS_ACCESS_KEY_ID" || set "AWS_SECRET_ACCESS_KEY" || set "AWS_SESSION_TOKEN" in
  let web := set "AWS_ROLE_ARN" || set "AWS_WEB_IDENTITY_TOKEN_FILE" in
  let files := set "AWS_SHARED_CREDENTIALS_FILE" || set "AWS_CONFIG_FILE" in
  static && (negb (set "AWS_ACCESS_KEY_ID") || negb (set "AWS_SECRET_ACCESS_KEY") || web || (profile <>s "")
             || set "AWS_SHARED_CREDENTIALS_FILE")
  || web && (negb (set "AWS_ROLE_ARN") || negb (set "AWS_WEB_IDENTITY_TOKEN_FILE") || (profile <>s "") || files)
  || (profile <>s "") && negb files.

(** ** The command *)

(** The variables of the kind that the process has. *)
Fixpoint lookup_all (names : list string) (values : gmap string string) : scopeM (gmap string string) :=
  match names with
  | [] => mret values
  | name :: names =>
      v ← call (LookupEnv name);
      lookup_all names (match v with Some v => <[name := v]> values | None => values end)
  end.

Definition invalid_variable (kind : string) (kv : string * string) : bool :=
  negb (CredentialVariable kind kv.1) || (kv.2 =s "") || strings_contains_any kv.2 (String (ascii_of_N 0) "").

Section command.
Context `{GcpJSON}.

Definition newGCPSDK (environment : gmap string string) : scopeM (result Scope) :=
  credential ← interp (λ X e, call (OnGcp e)) (gcpCredential environment);
  match credential with
  | inl err => mret (inl err)
  | inr file =>
      e ← call NewComputeService;
      match e with
      | Some _ => scope_error "GCP client configuration invalid"
      | None => mret (inr (GcpScope file (map_get "" environment "GCP_BILLING_API_KEY")))
      end
  end.

Definition NewCommand (c : ProviderConfig) (environment : option (gmap string string)) : scopeM (result Scope) :=
  match Command_Validate c with
  | Some err => mret (inl err)
  | None =>
      values ← match environment with
               | None => lookup_all (credentialVariables (pc_Kind c)) ∅
               | Some environment => mret environment
               end;
      if existsb (invalid_variable (pc_Kind c)) (map_to_list values)
      then scope_error "invalid provider credential environment"
      else if pc_Kind c =s "azure" then
        credential ← azureCredential values;
        match credential with
        | inl _ => scope_error "Azure credential configuration invalid"
        | inr credential => mret (inr (AzureScope credential))
        end
      else if (pc_Kind c =s "aws") && aws_ambiguous values (Profile c)
      then scope_error "incomplete or ambiguous AWS credentials"
      else if pc_Kind c =s "gcp" then newGCPSDK values
      else mret (inr (AwsScope values (Profile c)))
  end.
End command.

(** ** One identity *)

(** Static keys, or a web identity, or files (and a profile of them), never two. *)
Definition aws_source (values : gmap string string) (profile : string) : Prop :=
  let v := map_get "" values in
  (v "AWS_ACCESS_KEY_ID" ≠ "" ∧ v "AWS_SECRET_ACCESS_KEY" ≠ "" ∧ v "AWS_ROLE_ARN" = "" ∧ v "AWS_WEB_IDENTITY_TOKEN_FILE" = ""
   ∧ profile = "" ∧ v "AWS_SHARED_CREDENTIALS_FILE" = "")
  ∨ (v "AWS_ACCESS_KEY_ID" = "" ∧ v "AWS_SECRET_ACCESS_KEY" = "" ∧ v "AWS_SESSION_TOKEN" = ""
     ∧ v "AWS_ROLE_ARN" ≠ "" ∧ v "AWS_WEB_IDENTITY_TOKEN_FILE" ≠ ""
     ∧ profile = "" ∧ v "AWS_SHARED_CREDENTIALS_FILE" = "" ∧ v "AWS_CONFIG_FILE" = "")
  ∨ (v "AWS_ACCESS_KEY_ID" = "" ∧ v "AWS_SECRET_ACCESS_KEY" = "" ∧ v "AWS_SESSION_TOKEN" = ""
     ∧ v "AWS_ROLE_ARN" = "" ∧ v "AWS_WEB_IDENTITY_TOKEN_FILE" = ""
     ∧ (profile ≠ "" → v "AWS_SHARED_CREDENTIALS_FILE" ≠ "" ∨ v "AWS_CONFIG_FILE" ≠ "")).

Lemma aws_ambiguous_spec values profile : aws_ambiguous values profile = false ↔ aws_source values profile.
Proof.
  unfold aws_ambiguous, aws_source. cbv zeta.
  generalize (map_get "" values "AWS_ACCESS_KEY_ID") (map_get "" values "AWS_SECRET_ACCESS_KEY")
    (map_get "" values "AWS_SESSION_TOKEN") (map_get "" values "AWS_ROLE_ARN") (map_get "" values "AWS_WEB_IDENTITY_TOKEN_FILE")
    (map_get "" values "AWS_SHARED_CREDENTIALS_FILE") (map_get "" values "AWS_CONFIG_FILE").
  intros a b c d e f g.
  destruct (String.eqb_spec a ""), (String.eqb_spec b ""), (String.eqb_spec c ""), (String.eqb_spec d ""),
    (String.eqb_spec e ""), (String.eqb_spec f ""), (String.eqb_spec g ""), (String.eqb_spec profile "");
    cbn; intuition congruence.
Qed.

(** What a constructed Azure credential says of the environment it came from. *)
Definition azure_source (env : gmap string string) (c : AzureCredential) : Prop :=
  let v := map_get "" env in
  match c with
  | WorkloadIdentity client tenant file =>
      client = v "AZURE_CLIENT_ID" ∧ tenant = v "AZURE_TENANT_ID" ∧ file = v "AZURE_FEDERATED_TOKEN_FILE"
      ∧ client ≠ "" ∧ tenant ≠ "" ∧ v "AZURE_CLIENT_SECRET" = "" ∧ v "AZURE_CLIENT_CERTIFICATE_PATH" = ""
  | ClientSecret tenant client secret =>
      client = v "AZURE_CLIENT_ID" ∧ tenant = v "AZURE_TENANT_ID" ∧ secret = v "AZURE_CLIENT_SECRET"
      ∧ client ≠ "" ∧ tenant ≠ "" ∧ v "AZURE_FEDERATED_TOKEN_FILE" = "" ∧ v "AZURE_CLIENT_CERTIFICATE_PATH" = ""
  | ClientCertificate tenant client certificate _ =>
      client = v "AZURE_CLIENT_ID" ∧ tenant = v "AZURE_TENANT_ID" ∧ certificate = v "AZURE_CLIENT_CERTIFICATE_PATH"
      ∧ client ≠ "" ∧ tenant ≠ "" ∧ v "AZURE_FEDERATED_TOKEN_FILE" = "" ∧ v "AZURE_CLIENT_SECRET" = ""
  | ManagedIdentity client =>
      client = v "AZURE_CLIENT_ID" ∧ v "AZURE_TENANT_ID" = "" ∧ v "AZURE_FEDERATED_TOKEN_FILE" = ""
      ∧ v "AZURE_CLIENT_SECRET" = "" ∧ v "AZURE_CLIENT_CERTIFICATE_PATH" = ""
  end.

(** Only calls that read no variable of the process. *)
Definition no_lookup (v : event scopeE) : Prop :=
  match v with existT _ (e, _) => match e with LookupEnv _ => False | _ => True end end.

Lemma azure_modes_spec env :
  let v := map_get "" env in
  azure_ambiguous env = false →
  (v "AZURE_FEDERATED_TOKEN_FILE" ≠ "" →
     azure_source env (WorkloadIdentity (v "AZURE_CLIENT_ID") (v "AZURE_TENANT_ID") (v "AZURE_FEDERATED_TOKEN_FILE")))
  ∧ (v "AZURE_FEDERATED_TOKEN_FILE" = "" → v "AZURE_CLIENT_SECRET" ≠ "" →
     azure_source env (ClientSecret (v "AZURE_TENANT_ID") (v "AZURE_CLIENT_ID") (v "AZURE_CLIENT_SECRET")))
  ∧ (v "AZURE_FEDERATED_TOKEN_FILE" = "" → v "AZURE_CLIENT_SECRET" = "" → v "AZURE_CLIENT_CERTIFICATE_PATH" ≠ "" → ∀ chain,
     azure_source env (ClientCertificate (v "AZURE_TENANT_ID") (v "AZURE_CLIENT_ID") (v "AZURE_CLIENT_CERTIFICATE_PATH") chain))
  ∧ (v "AZURE_FEDERATED_TOKEN_FILE" = "" → v "AZURE_CLIENT_SECRET" = "" → v "AZURE_CLIENT_CERTIFICATE_PATH" = "" →
     azure_source env (ManagedIdentity (v "AZURE_CLIENT_ID"))).
Proof.
  cbv zeta. unfold azure_ambiguous, azure_modes, azure_source. cbv zeta.
  generalize (map_get "" env "AZURE_CLIENT_ID") (map_get "" env "AZURE_TENANT_ID")
    (map_get "" env "AZURE_FEDERATED_TOKEN_FILE") (map_get "" env "AZURE_CLIENT_SECRET") (map_get "" env "AZURE_CLIENT_CERTIFICATE_PATH").
  intros client tenant file secret certificate. rewrite !filter_cons, filter_nil.
  repeat case_decide; cbn [length Nat.ltb Nat.leb Nat.eqb andb orb]; intros Hno; try done; reflect in Hno; intuition.
Qed.

Ltac no_lookups := unfold constructed, scope_error; emit.

Lemma azure_calls env : emits no_lookup (azureCredential env).
Proof. unfold azureCredential, azure_certificate. no_lookups. Qed.

Lemma wp_azure env h :
  wp no_contract (λ _ r, ∀ c, r = inr c → azure_source env c) h (azureCredential env).
Proof.
  unfold azureCredential. destruct (azure_ambiguous env) eqn:Ha; [by apply wp_ret|].
  destruct (azure_modes_spec env Ha) as (Hw & Hs & Hc & Hm).
  assert (Hcon : ∀ c h, azure_source env c → wp no_contract (λ _ r, ∀ c, r = inr c → azure_source env c) h (constructed c)).
  { intros c h' Hsrc. unfold constructed. apply wp_call_bind. intros [err|] _; apply wp_ret; [done|]. by intros c' [= <-]. }
  destruct (map_get "" env "AZURE_FEDERATED_TOKEN_FILE" =s "") eqn:Hfile; cbn [negb]; reflect in Hfile; [|auto].
  destruct (map_get "" env "AZURE_CLIENT_SECRET" =s "") eqn:Hsecret; cbn [negb]; reflect in Hsecret; [|auto].
  destruct (map_get "" env "AZURE_CLIENT_CERTIFICATE_PATH" =s "") eqn:Hcert; cbn [negb]; reflect in Hcert; [auto|].
  unfold azure_certificate, scope_error. wp_explore; try done; auto.
Qed.

Lemma gcp_calls `{GcpJSON} env : emits no_lookup (newGCPSDK env).
Proof.
  unfold newGCPSDK. apply emits_bind; [|intros []; no_lookups].
  generalize (gcpCredential env). intros p. induction p as [r|X e k IH]; [apply emits_ret|].
  cbn [interp]. apply emits_bind; [by apply emits_call|done].
Qed.

(** A client that was given a credential uses it and reads nothing of the
    process; and a client never changes its credential. *)
Lemma azure_credentials_given a :
  ensures no_contract (azure_credentials a) (λ h '(a', r),
    (∀ c, sdk_Credential a = Some c → sdk_once a = None → h = [] ∧ r = inr (inl c)) ∧
    azure_credentials a' = mret (a', r)).
Proof.
  apply wp_ensures. unfold azure_credentials. destruct (sdk_once a) as [r|] eqn:Ho.
  { apply wp_ret. split; [done|]. by rewrite Ho. }
  apply wp_bind. eapply wp_mono; [apply (wp_and _ (λ h r, ∀ c, sdk_Credential a = Some c → h = [] ∧ r = inr (inl c)) (λ _ _, True));
    [|apply wp_true]|].
  - unfold select_credential. destruct (sdk_Credential a) as [c|]; [apply wp_ret; by intros c' [= <-]|].
    eapply wp_mono; [apply wp_true|]. done.
  - intros h r [Hr _]. apply wp_ret. split; [|done]. intros c Hc _. by apply Hr.
Qed.

(** What the scope of a configuration is. *)
Definition scope_of (c : ProviderConfig) (values : gmap string string) (s : Scope) : Prop :=
  (∀ name v, values !! name = Some v → CredentialVariable (pc_Kind c) name = true ∧ v ≠ "")
  ∧ match s with
    | AwsScope vs profile => pc_Kind c = "aws" ∧ vs = values ∧ profile = Profile c ∧ aws_source values profile
    | AzureScope credential => pc_Kind c = "azure" ∧ azure_source values credential
    | GcpScope _ key => pc_Kind c = "gcp" ∧ key = map_get "" values "GCP_BILLING_API_KEY"
    end.

Lemma validated_kind c : Command_Validate c = None → pc_Kind c = "aws" ∨ pc_Kind c = "azure" ∨ pc_Kind c = "gcp".
Proof.
  unfold Command_Validate. intros Hv. repeat case_match; simplify_eq;
    repeat match goal with H : _ && _ = true |- _ => reflect in H end; tauto.
Qed.

Lemma valid_variables kind (values : gmap string string) :
  existsb (invalid_variable kind) (map_to_list values) = false →
  ∀ name v, values !! name = Some v → CredentialVariable kind name = true ∧ v ≠ "".
Proof.
  intros He name v Hv. destruct (invalid_variable kind (name, v)) eqn:Hi.
  - exfalso. assert (existsb (invalid_variable kind) (map_to_list values) = true); [|congruence].
    apply existsb_exists. exists (name, v). split; [|done]. apply list_elem_of_In. by apply elem_of_map_to_list.
  - unfold invalid_variable in Hi. reflect in Hi. cbn in Hi. tauto.
Qed.

Lemma wp_new_command `{GcpJSON} c values h :
  existsb (invalid_variable (pc_Kind c)) (map_to_list values) = false → Command_Validate c = None →
  wp no_contract (λ _ r, ∀ s, r = inr s → scope_of c values s) h
    (if pc_Kind c =s "azure" then
       credential ← azureCredential values;
       match credential with
       | inl _ => scope_error "Azure credential configuration invalid"
       | inr credential => mret (inr (AzureScope credential))
       end
     else if (pc_Kind c =s "aws") && aws_ambiguous values (Profile c)
     then scope_error "incomplete or ambiguous AWS credentials"
     else if pc_Kind c =s "gcp" then newGCPSDK values
     else mret (inr (AwsScope values (Profile c)))).
Proof.
  intros Hvalid Hval. pose proof (valid_variables _ _ Hvalid) as Hvars.
  destruct (String.eqb_spec (pc_Kind c) "azure") as [Hk|Hk].
  { apply wp_bind. eapply wp_mono; [apply wp_azure|]. intros h' [err|credential] Hsrc; apply wp_ret; [done|].
    intros s [= <-]. split; [done|]. split; [done|]. by apply Hsrc. }
  destruct (_ && _) eqn:Ha; [by apply wp_ret|].
  destruct (String.eqb_spec (pc_Kind c) "gcp") as [Hg|Hg].
  { unfold newGCPSDK. apply wp_bind. eapply wp_mono; [apply wp_true|]. intros h' [err|file] _; [by apply wp_ret|].
    apply wp_call_bind. intros [err|] _; apply wp_ret; [done|]. by intros s [= <-]. }
  apply wp_ret. intros s [= <-]. split; [done|].
  assert (Hkind : pc_Kind c = "aws") by (destruct (validated_kind c Hval) as [|[|]]; done).
  split_and!; try done. apply aws_ambiguous_spec. by rewrite Hkind in Ha.
Qed.

(** The identity of a command: its scope holds variables of its own kind only,
    and they select one identity.  An environment that is given replaces the
    deployment's completely: no variable of the process is read. *)
Theorem scope_unambiguous `{GcpJSON} c environment :
  ensures no_contract (NewCommand c (Some environment))
    (λ h r, Forall no_lookup h ∧ ∀ s, r = inr s → scope_of c environment s)
  ∧ ensures no_contract (NewCommand c None) (λ _ r, ∀ s, r = inr s → ∃ values, scope_of c values s).
Proof.
  split; apply wp_ensures.
  - apply wp_and.
    + eapply wp_mono; [apply (emits_wp no_lookup)|intros h r (k & -> & Hk); exact Hk].
      unfold NewCommand. destruct (Command_Validate c); [apply emits_ret|]. apply emits_bind; [apply emits_ret|]. intros values.
      repeat case_match; try apply emits_ret; [|apply gcp_calls].
      apply emits_bind; [apply azure_calls|]. intros []; apply emits_ret.
    + unfold NewCommand. destruct (Command_Validate c) eqn:Hv; [by apply wp_ret|]. apply wp_bind, wp_ret.
      destruct (existsb _ _) eqn:He; [by apply wp_ret|]. by apply wp_new_command.
  - unfold NewCommand. destruct (Command_Validate c) eqn:Hv; [by apply wp_ret|]. apply wp_bind.
    eapply wp_mono; [apply wp_true|]. intros h values _.
    destruct (existsb _ _) eqn:He; [by apply wp_ret|]. eapply wp_mono; [by apply wp_new_command|]. eauto.
Qed.

(** What a scope of static keys retrieves has both of them. *)
Lemma static_scope_has_keys `{GcpJSON} c environment values profile region h :
  trace_of (NewCommand c (Some environment)) h (inr (AwsScope values profile)) →
  map_get "" environment "AWS_ACCESS_KEY_ID" ≠ "" →
  ensures no_contract (retrieve values profile region) (λ _ r, ∀ v, r = inr v → HasKeys v = true).
Proof.
  intros Hnew Hkey. destruct (scope_unambiguous c environment) as [Hs _].
  destruct (Hs h _ Hnew (Forall_true _ _ (λ _, I))) as [_ Hscope]. specialize (Hscope _ eq_refl) as (_ & _ & -> & -> & Hsrc).
  assert (Hsecret : map_get "" environment "AWS_SECRET_ACCESS_KEY" ≠ "") by (unfold aws_source in Hsrc; tauto).
  apply wp_ensures. unfold retrieve. apply wp_call_bind. intros [err|] _; [by apply wp_ret|].
  rewrite (proj2 (String.eqb_neq _ _) Hkey). cbn [negb]. apply wp_ret. intros v [= <-].
  unfold HasKeys. cbn [AccessKeyID SecretAccessKey]. by reflect.
Qed.
