(* ===== verification/Compile.v ===== *)
(** * Compiling configuration objects
    (internal/configapi/compile.go)

    [Compile] resolves the objects of one scale set into the operator's
    configuration.  Where the source ranges over a map and stops at the first
    error, the order here is that of [map_to_list]; only which of several
    errors is reported depends on it. *)
From S2P Require Import Prelude.
From S2P Require Import Effects.
From S2P Require Import Placement.
From S2P Require Import Recovery.
From S2P Require Import Overlay.
From S2P Require Import Provider.
From S2P Require Import Fleet.
From S2P Require Import ConfigCheck.
From S2P Require Import Api.
Import Api.

Definition errUnsupported (what : string) : error :=
  Err ("configuration requires an unimplemented runtime capability: " +:+ what) [ErrUnsupported].

(** [Snapshot] *)
Record Snapshot := {
  sn_ScaleSet : RunnerScaleSet;
  sn_Class : RunnerClass;
  sn_Catalog : CapacityCatalog;
  sn_Providers : gmap string Api.ProviderConfig;
  sn_Network : option NetworkProfile;
  sn_Budget : option CapacityBudget
}.

Record Resolved := {
  rs_Config : Config;
  rs_Auth : GitHubAuthentication;
  rs_Credentials : gmap string (gmap string SecretKeyReference);
  rs_Suspend : bool
}.

(** [prefix.Overlaps(o)] of two valid prefixes: they agree on the bits of the
    shorter one. *)
Definition Overlaps (p o : Prefix) : bool :=
  let minBits := Z.min (pfx_Bits p) (pfx_Bits o) in
  Bool.eqb (Is4 (pfx_Addr p)) (Is4 (pfx_Addr o)) &&
  (Z.shiftr (addr_val (pfx_Addr p)) (BitLen (pfx_Addr p) - minBits)
   =? Z.shiftr (addr_val (pfx_Addr o)) (BitLen (pfx_Addr p) - minBits)).

Definition str_le (s t : string) : Prop := str_ltb t s = false.
#[export] Instance str_le_dec s t : Decision (str_le s t).
Proof. unfold str_le. apply _. Defined.

(** [slices.Sort] *)
Definition sort_strings (l : list string) : list string := merge_sort str_le l.

Section compile.
Context `{NetText} `{NameRules}.

Definition object (meta : ObjectMeta) (namespace name : string) : option error :=
  first_error
    [reject ((om_Namespace meta <>s namespace) || (om_Name meta <>s name)
             || negb (IsDNS1123Label name) || negb (IsDNS1123Label namespace))
       "invalid or cross-namespace object reference";
     reject (isSome (om_DeletionTimestamp meta)) "configuration dependency is being deleted"].

Definition secret (ref : SecretKeyReference) : option error :=
  reject (negb (IsDNS1123Subdomain (sk_Name ref)) || negb (IsConfigMapKey (sk_Key ref)) || (sk_Key ref =s ""))
    "invalid Secret key reference".

Definition check_auth (auth : GitHubAuthentication) : option error :=
  if auth_Mode auth =s "pat" then
    reject ((AppClientID auth <>s "") || negb (AppInstallationID auth =? 0))
      "PAT authentication cannot contain App settings"
  else if auth_Mode auth =s "app" then
    reject ((AppClientID auth =s "") || (AppInstallationID auth <=? 0))
      "App authentication requires client and installation identity"
  else Some (errors_new "unsupported GitHub authentication mode").

Definition check_retry (retry : Policy) (auth : GitHubAuthentication) : option error :=
  if Enabled retry && (auth_Mode auth <>s "pat")
  then Some (errUnsupported "retry execution for App authentication")
  else reject (negb (Enabled retry) && (negb (MaxRetries retry =? 0) || AcknowledgeRepeatedEffects retry))
         "disabled retries cannot contain active retry settings".

Definition provider_config (owner : string) (c : ProviderConnection) : Provider.ProviderConfig :=
  {| AccountID := pcn_AccountID c; Subscription := pcn_Subscription c; ResourceGroup := pcn_ResourceGroup c;
     SSHPublicKey := pcn_SSHPublicKey c; pc_Kind := pcn_Kind c; Project := pcn_Project c;
     Profile := pcn_Profile c; Subnet := pcn_Subnet c; SecurityGroup := pcn_SecurityGroup c; pc_Owner := owner;
     WireGuardControllerURL := ""; AzureDiskControllerType := "" |}.

(** The checks of [CredentialEnvironment]. *)
Definition check_credentials (spec : ProviderConfigSpec) : option error :=
  first_error ((λ '(name, ref),
    if negb (CredentialVariable (pcn_Kind (Connection spec)) name)
    then Some (errors_new "provider credential environment variable is not allowed")
    else secret ref) <$> map_to_list (CredentialEnvironment spec)).

(** The loop over the class's providers: the configurations, the credentials
    and the names in order of reference. *)
Fixpoint compile_providers (s : Snapshot) (refs : list string)
    (providers : gmap string Provider.ProviderConfig) (credentials : gmap string (gmap string SecretKeyReference))
    (names : list string)
    : result (gmap string Provider.ProviderConfig * gmap string (gmap string SecretKeyReference) * list string) :=
  match refs with
  | [] => inr (providers, credentials, names)
  | ref :: refs' =>
      match sn_Providers s !! ref with
      | None => inl (errors_new "referenced provider is missing")
      | Some p =>
          match first_error
            [reject (isSome (providers !! ref)) "duplicate provider reference";
             object (pcf_Meta p) (om_Namespace (ss_Meta (sn_ScaleSet s))) ref;
             check_credentials (pcf_Spec p)] with
          | Some err => inl err
          | None =>
              compile_providers s refs'
                (<[ref := provider_config (om_Name (ss_Meta (sn_ScaleSet s))) (Connection (pcf_Spec p))]> providers)
                (<[ref := CredentialEnvironment (pcf_Spec p)]> credentials)
                (names ++ [ref])
          end
      end
  end.

(** The loop over one mapping's CIDRs. *)
Fixpoint check_cidrs (cidrs : list string) (prefixes : list Prefix) : result (list Prefix) :=
  match cidrs with
  | [] => inr prefixes
  | cidr :: cidrs' =>
      match ParsePrefix cidr with
      | inl _ => inl (errors_new "network CIDR must be a canonical prefix")
      | inr prefix =>
          if negb (bool_decide (prefix = Masked prefix))
          then inl (errors_new "network CIDR must be a canonical prefix")
          else if existsb (Overlaps prefix) prefixes then inl (errors_new "overlapping network CIDRs")
          else check_cidrs cidrs' (prefixes ++ [prefix])
      end
  end.

Definition mapping_key (provider region : string) : string := provider +:+ "/" +:+ region.

(** The loop over the mappings. *)
Fixpoint check_mappings (regions : list string) (providers : gmap string Provider.ProviderConfig)
    (mappings : list NetworkMapping) (seen : gset string) (prefixes : list Prefix)
    : result (gset string * list Prefix) :=
  match mappings with
  | [] => inr (seen, prefixes)
  | m :: mappings' =>
      let key := mapping_key (nm_ProviderRef m) (nm_Region m) in
      let invalid := inl (errors_new "invalid or duplicate provider network mapping") in
      match providers !! nm_ProviderRef m with
      | None => invalid
      | Some p =>
          if bool_decide (key ∈ seen) || (nm_NetworkID m =s "") || (nm_SubnetID m <>s Subnet p)
             || negb (slices_contains regions (nm_Region m)) || (length (nm_CIDRs m) =? 0)%nat
          then invalid
          else match check_cidrs (nm_CIDRs m) prefixes with
          | inl err => inl err
          | inr prefixes => check_mappings regions providers mappings' ({[key]} ∪ seen) prefixes
          end
      end
  end.

Definition check_mode (spec : NetworkProfileSpec) : option error :=
  if (np_Mode spec <>s "separate") && (np_Mode spec <>s "wireguard")
  then Some (errUnsupported "shared network integration")
  else if np_Mode spec =s "separate" then
    reject (isSome (np_EnrollmentRef spec) || negb (length (np_AllowedServices spec) =? 0)%nat)
      "separate networking cannot enroll peers or imply overlay access rules"
  else
    first_error
      [reject (negb (length (np_AllowedServices spec) =? 0)%nat)
         "wireguard networking does not define overlay access rules for AllowedServices";
       match np_EnrollmentRef spec with Some ref => secret ref | None => None end;
       reject (negb (length (np_Mappings spec) =? 1)%nat) "wireguard networking supports exactly one network mapping"].

(** [network]: the profile name and the overlay pool of wireguard mode. *)
Definition network (s : Snapshot) (providers : gmap string Provider.ProviderConfig) : result (string * list string) :=
  let regions := pp_Regions (rc_Placement (rc_Spec (sn_Class s))) in
  match NetworkRef (rc_Spec (sn_Class s)), sn_Network s with
  | None, Some _ => inl (errors_new "unreferenced network configuration")
  | None, None => inr ("", [])
  | Some _, None => inl (errors_new "referenced network configuration is missing")
  | Some ref, Some n =>
      match first_error [object (np_Meta n) (om_Namespace (ss_Meta (sn_ScaleSet s))) ref; check_mode (np_Spec n)] with
      | Some err => inl err
      | None =>
          match check_mappings regions providers (np_Mappings (np_Spec n)) ∅ [] with
          | inl err => inl err
          | inr (seen, _) =>
              if negb (forallb (λ name, existsb (λ m, nm_ProviderRef m =s name) (np_Mappings (np_Spec n)))
                         (fst <$> map_to_list providers))
              then inl (errors_new "network profile does not cover every allowed provider")
              else if existsb (λ o, isSome (providers !! off_Provider o) && slices_contains regions (off_Region o)
                                    && negb (bool_decide (mapping_key (off_Provider o) (off_Region o) ∈ seen)))
                        (cc_Offerings (cc_Spec (sn_Catalog s)))
              then inl (errors_new "catalog offering lacks a network mapping")
              else if np_Mode (np_Spec n) =s "wireguard"
              then inr (om_Name (np_Meta n), match np_Mappings (np_Spec n) with m :: _ => nm_CIDRs m | [] => [] end)
              else inr ("", [])
          end
      end
  end.

Definition resolve_budget (s : Snapshot) : result Z :=
  match BudgetRef (ss_Spec (sn_ScaleSet s)), sn_Budget s with
  | Some _, None => inl (errors_new "referenced budget configuration is missing")
  | Some ref, Some b =>
      match object (cb_Meta b) (om_Namespace (ss_Meta (sn_ScaleSet s))) ref with
      | Some err => inl err
      | None => inr (DailyBudgetMicros b)
      end
  | None, Some _ => inl (errors_new "unreferenced budget configuration")
  | None, None => inr 0
  end.

(** The configuration built from the resolved parts. *)
Definition compile_config (s : Snapshot) (providers : gmap string Provider.ProviderConfig) (names : list string)
    (networkProfile : string) (overlayCIDRs : list string) (budget : Z) : Config :=
  let class := rc_Spec (sn_Class s) in
  let limits := ss_Spec (sn_ScaleSet s) in
  let r := rc_Resources class in
  let p := rc_Placement class in
  let refresh := PriceRefresh (cc_Spec (sn_Catalog s)) in
  {| CatalogPath := ""; cfg_Name := om_Name (ss_Meta (sn_ScaleSet s));
     Namespace := om_Namespace (ss_Meta (sn_ScaleSet s)); GitHubURL := gh_URL (ss_GitHub limits);
     ScaleSetID := gh_ScaleSetID (ss_GitHub limits); MaxRunners := ss_MaxRunners limits;
     ProvisioningSeconds := ss_ProvisioningSeconds limits; MaxLifetimeSeconds := ss_MaxLifetimeSeconds limits;
     cfg_Requirements :=
       {| req_CPU := res_CPU r; req_MemoryMiB := res_MemoryMiB r; req_Architecture := res_Architecture r;
          req_Vendor := res_Vendor r; req_Capabilities := res_Capabilities r; req_Providers := names;
          req_Regions := pp_Regions p; req_MaxPriceMicros := pp_MaxPriceMicros p;
          req_AllowOnDemand := pp_AllowOnDemand p; req_Policy := pp_Policy p |};
     cfg_Catalog := {| Offerings := cc_Offerings (cc_Spec (sn_Catalog s));
                       Complete := cc_Complete (cc_Spec (sn_Catalog s)) |};
     cfg_Providers := providers; Retry := rc_Retry class;
     AWSPriceRefresh := map_get false refresh "aws"; AzurePriceRefresh := map_get false refresh "azure";
     GCPPriceRefresh := map_get false refresh "gcp"; AzureInterruptionQueueURL := "";
     cfg_NetworkProfile := networkProfile; NetworkOverlayCIDRs := overlayCIDRs; BudgetDailyMicros := budget |}.

Definition Compile (s : Snapshot) : result Resolved :=
  let ns := om_Namespace (ss_Meta (sn_ScaleSet s)) in
  let auth := gh_Auth (ss_GitHub (ss_Spec (sn_ScaleSet s))) in
  match first_error
    [object (ss_Meta (sn_ScaleSet s)) ns (om_Name (ss_Meta (sn_ScaleSet s)));
     object (rc_Meta (sn_Class s)) ns (RunnerClassRef (ss_Spec (sn_ScaleSet s)));
     object (cc_Meta (sn_Catalog s)) ns (CatalogRef (rc_Spec (sn_Class s)));
     secret (auth_SecretRef auth); check_auth auth; check_retry (rc_Retry (rc_Spec (sn_Class s))) auth] with
  | Some err => inl err
  | None =>
  match compile_providers s (rc_Providers (rc_Spec (sn_Class s))) ∅ ∅ [] with
  | inl err => inl err
  | inr (providers, credentials, names) =>
  match network s providers with
  | inl err => inl err
  | inr (networkProfile, overlayCIDRs) =>
  match resolve_budget s with
  | inl err => inl err
  | inr budget =>
      let cfg := compile_config s providers (sort_strings names) networkProfile overlayCIDRs budget in
      match Config_Validate cfg with
      | Some err => inl err
      | None => inr {| rs_Config := cfg; rs_Auth := auth; rs_Credentials := credentials;
                       rs_Suspend := ss_Suspend (ss_Spec (sn_ScaleSet s)) |}
      end
  end
  end
  end
  end.
End compile.
