(* ===== verification/Construct.v ===== *)
(** * Building the operator
    (New of internal/operator/operator.go, internal/operator/credentials.go,
    applyAzureInterruptions of internal/operator/azure_interruptions.go)

    [New] wires the operator's store and one command per configured provider;
    [NewWithCredentials] replaces each command by one with a credential scope of
    its own (Scope.v).  The closures a command carries are functions to
    programs: the bootstrap over GitHub's JIT request and its rate limiter, the
    peers over the allocation store. *)
From S2P Require Import Prelude.
From S2P Require Import Effects.
From S2P Require Import Resources.
From S2P Require Import Allocation.
From S2P Require Import Overlay.
From S2P Require Import Peers.
From S2P Require Import Provider.
From S2P Require Import Fleet.
From S2P Require Import ConfigCheck.
From S2P Require Import Credentials.
From S2P Require Import GcpCredentials.
From S2P Require Import Scope.
From S2P Require Import Compile.

Inductive jitE : Type → Type :=
  | LimiterWait : jitE (option error)
  | GenerateJitRunnerConfig (name workFolder : string) (scaleSetID : Z) : jitE (result string).

(** [Bootstrap] of a command, with the GitHub client or without. *)
Definition bootstrap (github : bool) (scaleSetID : Z) (id : string) : prog jitE (result string) :=
  if negb github then mret (inl (errors_new "GitHub JIT client unavailable during recovery"))
  else
    e ← call LimiterWait;
    match e with
    | Some err => mret (inl (errorf_w "waiting for GitHub JIT request spacing" err))
    | None =>
        r ← call (GenerateJitRunnerConfig id "_work" scaleSetID);
        mret match r with
             | inl err => inl (errorf_w "GitHub JIT request failed" err)
             | inr config => inr config
             end
    end.

(** [networkPeers] *)
Definition networkPeers (a : Allocation) : prog peersE (result (list Peer)) :=
  allocations ← call PList;
  mret match allocations with
       | inl err => inl err
       | inr allocations => inr (Peers.Snapshot (ID a) (NetworkProfile a) allocations)
       end.

(** A command of the controller; no scope is the one [New] builds. *)
Record ProviderCommand := {
  cm_Config : ProviderConfig;
  cm_Scope : option Scope;
  cm_Bootstrap : string → prog jitE (result string);
  cm_NetworkPeers : Allocation → prog peersE (result (list Peer));
  AzureInterrupted : gmap string bool
}.

Record Construction := { ct_Operator : Operator; ct_Providers : gmap string ProviderCommand }.

Definition new_command (github : bool) (c : Config) (p : ProviderConfig) : ProviderCommand :=
  {| cm_Config := p; cm_Scope := None; cm_Bootstrap := bootstrap github (ScaleSetID c);
     cm_NetworkPeers := networkPeers; AzureInterrupted := ∅ |}.

Definition New (c : Config) (github : bool) : Construction :=
  {| ct_Operator := {| op_Config := c; hasAWSPrices := false; hasAzurePrices := false; hasGCPPrices := false;
                       hasInterruptions := false; hasGitHubJobs := false; hasRunners := github;
                       paused := false; draining := false |};
     ct_Providers := new_command github c <$> cfg_Providers c |}.

Section construct.
Context `{NetText} `{NameRules} `{GcpJSON}.

(** The loop of [NewWithCredentials] over the sorted names.  The commands'
    cleanup functions return nil, so what is joined to an error is the error.
    The names are those of the configuration, so both lookups succeed. *)
Fixpoint bind_credentials (c : Config) (credentials : gmap string (gmap string string)) (names : list string)
    (providers : gmap string ProviderCommand) : scopeM (result (gmap string ProviderCommand)) :=
  match names with
  | [] => mret (inr providers)
  | name :: names' =>
      match cfg_Providers c !! name, providers !! name with
      | Some config, Some original =>
          let values := default ∅ (credentials !! name) in
          command ← NewCommand config (if bool_decide (values = ∅) then None else Some values);
          match command with
          | inl err => mret (inl (default err (errors_join [err])))
          | inr scope =>
              bind_credentials c credentials names'
                (<[name := {| cm_Config := config; cm_Scope := Some scope; cm_Bootstrap := cm_Bootstrap original;
                              cm_NetworkPeers := cm_NetworkPeers original; AzureInterrupted := ∅ |}]> providers)
          end
      | _, _ => bind_credentials c credentials names' providers
      end
  end.

Definition provider_names (c : Config) : list string := sort_strings (fst <$> map_to_list (cfg_Providers c)).

Definition NewWithCredentials (c : Config) (github : bool) (credentials : gmap string (gmap string string))
    : scopeM (result Construction) :=
  match Config_Validate c with
  | Some err => mret (inl err)
  | None =>
      if negb (bool_decide (dom credentials ⊆ dom (cfg_Providers c)))
      then mret (inl (errors_new "credentials reference an unknown provider"))
      else
        let o := New c github in
        providers ← bind_credentials c credentials (provider_names c) (ct_Providers o);
        mret match providers with
             | inl err => inl err
             | inr providers => inr {| ct_Operator := ct_Operator o; ct_Providers := providers |}
             end
  end.
End construct.

(** [applyAzureInterruptions] *)
Definition applyAzureInterruptions (c : Config) (m : gmap string bool) (providers : gmap string ProviderCommand)
    : gmap string ProviderCommand :=
  map_imap (λ name command,
    Some match cfg_Providers c !! name with
         | Some cfg =>
             if pc_Kind cfg <>s "azure" then command
             else {| cm_Config := cm_Config command; cm_Scope := cm_Scope command; cm_Bootstrap := cm_Bootstrap command;
                     cm_NetworkPeers := cm_NetworkPeers command; AzureInterrupted := m |}
         | None => command
         end) providers.

(** ** Properties *)

Section isolated.
Context `{NetText} `{NameRules} `{GcpJSON} (c : Config) (github : bool) (credentials : gmap string (gmap string string)).

(** The closures of [New]. *)
Definition wired (command : ProviderCommand) : Prop :=
  cm_Bootstrap command = bootstrap github (ScaleSetID c) ∧ cm_NetworkPeers command = networkPeers ∧ AzureInterrupted command = ∅.

(** A command with a scope of its own provider's credentials. *)
Definition bound (name : string) (command : ProviderCommand) : Prop :=
  wired command ∧ ∃ config scope values, cfg_Providers c !! name = Some config ∧ cm_Config command = config ∧
    cm_Scope command = Some scope ∧ scope_of config values scope ∧
    ∀ own, credentials !! name = Some own → own ≠ ∅ → values = own.

(** Every provider named has credentials. *)
Definition all_given (names : list string) : Prop := ∀ name, name ∈ names → ∃ own, credentials !! name = Some own ∧ own ≠ ∅.

Lemma wp_new_command_scope config values h :
  wp no_contract (λ h' r, ∃ k, h' = h ++ k ∧ (values ≠ ∅ → Forall no_lookup k) ∧
      ∀ scope, r = inr scope → ∃ vs, scope_of config vs scope ∧ (values ≠ ∅ → vs = values)) h
    (NewCommand config (if bool_decide (values = ∅) then None else Some values)).
Proof.
  destruct (scope_unambiguous config values) as [Hsome Hnone]. case_bool_decide as Hv.
  - eapply wp_mono; [apply wp_shift, wp_traces; intros k r Ht Hk; exact (Hnone k r Ht Hk)|].
    intros h' r (k & -> & Hr). exists k. split_and!; [done..|]. intros scope Hs. destruct (Hr scope Hs) as [vs ?]. by exists vs.
  - eapply wp_mono; [apply wp_shift, wp_traces; intros k r Ht Hk; exact (Hsome k r Ht Hk)|].
    intros h' r (k & -> & Hl & Hr). exists k. split_and!; [done..|]. intros scope Hs. exists values. by split; [apply Hr|].
Qed.

Lemma wp_bind_loop names : ∀ providers h,
  (∀ name, name ∈ names → is_Some (cfg_Providers c !! name) ∧ is_Some (providers !! name)) →
  map_Forall (λ _, wired) providers →
  wp no_contract (λ h' r, ∃ k, h' = h ++ k ∧ (all_given names → Forall no_lookup k) ∧
      ∀ built, r = inr built → dom built = dom providers ∧
        ∀ name command, built !! name = Some command →
          if bool_decide (name ∈ names) then bound name command else providers !! name = Some command) h
    (bind_credentials c credentials names providers).
Proof.
  induction names as [|name names IH]; intros providers h Hin Hwired; cbn [bind_credentials].
  { apply wp_ret. exists []. rewrite app_nil_r. split_and!; [done|constructor|]. intros built [= <-]. split; [done|].
    intros name command Hc. by rewrite bool_decide_eq_false_2 by apply not_elem_of_nil. }
  destruct (Hin name ltac:(left)) as [[config Hconfig] [original Horig]]. rewrite Hconfig, Horig.
  set (values := default ∅ (credentials !! name)). apply wp_bind. eapply wp_mono; [apply wp_new_command_scope|].
  intros h1 r (k1 & -> & Hl1 & Hscope).
  assert (all_given (name :: names) → Forall no_lookup k1) as Hgiven.
  { intros Hg. apply Hl1. destruct (Hg name ltac:(left)) as (own & Hown & Hne). unfold values. by rewrite Hown. }
  destruct r as [err|scope]; [apply wp_ret; exists k1; by split_and!|]. destruct (Hscope scope eq_refl) as (vs & Hvs & Hown).
  set (command := {| cm_Config := config |}).
  assert (bound name command) as Hb.
  { split; [by destruct (Hwired _ _ Horig) as (? & ? & _)|]. exists config, scope, vs. split_and!; [done..|].
    intros own Ho Hne. unfold values in Hown. rewrite Ho in Hown. by apply Hown. }
  eapply wp_mono; [apply (IH (<[name := command]> providers))|].
  - intros n Hn. destruct (Hin n ltac:(by right)) as [? [o Ho]]. split; [done|]. rewrite lookup_insert. case_decide; eauto.
  - apply map_Forall_insert_2; [apply Hb|done].
  - intros h2 r (k2 & -> & Hl2 & Hr). exists (k1 ++ k2). rewrite app_assoc. split_and!; [done| |].
    + intros Hg. apply Forall_app. split; [by apply Hgiven|]. apply Hl2. intros n Hn. apply Hg. by right.
    + intros built Hbuilt. destruct (Hr built Hbuilt) as [Hd Hall]. split; [by rewrite Hd, dom_insert_lookup_L|].
      intros n cmd Hn. specialize (Hall n cmd Hn). destruct (decide (n ∈ names)) as [Hi|Hi].
      * rewrite bool_decide_eq_true_2 by (by right). by rewrite bool_decide_eq_true_2 in Hall.
      * rewrite bool_decide_eq_false_2 in Hall by done. destruct (decide (n = name)) as [->|Hne].
        -- rewrite lookup_insert_eq in Hall. injection Hall as <-. by rewrite bool_decide_eq_true_2 by left.
        -- rewrite lookup_insert_ne in Hall by done. by rewrite bool_decide_eq_false_2 by (by intros [?|?]%elem_of_cons).
Qed.
Lemma provider_names_elem name : name ∈ provider_names c ↔ is_Some (cfg_Providers c !! name).
Proof.
  unfold provider_names, sort_strings. rewrite merge_sort_Permutation, list_elem_of_fmap. split.
  - intros ([n p] & -> & Hp%elem_of_map_to_list). eauto.
  - intros [p Hp]. exists (name, p). by rewrite elem_of_map_to_list.
Qed.

End isolated.

(** A snapshot reaches every Azure command and no other one, and nothing of an
    earlier snapshot is left. *)
Theorem interruptions_applied c m providers :
  (∀ name, applyAzureInterruptions c m providers !! name =
     (λ command, if bool_decide (pc_Kind <$> cfg_Providers c !! name = Some "azure")
        then {| cm_Config := cm_Config command; cm_Scope := cm_Scope command; cm_Bootstrap := cm_Bootstrap command;
                cm_NetworkPeers := cm_NetworkPeers command; AzureInterrupted := m |}
        else command) <$> providers !! name) ∧
  ∀ m', applyAzureInterruptions c m (applyAzureInterruptions c m' providers) = applyAzureInterruptions c m providers.
Proof.
  unfold applyAzureInterruptions. split.
  - intros name. rewrite map_lookup_imap. destruct (providers !! name) as [command|]; [|done]. cbn.
    destruct (cfg_Providers c !! name) as [cfg|]; cbn; [|by rewrite bool_decide_eq_false_2].
    destruct (String.eqb_spec (pc_Kind cfg) "azure") as [->|Hne]; cbn; [done|]. rewrite bool_decide_eq_false_2; [done|congruence].
  - intros m'. apply map_eq. intros name. rewrite !map_lookup_imap. destruct (providers !! name) as [command|]; [|done]. cbn.
    destruct (cfg_Providers c !! name) as [cfg|]; cbn; [|done]. by destruct (pc_Kind cfg =s "azure").
Qed.
