(* ===== verification/Main.v ===== *)
(** * The controller's command
    (cmd/runnerscout/main.go)

    Options and their checks, the mounted configuration, the GitHub clients, the
    price and interruption observers, the health server around the controller
    and the exit status.  Parsing of flags, and the libraries that build clients,
    are calls or inputs; the controllers that run ([configapi.Runtime],
    [operator.Operator]) are calls, modelled by Runtime.v and Control.v.  An error
    is a tree, because the exit status depends on its shape. *)
From S2P Require Import Prelude.
From S2P Require Import Effects.
From S2P Require Import Float.
From S2P Require Import Resources.
From S2P Require Import Allocation.
From S2P Require Import Overlay.
From S2P Require Import Peers.
From S2P Require Import Provider.
From S2P Require Import Recovery.
From S2P Require Import Fleet.
From S2P Require Import ConfigCheck.
From S2P Require Import GcpCredentials.
From S2P Require Import Scope.
From S2P Require Import GithubJobs.
From S2P Require Import Health.
From S2P Require Import Construct.

(** ** Errors and the exit status *)

Inductive gerr :=
  | ErrHelp                                   (* flag.ErrHelp *)
  | Canceled                                  (* context.Canceled *)
  | Leaf (text : string)                      (* no Unwrap *)
  | Wrapped (text : string) (child : option gerr)   (* Unwrap() error *)
  | Joined (children : list gerr).            (* Unwrap() []error *)

Definition gnew (text : string) : option gerr := Some (Leaf text).
Definition gof (e : error) : gerr := Leaf (err_text e).

(** [errors.Join] drops nil errors. *)
Definition gjoin (es : list (option gerr)) : option gerr :=
  match omap id es with [] => None | es => Some (Joined es) end.

Fixpoint benign (e : gerr) : bool :=
  match e with
  | ErrHelp | Canceled => true
  | Joined [] => false
  | Joined children => forallb benign children
  | Wrapped _ (Some child) => benign child
  | _ => false
  end.

Definition benignShutdown (e : option gerr) : bool := match e with None => true | Some e => benign e end.

(** The exit status of [main]. *)
Definition exit_status (e : option gerr) : Z := if negb (benignShutdown e) then 1 else 0.

(** [errors.Is] of one of the two sentinels, as the agent's command uses it. *)
Fixpoint gis (target : gerr → bool) (e : gerr) : bool :=
  target e || match e with
              | Wrapped _ (Some child) => gis target child
              | Joined children => existsb (gis target) children
              | _ => false
              end.
Definition is_Canceled (e : gerr) : bool := match e with Canceled => true | _ => false end.
Definition is_ErrHelp (e : gerr) : bool := match e with ErrHelp => true | _ => false end.

(** The exit status of cmd/runnerscout-wireguard-agent. *)
Definition agent_exit_status (e : option gerr) : Z :=
  match e with
  | None => 0
  | Some e => if gis is_Canceled e || gis is_ErrHelp e then 0 else 1
  end.

(** ** Options *)

Record options := {
  checkCRD : bool;
  checkUninstall : bool;
  healthAddress : string;
  configPath : string;
  o_namespace : string;
  scaleSet : string;
  tokenPath : string;
  appID : string;
  appKey : string;
  installationID : Z;
  validate : bool;
  printVersion : bool;
  kubeQPS : float64;
  kubeBurst : Z
}.

Section options.
Context `{NameRules}.

(** [parseOptions] after the flags are read into [o], with [narg] arguments left. *)
Definition parseOptions (narg : Z) (o : options) : result options :=
  if negb (narg =? 0) then inl (errors_new "unexpected positional arguments")
  else if printVersion o then inr o
  else if float_le (kubeQPS o) (float_of 0) || (kubeBurst o <=? 0)
  then inl (errors_new "kube-client-qps and kube-client-burst must be positive")
  else if ((checkCRD o || checkUninstall o) && (scaleSet o =s "")) || (checkCRD o && checkUninstall o)
  then inl (errors_new "select only one CRD check and provide -scale-set and -namespace")
  else if scaleSet o <>s "" then
    if (configPath o <>s "") || (tokenPath o <>s "") || (appID o <>s "") || negb (installationID o =? 0)
       || (appKey o <>s "") || validate o
    then inl (errors_new "-scale-set uses CRD configuration and Secret references; mounted configuration/authentication flags and -validate are incompatible")
    else if negb (IsDNS1123Label (scaleSet o)) || negb (IsDNS1123Label (o_namespace o))
    then inl (errors_new "-scale-set and -namespace must be valid Kubernetes names")
    else inr o
  else if (configPath o =s "") || (o_namespace o <>s "")
  then inl (errors_new "provide either -config or both -scale-set and -namespace")
  else inr o.
End options.

(** ** Calls *)

Inductive GitHubAuth :=
  | AppAuth (clientID : string) (installation : Z) (key : string)
  | TokenAuth (token : string).

Inductive mainE : Type → Type :=
  | OpenFile (path : string) : mainE (result string)       (* at most four MiB of it *)
  | ReadFile (path : string) : mainE (result string)
  | Println (text : string) : mainE unit
  | InClusterConfig : mainE (option error)
  | NewKubernetes (qps : float64) (burst : Z) : mainE (option gerr)
  | NewDynamic : mainE (option gerr)
  | NewScaleSetClient (url : string) (auth : GitHubAuth) : mainE (option error)
  | Listen (address : string) : mainE (option gerr)
  (* serving the status and the peers of the allocations of one owner *)
  | StartServer (s : Status) (namespace owner : string) : mainE unit
  | CheckConfiguration (namespace name : string) : mainE (option gerr)
  | CheckUninstall (namespace name : string) : mainE (option gerr)
  | CheckCtxErr : mainE (option gerr)
  | RunRuntime (namespace name : string) : mainE (option gerr)
  | OnScope {X} (e : scopeE X) : mainE X
  (* azurequeue.New *)
  | NewInterruptionQueue (credential : AzureCredential + AmbientCredential) (url : string) : mainE (option gerr)
  | RunOperator (o : Operator) (providers : gmap string ProviderCommand) : mainE (option gerr)
  | CleanupCaches : mainE (option gerr)
  | SetNotReady : mainE unit
  | HealthErrors : mainE (option gerr)                      (* what the server goroutine has sent *)
  | CloseServer : mainE unit.

Abbreviation mainM := (prog mainE).

(** [json.Decoder] with unknown fields disallowed: the configuration, and whether
    nothing follows it. *)
Class ConfigJSON := { decode_config : string → result (Config * bool) }.

Section command.
Context `{NetText} `{NameRules} `{GcpJSON} `{ConfigJSON} (Version : string).

Definition readConfig (path : string) : mainM (result Config) :=
  data ← call (OpenFile path);
  mret match data with
       | inl err => inl err
       | inr data =>
           match decode_config data with
           | inl err => inl err
           | inr (_, false) => inl (errors_new "configuration must contain one JSON object")
           | inr (cfg, true) => match Config_Validate cfg with Some err => inl err | None => inr cfg end
           end
       end.

Definition app_settings (o : options) : bool := (appID o <>s "") || negb (installationID o =? 0) || (appKey o <>s "").

(** The credentials that [githubClient] authenticates with. *)
Definition github_auth (o : options) : mainM (result GitHubAuth) :=
  if app_settings o then
    if (appID o =s "") || (installationID o <=? 0) || (appKey o =s "") || (tokenPath o <>s "")
    then mret (inl (errors_new "complete GitHub App settings required; cannot combine App and PAT"))
    else
      key ← call (ReadFile (appKey o));
      mret match key with
           | inr key => if key =s "" then inl (errors_new "cannot read GitHub App private-key file")
                        else inr (AppAuth (appID o) (installationID o) key)
           | inl _ => inl (errors_new "cannot read GitHub App private-key file")
           end
  else if tokenPath o =s "" then mret (inl (errors_new "mounted GitHub App credentials or token file required"))
  else
    token ← call (ReadFile (tokenPath o));
    mret match token with
         | inr token => if strings_trim_space token =s "" then inl (errors_new "cannot read GitHub token file")
                        else inr (TokenAuth (strings_trim_space token))
         | inl _ => inl (errors_new "cannot read GitHub token file")
         end.

Definition githubClient (o : options) (cfg : Config) : mainM (option error) :=
  auth ← github_auth o;
  match auth with
  | inl err => mret (Some err)
  | inr auth =>
      e ← call (NewScaleSetClient (GitHubURL cfg) auth);
      mret match e with Some _ => Some (errors_new "GitHub client initialization failed") | None => None end
  end.

(** [githubJobsClient]: the token of the client, if there is to be one. *)
Definition githubJobsClient (o : options) (cfg : Config) : mainM (result (option string)) :=
  if negb (Enabled (Retry cfg)) then mret (inr None)
  else if (tokenPath o =s "") || app_settings o then mret (inl (errors_new "retry execution requires PAT authentication"))
  else
    token ← call (ReadFile (tokenPath o));
    mret match token with
         | inr token => if strings_trim_space token =s "" then inl (errors_new "cannot read GitHub token file")
                        else inr (Some (strings_trim_space token))
         | inl _ => inl (errors_new "cannot read GitHub token file")
         end.
(** ** Observers *)

Definition quote_word (s : string) : string := String (ascii_of_N 34) (s +:+ String (ascii_of_N 34) "").

(** The scope of the command of that name. *)
Definition scope_at (ct : Construction) (name : string) : option Scope := ct_Providers ct !! name ≫= cm_Scope.

Definition awsPricesObserver (ct : Construction) (cfg : Config) : result bool :=
  if negb (AWSPriceRefresh cfg) then inr false
  else match scope_at ct "aws" with
       | Some (AwsScope _ _) => inr true
       | _ => inl (errors_new ("AWS price refresh requires a configured " +:+ quote_word "aws" +:+ " provider"))
       end.

Definition azurePricesObserver (ct : Construction) (cfg : Config) : result bool :=
  if negb (AzurePriceRefresh cfg) then inr false
  else match scope_at ct "azure" with
       | Some (AzureScope _) => inr true
       | _ => inl (errors_new ("Azure price refresh requires a configured " +:+ quote_word "azure" +:+ " provider"))
       end.

Definition gcpPricesObserver (ct : Construction) (cfg : Config) : result bool :=
  if negb (GCPPriceRefresh cfg) then inr false
  else match scope_at ct "gcp" with
       | Some (GcpScope _ key) =>
           if key =s "" then inl (errors_new ("GCP price refresh requires a configured " +:+ quote_word "gcp" +:+ " provider with a billing API key"))
           else inr true
       | _ => inl (errors_new ("GCP price refresh requires a configured " +:+ quote_word "gcp" +:+ " provider with a billing API key"))
       end.

Definition on_scope {R} (p : scopeM R) : mainM R := interp (λ X e, call (OnScope e)) p.

(** [AzureSDK.InterruptionQueue] *)
Definition InterruptionQueue (a : AzureSDK) (queueURL : string) : mainM (option gerr) :=
  '(_, credential) ← on_scope (azure_credentials a);
  match credential with
  | inl err => mret (Some (gof err))
  | inr credential => call (NewInterruptionQueue credential queueURL)
  end.

Definition azureInterruptionsObserver (ct : Construction) (cfg : Config) : mainM (gerr + bool) :=
  if AzureInterruptionQueueURL cfg =s "" then mret (inr false)
  else match scope_at ct "azure" with
       | Some (AzureScope credential) =>
           e ← InterruptionQueue {| sdk_Credential := Some credential; sdk_once := None |} (AzureInterruptionQueueURL cfg);
           mret match e with Some err => inl err | None => inr true end
       | _ => mret (inl (Leaf ("Azure interruption delivery requires a configured " +:+ quote_word "azure" +:+ " provider")))
       end.

(** The operator with its observers. *)
Definition with_observers (o : Operator) (aws azure gcp interruptions jobs : bool) : Operator :=
  {| op_Config := op_Config o; hasAWSPrices := aws; hasAzurePrices := azure; hasGCPPrices := gcp;
     hasInterruptions := interruptions; hasGitHubJobs := jobs; hasRunners := hasRunners o;
     paused := paused o; draining := draining o |}.

(** The controller of a mounted configuration, from its construction on. *)
Definition run_mounted (cfg : Config) (jobs : bool) (ct : Construction) : mainM (option gerr) :=
  match awsPricesObserver ct cfg with
  | inl err => mret (Some (gof err))
  | inr aws =>
      match azurePricesObserver ct cfg with
      | inl err => mret (Some (gof err))
      | inr azure =>
          match gcpPricesObserver ct cfg with
          | inl err => mret (Some (gof err))
          | inr gcp =>
              queue ← azureInterruptionsObserver ct cfg;
              match queue with
              | inl err => mret (Some err)
              | inr interruptions =>
                  err ← call (RunOperator (with_observers (ct_Operator ct) aws azure gcp interruptions jobs) (ct_Providers ct));
                  cleanup ← call CleanupCaches;
                  mret match cleanup with
                       | Some _ => gjoin [err; gnew "provider credential cache cleanup incomplete"]
                       | None => err
                       end
              end
          end
      end
  end.

(** What [withHealth] runs. *)
Definition controller (o : options) (cfg : Config) : mainM (option gerr) :=
  if scaleSet o <>s "" then
    e ← call NewDynamic;
    match e with Some err => mret (Some err) | None => call (RunRuntime (o_namespace o) (scaleSet o)) end
  else
    e ← githubClient o cfg;
    match e with
    | Some err => mret (Some (gof err))
    | None =>
        jobs ← githubJobsClient o cfg;
        match jobs with
        | inl err => mret (Some (gof err))
        | inr jobs =>
            built ← on_scope (NewWithCredentials cfg true ∅);
            match built with
            | inl err => mret (Some (gof err))
            | inr ct => run_mounted cfg (isSome jobs) ct
            end
        end
    end.

(** [withHealth] with the peer endpoint mounted. *)
Definition withHealth (address namespace name : string) (run : mainM (option gerr)) : mainM (option gerr) :=
  e ← call (Listen address);
  match e with
  | Some err => mret (Some (Wrapped ("health listener: ") (Some err)))
  | None =>
      _ ← call (StartServer {| ready := false; WireGuardPeers := true |} namespace name);
      err ← run;
      _ ← call SetNotReady;
      healthErr ← call HealthErrors;
      _ ← call CloseServer;
      mret match healthErr with
           | Some healthErr => gjoin [err; Some (Wrapped "health server: " (Some healthErr))]
           | None => err
           end
  end.

Definition runCheck (check : mainM (option gerr)) : mainM (option gerr) :=
  err ← check;
  err ← match err with None => call CheckCtxErr | Some _ => mret err end;
  mret match err with
       | Some _ => gjoin [gnew "Kubernetes safety check did not complete successfully"; err]
       | None => None
       end.

(** From the Kubernetes client on. *)
Definition run_cluster (o : options) (cfg : Config) : mainM (option gerr) :=
  e ← call InClusterConfig;
  match e with
  | Some _ => mret (gnew "in-cluster Kubernetes configuration required")
  | None =>
      e ← call (NewKubernetes (kubeQPS o) (kubeBurst o));
      match e with
      | Some err => mret (Some err)
      | None =>
          if checkCRD o || checkUninstall o then
            e ← call NewDynamic;
            match e with
            | Some err => mret (Some err)
            | None => runCheck (if checkUninstall o then call (CheckUninstall (o_namespace o) (scaleSet o))
                                else call (CheckConfiguration (o_namespace o) (scaleSet o)))
            end
          else
            let mounted := configPath o <>s "" in
            withHealth (healthAddress o) (if mounted then Namespace cfg else o_namespace o)
              (if mounted then cfg_Name cfg else scaleSet o) (controller o cfg)
      end
  end.

(** [run] on parsed options; the zero configuration stands for none. *)
Definition run_options (o : options) (zero : Config) : mainM (option gerr) :=
  if printVersion o then _ ← call (Println Version); mret None
  else if configPath o <>s "" then
    cfg ← readConfig (configPath o);
    match cfg with
    | inl err => mret (Some (gof err))
    | inr cfg =>
        if validate o then _ ← call (Println "configuration valid; no external operations performed"); mret None
        else run_cluster o cfg
    end
  else run_cluster o zero.

Definition run (narg : Z) (o : options) (zero : Config) : mainM (option gerr) :=
  match parseOptions narg o with
  | inl err => mret (Some (gof err))
  | inr o => run_options o zero
  end.
End command.

(** A rate that is not a number passes the check that it is positive. *)
Lemma nan_qps_accepted `{NameRules} o :
  kubeQPS o = SpecFloat.S754_nan → 0 < kubeBurst o → checkCRD o = false → checkUninstall o = false →
  scaleSet o = "" → o_namespace o = "" → configPath o ≠ "" → parseOptions 0 o = inr o.
Proof.
  intros Hq Hb Hc Hu Hs Hn Hp. unfold parseOptions. rewrite Hq, Hc, Hu, Hs, Hn. cbn.
  destruct (printVersion o); [done|]. destruct (Z.leb_spec (kubeBurst o) 0); [lia|]. by destruct (String.eqb_spec (configPath o) "").
Qed.

(** ** Properties of the exit status *)

Section gerr_ind.
Context (P : gerr → Prop).
Context (Hhelp : P ErrHelp) (Hcanceled : P Canceled) (Hleaf : ∀ t, P (Leaf t)).
Context (Hnone : ∀ t, P (Wrapped t None)) (Hsome : ∀ t e, P e → P (Wrapped t (Some e))).
Context (Hjoined : ∀ l, Forall P l → P (Joined l)).

Fixpoint gerr_ind' (e : gerr) : P e :=
  match e with
  | ErrHelp => Hhelp
  | Canceled => Hcanceled
  | Leaf t => Hleaf t
  | Wrapped t None => Hnone t
  | Wrapped t (Some e) => Hsome t e (gerr_ind' e)
  | Joined l => Hjoined l ((fix go l : Forall P l :=
      match l with [] => Forall_nil_2 P | e :: l => Forall_cons_2 P e l (gerr_ind' e) (go l) end) l)
  end.
End gerr_ind.

(** The errors a tree is made of; an empty wrapping is one of them. *)
Fixpoint leaves (e : gerr) : list gerr :=
  match e with
  | Wrapped _ (Some child) => leaves child
  | Joined (c :: cs) => flat_map leaves (c :: cs)
  | e => [e]
  end.

(** The process exits with 0 exactly if every error of the tree is a
    cancellation or the help flag: an error joined to a cancellation counts. *)
Theorem exit_leaves e : exit_status (Some e) = 0 ↔ Forall (λ l, l = ErrHelp ∨ l = Canceled) (leaves e).
Proof.
  unfold exit_status. cbn. transitivity (benign e = true); [by destruct (benign e)|].
  induction e as [| |t|t|t e IH|l IH] using gerr_ind'; cbn [benign leaves]; [rewrite Forall_singleton; naive_solver..|exact IH|].
  destruct l as [|c cs]; [rewrite Forall_singleton; naive_solver|].
  induction IH as [|e l He _ IHl]; cbn; [done|]. by rewrite andb_true_iff, Forall_app, He, IHl.
Qed.

(** The agent's command looks for one such error: it exits with 0 whenever the
    controller's would, and also when a failure is joined to a cancellation. *)
Lemma agent_exit_weaker e : exit_status (Some e) = 0 → agent_exit_status (Some e) = 0.
Proof.
  rewrite exit_leaves. cbn. enough (Forall (λ l, l = ErrHelp ∨ l = Canceled) (leaves e) → gis is_Canceled e || gis is_ErrHelp e = true) as He
    by (intros Hl; by rewrite He).
  induction e as [| |t|t|t e IH|l IH] using gerr_ind'; cbn [leaves gis is_Canceled is_ErrHelp orb]; [done|done| | |exact IH|].
  1-2: rewrite Forall_singleton; by intros [|].
  destruct l as [|c cs]; [rewrite Forall_singleton; by intros [|]|]. apply Forall_cons in IH as [IH _].
  cbn. intros [Hc _]%Forall_app. specialize (IH Hc). destruct (gis is_Canceled c), (gis is_ErrHelp c); cbn in *; try done; by rewrite ?orb_true_r.
Qed.

(** ** Properties of the modes *)

Abbreviation main_history := (list (event mainE)).

Definition runs (v : event mainE) : Prop :=
  match fst (projT2 v) with RunRuntime _ _ | RunOperator _ _ => True | _ => False end.
Definition quiet (h : main_history) : Prop := Forall (λ v, ¬ runs v) h.

(** What a controller did and returned: it did not come to run; or it was the
    runtime of the named object; or it was the operator, whose credential caches
    were then cleaned up - which if it failed is part of the error. *)
Definition controlled (o : options) (h : main_history) (r : option gerr) : Prop :=
  quiet h ∧ r ≠ None ∨
  (∃ h', h = h' ++ [ev (RunRuntime (o_namespace o) (scaleSet o)) r] ∧ quiet h' ∧ scaleSet o ≠ "") ∨
  ∃ h' op providers x y, h = h' ++ [ev (RunOperator op providers) x; ev CleanupCaches y] ∧ quiet h' ∧ scaleSet o = "" ∧
    match y with None => r = x | Some _ => exit_status r = 1 end.

Section modes.
Context `{NetText} `{NameRules} `{GcpJSON} `{ConfigJSON} (Version : string) (o : options).

(** The outcomes of a process that does not report an error of its own. *)
Definition version_printed (h : main_history) (r : option gerr) : Prop :=
  printVersion o = true ∧ h = [ev (Println Version) tt] ∧ r = None.

Definition config_validated (h : main_history) (r : option gerr) : Prop :=
  validate o = true ∧ r = None ∧ ∃ data cfg text,
    h = [ev (OpenFile (configPath o)) (inr data); ev (Println text) tt] ∧ decode_config data = inr (cfg, true) ∧
    Config_Validate cfg = None.

Definition check_passed (h : main_history) (r : option gerr) : Prop :=
  (checkCRD o || checkUninstall o) = true ∧ r = None ∧ ∃ pre,
    quiet pre ∧ h = pre ++ [if checkUninstall o then ev (CheckUninstall (o_namespace o) (scaleSet o)) None
                            else ev (CheckConfiguration (o_namespace o) (scaleSet o)) None; ev CheckCtxErr None].

Definition controller_served (h : main_history) (r : option gerr) : Prop :=
  (checkCRD o || checkUninstall o) = false ∧ ∃ pre s namespace owner mid r0 x,
    h = pre ++ [ev (Listen (healthAddress o)) None; ev (StartServer s namespace owner) tt] ++ mid ++
        [ev SetNotReady tt; ev HealthErrors x; ev CloseServer tt] ∧
    quiet pre ∧ controlled o mid r0 ∧
    r = match x with None => r0 | Some e => gjoin [r0; Some (Wrapped "health server: " (Some e))] end.

(** Nothing ran and an error is reported. *)
Definition turned_away (h : main_history) (r : option gerr) : Prop := quiet h ∧ r ≠ None.

Definition outcome (h : main_history) (r : option gerr) : Prop :=
  turned_away h r ∨ version_printed h r ∨ config_validated h r ∨ check_passed h r ∨ controller_served h r.

Lemma quiet_emits {R} (p : mainM R) h : emits (λ v, ¬ runs v) p → wp no_contract (λ h' _, ∃ k, h' = h ++ k ∧ quiet k) h p.
Proof. intros Hp. by apply emits_wp. Qed.

Lemma quiet_scope {R} (p : scopeM R) : emits (λ v, ¬ runs v) (on_scope p).
Proof.
  unfold on_scope. induction p as [r|X e k IH]; [apply (emits_ret _ r)|]. cbn [interp].
  apply emits_bind; [apply emits_call; intros ?; exact id|done].
Qed.

Ltac silent := repeat first
  [apply quiet_scope|apply emits_ret|apply emits_call; intros ?; exact id|apply emits_bind; [|intros ?]|case_match].

Lemma controlled_after k h r : quiet k → controlled o h r → controlled o (k ++ h) r.
Proof.
  intros Hk [[Hq Hr]|[(h' & -> & Hq & Hs)|(h' & op & ps & x & y & -> & Hq & Hs & Hr)]]; [left|right; left|right; right].
  - split; [by apply Forall_app_2|done].
  - exists (k ++ h'). rewrite app_assoc. split_and!; [done| |done]. by apply Forall_app_2.
  - exists (k ++ h'), op, ps, x, y. rewrite app_assoc. split_and!; [done| |done..]. by apply Forall_app_2.
Qed.

(** A quiet part before a controller. *)
Lemma wp_after {A} (p : mainM A) (f : A → mainM (option gerr)) h :
  emits (λ v, ¬ runs v) p →
  (∀ x h', wp no_contract (λ h'' r, ∃ k, h'' = h' ++ k ∧ controlled o k r) h' (f x)) →
  wp no_contract (λ h' r, ∃ k, h' = h ++ k ∧ controlled o k r) h (p ≫= f).
Proof.
  intros Hp Hf. apply wp_bind. eapply wp_mono; [by apply quiet_emits|]. intros h1 x (k1 & -> & Hk1).
  eapply wp_mono; [apply Hf|]. intros h2 r (k2 & -> & Hc). exists (k1 ++ k2). rewrite app_assoc. split; [done|].
  by apply controlled_after.
Qed.

Lemma wp_stopped err h : wp no_contract (λ h' r, ∃ k, h' = h ++ k ∧ controlled o k r) h (mret (Some err)).
Proof. apply wp_ret. exists []. rewrite app_nil_r. split; [done|]. left. split; [constructor|done]. Qed.

Lemma wp_mounted cfg jobs ct h :
  scaleSet o = "" → wp no_contract (λ h' r, ∃ k, h' = h ++ k ∧ controlled o k r) h (run_mounted cfg jobs ct).
Proof.
  intros Hs. unfold run_mounted. destruct (awsPricesObserver ct cfg); [apply wp_stopped|].
  destruct (azurePricesObserver ct cfg); [apply wp_stopped|]. destruct (gcpPricesObserver ct cfg); [apply wp_stopped|].
  apply wp_after; [unfold azureInterruptionsObserver, InterruptionQueue; silent|]. intros [err|flag] h'; [apply wp_stopped|].
  apply wp_call_bind. intros x _. apply wp_call_bind. intros y _. apply wp_ret.
  eexists. split; [by rewrite <- app_assoc|]. right; right. exists []. do 4 eexists. split; [done|].
  split_and!; [constructor|done|]. destruct y; [|done]. destruct x as [e|]; [|done]. unfold exit_status. cbn. by rewrite andb_false_r.
Qed.

Lemma wp_controller cfg h : wp no_contract (λ h' r, ∃ k, h' = h ++ k ∧ controlled o k r) h (controller o cfg).
Proof.
  unfold controller. destruct (String.eqb_spec (scaleSet o) "") as [Hs|Hs]; cbn [negb].
  - apply wp_after; [unfold githubClient, github_auth; silent|]. intros [err|] h1; [apply wp_stopped|].
    apply wp_after; [unfold githubJobsClient; silent|]. intros [err|jobs] h2; [apply wp_stopped|].
    apply wp_after; [silent|]. intros [err|ct] h3; [apply wp_stopped|by apply wp_mounted].
  - apply wp_after; [silent|]. intros [err|] h'; [apply wp_stopped|].
    apply wp_call. intros r _. eexists. split; [done|]. right; left. exists []. split_and!; [done|constructor|done].
Qed.
Lemma quiet_snoc {X} (e : mainE X) x h : quiet h → ¬ runs (ev e x) → quiet (h ++ [ev e x]).
Proof. intros Hh Hv. apply Forall_app_2; [done|]. by constructor. Qed.

Lemma wp_turned_away err h : quiet h → wp no_contract outcome h (mret (Some err)).
Proof. intros Hq. apply wp_ret. left. by split. Qed.

Ltac still_quiet := repeat (apply quiet_snoc; [|exact id]); assumption.

Lemma wp_checked h :
  (checkCRD o || checkUninstall o) = true → quiet h →
  wp no_contract outcome h
    (runCheck (if checkUninstall o then call (CheckUninstall (o_namespace o) (scaleSet o))
               else call (CheckConfiguration (o_namespace o) (scaleSet o)))).
Proof.
  intros Hc Hq. unfold runCheck. apply wp_bind.
  assert (∀ h' err, quiet h' → outcome h' (gjoin [gnew "Kubernetes safety check did not complete successfully"; Some err])) as Hfail
    by (intros h' err Hh; left; split; [done|]; by cbn).
  destruct (checkUninstall o) eqn:Hu; apply wp_call; intros [err|] _.
  1,3: apply wp_bind, wp_ret, wp_ret, Hfail; still_quiet.
  all: apply wp_call_bind; intros [err|] _; apply wp_ret; [apply Hfail; still_quiet|].
  all: right; right; right; left; (split; [by rewrite Hu|]); (split; [done|]); exists h; (split; [done|]); rewrite Hu; by rewrite <- app_assoc.
Qed.

Lemma wp_cluster cfg h : quiet h → wp no_contract outcome h (run_cluster o cfg).
Proof.
  intros Hq. unfold run_cluster. apply wp_call_bind. intros [err|] _; [apply wp_turned_away; still_quiet|].
  apply wp_call_bind. intros [err|] _; [apply wp_turned_away; still_quiet|].
  destruct (checkCRD o || checkUninstall o) eqn:Hcheck.
  - apply wp_call_bind. intros [err|] _; [apply wp_turned_away; still_quiet|]. apply wp_checked; [done|still_quiet].
  - cbv zeta. unfold withHealth. apply wp_call_bind. intros [err|] _; [apply wp_turned_away; still_quiet|].
    apply wp_call_bind. intros [] _. apply wp_bind. eapply wp_mono; [apply wp_controller|]. intros h' r0 (mid & -> & Hmid).
    apply wp_call_bind. intros [] _. apply wp_call_bind. intros x _. apply wp_call_bind. intros [] _. apply wp_ret.
    right; right; right; right. split; [done|]. eexists ((h ++ [_]) ++ [_]), _, _, _, mid, r0, x.
    split; [by rewrite <- !app_assoc|]. split; [still_quiet|done].
Qed.

(** C28: what the process does.  It runs no controller and reports an error; or it
    prints the version and has called nothing else; or it found the mounted
    configuration valid and has only read the file; or its check passed, and the
    check's deadline had not; or one controller ran - the runtime of the named
    object, or the operator followed by the cleanup of its credential caches,
    whose failure makes the exit status 1 - with the health server started before
    it, taken out of readiness after it and closed at the end. *)
Theorem process_outcomes narg zero : ensures no_contract (run Version narg o zero) outcome.
Proof.
  apply wp_ensures. unfold run. assert (quiet []) as Hnil by constructor.
  destruct (parseOptions narg o) as [err|o'] eqn:Hp; [by apply wp_turned_away|].
  assert (o' = o) as -> by (unfold parseOptions in Hp; repeat case_match; by simplify_eq).
  unfold run_options. destruct (printVersion o) eqn:Hv.
  { apply wp_call_bind. intros [] _. apply wp_ret. right; left. by split_and!. }
  destruct (configPath o =s "") eqn:Hconf; cbn [negb]; [by apply wp_cluster|].
  unfold readConfig. apply wp_bind, wp_call_bind. intros [err|data] _; apply wp_ret; [apply wp_turned_away; still_quiet|].
  destruct (decode_config data) as [err|[cfg [|]]] eqn:Hd; [apply wp_turned_away; still_quiet| |apply wp_turned_away; still_quiet].
  destruct (Config_Validate cfg) eqn:Hval; [apply wp_turned_away; still_quiet|].
  destruct (validate o) eqn:Hvalid; [|apply wp_cluster; still_quiet].
  apply wp_call_bind. intros [] _. apply wp_ret. right; right; left. split_and!; [done..|]. by eexists data, cfg, _.
Qed.
End modes.
