(* ===== verification/CompileProps.v ===== *)
(** * What a compiled configuration guarantees *)
From S2P Require Import Prelude.
From S2P Require Import Effects.
From S2P Require Import Placement.
From S2P Require Import Recovery.
From S2P Require Import Overlay.
From S2P Require Import Provider.
From S2P Require Import Fleet.
From S2P Require Import DemandProps.
From S2P Require Import ConfigCheck.
From S2P Require Import Api.
From S2P Require Import Compile.
Import Api.

(** ** Overlapping prefixes *)

Lemma shiftr_high a n m : 0 ≤ a → 0 ≤ n ≤ m → Z.shiftr a m = Z.shiftr (Z.shiftr a n) (m - n).
Proof. intros Ha Hn. rewrite Z.shiftr_shiftr by lia. f_equal. lia. Qed.

(** A shorter prefix contains the address of a longer one iff they overlap. *)
Lemma overlaps_contains p q :
  prefix_ok p → prefix_ok q → pfx_Bits p ≤ pfx_Bits q → Overlaps p q = Contains p (pfx_Addr q).
Proof.
  intros _ _ Hb. unfold Overlaps, Contains, hostBits. by rewrite Z.min_l by lia.
Qed.

Lemma contains_shared p q a :
  prefix_ok p → prefix_ok q → pfx_Bits p ≤ pfx_Bits q → addr_ok a →
  Contains p a = true → Contains q a = true → Contains p (pfx_Addr q) = true.
Proof.
  intros [Hp Hpb] [Hq Hqb] Hb Ha. unfold Contains. rewrite !andb_true_iff, !Z.eqb_eq, !eqb_true_iff.
  intros [Hp4 Hps] [Hq4 Hqs]. split; [congruence|]. rewrite Hps.
  assert (BitLen (pfx_Addr p) = BitLen (pfx_Addr q)) as Hlen by (unfold BitLen; by rewrite Hp4, Hq4).
  unfold addr_ok, hostBits in *. rewrite Hlen in *.
  rewrite (shiftr_high (addr_val a) (BitLen (pfx_Addr q) - pfx_Bits q)) by lia.
  rewrite (shiftr_high (addr_val (pfx_Addr q)) (BitLen (pfx_Addr q) - pfx_Bits q)) by lia.
  by rewrite Hqs.
Qed.

Lemma overlaps_sym p q : Overlaps p q = Overlaps q p.
Proof.
  unfold Overlaps. rewrite Z.min_comm. unfold BitLen.
  destruct (Is4 (pfx_Addr p)), (Is4 (pfx_Addr q)); simpl; try done; apply Z.eqb_sym.
Qed.

Lemma contains_own p : Contains p (pfx_Addr p) = true.
Proof. unfold Contains. by rewrite Z.eqb_refl, eqb_reflx. Qed.

Lemma overlaps_spec p q :
  prefix_ok p → prefix_ok q →
  Overlaps p q = true ↔ ∃ a, addr_ok a ∧ Contains p a = true ∧ Contains q a = true.
Proof.
  assert (∀ p q, prefix_ok p → prefix_ok q → pfx_Bits p ≤ pfx_Bits q →
    Overlaps p q = true ↔ ∃ a, addr_ok a ∧ Contains p a = true ∧ Contains q a = true) as Hle.
  { intros p' q' Hp Hq Hb. rewrite overlaps_contains by done. split.
    - intros Hc. exists (pfx_Addr q'). split; [apply Hq|]. split; [done|apply contains_own].
    - intros (a & Ha & H1 & H2). by apply (contains_shared p' q' a). }
  intros Hp Hq. destruct (Z.le_ge_cases (pfx_Bits p) (pfx_Bits q)) as [Hb|Hb]; [by apply Hle|].
  rewrite overlaps_sym, Hle by done. naive_solver.
Qed.

(** ** Names *)

Lemma drop_while_nil {A} (f : A → bool) l : drop_while f l = [] ↔ Forall (λ x, f x = true) l.
Proof.
  induction l as [|x l IH]; simpl; [done|]. rewrite Forall_cons. destruct (f x); [|naive_solver].
  rewrite IH. naive_solver.
Qed.

Lemma drop_while_suffix {A} (f : A → bool) l : ∃ l1, l = l1 ++ drop_while f l.
Proof.
  induction l as [|x l [l1 IH]]; simpl; [by exists []|]. destruct (f x); [|by exists []].
  exists (x :: l1). simpl. by f_equal.
Qed.

(** [strings.Trim] leaves nothing exactly of a string over the cutset. *)
Lemma trim_nil s cutset :
  strings_trim s cutset = "" → Forall (λ c, in_cutset cutset c = true) (String.list_ascii_of_string s).
Proof.
  unfold strings_trim. intros Ht. set (l := String.list_ascii_of_string s) in *.
  apply (f_equal String.list_ascii_of_string) in Ht. rewrite String.list_ascii_of_string_of_list_ascii in Ht.
  apply (f_equal (@rev _)) in Ht. rewrite rev_involutive in Ht. simpl in Ht. apply drop_while_nil in Ht.
  apply Forall_rev in Ht. rewrite rev_involutive in Ht.
  destruct (drop_while (in_cutset cutset) l) as [|c l'] eqn:Hd; [by apply drop_while_nil in Hd|].
  exfalso. apply Forall_cons in Ht as [Hc _]. clear -Hd Hc. induction l as [|x l IH]; simpl in Hd; [done|].
  destruct (in_cutset cutset x) eqn:Hx; [by apply IH|]. injection Hd as -> _. congruence.
Qed.

(** A valid name has no slash, so a key determines its parts. *)
Definition no_slash (s : string) : Prop := "/"%char ∉ String.list_ascii_of_string s.

Lemma validate_no_slash s : ValidateName s = None → no_slash s.
Proof.
  unfold ValidateName. destruct (_ || _) eqn:Hb; [done|]. intros _. reflect in Hb. destruct Hb as [[_ Ht] _].
  apply trim_nil in Ht. rewrite Forall_forall in Ht. intros Hin%Ht. by vm_compute in Hin.
Qed.

Lemma mapping_key_inj p1 r1 p2 r2 :
  no_slash p1 → no_slash p2 → mapping_key p1 r1 = mapping_key p2 r2 → p1 = p2 ∧ r1 = r2.
Proof.
  unfold mapping_key, no_slash. revert p2. induction p1 as [|c p1 IH]; intros [|d p2] H1 H2 Heq.
  - split; [done|]. by injection Heq.
  - exfalso. injection Heq as <- _. apply H2. left.
  - exfalso. injection Heq as -> _. apply H1. left.
  - injection Heq as -> Heq. destruct (IH p2) as [-> ->]; try done.
    + intros Hin. apply H1. by right.
    + intros Hin. apply H2. by right.
Qed.

(** ** The loops *)

Section compile.
Context `{NetText} `{NameRules}.

Definition ns_of (s : Snapshot) : string := om_Namespace (ss_Meta (sn_ScaleSet s)).

(** A live object of the namespace with the referenced name. *)
Definition live_in (ns name : string) (meta : ObjectMeta) : Prop :=
  om_Namespace meta = ns ∧ om_Name meta = name ∧ om_DeletionTimestamp meta = None.

Lemma object_live meta ns name : object meta ns name = None → live_in ns name meta.
Proof.
  unfold object. rewrite first_error_Forall, !Forall_cons. intros (H1 & H2 & _).
  apply reject_None in H1, H2. reflect in H1. reflect in H2. unfold live_in. naive_solver.
Qed.

Lemma compile_providers_spec s refs : ∀ prov cred names prov' cred' names',
  compile_providers s refs prov cred names = inr (prov', cred', names') →
  names' = names ++ refs ∧ NoDup refs ∧ (∀ ref, ref ∈ refs → ref ∉ dom prov) ∧
  dom prov' = dom prov ∪ list_to_set refs ∧
  (∀ ref, ref ∉ refs → prov' !! ref = prov !! ref) ∧
  ∀ ref, ref ∈ refs → ∃ p, sn_Providers s !! ref = Some p ∧ live_in (ns_of s) ref (pcf_Meta p) ∧
    prov' !! ref = Some (provider_config (om_Name (ss_Meta (sn_ScaleSet s))) (Connection (pcf_Spec p))).
Proof.
  induction refs as [|ref refs IH]; intros prov cred names prov' cred' names'; cbn [compile_providers].
  - intros [= <- <- <-]. rewrite app_nil_r. split_and!; try done; [constructor|set_solver..].
  - destruct (sn_Providers s !! ref) as [p|] eqn:Hp; [|done].
    destruct (first_error _) as [|] eqn:Hf; [done|]. intros (Hn & Hnd & Hfresh & Hdom & Hrest & Hall)%IH.
    apply first_error_Forall in Hf. apply Forall_cons in Hf as [Hdup Hf]. apply Forall_cons in Hf as [Hobj _].
    apply reject_None in Hdup. apply isSome_false in Hdup. apply object_live in Hobj.
    assert (ref ∉ refs) as Hnotin by (intros Hin; apply (Hfresh ref Hin); set_solver).
    split_and!.
    + by rewrite Hn, <- app_assoc.
    + by constructor.
    + intros r [->|Hr]%elem_of_cons; [by apply not_elem_of_dom|]. intros Hd. apply (Hfresh r Hr). set_solver.
    + rewrite Hdom, dom_insert_L. simpl. set_solver.
    + intros r Hr. rewrite Hrest by set_solver. apply lookup_insert_ne. set_solver.
    + intros r [->|Hr]%elem_of_cons; [|by apply Hall].
      exists p. split_and!; try done. rewrite Hrest by done. apply lookup_insert_eq.
Qed.

(** No prefix of the list overlaps an earlier one. *)
Definition disjoint_prefixes (l : list Prefix) : Prop :=
  ∀ i j p q, (i < j)%nat → l !! i = Some p → l !! j = Some q → Overlaps q p = false.

Lemma disjoint_snoc l p :
  disjoint_prefixes l → existsb (Overlaps p) l = false → disjoint_prefixes (l ++ [p]).
Proof.
  intros Hl Hp i j a b Hij Ha Hb. rewrite existsb_none in Hp.
  apply lookup_snoc_Some in Hb as [[Hj Hb]|[-> ->]].
  - rewrite lookup_app_l in Ha by lia. by apply (Hl i j).
  - rewrite lookup_app_l in Ha by lia. apply Hp. by eapply list_elem_of_lookup_2.
Qed.

Lemma check_cidrs_spec cidrs : ∀ l l',
  check_cidrs cidrs l = inr l' → disjoint_prefixes l →
  ∃ ps, l' = l ++ ps ∧ Forall2 (λ c p, ParsePrefix c = inr p ∧ p = Masked p) cidrs ps ∧ disjoint_prefixes l'.
Proof.
  induction cidrs as [|c cidrs IH]; intros l l'; simpl.
  - intros [= <-] Hl. exists []. by rewrite app_nil_r.
  - destruct (ParsePrefix c) as [|p] eqn:Hp; [done|]. destruct (bool_decide (p = Masked p)) eqn:Hm; [|done].
    cbn [negb]. destruct (existsb (Overlaps p) l) eqn:Ho; [done|]. intros Hc Hl.
    apply bool_decide_eq_true in Hm. destruct (IH _ _ Hc) as (ps & -> & Hps & Hd); [by apply disjoint_snoc|].
    exists (p :: ps). rewrite <- app_assoc in *. split_and!; [done|by constructor|done].
Qed.

Lemma check_mappings_spec regions prov mappings : ∀ seen l seen' l',
  check_mappings regions prov mappings seen l = inr (seen', l') → disjoint_prefixes l →
  disjoint_prefixes l' ∧
  (∃ ps, l' = l ++ ps ∧ Forall2 (λ c p, ParsePrefix c = inr p ∧ p = Masked p) (mappings ≫= nm_CIDRs) ps) ∧
  (∀ key, key ∈ seen' ↔ key ∈ seen ∨ ∃ m, m ∈ mappings ∧ key = mapping_key (nm_ProviderRef m) (nm_Region m)) ∧
  ∀ m, m ∈ mappings → ∃ p, prov !! nm_ProviderRef m = Some p ∧ nm_SubnetID m = Subnet p ∧
    nm_NetworkID m ≠ "" ∧ nm_Region m ∈ regions.
Proof.
  induction mappings as [|m mappings IH]; intros seen l seen' l'; cbn [check_mappings].
  - intros [= <- <-] Hl. split_and!; [done|exists []; by rewrite app_nil_r|set_solver|set_solver].
  - destruct (prov !! nm_ProviderRef m) as [p|] eqn:Hp; [|done].
    destruct (_ || _) eqn:Hg; [done|]. destruct (check_cidrs (nm_CIDRs m) l) as [|l1] eqn:Hc; [done|].
    intros Hm Hl. destruct (check_cidrs_spec _ _ _ Hc Hl) as (ps & -> & Hps & Hd).
    destruct (IH _ _ _ _ Hm Hd) as (Hd' & (ps' & -> & Hps') & Hseen & Hall).
    reflect in Hg. destruct Hg as [[[[_ Hn] Hs] Hr] _].
    split_and!; [done| | |].
    + exists (ps ++ ps'). rewrite <- app_assoc. split; [done|]. by apply Forall2_app.
    + intros key. rewrite Hseen. setoid_rewrite elem_of_cons. set_solver.
    + intros m' [->|Hin]%elem_of_cons; [|by apply Hall]. by exists p.
Qed.

Lemma network_spec s prov np cidrs :
  network s prov = inr (np, cidrs) →
  (∀ i j c d p q, (i < j)%nat → cidrs !! i = Some c → cidrs !! j = Some d →
     ParsePrefix c = inr p → ParsePrefix d = inr q → Overlaps q p = false) ∧
  ∀ n, sn_Network s = Some n →
    (∃ ref, NetworkRef (rc_Spec (sn_Class s)) = Some ref ∧ live_in (ns_of s) ref (np_Meta n)) ∧
    (∀ m, m ∈ np_Mappings (np_Spec n) → ∃ p, prov !! nm_ProviderRef m = Some p ∧ nm_SubnetID m = Subnet p) ∧
    (∀ o, o ∈ cc_Offerings (cc_Spec (sn_Catalog s)) → is_Some (prov !! off_Provider o) →
       off_Region o ∈ pp_Regions (rc_Placement (rc_Spec (sn_Class s))) →
       ∃ m, m ∈ np_Mappings (np_Spec n) ∧
         mapping_key (off_Provider o) (off_Region o) = mapping_key (nm_ProviderRef m) (nm_Region m)).
Proof.
  unfold network. cbv zeta. destruct (NetworkRef _) as [ref|], (sn_Network s) as [n|]; try done.
  2: { intros [= <- <-]. split; [|by intros n [=]]. intros i j c d p q _ Hi. by rewrite lookup_nil in Hi. }
  destruct (first_error _) as [|] eqn:Hf; [done|].
  apply first_error_Forall in Hf. apply Forall_cons in Hf as [Hobj%object_live Hmode].
  apply Forall_cons in Hmode as [Hmode _].
  destruct (check_mappings _ _ _ _ _) as [|[seen l]] eqn:Hm; [done|].
  destruct (check_mappings_spec _ _ _ _ _ _ _ Hm) as (Hd & (ps & -> & Hps) & Hseen & Hall).
  { intros i j p q _ Hi. by rewrite lookup_nil in Hi. }
  destruct (negb _); [done|]. destruct (existsb _ _) eqn:Hlack; [done|]. intros Hres.
  split.
  - destruct (np_Mode (np_Spec n) =s "wireguard") eqn:Hw; [|injection Hres as <- <-; intros i j c d p q _ Hi; by rewrite lookup_nil in Hi].
    injection Hres as _ <-. apply String.eqb_eq in Hw. unfold check_mode in Hmode. rewrite Hw in Hmode.
    cbn [String.eqb Ascii.eqb Bool.eqb negb andb] in Hmode.
    destruct (np_Mappings (np_Spec n)) as [|m [|m' rest]] eqn:Hms.
    + intros i j c d p q _ Hi. by rewrite lookup_nil in Hi.
    + simpl in Hps. rewrite app_nil_r in Hps. intros i j c d p q Hij Hi Hj Hp Hq.
      destruct (Forall2_lookup_l _ _ _ _ _ Hps Hi) as (p' & Hp' & Hp'' & _).
      destruct (Forall2_lookup_l _ _ _ _ _ Hps Hj) as (q' & Hq' & Hq'' & _).
      rewrite Hp in Hp''; rewrite Hq in Hq''. injection Hp'' as <-. injection Hq'' as <-. by eapply (Hd i j).
    + exfalso. apply first_error_Forall in Hmode.
      rewrite !Forall_cons in Hmode. destruct Hmode as (_ & _ & Hone & _). done.
  - intros n' [= <-]. split; [by exists ref|]. split; [naive_solver|].
    intros o Ho Hprov Hreg. rewrite existsb_none in Hlack. specialize (Hlack o Ho).
    assert (isSome (prov !! off_Provider o) = true) as Hp by (by destruct Hprov as [? ->]).
    apply slices_contains_spec in Hreg. rewrite Hp, Hreg in Hlack. cbn [andb] in Hlack.
    reflect in Hlack. apply Hseen in Hlack as [?|?]; [set_solver|done].
Qed.
Lemma resolve_budget_spec s b :
  resolve_budget s = inr b →
  match BudgetRef (ss_Spec (sn_ScaleSet s)) with
  | None => sn_Budget s = None ∧ b = 0
  | Some ref => ∃ cb, sn_Budget s = Some cb ∧ live_in (ns_of s) ref (cb_Meta cb) ∧ b = DailyBudgetMicros cb
  end.
Proof.
  unfold resolve_budget. destruct (BudgetRef _) as [ref|], (sn_Budget s) as [cb|]; try done; [|naive_solver].
  destruct (object _ _ _) as [|] eqn:Ho; [done|]. intros [= <-]. exists cb. split_and!; try done.
  by apply object_live.
Qed.

(** The steps of a successful compilation. *)
Lemma compile_inv s r :
  Compile s = inr r →
  ∃ prov cred np cidrs b,
    object (ss_Meta (sn_ScaleSet s)) (ns_of s) (om_Name (ss_Meta (sn_ScaleSet s))) = None ∧
    object (rc_Meta (sn_Class s)) (ns_of s) (RunnerClassRef (ss_Spec (sn_ScaleSet s))) = None ∧
    object (cc_Meta (sn_Catalog s)) (ns_of s) (CatalogRef (rc_Spec (sn_Class s))) = None ∧
    compile_providers s (rc_Providers (rc_Spec (sn_Class s))) ∅ ∅ []
      = inr (prov, cred, rc_Providers (rc_Spec (sn_Class s))) ∧
    network s prov = inr (np, cidrs) ∧ resolve_budget s = inr b ∧
    rs_Config r = compile_config s prov (sort_strings (rc_Providers (rc_Spec (sn_Class s)))) np cidrs b ∧
    Config_Validate (rs_Config r) = None.
Proof.
  unfold Compile. cbv zeta. destruct (first_error _) as [|] eqn:Hf; [done|].
  apply first_error_Forall in Hf. rewrite !Forall_cons in Hf. destruct Hf as (H1 & H2 & H3 & _).
  destruct (compile_providers _ _ _ _ _) as [|[[prov cred] names]] eqn:Hp; [done|].
  destruct (network s prov) as [|[np cidrs]] eqn:Hn; [done|].
  destruct (resolve_budget s) as [|b] eqn:Hb; [done|].
  destruct (Config_Validate _) as [|] eqn:Hv; [done|]. intros [= <-]. cbn [rs_Config].
  destruct (compile_providers_spec _ _ _ _ _ _ _ _ Hp) as (-> & _). simpl app in *.
  exists prov, cred, np, cidrs, b. by split_and!.
Qed.

Lemma sort_strings_Permutation l : sort_strings l ≡ₚ l.
Proof. apply merge_sort_Permutation. Qed.

(** The addresses of the overlay pool belong to one prefix each. *)
Definition pool_disjoint (cidrs : list string) : Prop :=
  ∀ i j c d p q a, (i < j)%nat → cidrs !! i = Some c → cidrs !! j = Some d →
    ParsePrefix c = inr p → ParsePrefix d = inr q → addr_ok a →
    Contains p a = true → Contains q a = true → False.

(** Each provider of the class is a live object of the namespace, and its
    configuration belongs to the scale set. *)
Definition providers_resolved (s : Snapshot) (c : Config) : Prop :=
  dom (cfg_Providers c) = list_to_set (rc_Providers (rc_Spec (sn_Class s))) ∧
  NoDup (rc_Providers (rc_Spec (sn_Class s))) ∧
  req_Providers (cfg_Requirements c) ≡ₚ rc_Providers (rc_Spec (sn_Class s)) ∧
  ∀ ref p, cfg_Providers c !! ref = Some p →
    pc_Owner p = om_Name (ss_Meta (sn_ScaleSet s)) ∧
    ∃ o, sn_Providers s !! ref = Some o ∧ live_in (ns_of s) ref (pcf_Meta o).

Lemma compile_providers_resolved s prov cred np cidrs b :
  compile_providers s (rc_Providers (rc_Spec (sn_Class s))) ∅ ∅ []
    = inr (prov, cred, rc_Providers (rc_Spec (sn_Class s))) →
  providers_resolved s (compile_config s prov (sort_strings (rc_Providers (rc_Spec (sn_Class s)))) np cidrs b).
Proof.
  intros (_ & Hnd & _ & Hdom & Hrest & Hall)%compile_providers_spec.
  split_and!; [set_solver|done|apply sort_strings_Permutation|]. cbn [cfg_Providers compile_config].
  intros ref p Hp. destruct (decide (ref ∈ rc_Providers (rc_Spec (sn_Class s)))) as [Hin|Hin].
  - destruct (Hall ref Hin) as (o & Ho & Hl & Hp'). rewrite Hp in Hp'. injection Hp' as ->.
    split; [done|]. by exists o.
  - rewrite Hrest, lookup_empty in Hp by done. done.
Qed.

(** C20: a compiled configuration is valid and closed.  When [Compile] accepts
    a snapshot its configuration satisfies [Config.Validate]; the scale set,
    class, catalog, providers, network and budget it was resolved from are live
    objects of one namespace under the referenced names; its providers are
    exactly the class's, without repetition, and owned by the scale set; the
    prefixes of the overlay pool share no address; and with a network profile
    every catalog offering of an allowed provider and region has a mapping of
    that very provider and region. *)
Theorem compile_sound s r :
  Compile s = inr r →
  config_valid (rs_Config r) ∧
  live_in (ns_of s) (om_Name (ss_Meta (sn_ScaleSet s))) (ss_Meta (sn_ScaleSet s)) ∧
  live_in (ns_of s) (RunnerClassRef (ss_Spec (sn_ScaleSet s))) (rc_Meta (sn_Class s)) ∧
  live_in (ns_of s) (CatalogRef (rc_Spec (sn_Class s))) (cc_Meta (sn_Catalog s)) ∧
  providers_resolved s (rs_Config r) ∧
  match BudgetRef (ss_Spec (sn_ScaleSet s)) with
  | None => BudgetDailyMicros (rs_Config r) = 0
  | Some ref => ∃ b, sn_Budget s = Some b ∧ live_in (ns_of s) ref (cb_Meta b) ∧
                  BudgetDailyMicros (rs_Config r) = DailyBudgetMicros b
  end ∧
  pool_disjoint (NetworkOverlayCIDRs (rs_Config r)) ∧
  ∀ n, sn_Network s = Some n →
    (∃ ref, NetworkRef (rc_Spec (sn_Class s)) = Some ref ∧ live_in (ns_of s) ref (np_Meta n)) ∧
    ∀ o, o ∈ Offerings (cfg_Catalog (rs_Config r)) → is_Some (cfg_Providers (rs_Config r) !! off_Provider o) →
      off_Region o ∈ req_Regions (cfg_Requirements (rs_Config r)) →
      ∃ m, m ∈ np_Mappings (np_Spec n) ∧ nm_ProviderRef m = off_Provider o ∧ nm_Region m = off_Region o.
Proof.
  intros (prov & cred & np & cidrs & b & H1 & H2 & H3 & Hp & Hn & Hb & Hc & Hv)%compile_inv.
  apply validate_spec in Hv. destruct (network_spec _ _ _ _ Hn) as [Hdisj Hnet].
  assert (∀ ref, is_Some (prov !! ref) → no_slash ref) as Hslash.
  { intros ref Href. destruct Hv as (_ & _ & _ & _ & _ & _ & _ & _ & _ & _ & Hall).
    destruct (Hall ref) as (_ & _ & Hname & _); [|by apply validate_no_slash].
    rewrite Hc. cbn [cfg_Requirements req_Providers compile_config]. rewrite sort_strings_Permutation.
    apply compile_providers_spec in Hp as (_ & _ & _ & Hdom & _). apply elem_of_dom in Href. set_solver. }
  split; [done|]. do 3 (split; [by apply object_live|]). rewrite Hc.
  split; [by eapply compile_providers_resolved|]. split; [|split].
  - apply resolve_budget_spec in Hb. destruct (BudgetRef _); [done|]. by destruct Hb.
  - cbn [NetworkOverlayCIDRs compile_config]. intros i j c d p q a Hij Hi Hj Hpc Hqd Ha Hpa Hqa.
    assert (Overlaps q p = true) as Ho; [|by rewrite (Hdisj i j c d p q) in Ho].
    apply overlaps_spec; [by eapply ParsePrefix_ok..|]. by exists a.
  - intros n Hsn. destruct (Hnet n Hsn) as (Hlive & Hmaps & Hoff). split; [done|].
    intros o Ho Hpo Hro. destruct (Hoff o Ho Hpo Hro) as (m & Hm & Hkey).
    apply mapping_key_inj in Hkey as [Hk1 Hk2]; [by exists m|by apply Hslash|].
    apply Hslash. destruct (Hmaps m Hm) as (p & -> & _). by eexists.
Qed.
End compile.

