(* ===== verification/Aws.v ===== *)
(** * The AWS adapter
    (internal/provider/aws.go, aws_inventory.go; the session of aws_sdk.go)

    What the code reads of EC2's types, the inventory of an allocation's
    resources, and the create, observe and delete operations as programs over
    EC2 requests.  A pointer that [aws.ToString] reads is its string, "" for
    nil; the timeout of an operation shows as failing requests. *)
From S2P Require Import Prelude.
From S2P Require Import Effects.
From S2P Require Import Encoding.
From S2P Require Import Placement.
From S2P Require Import Resources.
From S2P Require Import Allocation.
From S2P Require Import Provider.
From S2P Require Import Fleet.
From S2P Require Import Command.
From S2P Require Import Cloud.
From S2P Require Import Compile.

(** ** EC2's types *)

Record Tag := { tag_Key : string; tag_Value : string }.

Record Volume := {
  vol_VolumeId : string;
  vol_Tags : list Tag;
  vol_AvailabilityZone : string;
  vol_Attachments : list string;           (* their instance IDs *)
  vol_State : string
}.

Record NetworkInterface := {
  eni_ID : string;
  eni_TagSet : list Tag;
  eni_OwnerId : string;
  eni_AvailabilityZone : string;
  eni_SubnetId : string;
  eni_Attachment : option string;          (* its instance ID *)
  eni_Status : string
}.

Record Instance_ := {
  ins_InstanceId : string;
  ins_ClientToken : string;
  ins_Tags : list Tag;
  ins_Zone : option string;                (* [Placement.AvailabilityZone] *)
  ins_State : option string;
  ins_SubnetId : string;
  ins_Devices : list (string * option string);    (* device name; EBS volume ID *)
  ins_Interfaces : list (string * string);        (* ID; private address *)
  ins_StateReason : option string
}.

Record Reservation := { res_OwnerId : string; res_Instances : list Instance_ }.

(** An EBS block of a device mapping; the rest of it as text. *)
Record EbsBlock := { ebs_DeleteOnTermination : bool; ebs_Encrypted : bool; ebs_Rest : string }.
Record DeviceMapping := { dm_DeviceName : string; dm_Ebs : option EbsBlock }.

Record Image := {
  img_ImageId : string;
  img_Architecture : string;
  img_State : string;
  img_Platform : string;
  img_RootDeviceType : string;
  img_RootDeviceName : string;
  img_ProductCodes : list string;
  img_Devices : list DeviceMapping
}.

(** What [createAWS] sets of [RunInstancesInput]: its network interface, its
    metadata options and its market options among them. *)
Record InterfaceSpec := {
  is_DeviceIndex : Z;
  is_SubnetId : string;
  is_Groups : list string;
  is_AssociatePublicIpAddress : bool;
  is_AssociateCarrierIpAddress : bool;
  is_DeleteOnTermination : bool;
  is_Ipv6AddressCount : Z
}.

Record MetadataOptions := {
  mo_HttpEndpoint : string;
  mo_HttpTokens : string;
  mo_HttpPutResponseHopLimit : Z;
  mo_HttpProtocolIpv6 : string;
  mo_InstanceMetadataTags : string
}.

Record MarketOptions := { mk_MarketType : string; mk_SpotInstanceType : string; mk_InterruptionBehavior : string }.

Record RunInstancesInput := {
  ri_ImageId : string;
  ri_ShutdownBehavior : string;
  ri_InstanceType : string;
  ri_MinCount : Z;
  ri_MaxCount : Z;
  ri_ClientToken : string;
  ri_Zone : string;
  ri_UserData : string;
  ri_Devices : list DeviceMapping;
  ri_Interfaces : list InterfaceSpec;
  ri_Metadata : MetadataOptions;
  ri_Tags : list (string * list Tag);      (* resource type; its tags *)
  ri_Market : option MarketOptions
}.

(** An SDK error and its code, if it is an API error. *)
Record AwsError := { ae_error : error; ae_code : option string }.

(** A page of a listing: its items, whether the response carries a request ID,
    and the token of the next page. *)
Record Page (A : Type) := { pg_Items : list A; pg_Known : bool; pg_NextToken : string }.
Arguments pg_Items {A}.
Arguments pg_Known {A}.
Arguments pg_NextToken {A}.

(** An answer: an error, or a response that may be nil. *)
Abbreviation awsR A := (AwsError + option A)%type.

(** Which resources are described: by identity, or by the allocation's client
    token or ownership tags and a page. *)
Inductive InstanceQuery := InstanceById (id token : string) | InstanceByToken (clientToken token : string).
Inductive OwnedQuery := OwnedById (id : string) | OwnedByTags (owner operation token : string).

Inductive awsE : Type → Type :=
  | Retrieve (region : string) : awsE (option error)
  | GetCallerIdentity : awsE (result (option string))
  | CtxErr : awsE (option error)
  | DescribeInstances (q : InstanceQuery) : awsE (awsR (Page Reservation))
  | DescribeVolumes (q : OwnedQuery) : awsE (awsR (Page Volume))
  | DescribeNetworkInterfaces (q : OwnedQuery) : awsE (awsR (Page NetworkInterface))
  | DescribeImages (id : string) : awsE (awsR (list Image))
  | RunInstances (i : RunInstancesInput) : awsE (awsR (string * list Instance_))
  | WaitTimer : awsE bool                  (* the timer fired before the context ended *)
  | TerminateInstances (id : string) : awsE (awsR (list (string * option string)))
  | DeleteVolume (id : string) : awsE (option AwsError)
  | DeleteNetworkInterface (id : string) : awsE (option AwsError).

Abbreviation awsM := (prog awsE).

(** ** Ownership *)

(** The map of tags; none when a key occurs twice. *)
Fixpoint tag_values (tags : list Tag) (values : gmap string string) : option (gmap string string) :=
  match tags with
  | [] => Some values
  | t :: tags' =>
      if isSome (values !! tag_Key t) then None
      else tag_values tags' (<[tag_Key t := tag_Value t]> values)
  end.

Definition awsOwned (tags : list Tag) (owner allocation : string) : bool :=
  match tag_values tags ∅ with
  | None => false
  | Some values => (map_get "" values owner_tag =s owner) && (map_get "" values operation_tag =s allocation)
  end.

Definition awsMissing (err : AwsError) (code : string) : bool :=
  match ae_code err with Some c => c =s code | None => false end.

Definition instance_states : list string :=
  ["pending"; "running"; "shutting-down"; "terminated"; "stopping"; "stopped"].

Definition awsInstanceOwned (c : ProviderConfig) (a : Allocation) (i : Instance_) : bool :=
  match ins_Zone i, ins_State i with
  | Some zone, Some state =>
      if (ins_InstanceId i =s "") || (ins_ClientToken i <>s ID a) || negb (awsOwned (ins_Tags i) (pc_Owner c) (ID a))
         || (zone <>s off_Zone (al_Offering a))
      then false
      else if (state <>s "terminated") && (ins_SubnetId i <>s Subnet c) then false
      else slices_contains instance_states state
  | _, _ => false
  end.

Definition volume_owned (c : ProviderConfig) (a : Allocation) (v : Volume) : bool :=
  awsOwned (vol_Tags v) (pc_Owner c) (ID a) && (vol_AvailabilityZone v =s off_Zone (al_Offering a)).

Definition interface_owned (c : ProviderConfig) (a : Allocation) (n : NetworkInterface) : bool :=
  awsOwned (eni_TagSet n) (pc_Owner c) (ID a) && (eni_OwnerId n =s AccountID c)
  && (eni_AvailabilityZone n =s off_Zone (al_Offering a)) && (eni_SubnetId n =s Subnet c).

(** ** Inventory *)

Record awsInventory := {
  inv_instance : option Instance_;
  inv_volumes : gmap string Volume;
  inv_interfaces : gmap string NetworkInterface
}.

Definition set_instance (i : Instance_) (v : awsInventory) : awsInventory :=
  {| inv_instance := Some i; inv_volumes := inv_volumes v; inv_interfaces := inv_interfaces v |}.
Definition set_volumes (m : gmap string Volume) (v : awsInventory) : awsInventory :=
  {| inv_instance := inv_instance v; inv_volumes := m; inv_interfaces := inv_interfaces v |}.
Definition set_interfaces (m : gmap string NetworkInterface) (v : awsInventory) : awsInventory :=
  {| inv_instance := inv_instance v; inv_volumes := inv_volumes v; inv_interfaces := m |}.

(** A paged listing.  [fetch] requests the page of a token and folds it into
    the state; it yields the next token, or none to leave the loop.  [n] is
    [100 - len(seen)], so [awsNext] refuses a further page at 0. *)
Fixpoint paginate {S} (fetch : string → S → awsM (result (S * option string)))
    (n : nat) (seen : gset string) (token : string) (s : S) : awsM (result S) :=
  r ← fetch token s;
  match r with
  | inl err => mret (inl err)
  | inr (s, None) => mret (inr s)
  | inr (s, Some next) =>
      if next =s "" then mret (inr s)
      else
        let excessive := mret (inl (errors_new "AWS inventory pagination invalid or excessive")) in
        if bool_decide (next ∈ seen) then excessive
        else match n with
        | O => excessive
        | S n => paginate fetch n ({[next]} ∪ seen) next s
        end
  end.

Fixpoint fold_result {A S} (f : S → A → result S) (s : S) (l : list A) : result S :=
  match l with
  | [] => inr s
  | x :: l' => match f s x with inl err => inl err | inr s => fold_result f s l' end
  end.

Section adapter.
Context (c : ProviderConfig).

(** The loops over the reservations and instances of a page. *)
Definition add_instance (a : Allocation) (inv : awsInventory) (i : Instance_) : result awsInventory :=
  if isSome (inv_instance inv) || negb (awsInstanceOwned c a i)
  then inl (errors_new "AWS instance ownership or identity unconfirmed")
  else inr (set_instance i inv).
Definition add_reservation (a : Allocation) (inv : awsInventory) (r : Reservation) : result awsInventory :=
  if res_OwnerId r <>s AccountID c then inl (errors_new "AWS reservation account mismatch")
  else fold_result (add_instance a) inv (res_Instances r).

Definition fetch_instances (a : Allocation) (token : string) (inv : awsInventory)
    : awsM (result (awsInventory * option string)) :=
  r ← call (DescribeInstances
        (if ResourceID a <>s "" then InstanceById (ResourceID a) token else InstanceByToken (ID a) token));
  mret match r with
       | inl err =>
           if (ResourceID a <>s "") && awsMissing err "InvalidInstanceID.NotFound" then inr (inv, None)
           else inl (errors_new "AWS instance inventory unavailable")
       | inr None => inl (errors_new "AWS instance inventory unavailable")
       | inr (Some page) =>
           if negb (pg_Known page) then inl (errors_new "AWS instance inventory unavailable")
           else if (ResourceID a <>s "") && (length (pg_Items page) =? 0)%nat
           then inl (errors_new "AWS instance response omitted requested identity")
           else match fold_result (add_reservation a) inv (pg_Items page) with
           | inl err => inl err
           | inr inv => inr (inv, Some (pg_NextToken page))
           end
       end.

Definition add_volume (a : Allocation) (inv : awsInventory) (v : Volume) : result awsInventory :=
  if isSome (inv_volumes inv !! vol_VolumeId v) || (vol_VolumeId v =s "") || negb (volume_owned c a v)
  then inl (errors_new "AWS volume ownership unconfirmed")
  else inr (set_volumes (<[vol_VolumeId v := v]> (inv_volumes inv)) inv).

Definition fetch_volumes (a : Allocation) (token : string) (inv : awsInventory)
    : awsM (result (awsInventory * option string)) :=
  r ← call (DescribeVolumes (OwnedByTags (pc_Owner c) (ID a) token));
  mret match r with
       | inr (Some page) =>
           if negb (pg_Known page) then inl (errors_new "AWS volume inventory unavailable")
           else match fold_result (add_volume a) inv (pg_Items page) with
           | inl err => inl err
           | inr inv => inr (inv, Some (pg_NextToken page))
           end
       | _ => inl (errors_new "AWS volume inventory unavailable")
       end.

Definition add_interface (a : Allocation) (inv : awsInventory) (n : NetworkInterface) : result awsInventory :=
  if isSome (inv_interfaces inv !! eni_ID n) || (eni_ID n =s "") || negb (interface_owned c a n)
  then inl (errors_new "AWS network interface ownership unconfirmed")
  else inr (set_interfaces (<[eni_ID n := n]> (inv_interfaces inv)) inv).

Definition fetch_interfaces (a : Allocation) (token : string) (inv : awsInventory)
    : awsM (result (awsInventory * option string)) :=
  r ← call (DescribeNetworkInterfaces (OwnedByTags (pc_Owner c) (ID a) token));
  mret match r with
       | inr (Some page) =>
           if negb (pg_Known page) then inl (errors_new "AWS network interface inventory unavailable")
           else match fold_result (add_interface a) inv (pg_Items page) with
           | inl err => inl err
           | inr inv => inr (inv, Some (pg_NextToken page))
           end
       | _ => inl (errors_new "AWS network interface inventory unavailable")
       end.

Definition volume_ref (id : string) : ResourceReference := {| Kind := "aws-volume"; ref_ID := id; UID := "" |}.
Definition interface_ref (id : string) : ResourceReference :=
  {| Kind := "aws-network-interface"; ref_ID := id; UID := "" |}.

(** The references an instance's own record names. *)
Definition instance_refs (i : Instance_) : list ResourceReference :=
  (volume_ref <$> omap snd (ins_Devices i)) ++ ((λ n, interface_ref (fst n)) <$> ins_Interfaces i).

(** [awsRecordedDependency] *)
Definition awsRecordedDependency (a : Allocation) (ref : ResourceReference) (inv : awsInventory)
    : awsM (result awsInventory) :=
  if Kind ref =s "aws-volume" then
    if negb (strings_has_prefix (ref_ID ref) "vol-") then mret (inl (errors_new "AWS recorded volume identity invalid"))
    else
      r ← call (DescribeVolumes (OwnedById (ref_ID ref)));
      let unavailable := inl (errors_new "AWS recorded volume observation unavailable") in
      mret match r with
           | inl err =>
               if awsMissing err "InvalidVolume.NotFound"
               then inr (set_volumes (delete (ref_ID ref) (inv_volumes inv)) inv) else unavailable
           | inr None => unavailable
           | inr (Some page) =>
               match pg_Known page, pg_Items page with
               | true, [v] =>
                   if (vol_VolumeId v <>s ref_ID ref) || negb (volume_owned c a v)
                   then inl (errors_new "AWS recorded volume ownership changed")
                   else inr (set_volumes (<[ref_ID ref := v]> (inv_volumes inv)) inv)
               | _, _ => unavailable
               end
           end
  else if Kind ref =s "aws-network-interface" then
    if negb (strings_has_prefix (ref_ID ref) "eni-") then mret (inl (errors_new "AWS recorded interface identity invalid"))
    else
      r ← call (DescribeNetworkInterfaces (OwnedById (ref_ID ref)));
      let unavailable := inl (errors_new "AWS recorded interface observation unavailable") in
      mret match r with
           | inl err =>
               if awsMissing err "InvalidNetworkInterfaceID.NotFound"
               then inr (set_interfaces (delete (ref_ID ref) (inv_interfaces inv)) inv) else unavailable
           | inr None => unavailable
           | inr (Some page) =>
               match pg_Known page, pg_Items page with
               | true, [n] =>
                   if (eni_ID n <>s ref_ID ref) || negb (interface_owned c a n)
                   then inl (errors_new "AWS recorded interface ownership changed")
                   else inr (set_interfaces (<[ref_ID ref := n]> (inv_interfaces inv)) inv)
               | _, _ => unavailable
               end
           end
  else mret (inl (errors_new "unsupported AWS dependency kind")).

Fixpoint recorded_dependencies (a : Allocation) (refs : list ResourceReference) (inv : awsInventory)
    : awsM (result awsInventory) :=
  match refs with
  | [] => mret (inr inv)
  | ref :: refs' =>
      r ← awsRecordedDependency a ref inv;
      match r with inl err => mret (inl err) | inr inv => recorded_dependencies a refs' inv end
  end.

Definition terminated (i : Instance_) : bool := match ins_State i with Some s => s =s "terminated" | None => false end.

(** [validateBindings] *)
Definition validateBindings (inv : awsInventory) (instanceID : string) : option error :=
  let instanceID := match inv_instance inv with Some i => ins_InstanceId i | None => instanceID end in
  let outside id := (instanceID =s "") || (id <>s instanceID) in
  if existsb (λ '(_, v), existsb outside (vol_Attachments v)) (map_to_list (inv_volumes inv))
  then Some (errors_new "AWS volume attached outside its allocation")
  else if existsb (λ '(_, n), match eni_Attachment n with Some id => outside id | None => false end)
            (map_to_list (inv_interfaces inv))
  then Some (errors_new "AWS network interface attached outside its allocation")
  else match inv_instance inv with
  | None => None
  | Some i =>
      if terminated i then None
      else if existsb (λ d, match snd d with Some id => isNone (inv_volumes inv !! id) | None => false end) (ins_Devices i)
      then Some (errors_new "AWS instance has an unowned or unobserved EBS attachment")
      else if existsb (λ n, isNone (inv_interfaces inv !! fst n)) (ins_Interfaces i)
      then Some (errors_new "AWS instance has an unowned or unobserved network attachment")
      else None
  end.

(** The checks of the recorded dependencies. *)
Fixpoint check_references (refs : list ResourceReference) : option error :=
  match refs with
  | [] => None
  | r :: refs' =>
      if UID r <>s "" then Some (errors_new "unsupported AWS dependency generation")
      else if (Kind r <>s "aws-volume") && (Kind r <>s "aws-network-interface")
      then Some (errors_new "unsupported AWS dependency kind")
      else check_references refs'
  end.

(** [awsInventory] *)
Definition inventory (a : Allocation) : awsM (result awsInventory) :=
  match check_references (Resources a) with
  | Some err => mret (inl err)
  | None =>
      let fail err := mret (inl err) in
      try fail (paginate (fetch_instances a) 100 ∅ ""
                  {| inv_instance := None; inv_volumes := ∅; inv_interfaces := ∅ |}) (λ inv,
      if match inv_instance inv with
         | Some i => (ResourceID a <>s "") && (ResourceID a <>s ins_InstanceId i)
         | None => false
         end
      then mret (inl (errors_new "AWS durable instance identity changed"))
      else
      try fail (paginate (fetch_volumes a) 100 ∅ "" inv) (λ inv,
      try fail (paginate (fetch_interfaces a) 100 ∅ "" inv) (λ inv,
      match MergeResources [] (Resources a ++ match inv_instance inv with Some i => instance_refs i | None => [] end) with
      | inl err => mret (inl err)
      | inr (references, _) =>
          try fail (recorded_dependencies a references inv) (λ inv,
          mret match validateBindings inv (ResourceID a) with Some err => inl err | None => inr inv end)
      end)))
  end.

Definition is_live (inv : awsInventory) : bool :=
  match inv_instance inv with Some i => negb (terminated i) | None => false end.

(** [observation] *)
Definition observation (inv : awsInventory) (a : Allocation) : result Observation :=
  let id := match inv_instance inv with Some i => ins_InstanceId i | None => ResourceID a end in
  let exists_ := is_live inv || (0 <? size (inv_volumes inv))%nat || (0 <? size (inv_interfaces inv))%nat in
  if exists_ && (id =s "") then inl (errors_new "AWS residual resources retain an unknown instance identity")
  else if (id <>s "") && (negb (strings_has_prefix id "i-")
            || strings_contains_any id (" /" +:+ String (ascii_of_N 10) (String (ascii_of_N 13) (String (ascii_of_N 9) ""))))
  then inl (errors_new "AWS durable instance identity invalid")
  else
    match MergeResources [] (Resources a ++ ((λ p, volume_ref (fst p)) <$> map_to_list (inv_volumes inv))
                             ++ ((λ p, interface_ref (fst p)) <$> map_to_list (inv_interfaces inv))) with
    | inl err => inl err
    | inr (references, _) =>
        let interrupted :=
          negb exists_ && off_Spot (al_Offering a)
          && match inv_instance inv with
             | Some i => terminated i && match ins_StateReason i with
                                         | Some code => code =s "Server.SpotInstanceTermination"
                                         | None => false
                                         end
             | None => false
             end in
        inr {| ob_Resources := references; ob_Exists := exists_; ob_Known := true; ob_Interrupted := interrupted;
               ob_ResourceID := id |}
    end.

(** ** Operations *)

(** [session]: the credentials of a call and the account they belong to. *)
Definition session (region : string) : awsM (option error) :=
  if region =s "" then mret (Some (errors_new "AWS SDK configuration unavailable"))
  else
    e ← call (Retrieve region);
    match e with
    | Some err => mret (Some err)
    | None =>
        who ← call GetCallerIdentity;
        x ← call CtxErr;
        mret match x with
             | Some err => Some err
             | None =>
                 match who with
                 | inl _ | inr None => Some (errors_new "AWS account identity unavailable")
                 | inr (Some account) =>
                     if (account <>s AccountID c) || negb (strlen (AccountID c) =? 12)
                     then Some (errors_new "AWS account identity mismatch") else None
                 end
             end
    end.

(** [observeAWS] *)
Definition observeAWS (a : Allocation) : awsM (result Observation) :=
  e ← session (off_Region (al_Offering a));
  match e with
  | Some err => mret (inl err)
  | None =>
      r ← inventory a;
      mret match r with inl err => inl err | inr inv => observation inv a end
  end.

(** The termination of the instance [i]. *)
Definition terminate_instance (i : Instance_) (id : string) : awsM (option error) :=
  if match ins_State i with Some s => s =s "shutting-down" | None => false end then mret None
  else
    r ← call (TerminateInstances id);
    mret match r with
         | inl err => Some (wrapped "AWS termination commitment unknown: " (ae_error err))
         | inr (Some [(changed, state)]) =>
             if (changed <>s id) || match state with
                                    | Some s => (s <>s "shutting-down") && (s <>s "terminated")
                                    | None => true
                                    end
             then Some (errors_new "AWS termination identity or state unconfirmed") else None
         | inr _ => Some (errors_new "AWS termination commitment unknown")
         end.

(** The loop over the volumes: [Some] ends the operation. *)
Fixpoint delete_volumes (volumes : gmap string Volume) (ids : list string) : awsM (option (option error)) :=
  match ids with
  | [] => mret None
  | id :: ids' =>
      match volumes !! id with
      | None => delete_volumes volumes ids'
      | Some v =>
          if (0 <? length (vol_Attachments v))%nat then delete_volumes volumes ids'
          else if vol_State v =s "available" then
            e ← call (DeleteVolume id);
            mret match e with
                 | Some err =>
                     if awsMissing err "InvalidVolume.NotFound" then Some None
                     else Some (Some (wrapped "AWS volume deletion commitment unknown: " (ae_error err)))
                 | None => Some None
                 end
          else if slices_contains ["creating"; "in-use"; "deleting"; "deleted"] (vol_State v)
          then delete_volumes volumes ids'
          else mret (Some (Some (errors_new "AWS volume state unknown")))
      end
  end.

Fixpoint delete_interfaces (interfaces : gmap string NetworkInterface) (ids : list string) : awsM (option error) :=
  match ids with
  | [] => mret None
  | id :: ids' =>
      match interfaces !! id with
      | None => delete_interfaces interfaces ids'
      | Some n =>
          if isSome (eni_Attachment n) then delete_interfaces interfaces ids'
          else if eni_Status n =s "available" then
            e ← call (DeleteNetworkInterface id);
            mret match e with
                 | Some err =>
                     if awsMissing err "InvalidNetworkInterfaceID.NotFound" then None
                     else Some (wrapped "AWS network interface deletion commitment unknown: " (ae_error err))
                 | None => None
                 end
          else if eni_Status n =s "in-use" then delete_interfaces interfaces ids'
          else mret (Some (errors_new "AWS network interface state unknown"))
      end
  end.

(** Delete what is left once the instance is gone. *)
Definition delete_residual (inv : awsInventory) : awsM (option error) :=
  r ← delete_volumes (inv_volumes inv) (sort_strings (fst <$> map_to_list (inv_volumes inv)));
  match r with
  | Some e => mret e
  | None => delete_interfaces (inv_interfaces inv) (sort_strings (fst <$> map_to_list (inv_interfaces inv)))
  end.

(** [deleteAWS] *)
Definition deleteAWS (a : Allocation) : awsM (option error) :=
  e ← session (off_Region (al_Offering a));
  match e with
  | Some err => mret (Some err)
  | None =>
      r ← inventory a;
      match r with
      | inl err => mret (Some err)
      | inr inv =>
          match observation inv a with
          | inl err => mret (Some err)
          | inr observed =>
              if match MergeResources (Resources a) (ob_Resources observed) with
                 | inl _ => true
                 | inr (_, changed) => changed
                 end
              then mret (Some (errors_new "AWS dependencies require a durable checkpoint before deletion"))
              else if negb (ob_Exists observed) then mret None
              else match inv_instance inv with
              | Some i => if terminated i then delete_residual inv else terminate_instance i (ob_ResourceID observed)
              | None => delete_residual inv
              end
          end
      end
  end.

(** ** Create *)

Definition aws_architecture (s : string) : string :=
  if s =s "amd64" then "x86_64" else if s =s "arm64" then "arm64" else "".

(** The image may be used for the offering. *)
Definition image_fits (a : Allocation) (image : Image) : bool :=
  let architecture := aws_architecture (off_Architecture (al_Offering a)) in
  negb ((architecture =s "") || (img_Architecture image <>s architecture) || (img_State image <>s "available")
        || (img_Platform image <>s "") || (img_RootDeviceType image <>s "ebs") || (img_RootDeviceName image =s "")
        || (0 <? length (img_ProductCodes image))%nat).

(** The loop over the image's devices: the mappings of the request, with every
    disk encrypted and deleted with the instance, and the disks expected. *)
Fixpoint image_devices (devices : list DeviceMapping) (mappings : list DeviceMapping) (expected : gset string)
    : option (list DeviceMapping * gset string) :=
  match devices with
  | [] => Some (mappings, expected)
  | d :: devices' =>
      match dm_Ebs d with
      | None => image_devices devices' (mappings ++ [d]) expected
      | Some disk =>
          if (dm_DeviceName d =s "") || bool_decide (dm_DeviceName d ∈ expected) then None
          else
            let disk := {| ebs_DeleteOnTermination := true; ebs_Encrypted := true; ebs_Rest := ebs_Rest disk |} in
            image_devices devices' (mappings ++ [{| dm_DeviceName := dm_DeviceName d; dm_Ebs := Some disk |}])
              ({[dm_DeviceName d]} ∪ expected)
      end
  end.

Definition run_input (a : Allocation) (script : string) (mappings : list DeviceMapping) : RunInstancesInput :=
  let tags := [{| tag_Key := owner_tag; tag_Value := pc_Owner c |}; {| tag_Key := operation_tag; tag_Value := ID a |}] in
  {| ri_ImageId := off_Image (al_Offering a); ri_ShutdownBehavior := "terminate";
     ri_InstanceType := off_Machine (al_Offering a); ri_MinCount := 1; ri_MaxCount := 1; ri_ClientToken := ID a;
     ri_Zone := off_Zone (al_Offering a); ri_UserData := base64_encode (go_bytes script); ri_Devices := mappings;
     ri_Interfaces :=
       [{| is_DeviceIndex := 0; is_SubnetId := Subnet c; is_Groups := [SecurityGroup c];
           is_AssociatePublicIpAddress := false; is_AssociateCarrierIpAddress := false;
           is_DeleteOnTermination := true; is_Ipv6AddressCount := 0 |}];
     ri_Metadata :=
       {| mo_HttpEndpoint := "enabled"; mo_HttpTokens := "required"; mo_HttpPutResponseHopLimit := 1;
          mo_HttpProtocolIpv6 := "disabled"; mo_InstanceMetadataTags := "disabled" |};
     ri_Tags := [("instance", tags); ("volume", tags); ("network-interface", tags)];
     ri_Market :=
       if off_Spot (al_Offering a)
       then Some {| mk_MarketType := "spot"; mk_SpotInstanceType := "one-time"; mk_InterruptionBehavior := "terminate" |}
       else None |}.

(** Wait for the disks of a new instance to show, three times at most. *)
Fixpoint await_devices (attempts : nat) (i : Instance_) : awsM Instance_ :=
  match attempts with
  | O => mret i
  | S n =>
      if (length (ins_Devices i) =? 0)%nat then
        fired ← call WaitTimer;
        if (fired : bool) then
          r ← call (DescribeInstances (InstanceById (ins_InstanceId i) ""));
          await_devices n match r with
                          | inr (Some {| pg_Items := [{| res_Instances := [i'] |}] |}) => i'
                          | _ => i
                          end
        else await_devices n i
      else mret i
  end.

(** The references of the receipt. *)
Definition receipt_refs (i : Instance_) : list ResourceReference :=
  (volume_ref <$> List.filter (λ id, id <>s "") (omap snd (ins_Devices i)))
  ++ (interface_ref <$> List.filter (λ id, id <>s "") (fst <$> ins_Interfaces i)).

(** The names of the disks of an instance. *)
Definition observed_disks (i : Instance_) : gset string :=
  list_to_set (omap (λ d, match snd d with Some _ => Some (fst d) | None => None end) (ins_Devices i)).

(** The receipt of a created instance. *)
Definition created_receipt (i : Instance_) (expected : gset string) : Creation * option error :=
  let endpoint := match ins_Interfaces i with [(_, ip)] => wireGuardEndpoint ip | _ => "" end in
  match MergeResources [] (receipt_refs i) with
  | inl err => (receipt (ins_InstanceId i) [] endpoint, Some err)
  | inr (refs, _) =>
      let creation := receipt (ins_InstanceId i) refs endpoint in
      if negb (length (ins_Interfaces i) =? 1)%nat || negb (size (observed_disks i) =? size expected)%nat
         || negb (length refs =? size expected + 1)%nat
      then (creation, Some (errors_new "AWS creation dependencies incomplete"))
      else if negb (bool_decide (expected ⊆ observed_disks i))
      then (creation, Some (errors_new "AWS creation disk binding incomplete"))
      else (creation, None)
  end.

(** After the inventory was found empty. *)
Definition run_instance (a : Allocation) (script : string) : awsM (Creation * option error) :=
  let no_effect := mret (no_creation, Some errNoEffect) in
  images ← call (DescribeImages (off_Image (al_Offering a)));
  match images with
  | inr (Some [image]) =>
      if img_ImageId image <>s off_Image (al_Offering a) then no_effect
      else if negb (image_fits a image) then no_effect
      else match image_devices (img_Devices image) [] ∅ with
      | None => no_effect
      | Some (mappings, expected) =>
          if negb (bool_decide (img_RootDeviceName image ∈ expected)) then no_effect
          else
            r ← call (RunInstances (run_input a script mappings));
            match r with
            | inl err =>
                if awsMissing err "InsufficientInstanceCapacity" then mret (no_creation, Some errCapacity)
                else mret (no_creation, Some (wrapped "AWS create commitment unknown: " (ae_error err)))
            | inr (Some (owner, [i])) =>
                if (owner <>s AccountID c) || negb (awsInstanceOwned c a i)
                then mret (no_creation, Some (errors_new "AWS create response ownership unconfirmed"))
                else i ← await_devices 3 i; mret (created_receipt i expected)
            | inr _ => mret (no_creation, Some (errors_new "AWS create response ownership unconfirmed"))
            end
      end
  | _ => no_effect
  end.

(** [createAWS] *)
Definition createAWS (a : Allocation) (script : string) : awsM (Creation * option error) :=
  if (ResourceID a <>s "") || (0 <? length (Resources a))%nat
  then mret (no_creation, Some (errors_new "AWS create requires an unoccupied allocation"))
  else
    e ← session (off_Region (al_Offering a));
    match e with
    | Some err => mret (no_creation, Some err)
    | None =>
        r ← inventory a;
        if match r with
           | inl _ => true
           | inr inv => isSome (inv_instance inv) || (0 <? size (inv_volumes inv))%nat
                        || (0 <? size (inv_interfaces inv))%nat
           end
        then mret (no_creation, Some (errors_new "AWS allocation inventory is unknown or occupied"))
        else run_instance a script
    end.
End adapter.
