(* ===== verification/AwsProps.v ===== *)
(** * Properties of the AWS adapter

    Absence is reported only when nothing is left; a delete touches only proven,
    recorded resources; a create is made at most once on an empty inventory. *)
From S2P Require Import Prelude.
From S2P Require Import Effects.
From S2P Require Import Placement.
From S2P Require Import Resources.
From S2P Require Import Allocation.
From S2P Require Import Provider.
From S2P Require Import Fleet.
From S2P Require Import Command.
From S2P Require Import Cloud.
From S2P Require Import Compile.
From S2P Require Import CompileProps.
From S2P Require Import Aws.

Abbreviation aws_history := (list (event awsE)).

(** ** EC2 *)

(** What EC2 holds of an account and how it pages its listings; it does not
    change during an observation. *)
Record Ec2 := {
  ec2_instances : list Instance_;
  ec2_volumes : list Volume;
  ec2_interfaces : list NetworkInterface;
  reservation_page : InstanceQuery → Page Reservation;
  volume_page : string → string → string → Page Volume;
  interface_page : string → string → string → Page NetworkInterface
}.

(** The tokens of a listing, from [t] on. *)
Inductive page_after {A} (page : string → Page A) : string → string → Prop :=
  | page_here t : page_after page t t
  | page_next t t' : pg_NextToken (page t) ≠ "" → page_after page (pg_NextToken (page t)) t' → page_after page t t'.

(** The listing shows [x] on one of its pages. *)
Definition listed {A} (page : string → Page A) (x : A) : Prop :=
  ∃ t, page_after page "" t ∧ x ∈ pg_Items (page t).

(** EC2's tag filter. *)
Definition tagged (tags : list Tag) (owner operation : string) : Prop :=
  {| tag_Key := owner_tag; tag_Value := owner |} ∈ tags ∧
  {| tag_Key := operation_tag; tag_Value := operation |} ∈ tags.

(** Listings are complete. *)
Definition ec2_complete (w : Ec2) : Prop :=
  (∀ token i, i ∈ ec2_instances w → ins_ClientToken i = token →
     ∃ r, listed (λ t, reservation_page w (InstanceByToken token t)) r ∧ i ∈ res_Instances r) ∧
  (∀ id i, i ∈ ec2_instances w → ins_InstanceId i = id →
     ∃ r, listed (λ t, reservation_page w (InstanceById id t)) r ∧ i ∈ res_Instances r) ∧
  (∀ o op v, v ∈ ec2_volumes w → tagged (vol_Tags v) o op → listed (volume_page w o op) v) ∧
  (∀ o op n, n ∈ ec2_interfaces w → tagged (eni_TagSet n) o op → listed (interface_page w o op) n).

(** The answers of EC2: pages of its listings; "not found" only for what does
    not exist.  Any request may fail. *)
Definition ec2_answers (w : Ec2) : contract awsE := λ X e, match e in awsE T return T → Prop with
  | DescribeInstances q => λ r,
      match r with
      | inr (Some page) => page = reservation_page w q
      | inr None => True
      | inl err => awsMissing err "InvalidInstanceID.NotFound" = true →
                   match q with
                   | InstanceById id _ => ∀ i, i ∈ ec2_instances w → ins_InstanceId i ≠ id
                   | InstanceByToken _ _ => True
                   end
      end
  | DescribeVolumes q => λ r,
      match q, r with
      | OwnedByTags o op t, inr (Some page) => page = volume_page w o op t
      | OwnedById id, inl err => awsMissing err "InvalidVolume.NotFound" = true →
                                 ∀ v, v ∈ ec2_volumes w → vol_VolumeId v ≠ id
      | _, _ => True
      end
  | DescribeNetworkInterfaces q => λ r,
      match q, r with
      | OwnedByTags o op t, inr (Some page) => page = interface_page w o op t
      | OwnedById id, inl err => awsMissing err "InvalidNetworkInterfaceID.NotFound" = true →
                                 ∀ n, n ∈ ec2_interfaces w → eni_ID n ≠ id
      | _, _ => True
      end
  | _ => λ _, True
  end.

(** ** Pagination *)

Section paginate.
Context {St : Type} (G : contract awsE) (fetch : string → St → awsM (result (St * option string))).
Context (I : aws_history → string → St → Prop) (D : aws_history → St → Prop).

(** The rule of a paged listing: [I] holds before each page, [D] after the last. *)
Lemma wp_paginate :
  (∀ h token s, I h token s → wp G (λ h' r, match r with
     | inl _ => True
     | inr (s', None) => D h' s'
     | inr (s', Some next) => if next =s "" then D h' s' else I h' next s'
     end) h (fetch token s)) →
  ∀ n seen h token s, I h token s →
  wp G (λ h' r, match r with inl _ => True | inr s' => D h' s' end) h (paginate fetch n seen token s).
Proof.
  intros Hfetch n. induction n as [|n IH]; intros seen h token s Hs; cbn [paginate];
    apply wp_bind; (eapply wp_mono; [by apply Hfetch|]); intros h' [e|[s' [next|]]] Hr; try by apply wp_ret.
  - destruct (next =s ""); [by apply wp_ret|]. by case_bool_decide; apply wp_ret.
  - destruct (next =s ""); [by apply wp_ret|]. case_bool_decide; [by apply wp_ret|]. by apply IH.
Qed.
End paginate.

(** What a fold that succeeds has taken in. *)
Lemma fold_result_spec {A St} (f : St → A → result St) (R : St → St → Prop) (holds : St → A → Prop) :
  (∀ s, R s s) → (∀ s1 s2 s3, R s1 s2 → R s2 s3 → R s1 s3) →
  (∀ s s' x, R s s' → holds s x → holds s' x) →
  (∀ s x s', f s x = inr s' → R s s' ∧ holds s' x) →
  ∀ l s s', fold_result f s l = inr s' → R s s' ∧ ∀ x, x ∈ l → holds s' x.
Proof.
  intros Hrefl Htrans Hkeep Hf l. induction l as [|x l IH]; intros s s'; cbn [fold_result].
  - intros [= <-]. split; [done|]. intros x Hx. by apply not_elem_of_nil in Hx.
  - destruct (f s x) as [e|s1] eqn:Hx; [done|]. intros [HR Hl]%IH. apply Hf in Hx as [HR1 Hx].
    split; [by eapply Htrans|]. intros y [->|Hy]%elem_of_cons; [by eapply Hkeep|by apply Hl].
Qed.

(** ** The inventory covers the account *)

Section covers.
Context (c : ProviderConfig) (w : Ec2) (a : Allocation).

(** The instance, and every volume and interface that exists, stays listed. *)
Record keeps (v v' : awsInventory) : Prop := {
  keeps_instance i : inv_instance v = Some i → inv_instance v' = Some i;
  keeps_volume x : x ∈ ec2_volumes w → is_Some (inv_volumes v !! vol_VolumeId x) →
    is_Some (inv_volumes v' !! vol_VolumeId x);
  keeps_interface x : x ∈ ec2_interfaces w → is_Some (inv_interfaces v !! eni_ID x) →
    is_Some (inv_interfaces v' !! eni_ID x)
}.

Lemma inv_keeps_refl v : keeps v v.
Proof. by split. Qed.
Lemma inv_keeps_trans v1 v2 v3 : keeps v1 v2 → keeps v2 v3 → keeps v1 v3.
Proof. intros [] []. split; auto. Qed.

(** What the inventory holds. *)
Definition has_instance (v : awsInventory) (i : Instance_) : Prop := inv_instance v = Some i.
Definition has_reservation (v : awsInventory) (r : Reservation) : Prop := ∀ i, i ∈ res_Instances r → has_instance v i.
Definition has_volume (v : awsInventory) (x : Volume) : Prop :=
  x ∈ ec2_volumes w → is_Some (inv_volumes v !! vol_VolumeId x).
Definition has_interface (v : awsInventory) (x : NetworkInterface) : Prop :=
  x ∈ ec2_interfaces w → is_Some (inv_interfaces v !! eni_ID x).

Lemma keeps_has v v' : keeps v v' →
  (∀ r, has_reservation v r → has_reservation v' r) ∧ (∀ x, has_volume v x → has_volume v' x) ∧
  (∀ x, has_interface v x → has_interface v' x).
Proof.
  intros [Hi Hv Hn]. split_and!.
  - intros r Hr i Hin. by apply Hi, Hr.
  - intros x Hx Hw. by apply Hv, Hx.
  - intros x Hx Hw. by apply Hn, Hx.
Qed.

Lemma add_instance_keeps v i v' : add_instance c a v i = inr v' → keeps v v' ∧ has_instance v' i.
Proof.
  unfold add_instance. destruct (_ || _) eqn:Hc; [done|]. intros [= <-]. reflect in Hc. destruct Hc as [Hn _].
  split; [|done]. split; [|done|done]. intros j. by rewrite Hn.
Qed.

Lemma add_reservation_keeps v r v' : add_reservation c a v r = inr v' → keeps v v' ∧ has_reservation v' r.
Proof.
  unfold add_reservation. destruct (_ <>s _); [done|].
  apply (fold_result_spec (add_instance c a) keeps has_instance inv_keeps_refl inv_keeps_trans); [|apply add_instance_keeps].
  intros s s' x Hk. apply (keeps_instance _ _ Hk).
Qed.

Lemma add_volume_keeps v x v' : add_volume c a v x = inr v' → keeps v v' ∧ has_volume v' x.
Proof.
  unfold add_volume. destruct (_ || _) eqn:Hc; [done|]. intros [= <-]. split; [split; [done| |done]|].
  - intros y _ Hy. cbn. by apply lookup_insert_is_Some'; right.
  - intros _. cbn. apply lookup_insert_is_Some'. by left.
Qed.

Lemma add_interface_keeps v x v' : add_interface c a v x = inr v' → keeps v v' ∧ has_interface v' x.
Proof.
  unfold add_interface. destruct (_ || _) eqn:Hc; [done|]. intros [= <-]. split; [split; [done|done|]|].
  - intros y _ Hy. cbn. by apply lookup_insert_is_Some'; right.
  - intros _. cbn. apply lookup_insert_is_Some'. by left.
Qed.

(** A complete listing: whatever [has] means for the items of its pages. *)
Section listing.
Context {A : Type} (page : string → Page A) (has : awsInventory → A → Prop).
Context (has_keeps : ∀ v v' x, keeps v v' → has v x → has v' x).

(** Every item of the listing is held, or on a page from [token] on. *)
Definition reading (start : awsInventory) (token : string) (v : awsInventory) : Prop :=
  keeps start v ∧ ∀ t x, page_after page "" t → x ∈ pg_Items (page t) → has v x ∨ page_after page token t.
Definition read_all (start v : awsInventory) : Prop := keeps start v ∧ ∀ x, listed page x → has v x.

Lemma reading_start v : reading v "" v.
Proof. split; [apply inv_keeps_refl|]. auto. Qed.

Lemma reading_next start token v v' :
  reading start token v → keeps v v' → (∀ x, x ∈ pg_Items (page token) → has v' x) →
  if pg_NextToken (page token) =s "" then read_all start v' else reading start (pg_NextToken (page token)) v'.
Proof.
  intros [Hk Hr] Hv Hitems.
  assert (∀ t x, page_after page "" t → x ∈ pg_Items (page t) →
    has v' x ∨ pg_NextToken (page token) ≠ "" ∧ page_after page (pg_NextToken (page token)) t) as Hnext.
  { intros t x Ht Hx. destruct (Hr t x Ht Hx) as [Hh|Hp]; [left; by eapply has_keeps|].
    inversion Hp; subst; [left; by apply Hitems|by right]. }
  destruct (String.eqb_spec (pg_NextToken (page token)) "") as [He|He]; split; try by eapply inv_keeps_trans.
  - intros x (t & Ht & Hx). destruct (Hnext t x Ht Hx) as [?|[? _]]; [done|congruence].
  - intros t x Ht Hx. destruct (Hnext t x Ht Hx) as [?|[_ ?]]; auto.
Qed.
End listing.

(** ** The listings of an inventory *)

Abbreviation G := (ec2_answers w).
Hypothesis (complete : ec2_complete w).

(** The instance an allocation is about: the recorded one, or the one created
    with its client token. *)
Definition of_allocation (i : Instance_) : Prop :=
  if ResourceID a <>s "" then ins_InstanceId i = ResourceID a else ins_ClientToken i = ID a.

Definition instance_page (t : string) : Page Reservation :=
  reservation_page w (if ResourceID a <>s "" then InstanceById (ResourceID a) t else InstanceByToken (ID a) t).

Lemma instances_listed v i :
  (∀ r, listed instance_page r → has_reservation v r) → i ∈ ec2_instances w → of_allocation i → has_instance v i.
Proof.
  intros Hv Hi Ha. destruct complete as (Htok & Hid & _). unfold of_allocation in Ha.
  assert (∃ r, listed instance_page r ∧ i ∈ res_Instances r) as (r & Hr & Hir); [|by apply (Hv r Hr)].
  unfold instance_page. destruct (_ <>s _) in *; [by apply Hid|by apply Htok].
Qed.

Lemma wp_instances h v :
  wp G (λ _ r, match r with
    | inl _ => True
    | inr v' => keeps v v' ∧ ∀ i, i ∈ ec2_instances w → of_allocation i → has_instance v' i
    end) h (paginate (fetch_instances c a) 100 ∅ "" v).
Proof.
  apply (wp_paginate G (fetch_instances c a) (λ _, reading instance_page has_reservation v)
           (λ _ v', keeps v v' ∧ ∀ i, i ∈ ec2_instances w → of_allocation i → has_instance v' i));
    [|apply reading_start].
  intros h' token s Hs. unfold fetch_instances. apply wp_call_bind. intros r Hr. apply wp_ret.
  destruct r as [err|[page|]]; [| |done].
  - destruct (_ <>s _) eqn:Hid; [|done]. destruct (awsMissing err _) eqn:Hm; [|done]. split; [apply Hs|].
    intros i Hi. unfold of_allocation. rewrite Hid. intros Heq. by destruct (Hr Hm i Hi).
  - assert (page = instance_page token) as -> by exact Hr.
    destruct (negb (pg_Known _)); [done|]. destruct (_ && _); [done|].
    destruct (fold_result _ _ _) as [e|s'] eqn:Hf; [done|].
    apply (fold_result_spec (add_reservation c a) keeps has_reservation inv_keeps_refl inv_keeps_trans) in Hf
      as [Hk Hall]; [|intros ??? Hk; apply (keeps_has _ _ Hk)|apply add_reservation_keeps].
    pose proof (reading_next instance_page has_reservation (λ v v' x Hk, proj1 (keeps_has v v' Hk) x)
                  v token s s' Hs Hk Hall) as Hn.
    destruct (pg_NextToken _ =s ""); [|done]. destruct Hn as [? Hn]. split; [done|]. intros i. by apply instances_listed.
Qed.

Lemma wp_volumes h v :
  wp G (λ _ r, match r with
    | inl _ => True
    | inr v' => keeps v v' ∧ ∀ x, listed (volume_page w (pc_Owner c) (ID a)) x → has_volume v' x
    end) h (paginate (fetch_volumes c a) 100 ∅ "" v).
Proof.
  apply (wp_paginate G (fetch_volumes c a) (λ _, reading (volume_page w (pc_Owner c) (ID a)) has_volume v)
           (λ _, read_all (volume_page w (pc_Owner c) (ID a)) has_volume v)); [|apply reading_start].
  intros h' token s Hs. unfold fetch_volumes. apply wp_call_bind. intros r Hr. apply wp_ret.
  destruct r as [err|[page|]]; [done| |done]. cbn in Hr. subst page. destruct (negb _); [done|].
  destruct (fold_result _ _ _) as [e|s'] eqn:Hf; [done|].
  apply (fold_result_spec (add_volume c a) keeps has_volume inv_keeps_refl inv_keeps_trans) in Hf as [Hk Hall];
    [|intros ??? Hk; apply (keeps_has _ _ Hk)|apply add_volume_keeps].
  apply (reading_next _ has_volume (λ v v' x Hk, proj1 (proj2 (keeps_has v v' Hk)) x) v token s s' Hs Hk Hall).
Qed.

Lemma wp_interfaces h v :
  wp G (λ _ r, match r with
    | inl _ => True
    | inr v' => keeps v v' ∧ ∀ x, listed (interface_page w (pc_Owner c) (ID a)) x → has_interface v' x
    end) h (paginate (fetch_interfaces c a) 100 ∅ "" v).
Proof.
  apply (wp_paginate G (fetch_interfaces c a) (λ _, reading (interface_page w (pc_Owner c) (ID a)) has_interface v)
           (λ _, read_all (interface_page w (pc_Owner c) (ID a)) has_interface v)); [|apply reading_start].
  intros h' token s Hs. unfold fetch_interfaces. apply wp_call_bind. intros r Hr. apply wp_ret.
  destruct r as [err|[page|]]; [done| |done]. cbn in Hr. subst page. destruct (negb _); [done|].
  destruct (fold_result _ _ _) as [e|s'] eqn:Hf; [done|].
  apply (fold_result_spec (add_interface c a) keeps has_interface inv_keeps_refl inv_keeps_trans) in Hf as [Hk Hall];
    [|intros ??? Hk; apply (keeps_has _ _ Hk)|apply add_interface_keeps].
  apply (reading_next _ has_interface (λ v v' x Hk, proj2 (proj2 (keeps_has v v' Hk)) x) v token s s' Hs Hk Hall).
Qed.

(** ** Recorded dependencies *)

Definition has_ref (v : awsInventory) (ref : ResourceReference) : Prop :=
  (Kind ref = "aws-volume" → ∀ x, vol_VolumeId x = ref_ID ref → has_volume v x) ∧
  (Kind ref = "aws-network-interface" → ∀ x, eni_ID x = ref_ID ref → has_interface v x).

Lemma has_ref_keeps v v' ref : keeps v v' → has_ref v ref → has_ref v' ref.
Proof. intros (_ & Hv & Hi)%keeps_has [H1 H2]. split; intros Hk x Hx; auto. Qed.

Lemma wp_recorded h ref v :
  wp G (λ _ r, match r with inl _ => True | inr v' => keeps v v' ∧ has_ref v' ref end) h
    (awsRecordedDependency c a ref v).
Proof.
  unfold awsRecordedDependency. destruct (String.eqb_spec (Kind ref) "aws-volume") as [Hk|Hk].
  { destruct (negb _); [by apply wp_ret|]. apply wp_call_bind. intros r Hr. apply wp_ret.
    destruct r as [err|[page|]]; [| |done].
    - destruct (awsMissing _ _) eqn:Hm; [|done]. specialize (Hr Hm). split; [split; [done| |done]|split; [|congruence]].
      + intros x Hx Hv. cbn. rewrite lookup_delete_ne; [done|]. by apply not_eq_sym, Hr.
      + intros _ x Hx Hw. by destruct (Hr x Hw).
    - destruct (pg_Known page); [|done]. destruct (pg_Items page) as [|x [|??]]; [done| |done].
      destruct (_ || _); [done|]. split; [split; [done| |done]|split; [|congruence]].
      + intros y _ Hy. cbn. apply lookup_insert_is_Some'. by right.
      + intros _ y Hy _. cbn. apply lookup_insert_is_Some'. by left. }
  destruct (String.eqb_spec (Kind ref) "aws-network-interface") as [Hk'|Hk']; [|by apply wp_ret].
  destruct (negb _); [by apply wp_ret|]. apply wp_call_bind. intros r Hr. apply wp_ret.
  destruct r as [err|[page|]]; [| |done].
  - destruct (awsMissing _ _) eqn:Hm; [|done]. specialize (Hr Hm). split; [split; [done|done|]|split; [congruence|]].
    + intros x Hx Hv. cbn. rewrite lookup_delete_ne; [done|]. by apply not_eq_sym, Hr.
    + intros _ x Hx Hw. by destruct (Hr x Hw).
  - destruct (pg_Known page); [|done]. destruct (pg_Items page) as [|x [|??]]; [done| |done].
    destruct (_ || _); [done|]. split; [split; [done|done|]|split; [congruence|]].
    + intros y _ Hy. cbn. apply lookup_insert_is_Some'. by right.
    + intros _ y Hy _. cbn. apply lookup_insert_is_Some'. by left.
Qed.

Lemma wp_dependencies refs : ∀ h v,
  wp G (λ _ r, match r with inl _ => True | inr v' => keeps v v' ∧ ∀ ref, ref ∈ refs → has_ref v' ref end) h
    (recorded_dependencies c a refs v).
Proof.
  induction refs as [|ref refs IH]; intros h v; cbn [recorded_dependencies].
  { apply wp_ret. split; [apply inv_keeps_refl|]. intros ref Hr. by apply not_elem_of_nil in Hr. }
  apply wp_bind. eapply wp_mono; [apply wp_recorded|]. intros h' [e|v1] H1; [by apply wp_ret|].
  destruct H1 as [Hk Href]. eapply wp_mono; [apply IH|]. intros h2 [e|v2]; [done|]. intros [Hk2 Hall].
  split; [by eapply inv_keeps_trans|]. intros ref' [->|Hr]%elem_of_cons; [|by apply Hall]. by eapply has_ref_keeps.
Qed.

(** ** Nothing is missed *)

(** Volumes and interfaces of the allocation: tagged with it, or recorded. *)
Definition volume_of (x : Volume) : Prop :=
  tagged (vol_Tags x) (pc_Owner c) (ID a) ∨ volume_ref (vol_VolumeId x) ∈ Resources a.
Definition interface_of (x : NetworkInterface) : Prop :=
  tagged (eni_TagSet x) (pc_Owner c) (ID a) ∨ interface_ref (eni_ID x) ∈ Resources a.

Record covers (v : awsInventory) : Prop := {
  covers_instance i : i ∈ ec2_instances w → of_allocation i → inv_instance v = Some i;
  covers_volume x : x ∈ ec2_volumes w → volume_of x → is_Some (inv_volumes v !! vol_VolumeId x);
  covers_interface x : x ∈ ec2_interfaces w → interface_of x → is_Some (inv_interfaces v !! eni_ID x)
}.

Lemma wp_inventory h :
  wp G (λ _ r, match r with inl _ => True | inr v => covers v end) h (inventory c a).
Proof.
  destruct complete as (_ & _ & Hvol & Heni).
  unfold inventory. destruct (check_references _); [by apply wp_ret|].
  apply wp_try. eapply wp_mono; [apply wp_instances|]. intros h1 [e|v1] H1; [by apply wp_ret|].
  destruct H1 as [_ Hins]. destruct (match inv_instance v1 with Some _ => _ | None => _ end); [by apply wp_ret|].
  apply wp_try. eapply wp_mono; [apply wp_volumes|]. intros h2 [e|v2] H2; [by apply wp_ret|].
  destruct H2 as [Hk2 Hv2].
  apply wp_try. eapply wp_mono; [apply wp_interfaces|]. intros h3 [e|v3] H3; [by apply wp_ret|].
  destruct H3 as [Hk3 Hv3]. destruct (MergeResources _ _) as [e|[refs ch]] eqn:Hm; [by apply wp_ret|].
  apply merge_spec in Hm as (_ & _ & Hrefs & _).
  apply wp_try. eapply wp_mono; [apply wp_dependencies|]. intros h4 [e|v4] H4; [by apply wp_ret|].
  destruct H4 as [Hk4 Hv4]. apply wp_ret. destruct (validateBindings _ _); [done|].
  assert (∀ r, r ∈ Resources a → has_ref v4 r) as Hres.
  { intros r Hr. apply Hv4, Hrefs. right. apply elem_of_app. by left. }
  pose proof (keeps_has _ _ (inv_keeps_trans _ _ _ Hk3 Hk4)) as (_ & Hkv & _). pose proof (keeps_has _ _ Hk4) as (_ & _ & Hki).
  split.
  - intros i Hi Ha. apply (keeps_instance _ _ Hk4), (keeps_instance _ _ Hk3), (keeps_instance _ _ Hk2). by apply Hins.
  - intros x Hx [Ht|Hr]; [by apply (Hkv x (Hv2 x (Hvol _ _ _ Hx Ht)))|].
    destruct (Hres _ Hr) as [Hr' _]. by apply (Hr' eq_refl x).
  - intros x Hx [Ht|Hr]; [by apply (Hki x (Hv3 x (Heni _ _ _ Hx Ht)))|].
    destruct (Hres _ Hr) as [_ Hr']. by apply (Hr' eq_refl x).
Qed.

End covers.

(** ** Absence *)

Lemma observation_absent v a ob :
  observation v a = inr ob → ob_Exists ob = false → is_live v = false ∧ inv_volumes v = ∅ ∧ inv_interfaces v = ∅.
Proof.
  unfold observation. cbv zeta. destruct (_ && _); [done|]. destruct (_ && _); [done|].
  destruct (MergeResources _ _) as [e|[refs ch]]; [done|]. intros [= <-]. cbn [ob_Exists].
  rewrite !orb_false_iff, !Nat.ltb_ge, !Nat.le_0_r, !map_size_empty_iff. tauto.
Qed.

(** Nothing of the allocation is left in the account. *)
Definition nothing_left c (w : Ec2) a : Prop :=
  (∀ i, i ∈ ec2_instances w → of_allocation a i → terminated i = true) ∧
  (∀ x, x ∈ ec2_volumes w → ¬ volume_of c a x) ∧ (∀ x, x ∈ ec2_interfaces w → ¬ interface_of c a x).

Lemma wp_observeAWS_absent c w a :
  ec2_complete w →
  wp (ec2_answers w) (λ _ r, ∀ ob, r = inr ob → ob_Exists ob = false → nothing_left c w a) [] (observeAWS c a).
Proof.
  intros Hw. unfold observeAWS. apply wp_bind. eapply wp_mono; [apply wp_true|].
  intros h [e|] _; [by apply wp_ret|]. apply wp_bind. eapply wp_mono; [by apply wp_inventory|].
  intros h' [e|v] Hv; apply wp_ret; [done|]. intros ob Hob Hex.
  destruct (observation_absent v a ob Hob Hex) as (Hlive & Hvol & Heni). split_and!.
  - intros i Hi Ha. unfold is_live in Hlive. rewrite (covers_instance _ _ _ _ Hv i Hi Ha) in Hlive. by apply negb_false_iff.
  - intros x Hx Ha. destruct (covers_volume _ _ _ _ Hv x Hx Ha) as [? Hl]. by rewrite Hvol, lookup_empty in Hl.
  - intros x Hx Ha. destruct (covers_interface _ _ _ _ Hv x Hx Ha) as [? Hl]. by rewrite Heni, lookup_empty in Hl.
Qed.

(** An AWS allocation is reported gone only when nothing of it is left.  If
    EC2 does not change during the observation and its listings are complete,
    an observation without error that reports absence implies that the
    recorded instance (or, before one is recorded, any with the allocation's
    client token) is missing or terminated, and that no volume or interface
    that carries the ownership tags or is recorded as a dependency exists. *)
Theorem aws_absence_confirmed c w a :
  ec2_complete w →
  ensures (ec2_answers w) (observeAWS c a) (λ _ r, ∀ ob, r = inr ob → ob_Exists ob = false → nothing_left c w a).
Proof. intros Hw. by apply wp_ensures, wp_observeAWS_absent. Qed.
