(* ===== verification/AwsSafety.v ===== *)
(** * Safety of the AWS adapter's changes

    A delete makes at most one change, on a resource this call read again and
    proved to belong to the allocation; a create makes at most one request,
    when nothing of the allocation exists, and reports its outcome truthfully. *)
From S2P Require Import Prelude.
From S2P Require Import Effects.
From S2P Require Import Placement.
From S2P Require Import Resources.
From S2P Require Import Allocation.
From S2P Require Import Provider.
From S2P Require Import Fleet.
From S2P Require Import Command.
From S2P Require Import Cloud.
From S2P Require Import Compile.
From S2P Require Import Aws.
From S2P Require Import AwsProps.

(** ** What a history shows *)

(** A request that changes nothing. *)
Definition read_only (v : event awsE) : Prop :=
  match v with
  | existT _ (e, _) =>
      match e with
      | RunInstances _ | TerminateInstances _ | DeleteVolume _ | DeleteNetworkInterface _ => False
      | _ => True
      end
  end.

Definition shown_instances (v : event awsE) : list Instance_ :=
  match v with
  | existT _ (e, x) =>
      match e in awsE T return T → list Instance_ with
      | DescribeInstances _ => λ r, match r with inr (Some page) => pg_Items page ≫= res_Instances | _ => [] end
      | _ => λ _, []
      end x
  end.

(** The volumes and interfaces shown when asked for one identity. *)
Definition reread_volume (id : string) (v : event awsE) : list Volume :=
  match v with
  | existT _ (e, x) =>
      match e in awsE T return T → list Volume with
      | DescribeVolumes (OwnedById id') => λ r,
          match r with inr (Some page) => if id' =s id then pg_Items page else [] | _ => [] end
      | _ => λ _, []
      end x
  end.
Definition reread_interface (id : string) (v : event awsE) : list NetworkInterface :=
  match v with
  | existT _ (e, x) =>
      match e in awsE T return T → list NetworkInterface with
      | DescribeNetworkInterfaces (OwnedById id') => λ r,
          match r with inr (Some page) => if id' =s id then pg_Items page else [] | _ => [] end
      | _ => λ _, []
      end x
  end.

Abbreviation instances_of h := (h ≫= shown_instances).

Lemma instances_snoc h (v : event awsE) i : i ∈ instances_of (h ++ [v]) ↔ i ∈ instances_of h ∨ i ∈ shown_instances v.
Proof. rewrite bind_app, elem_of_app. cbn. by rewrite app_nil_r. Qed.

Section adapter.
Context (c : ProviderConfig) (a : Allocation).

(** ** The instance of an inventory *)

(** The inventory's instance is the only one shown, and owned. *)
Definition knows_instance (h : aws_history) (v : awsInventory) : Prop :=
  (∀ i, i ∈ instances_of h → inv_instance v = Some i) ∧
  (∀ i, inv_instance v = Some i → awsInstanceOwned c a i = true ∧ i ∈ instances_of h).

Lemma add_instances_known l : ∀ v v', fold_result (add_instance c a) v l = inr v' →
  (∀ i, i ∈ l → inv_instance v' = Some i) ∧
  (∀ i, inv_instance v = Some i → inv_instance v' = Some i) ∧
  (∀ i, inv_instance v' = Some i → inv_instance v = Some i ∨ awsInstanceOwned c a i = true ∧ i ∈ l).
Proof.
  induction l as [|j l IH]; intros v v'; cbn [fold_result].
  { intros [= <-]. split_and!; auto. intros i Hi. by apply not_elem_of_nil in Hi. }
  unfold add_instance at 1. destruct (_ || _) eqn:Hc; [done|]. intros (H1 & H2 & H3)%IH.
  reflect in Hc. destruct Hc as [Hn Hown]. cbn in *. split_and!.
  - intros i [->|Hi]%elem_of_cons; auto.
  - intros i. by rewrite Hn.
  - intros i [[= ->]|[Ho Hi]]%H3; right; (split; [done|]); [left|by right].
Qed.

Lemma add_reservations_known l : ∀ v v', fold_result (add_reservation c a) v l = inr v' →
  (∀ i, i ∈ l ≫= res_Instances → inv_instance v' = Some i) ∧
  (∀ i, inv_instance v = Some i → inv_instance v' = Some i) ∧
  (∀ i, inv_instance v' = Some i → inv_instance v = Some i ∨ awsInstanceOwned c a i = true ∧ i ∈ l ≫= res_Instances).
Proof.
  induction l as [|r l IH]; intros v v'; cbn [fold_result].
  { intros [= <-]. split_and!; auto. intros i Hi. by apply not_elem_of_nil in Hi. }
  destruct (add_reservation c a v r) as [e|v1] eqn:Hr; [done|]. intros (H1 & H2 & H3)%IH.
  unfold add_reservation in Hr. destruct (_ <>s _); [done|]. apply add_instances_known in Hr as (K1 & K2 & K3).
  cbn. split_and!.
  - intros i [Hi|Hi]%elem_of_app; auto.
  - auto.
  - intros i [[?|[]]%K3|[]]%H3; auto; right; (split; [done|]); apply elem_of_app; auto.
Qed.

Lemma wp_instances_known h v :
  knows_instance h v →
  wp no_contract (λ h' r, match r with inl _ => True | inr v' => knows_instance h' v' end) h
    (paginate (fetch_instances c a) 100 ∅ "" v).
Proof.
  apply (wp_paginate no_contract (fetch_instances c a) (λ h _, knows_instance h) knows_instance).
  clear h v. intros h token v Hv. unfold fetch_instances. apply wp_call_bind. intros r _. apply wp_ret.
  destruct r as [err|[page|]]; [| |done].
  - destruct (_ && _); [|done]. destruct Hv as [H1 H2]. split; intros i.
    + intros [Hi|Hi]%instances_snoc; [auto|]. by apply not_elem_of_nil in Hi.
    + intros [? Hi]%H2. split; [done|]. apply instances_snoc. by left.
  - destruct (negb (pg_Known _)); [done|]. destruct (_ && _); [done|].
    destruct (fold_result _ _ _) as [e|v'] eqn:Hf; [done|]. apply add_reservations_known in Hf as (K1 & K2 & K3).
    assert (knows_instance (h ++ [ev (DescribeInstances (if ResourceID a <>s "" then InstanceById (ResourceID a) token
              else InstanceByToken (ID a) token)) (inr (Some page))]) v') as Hk; [|by destruct (pg_NextToken _ =s _)].
    destruct Hv as [H1 H2]. split; intros i.
    + intros [Hi|Hi]%instances_snoc; auto.
    + intros [[Ho Hi]%H2|[Ho Hi]]%K3; (split; [done|]); apply instances_snoc; auto.
Qed.

(** The rest of the inventory shows no instance and keeps the one known. *)
Definition no_instance (v : event awsE) : Prop := shown_instances v = [].

Definition knows_as (o : option Instance_) (h : aws_history) (v : awsInventory) : Prop :=
  inv_instance v = o ∧ knows_instance h v.

Lemma knows_step o h k v v' :
  Forall no_instance k → inv_instance v' = inv_instance v → knows_as o h v → knows_as o (h ++ k) v'.
Proof.
  intros Hk. assert (instances_of k = []) as Hn by (induction Hk as [|x k Hx _ IH]; [done|]; cbn; by rewrite Hx).
  unfold knows_as, knows_instance. intros ->. by rewrite bind_app, Hn, app_nil_r.
Qed.

Lemma fold_keeps_instance {A} (f : awsInventory → A → result awsInventory) :
  (∀ v x v', f v x = inr v' → inv_instance v' = inv_instance v) →
  ∀ l v v', fold_result f v l = inr v' → inv_instance v' = inv_instance v.
Proof.
  intros Hf l. induction l as [|x l IH]; intros v v'; cbn [fold_result]; [by intros [= <-]|].
  destruct (f v x) as [e|v1] eqn:Hx; [done|]. intros ->%IH. by eapply Hf.
Qed.

Lemma wp_volumes_known o h v :
  knows_as o h v →
  wp no_contract (λ h' r, match r with inl _ => True | inr v' => knows_as o h' v' end) h
    (paginate (fetch_volumes c a) 100 ∅ "" v).
Proof.
  apply (wp_paginate no_contract (fetch_volumes c a) (λ h _, knows_as o h) (knows_as o)).
  clear h v. intros h token v Hv. unfold fetch_volumes. apply wp_call_bind. intros r _. apply wp_ret.
  destruct r as [err|[page|]]; [done| |done]. destruct (negb _); [done|].
  destruct (fold_result _ _ _) as [e|v'] eqn:Hf; [done|].
  apply (fold_keeps_instance (add_volume c a)) in Hf;
    [|intros v0 x v1; unfold add_volume; destruct (_ || _); [done|]; by intros [= <-]].
  assert (knows_as o (h ++ [ev (DescribeVolumes (OwnedByTags (pc_Owner c) (ID a) token)) (inr (Some page))]) v');
    [|by destruct (pg_NextToken _ =s _)].
  apply (knows_step o h _ v); [by repeat constructor|done|done].
Qed.

Lemma wp_interfaces_known o h v :
  knows_as o h v →
  wp no_contract (λ h' r, match r with inl _ => True | inr v' => knows_as o h' v' end) h
    (paginate (fetch_interfaces c a) 100 ∅ "" v).
Proof.
  apply (wp_paginate no_contract (fetch_interfaces c a) (λ h _, knows_as o h) (knows_as o)).
  clear h v. intros h token v Hv. unfold fetch_interfaces. apply wp_call_bind. intros r _. apply wp_ret.
  destruct r as [err|[page|]]; [done| |done]. destruct (negb _); [done|].
  destruct (fold_result _ _ _) as [e|v'] eqn:Hf; [done|].
  apply (fold_keeps_instance (add_interface c a)) in Hf;
    [|intros v0 x v1; unfold add_interface; destruct (_ || _); [done|]; by intros [= <-]].
  assert (knows_as o (h ++ [ev (DescribeNetworkInterfaces (OwnedByTags (pc_Owner c) (ID a) token))
            (inr (Some page))]) v'); [|by destruct (pg_NextToken _ =s _)].
  apply (knows_step o h _ v); [by repeat constructor|done|done].
Qed.

(** ** What was read again *)

(** The inventory's resource under an identity is one shown for it, and owned. *)
Definition volume_known (h : aws_history) (v : awsInventory) (id : string) : Prop :=
  ∀ x, inv_volumes v !! id = Some x →
    x ∈ (h ≫= reread_volume id) ∧ vol_VolumeId x = id ∧ volume_owned c a x = true.
Definition interface_known (h : aws_history) (v : awsInventory) (id : string) : Prop :=
  ∀ x, inv_interfaces v !! id = Some x →
    x ∈ (h ≫= reread_interface id) ∧ eni_ID x = id ∧ interface_owned c a x = true.
Definition ref_known (h : aws_history) (v : awsInventory) (ref : ResourceReference) : Prop :=
  (Kind ref = "aws-volume" → volume_known h v (ref_ID ref)) ∧
  (Kind ref = "aws-network-interface" → interface_known h v (ref_ID ref)).

Lemma volume_known_app h k v id : volume_known h v id → volume_known (h ++ k) v id.
Proof. intros Hv x (Hx & ?)%Hv. split; [|done]. rewrite bind_app. apply elem_of_app. by left. Qed.
Lemma interface_known_app h k v id : interface_known h v id → interface_known (h ++ k) v id.
Proof. intros Hv x (Hx & ?)%Hv. split; [|done]. rewrite bind_app. apply elem_of_app. by left. Qed.

(** One more dependency read: it is known, and what was known stays so. *)
Definition refreshed (o : option Instance_) (ref : ResourceReference) (h h' : aws_history) (v v' : awsInventory) : Prop :=
  knows_as o h' v' ∧ ref_known h' v' ref ∧ ∀ r, ref_known h v r → ref_known h' v' r.

Lemma volume_refreshed o ref h e v m :
  Kind ref = "aws-volume" → no_instance e → knows_as o h v →
  volume_known (h ++ [e]) (set_volumes m v) (ref_ID ref) →
  (∀ id, id ≠ ref_ID ref → m !! id = inv_volumes v !! id) →
  refreshed o ref h (h ++ [e]) v (set_volumes m v).
Proof.
  intros Hk He Hi Hnew Hold. split_and!; [|split; [done|congruence]|].
  - apply (knows_step o h _ v); [by constructor|done|done].
  - intros r [Hv Hn]. split; intros Hkr; [|by apply interface_known_app, Hn].
    destruct (decide (ref_ID r = ref_ID ref)) as [->|Hne]; [done|]. intros x. cbn. rewrite Hold by done.
    by apply (volume_known_app h [e] v), Hv.
Qed.

Lemma interface_refreshed o ref h e v m :
  Kind ref = "aws-network-interface" → no_instance e → knows_as o h v →
  interface_known (h ++ [e]) (set_interfaces m v) (ref_ID ref) →
  (∀ id, id ≠ ref_ID ref → m !! id = inv_interfaces v !! id) →
  refreshed o ref h (h ++ [e]) v (set_interfaces m v).
Proof.
  intros Hk He Hi Hnew Hold. split_and!; [|split; [congruence|done]|].
  - apply (knows_step o h _ v); [by constructor|done|done].
  - intros r [Hv Hn]. split; intros Hkr; [by apply volume_known_app, Hv|].
    destruct (decide (ref_ID r = ref_ID ref)) as [->|Hne]; [done|]. intros x. cbn. rewrite Hold by done.
    by apply (interface_known_app h [e] v), Hn.
Qed.

Lemma wp_recorded_known o h ref v :
  knows_as o h v →
  wp no_contract (λ h' r, match r with inl _ => True | inr v' => refreshed o ref h h' v v' end) h
    (awsRecordedDependency c a ref v).
Proof.
  intros Hi. unfold awsRecordedDependency. destruct (String.eqb_spec (Kind ref) "aws-volume") as [Hk|Hk].
  { destruct (negb _); [by apply wp_ret|]. apply wp_call_bind. intros r _. apply wp_ret.
    destruct r as [err|[page|]]; [| |done].
    - destruct (awsMissing _ _); [|done]. apply volume_refreshed; try done.
      + intros x. cbn. by rewrite lookup_delete_eq.
      + intros id Hne. by apply lookup_delete_ne.
    - destruct (pg_Known page); [|done]. destruct (pg_Items page) as [|x [|??]] eqn:Hp; [done| |done].
      destruct (_ || _) eqn:Hc; [done|]. reflect in Hc. destruct Hc as [Hid Ho]. apply volume_refreshed; try done.
      + intros y. cbn. rewrite lookup_insert_eq. intros [= <-]. split; [|done].
        rewrite bind_app. apply elem_of_app. right. cbn. rewrite String.eqb_refl, Hp. left.
      + intros id Hne. by apply lookup_insert_ne. }
  destruct (String.eqb_spec (Kind ref) "aws-network-interface") as [Hk'|Hk']; [|by apply wp_ret].
  destruct (negb _); [by apply wp_ret|]. apply wp_call_bind. intros r _. apply wp_ret.
  destruct r as [err|[page|]]; [| |done].
  - destruct (awsMissing _ _); [|done]. apply interface_refreshed; try done.
    + intros x. cbn. by rewrite lookup_delete_eq.
    + intros id Hne. by apply lookup_delete_ne.
  - destruct (pg_Known page); [|done]. destruct (pg_Items page) as [|x [|??]] eqn:Hp; [done| |done].
    destruct (_ || _) eqn:Hc; [done|]. reflect in Hc. destruct Hc as [Hid Ho]. apply interface_refreshed; try done.
    + intros y. cbn. rewrite lookup_insert_eq. intros [= <-]. split; [|done].
      rewrite bind_app. apply elem_of_app. right. cbn. rewrite String.eqb_refl, Hp. left.
    + intros id Hne. by apply lookup_insert_ne.
Qed.

Lemma wp_dependencies_known o refs : ∀ h v, knows_as o h v →
  wp no_contract (λ h' r, match r with
    | inl _ => True
    | inr v' => knows_as o h' v' ∧ (∀ ref, ref ∈ refs → ref_known h' v' ref) ∧
                (∀ ref, ref_known h v ref → ref_known h' v' ref)
    end) h (recorded_dependencies c a refs v).
Proof.
  induction refs as [|ref refs IH]; intros h v Hi; cbn [recorded_dependencies].
  { apply wp_ret. split_and!; [done| |done]. intros ref Hr. by apply not_elem_of_nil in Hr. }
  apply wp_bind. eapply wp_mono; [by apply wp_recorded_known|]. intros h1 [e|v1] H1; [by apply wp_ret|].
  destruct H1 as (Hi1 & Href & Hold). eapply wp_mono; [by apply IH|]. intros h2 [e|v2]; [done|].
  intros (Hi2 & Hall & Hold2). split_and!; [done| |auto]. intros ref' [->|Hr]%elem_of_cons; auto.
Qed.

(** ** Reading only *)

Lemma reads_paginate {St} (fetch : string → St → awsM (result (St * option string))) :
  (∀ t s, emits read_only (fetch t s)) → ∀ n seen t s, emits read_only (paginate fetch n seen t s).
Proof. intros Hf n. induction n as [|n IH]; intros seen t s; cbn [paginate]; emit. Qed.
#[local] Hint Resolve reads_paginate : emits.
Lemma reads_fetch t v :
  emits read_only (fetch_instances c a t v) ∧ emits read_only (fetch_volumes c a t v) ∧
  emits read_only (fetch_interfaces c a t v).
Proof. unfold fetch_instances, fetch_volumes, fetch_interfaces. split_and!; emit. Qed.
Lemma reads_dependencies refs : ∀ v, emits read_only (recorded_dependencies c a refs v).
Proof. induction refs; intros v; cbn [recorded_dependencies]; unfold awsRecordedDependency; emit. Qed.
#[local] Hint Resolve reads_dependencies : emits.
Lemma reads_session region : emits read_only (session c region).
Proof. unfold session. emit. Qed.
Lemma reads_inventory : emits read_only (inventory c a).
Proof.
  unfold inventory. emit; apply reads_paginate; intros t v; apply (reads_fetch t v).
Qed.

Lemma wp_reads {R} (p : awsM R) h : emits read_only p → Forall read_only h →
  wp no_contract (λ h' _, Forall read_only h') h p.
Proof. intros Hp Hh. apply Hp. intros h' x Hh'. by apply Forall_app_2. Qed.

(** What an inventory that succeeds has established. *)
Definition inventory_known (h : aws_history) (v : awsInventory) : Prop :=
  knows_instance h v ∧ (∀ ref, ref ∈ Resources a → ref_known h v ref) ∧
  ∀ i, inv_instance v = Some i → ResourceID a = "" ∨ ResourceID a = ins_InstanceId i.

Lemma wp_inventory_known h :
  instances_of h = [] →
  wp no_contract (λ h' r, match r with inl _ => True | inr v => inventory_known h' v end) h (inventory c a).
Proof.
  intros Hnone.
  unfold inventory. destruct (check_references _); [by apply wp_ret|].
  apply wp_try. eapply wp_mono; [apply wp_instances_known|].
  { split; [|done]. intros i. rewrite Hnone. by intros ?%not_elem_of_nil. }
  intros h1 [e|v1] H1; [by apply wp_ret|].
  destruct (match inv_instance v1 with Some _ => _ | None => _ end) eqn:Hid; [by apply wp_ret|].
  apply wp_try. eapply wp_mono; [by apply (wp_volumes_known (inv_instance v1))|]. intros h2 [e|v2] H2; [by apply wp_ret|].
  apply wp_try. eapply wp_mono; [by apply wp_interfaces_known|]. intros h3 [e|v3] H3; [by apply wp_ret|].
  destruct (MergeResources _ _) as [e|[refs ch]] eqn:Hm; [by apply wp_ret|].
  apply merge_spec in Hm as (_ & _ & Hrefs & _).
  apply wp_try. eapply wp_mono; [by apply wp_dependencies_known|]. intros h4 [e|v4] H4; [by apply wp_ret|].
  destruct H4 as ([Hsame Hi4] & Hall & _). apply wp_ret. destruct (validateBindings _ _); [done|]. split_and!; [done| |].
  - intros ref Hr. apply Hall, Hrefs. right. apply elem_of_app. by left.
  - intros i Hi. rewrite <- Hsame, Hi in Hid. reflect in Hid. tauto.
Qed.

(** The calls that establish whose credentials are used. *)
Definition identity_call (v : event awsE) : Prop :=
  match v with
  | existT _ (e, _) => match e with Retrieve _ | GetCallerIdentity | CtxErr => True | _ => False end
  end.
Lemma identity_session region : emits identity_call (session c region).
Proof. unfold session. emit. Qed.
Lemma identity_quiet h : Forall identity_call h → Forall read_only h ∧ instances_of h = [].
Proof.
  induction 1 as [|v h Hv _ [IH1 IH2]]; [done|].
  split; [constructor; [|done]|]; destruct v as [X [[] x]]; try done.
Qed.

(** Every operation starts by proving the account and reading the inventory. *)
Lemma wp_prepared region (Q : aws_history → option error → Prop) :
  (∀ h e, Forall read_only h → Q h (Some e)) →
  (∀ h, Forall read_only h → instances_of h = [] → Q h None) →
  wp no_contract Q [] (session c region).
Proof.
  intros He Hn. apply identity_session. intros h [e|] [Hro Hin]%identity_quiet; [by apply He|by apply Hn].
Qed.

(** ** Delete *)

(** When each change may be requested. *)
Definition delete_safe (pre : aws_history) (v : event awsE) : Prop :=
  match v with
  | existT _ (e, _) =>
      match e with
      | RunInstances _ => False
      | TerminateInstances id =>
          Forall read_only pre ∧ ∃ i, i ∈ instances_of pre ∧ awsInstanceOwned c a i = true ∧ ins_InstanceId i = id ∧
            terminated i = false ∧ (ResourceID a = "" ∨ ResourceID a = id)
      | DeleteVolume id =>
          Forall read_only pre ∧ (∀ i, i ∈ instances_of pre → terminated i = true) ∧ volume_ref id ∈ Resources a ∧
          ∃ x, x ∈ (pre ≫= reread_volume id) ∧ vol_VolumeId x = id ∧ volume_owned c a x = true ∧
            vol_Attachments x = [] ∧ vol_State x = "available"
      | DeleteNetworkInterface id =>
          Forall read_only pre ∧ (∀ i, i ∈ instances_of pre → terminated i = true) ∧ interface_ref id ∈ Resources a ∧
          ∃ x, x ∈ (pre ≫= reread_interface id) ∧ eni_ID x = id ∧ interface_owned c a x = true ∧
            eni_Attachment x = None ∧ eni_Status x = "available"
      | _ => True
      end
  end.

Lemma reads_safe h : Forall read_only h → at_every delete_safe h.
Proof.
  intros Hh pre v post ->. apply Forall_app in Hh as [_ Hh]. apply Forall_inv in Hh as Hv.
  destruct v as [X [[] x]]; done.
Qed.

Lemma observation_refs v ob :
  observation v a = inr ob →
  (∀ i, inv_instance v = Some i → ob_ResourceID ob = ins_InstanceId i) ∧
  (∀ id x, inv_volumes v !! id = Some x → volume_ref id ∈ ob_Resources ob) ∧
  (∀ id x, inv_interfaces v !! id = Some x → interface_ref id ∈ ob_Resources ob).
Proof.
  unfold observation. cbv zeta. destruct (_ && _); [done|]. destruct (_ && _); [done|].
  destruct (MergeResources _ _) as [e|[refs ch]] eqn:Hm; [done|]. intros [= <-]. cbn.
  apply merge_spec in Hm as (_ & _ & Hin & _). split_and!.
  - by intros i ->.
  - intros id x Hx%elem_of_map_to_list. apply Hin. right. rewrite !elem_of_app. right. left.
    apply (list_elem_of_fmap_2' (λ p, volume_ref (fst p)) _ (id, x)); [done|done].
  - intros id x Hx%elem_of_map_to_list. apply Hin. right. rewrite !elem_of_app. right. right.
    apply (list_elem_of_fmap_2' (λ p, interface_ref (fst p)) _ (id, x)); [done|done].
Qed.

(** The volumes and interfaces of a complete and recorded inventory without a
    live instance may be deleted once they are detached. *)
Lemma residual_safe h v ob m :
  Forall read_only h → inventory_known h v → observation v a = inr ob → MergeResources (Resources a) (ob_Resources ob) = inr (m, false) →
  (∀ i, inv_instance v = Some i → terminated i = true) →
  (∀ id x r, inv_volumes v !! id = Some x → vol_Attachments x = [] → vol_State x = "available" →
     delete_safe h (ev (DeleteVolume id) r)) ∧
  (∀ id x r, inv_interfaces v !! id = Some x → eni_Attachment x = None → eni_Status x = "available" →
     delete_safe h (ev (DeleteNetworkInterface id) r)).
Proof.
  intros Hro ([Hall _] & Hrefs & _) (_ & Hv & Hn)%observation_refs Hm Hterm.
  pose proof (merge_unchanged _ _ _ Hm) as Heq. apply merge_spec in Hm as (_ & _ & Hin & _). rewrite <- Heq in Hin.
  split; intros id x r Hx Hatt Hst; cbn.
  - assert (volume_ref id ∈ Resources a) as Hr by (apply Hin; right; by eapply Hv).
    destruct (Hrefs _ Hr) as [Hk _]. destruct (Hk eq_refl x Hx) as (? & ? & ?). split_and!; eauto 10.
  - assert (interface_ref id ∈ Resources a) as Hr by (apply Hin; right; by eapply Hn).
    destruct (Hrefs _ Hr) as [_ Hk]. destruct (Hk eq_refl x Hx) as (? & ? & ?). split_and!; eauto 10.
Qed.

Lemma wp_delete_volumes vols h ids :
  Forall read_only h →
  (∀ id x r, vols !! id = Some x → vol_Attachments x = [] → vol_State x = "available" →
     delete_safe h (ev (DeleteVolume id) r)) →
  wp no_contract (λ h' r, at_every delete_safe h' ∧ (r = None → h' = h)) h (delete_volumes vols ids).
Proof.
  intros Hro Hsafe. pose proof (reads_safe h Hro) as Hh.
  induction ids as [|id ids IH]; cbn [delete_volumes]; [by apply wp_ret|].
  destruct (vols !! id) as [x|] eqn:Hx; [|done]. destruct (0 <? _)%nat eqn:Hatt; [done|]. reflect in Hatt.
  destruct (String.eqb_spec (vol_State x) "available") as [Hst|Hst].
  - apply wp_call_bind. intros r _. apply wp_ret. split; [|by destruct r as [err|]; [destruct (awsMissing _ _)|]].
    apply at_every_snoc; [done|]. by apply (Hsafe id x).
  - destruct (slices_contains _ _); [done|]. by apply wp_ret.
Qed.

Lemma wp_delete_interfaces ifs h ids :
  Forall read_only h →
  (∀ id x r, ifs !! id = Some x → eni_Attachment x = None → eni_Status x = "available" →
     delete_safe h (ev (DeleteNetworkInterface id) r)) →
  wp no_contract (λ h' _, at_every delete_safe h') h (delete_interfaces ifs ids).
Proof.
  intros Hro Hsafe. pose proof (reads_safe h Hro) as Hh.
  induction ids as [|id ids IH]; cbn [delete_interfaces]; [by apply wp_ret|].
  destruct (ifs !! id) as [x|] eqn:Hx; [|done]. destruct (isSome _) eqn:Hatt; [done|]. reflect in Hatt.
  destruct (String.eqb_spec (eni_Status x) "available") as [Hst|Hst].
  - apply wp_call_bind. intros r _. apply wp_ret. apply at_every_snoc; [done|]. by apply (Hsafe id x).
  - destruct (_ =s _); [done|]. by apply wp_ret.
Qed.

Lemma wp_delete_residual h v ob m :
  Forall read_only h → inventory_known h v → observation v a = inr ob → MergeResources (Resources a) (ob_Resources ob) = inr (m, false) →
  (∀ i, inv_instance v = Some i → terminated i = true) →
  wp no_contract (λ h' _, at_every delete_safe h') h (delete_residual v).
Proof.
  intros Hro Hk Hob Hm Ht. destruct (residual_safe h v ob m Hro Hk Hob Hm Ht) as [Hv Hn].
  unfold delete_residual. apply wp_bind. eapply wp_mono; [by apply wp_delete_volumes|].
  intros h' [e|] [Hs Hsame]; [by apply wp_ret|]. rewrite (Hsame eq_refl). by apply wp_delete_interfaces.
Qed.

(** C22: a delete on AWS makes at most one change, and only to a resource that
    is proven to be the allocation's.  An instance is terminated only if this
    call was shown it, with the allocation's tags, client token, zone and
    subnet, and its ID is the recorded one if one is recorded; a volume or
    interface is deleted only if it is durably recorded, was read again by its
    ID in this call as owned, detached and available, and no live instance of
    the allocation was shown. *)
Theorem aws_delete_proven :
  ensures no_contract (deleteAWS c a) (λ h _, at_every delete_safe h).
Proof.
  apply wp_ensures. unfold deleteAWS. apply wp_bind, wp_prepared.
  { intros h e Hro. by apply wp_ret, reads_safe. }
  intros h Hro Hnone. apply wp_bind. eapply wp_mono.
  { apply wp_and; [by apply wp_inventory_known|by apply (wp_reads (inventory c a)); [apply reads_inventory|]]. }
  intros h' [e|v] [Hk Hro']; [by apply wp_ret, reads_safe|].
  destruct (observation v a) as [e|ob] eqn:Hob; [by apply wp_ret, reads_safe|].
  destruct (MergeResources _ _) as [e|[m [|]]] eqn:Hm; [by apply wp_ret, reads_safe..|].
  destruct (negb _); [by apply wp_ret, reads_safe|].
  destruct (inv_instance v) as [i|] eqn:Hi; [|by eapply wp_delete_residual; [..|rewrite Hi]].
  destruct (terminated i) eqn:Ht; [by eapply wp_delete_residual; [..|rewrite Hi; intros ? [= <-]]|].
  unfold terminate_instance. destruct (match ins_State i with Some _ => _ | None => _ end);
    [by apply wp_ret, reads_safe|].
  apply wp_call_bind. intros r _. apply wp_ret, at_every_snoc; [by apply reads_safe|].
  destruct (observation_refs v ob Hob) as (Hid & _). destruct Hk as ([_ Hown] & _ & Hrec). cbn.
  destruct (Hown i Hi) as [Ho Hshown]. rewrite (Hid i Hi). split; [done|]. exists i. eauto 10.
Qed.
End adapter.

(** ** Creation *)

(** The SDK's errors are its own; a description by ID shows that instance. *)
Definition sdk_answers : contract awsE := λ X e, match e in awsE T return T → Prop with
  | Retrieve _ | CtxErr => λ r, ∀ err, r = Some err → no_sentinel err
  | RunInstances _ => λ r, ∀ err, r = inl err → no_sentinel (ae_error err)
  | DescribeInstances q => λ r,
      match q with
      | InstanceById id _ => ∀ page rs i, r = inr (Some page) → rs ∈ pg_Items page → i ∈ res_Instances rs →
                             ins_InstanceId i = id
      | InstanceByToken _ _ => True
      end
  | _ => λ _, True
  end.

Section create.
Context (c : ProviderConfig) (a : Allocation) (script : string).

Lemma wp_session_plain region :
  wp sdk_answers (λ h r, Forall read_only h ∧ ∀ e, r = Some e → no_sentinel e) [] (session c region).
Proof.
  apply wp_and.
  - apply wp_any, identity_session. by intros h e [??]%identity_quiet.
  - unfold session. destruct (_ =s ""); [apply wp_ret; by intros e [= <-]|].
    apply wp_call_bind. intros [err|] Herr; [by apply wp_ret|].
    apply wp_call_bind. intros who _. apply wp_call_bind. intros [err|] Herr'; apply wp_ret; [done|].
    intros e. destruct who as [?|[account|]]; [by intros [= <-]| |by intros [= <-]].
    destruct (_ || _); [by intros [= <-]|done].
Qed.

(** An inventory read from an account covers it. *)
Lemma wp_covers (G : contract awsE) h :
  wp G (λ h' r, ∀ v, r = inr v → ∀ w, ec2_complete w → Forall (respects (ec2_answers w)) h' → covers c w a v) h
    (inventory c a).
Proof.
  apply wp_traces. intros h' r Ht _ v -> w Hw [_ Hh]%Forall_app.
  apply (wp_sound (ec2_answers w) _ _ [] h' _ (wp_inventory c w a Hw []) Ht Hh).
Qed.

(** Nothing of the allocation exists in the account. *)
Definition unoccupied (w : Ec2) : Prop :=
  (∀ i, i ∈ ec2_instances w → ins_ClientToken i ≠ ID a) ∧
  (∀ x, x ∈ ec2_volumes w → ¬ tagged (vol_Tags x) (pc_Owner c) (ID a)) ∧
  (∀ x, x ∈ ec2_interfaces w → ¬ tagged (eni_TagSet x) (pc_Owner c) (ID a)).

Lemma covers_unoccupied w v :
  ResourceID a = "" → covers c w a v → inv_instance v = None → inv_volumes v = ∅ → inv_interfaces v = ∅ → unoccupied w.
Proof.
  intros Hid [Hi Hv Hn] Hni Hnv Hnn. split_and!.
  - intros i Hin Htok. specialize (Hi i Hin). unfold of_allocation in Hi. rewrite Hid in Hi.
    specialize (Hi Htok). congruence.
  - intros x Hx Ht. destruct (Hv x Hx (or_introl Ht)) as [? Hl]. by rewrite Hnv, lookup_empty in Hl.
  - intros x Hx Ht. destruct (Hn x Hx (or_introl Ht)) as [? Hl]. by rewrite Hnn, lookup_empty in Hl.
Qed.

(** ** The request *)

(** Every disk is encrypted and goes with its instance. *)
Definition disks_safe (mappings : list DeviceMapping) : Prop :=
  ∀ d b, d ∈ mappings → dm_Ebs d = Some b → ebs_Encrypted b = true ∧ ebs_DeleteOnTermination b = true.

Lemma image_devices_safe devices : ∀ mappings expected mappings' expected',
  disks_safe mappings → image_devices devices mappings expected = Some (mappings', expected') → disks_safe mappings'.
Proof.
  induction devices as [|d devices IH]; intros mappings expected mappings' expected' Hs; cbn [image_devices].
  { by intros [= <- <-]. }
  destruct (dm_Ebs d) as [disk|] eqn:Hd; [destruct (_ || _); [done|]|]; apply IH; intros d' b;
    (intros [Hin| ->%list_elem_of_singleton]%elem_of_app; [by apply Hs|]); [|congruence].
  by intros [= <-].
Qed.

Lemma reads_await n : ∀ i, emits read_only (await_devices n i).
Proof. induction n; intros i; cbn [await_devices]; emit. Qed.

(** Waiting for the disks keeps the instance's identity. *)
Lemma wp_await n : ∀ h i,
  wp sdk_answers (λ _ i', ins_InstanceId i' = ins_InstanceId i) h (await_devices n i).
Proof.
  induction n as [|n IH]; intros h i; cbn [await_devices]; [by apply wp_ret|].
  destruct (_ =? _)%nat; [|by apply wp_ret]. apply wp_call_bind. intros [|] _; [|apply IH].
  apply wp_call_bind. intros r Hr.
  destruct r as [?|[[[|[owner [|i' [|??]]] [|??]] ??]|]]; try apply IH.
  eapply wp_mono; [apply IH|]. intros h' j ->. by eapply (Hr _ _ i' eq_refl); left.
Qed.

Lemma created_receipt_spec i expected creation err :
  created_receipt i expected = (creation, err) →
  cr_ResourceID creation = ins_InstanceId i ∧ ∀ e, err = Some e → no_sentinel e.
Proof.
  unfold created_receipt. cbv zeta. destruct (MergeResources _ _) as [e|[refs ch]] eqn:Hm.
  - intros [= <- <-]. split; [done|]. intros e' [= <-]. by eapply plain_error, merge_error.
  - destruct (_ || _); [by intros [= <- <-]; split; [|intros e [= <-]]|].
    destruct (negb _); intros [= <- <-]; (split; [done|]); by intros e [= <-].
Qed.

(** What the outcome of a create says after [answer] to its request. *)
Definition reported (answer : awsR (string * list Instance_)) (creation : Creation) (err : option error) : Prop :=
  is_err err ErrNoEffect = false ∧
  (is_err err ErrCapacity = true →
     ∃ e, answer = inl e ∧ awsMissing e "InsufficientInstanceCapacity" = true ∧ creation = no_creation) ∧
  (creation = no_creation ∧ err ≠ None ∨
   ∃ i, answer = inr (Some (AccountID c, [i])) ∧ awsInstanceOwned c a i = true ∧
     cr_ResourceID creation = ins_InstanceId i).

Definition requested (pre h : aws_history) (creation : Creation) (err : option error) : Prop :=
  ∃ mid mappings answer post,
    h = (pre ++ mid) ++ ev (RunInstances (run_input c a script mappings)) answer :: post ∧
    Forall read_only mid ∧ Forall read_only post ∧ disks_safe mappings ∧ reported answer creation err.

Lemma wp_run_instance pre :
  wp sdk_answers (λ h '(creation, err),
    (∃ mid, h = pre ++ mid ∧ Forall read_only mid ∧ creation = no_creation ∧ err = Some errNoEffect) ∨
    requested pre h creation err) pre (run_instance c a script).
Proof.
  unfold run_instance. cbv zeta. apply wp_call_bind. intros images _. set (e0 := ev (DescribeImages _) images).
  assert (∀ (Q : aws_history → Creation * option error → Prop),
    (∀ h creation err, (∃ mid, h = pre ++ mid ∧ Forall read_only mid ∧ creation = no_creation ∧ err = Some errNoEffect) →
       Q h (creation, err)) →
    wp sdk_answers Q (pre ++ [e0]) (mret (no_creation, Some errNoEffect))) as Hno.
  { intros Q HQ. apply wp_ret, HQ. exists [e0]. by repeat constructor. }
  destruct images as [?|[[|image [|??]]|]]; try (by apply Hno; auto).
  destruct (_ <>s _); [by apply Hno; auto|]. destruct (negb (image_fits a image)); [by apply Hno; auto|].
  destruct (image_devices _ _ _) as [[mappings expected]|] eqn:Hdev; [|by apply Hno; auto].
  destruct (negb _); [by apply Hno; auto|]. clear Hno.
  apply image_devices_safe in Hdev; [|intros d b Hd; by apply not_elem_of_nil in Hd].
  apply wp_call_bind. intros answer Hans.
  assert (∀ k creation err, Forall read_only k → reported answer creation err →
    requested pre (((pre ++ [e0]) ++ [ev (RunInstances (run_input c a script mappings)) answer]) ++ k) creation err) as Hreq.
  { intros k creation err Hk Hrep. exists [e0], mappings, answer, k. rewrite <- !app_assoc. cbn.
    split_and!; try done. by repeat constructor. }
  assert (∀ err, reported answer no_creation (Some err) → wp sdk_answers (λ h '(creation, err),
    (∃ mid, h = pre ++ mid ∧ Forall read_only mid ∧ creation = no_creation ∧ err = Some errNoEffect) ∨
    requested pre h creation err) ((pre ++ [e0]) ++ [ev (RunInstances (run_input c a script mappings)) answer])
    (mret (no_creation, Some err))) as Hend.
  { intros err Hrep. apply wp_ret. right. rewrite <- (app_nil_r (_ ++ [ev (RunInstances _) _])). by apply Hreq. }
  assert (∀ err, no_sentinel err → reported answer no_creation (Some err)) as Hplain.
  { intros err [Hn Hc]. split_and!; [done|cbn; congruence|by left]. }
  destruct answer as [err|[[owner [|i [|??]]]|]].
  - destruct (awsMissing err _) eqn:Hcap; [|by apply Hend, Hplain, Hans].
    apply Hend. split_and!; [done| |by left]. intros _. by exists err.
  - by apply Hend, Hplain.
  - destruct (_ || _) eqn:Ho; [by apply Hend, Hplain|]. reflect in Ho. destruct Ho as [Hown Hi].
    apply wp_bind. eapply wp_mono; [apply wp_and; [apply (emits_wp read_only), reads_await|apply wp_await]|].
    intros h' i' [(k & -> & Hk) Hid]. apply wp_ret. destruct (created_receipt i' expected) as [creation err] eqn:Hrec.
    apply created_receipt_spec in Hrec as [Hcr Herr]. right. apply Hreq; [done|]. split_and!.
    + destruct err as [e|]; [by apply Herr|done].
    + destruct err as [e|]; [|done]. destruct (Herr e eq_refl) as [_ Hc]. cbn. congruence.
    + right. exists i. split_and!; congruence.
  - by apply Hend, Hplain.
  - by apply Hend, Hplain.
Qed.

(** What a create has done and what its outcome says. *)
Definition aws_outcome (h : aws_history) (creation : Creation) (err : option error) : Prop :=
  (Forall read_only h ∧ creation = no_creation ∧ err ≠ None ∧ is_err err ErrCapacity = false) ∨
  ∃ pre mappings answer post,
    h = pre ++ ev (RunInstances (run_input c a script mappings)) answer :: post ∧
    Forall read_only pre ∧ Forall read_only post ∧ disks_safe mappings ∧ reported answer creation err ∧
    ∀ w, ec2_complete w → Forall (respects (ec2_answers w)) pre → unoccupied w.

Lemma wp_createAWS : wp sdk_answers (λ h '(creation, err), aws_outcome h creation err) [] (createAWS c a script).
Proof.
  unfold createAWS. destruct (_ || _) eqn:Hocc; [apply wp_ret; by left|].
  reflect in Hocc. destruct Hocc as [Hid Hres].
  apply wp_bind. eapply wp_mono; [apply wp_session_plain|]. intros h0 [e|] [Hro He].
  { apply wp_ret. left. destruct (He e eq_refl). by split_and!. }
  apply wp_bind. eapply wp_mono.
  { apply wp_and; [apply (emits_wp read_only), reads_inventory|apply wp_covers]. }
  intros h1 r [(k & -> & Hk) Hcov]. pose proof (Forall_app_2 _ _ _ Hro Hk) as Hro1.
  destruct (match r with inl _ => _ | inr _ => _ end) eqn:Hempty; [apply wp_ret; by left|].
  destruct r as [e|v]; [done|]. rewrite !orb_false_iff in Hempty. destruct Hempty as [[Hni Hnv] Hnn].
  reflect in Hni. apply Nat.ltb_ge, Nat.le_0_r, map_size_empty_iff in Hnv, Hnn.
  eapply wp_mono; [apply wp_run_instance|]. intros h2 [creation err] [(mid & -> & Hmid & -> & ->)|Hreq].
  - left. split_and!; try done. by apply Forall_app_2.
  - right. destruct Hreq as (mid & mappings & answer & post & -> & Hmid & Hpost & Hdisks & Hrep).
    exists ((h0 ++ k) ++ mid), mappings, answer, post. split_and!; try done; [by apply Forall_app_2|].
    intros w Hw [Hh _]%Forall_app. eapply (covers_unoccupied w v); try done. by apply (Hcov v).
Qed.

(** A create on AWS requests at most one instance and says truthfully what
    came of it.  Either nothing is changed, no resource is reported and the
    result is an error that is not a capacity rejection; or exactly one request
    for one instance is made, with the allocation's ID as client token and
    every disk encrypted and deleted with the instance, when nothing of the
    allocation exists in the account; then the error is never "no effect", it
    is a capacity rejection only if EC2 answered so, and a reported resource is
    the instance EC2 returned and which carries the allocation's marks. *)
Theorem aws_create_truthful :
  ensures sdk_answers (createAWS c a script) (λ h '(creation, err), aws_outcome h creation err).
Proof. apply wp_ensures, wp_createAWS. Qed.
End create.
