(* ===== verification/AwsExample.v ===== *)
(** * AWS runs

    A residual volume deleted, an allocation confirmed gone, an instance
    created, each on a concrete account. *)
From S2P Require Import Prelude.
From S2P Require Import Effects.
From S2P Require Import Placement.
From S2P Require Import Resources.
From S2P Require Import Allocation.
From S2P Require Import Provider.
From S2P Require Import Fleet.
From S2P Require Import Command.
From S2P Require Import Cloud.
From S2P Require Import Compile.
From S2P Require Import Aws.
From S2P Require Import AwsProps.
From S2P Require Import AwsSafety.

Module AwsExample.
Definition config : ProviderConfig :=
  {| AccountID := "123456789012"; Subscription := ""; ResourceGroup := ""; SSHPublicKey := ""; pc_Kind := "aws";
     Project := ""; Profile := "prod"; Subnet := "subnet-1"; SecurityGroup := "sg-1"; pc_Owner := "fleet";
     WireGuardControllerURL := ""; AzureDiskControllerType := "" |}.

Definition offering : Offering :=
  {| off_ID := "spot"; off_Provider := "aws"; off_Region := "us-east-1"; off_Zone := "us-east-1a";
     off_Machine := "m7g.large"; off_Image := "ami-1"; off_CPU := 2; off_MemoryMiB := 8192;
     off_Architecture := "arm64"; off_Vendor := ""; off_Capabilities := []; off_Spot := true;
     off_PriceMicros := 40000; off_Currency := "USD"; off_ObservedAt := zero_time; off_GCPSkuRefs := None |}.

Definition allocation (id : string) (refs : list ResourceReference) : Allocation :=
  {| Resources := refs; RejectedAt := ∅; Completed := false; ID := "rs-a"; Revision := "1"; al_Phase := Creating;
     Deadline := zero_time; Attempts := 1; MaxAttempts := 3; al_Offering := offering; Outcomes := ∅;
     al_Catalog := zero_catalog; al_Requirements := zero_requirements; ResourceID := id;
     Ready := false; Retire := false; Condition := ""; RunID := 0; Owner := ""; Repo := "";
     ScaleSetJobID := ""; RetryProcessed := false; NetworkProfile := ""; WireGuardPublicKey := [];
     WireGuardOverlayAddress := ""; WireGuardEndpoint := ""; WireGuardPollTokenHash := [];
     TerminalAt := zero_time |}.

(** ** An account *)

(** A listing whose first page is empty, and one of a single page. *)
Definition two_pages {A} (l : list A) (t : string) : Page A :=
  if t =s "" then {| pg_Items := []; pg_Known := true; pg_NextToken := "2" |}
  else {| pg_Items := l; pg_Known := true; pg_NextToken := "" |}.
Definition one_page {A} (l : list A) : Page A := {| pg_Items := l; pg_Known := true; pg_NextToken := "" |}.

Definition has_tags (tags : list Tag) (owner operation : string) : bool :=
  existsb (λ t, (tag_Key t =s owner_tag) && (tag_Value t =s owner)) tags
  && existsb (λ t, (tag_Key t =s operation_tag) && (tag_Value t =s operation)) tags.

Definition reserve (l : list Instance_) : list Reservation :=
  (λ i, {| res_OwnerId := AccountID config; res_Instances := [i] |}) <$> l.

Definition account (instances : list Instance_) (volumes : list Volume) (interfaces : list NetworkInterface) : Ec2 :=
  {| ec2_instances := instances; ec2_volumes := volumes; ec2_interfaces := interfaces;
     reservation_page := λ q, match q with
       | InstanceById id _ => one_page (reserve (List.filter (λ i, ins_InstanceId i =s id) instances))
       | InstanceByToken token t => two_pages (reserve (List.filter (λ i, ins_ClientToken i =s token) instances)) t
       end;
     volume_page := λ o op, two_pages (List.filter (λ v, has_tags (vol_Tags v) o op) volumes);
     interface_page := λ o op, two_pages (List.filter (λ n, has_tags (eni_TagSet n) o op) interfaces) |}.

Definition missing (code : string) : AwsError := {| ae_error := errors_new "api error"; ae_code := Some code |}.

(** The requests of the adapter, answered by an account. *)
Definition ec2 (w : Ec2) (image : Image) (created : Instance_) (X : Type) (e : awsE X) (u : unit) : unit * X :=
  (u, match e in awsE X return X with
      | Retrieve _ => None
      | GetCallerIdentity => inr (Some (AccountID config))
      | CtxErr => None
      | DescribeInstances q =>
          let page := reservation_page w q in
          match q, pg_Items page with
          | InstanceById _ _, [] => inl (missing "InvalidInstanceID.NotFound")
          | _, _ => inr (Some page)
          end
      | DescribeVolumes (OwnedByTags o op t) => inr (Some (volume_page w o op t))
      | DescribeVolumes (OwnedById id) =>
          match List.filter (λ v, vol_VolumeId v =s id) (ec2_volumes w) with
          | [] => inl (missing "InvalidVolume.NotFound")
          | l => inr (Some (one_page l))
          end
      | DescribeNetworkInterfaces (OwnedByTags o op t) => inr (Some (interface_page w o op t))
      | DescribeNetworkInterfaces (OwnedById id) =>
          match List.filter (λ n, eni_ID n =s id) (ec2_interfaces w) with
          | [] => inl (missing "InvalidNetworkInterfaceID.NotFound")
          | l => inr (Some (one_page l))
          end
      | DescribeImages _ => inr (Some [image])
      | RunInstances _ => inr (Some (AccountID config, [created]))
      | WaitTimer => true
      | TerminateInstances id => inr (Some [(id, Some "shutting-down")])
      | DeleteVolume _ => None
      | DeleteNetworkInterface _ => None
      end).

Lemma listed_two {A} (l : list A) x : x ∈ l → listed (two_pages l) x.
Proof. intros Hx. exists "2". split; [|done]. apply page_next; [done|]. apply page_here. Qed.

Lemma has_tags_true tags o op : tagged tags o op → has_tags tags o op = true.
Proof.
  intros [H1%list_elem_of_In H2%list_elem_of_In]. unfold has_tags. apply andb_true_iff.
  split; apply existsb_exists; [eexists; split; [exact H1|]|eexists; split; [exact H2|]];
    by apply andb_true_iff; split; apply String.eqb_refl.
Qed.

Lemma account_complete instances volumes interfaces : ec2_complete (account instances volumes interfaces).
Proof.
  split_and!; cbn.
  - intros token i Hi Ht. eexists {| res_OwnerId := AccountID config; res_Instances := [i] |}. split; [|left].
    apply listed_two, (list_elem_of_fmap_2' _ _ i); [|done]. apply list_filter_In. by rewrite String.eqb_eq.
  - intros id i Hi Hid. eexists {| res_OwnerId := AccountID config; res_Instances := [i] |}. split; [|left].
    exists "". split; [apply page_here|]. apply (list_elem_of_fmap_2' _ _ i); [|done].
    apply list_filter_In. by rewrite String.eqb_eq.
  - intros o op v Hv Ht. apply listed_two, list_filter_In. split; [done|by apply has_tags_true].
  - intros o op n Hn Ht. apply listed_two, list_filter_In. split; [done|by apply has_tags_true].
Qed.

Lemma filter_none {A} (f : A → bool) l : List.filter f l = [] → ∀ x, x ∈ l → f x = false.
Proof.
  intros Hf x Hx. destruct (f x) eqn:Hfx; [|done].
  assert (x ∈ List.filter f l) as Hin by by apply list_filter_In. rewrite Hf in Hin. by apply not_elem_of_nil in Hin.
Qed.

Lemma account_answers instances volumes interfaces image created :
  implements (ec2 (account instances volumes interfaces) image created) (λ _, True)
    (ec2_answers (account instances volumes interfaces)).
Proof.
  intros X e u u' x _ [= <- <-]. split; [done|]. destruct e as [| | |q|q|q| | | | | |]; try done.
  - destruct q as [id t|]; [|done]. cbn.
    destruct (List.filter _ _) eqn:Hf; [|done]. intros _ i Hi. apply String.eqb_neq, (filter_none _ _ Hf i Hi).
  - destruct q as [id|]; [|done]. cbn. destruct (List.filter _ _) eqn:Hf; [|done].
    intros _ i Hi. apply String.eqb_neq, (filter_none _ _ Hf i Hi).
  - destruct q as [id|]; [|done]. cbn. destruct (List.filter _ _) eqn:Hf; [|done].
    intros _ i Hi. apply String.eqb_neq, (filter_none _ _ Hf i Hi).
Qed.

Lemma account_sdk instances volumes interfaces image created :
  implements (ec2 (account instances volumes interfaces) image created) (λ _, True) sdk_answers.
Proof.
  intros X e u u' x _ [= <- <-]. split; [done|]. destruct e as [| | |q|q|q| | | | | |]; try done.
  destruct q as [id t|]; [|done]. intros page rs i. cbn.
  pose proof (λ j, proj1 (list_filter_In (λ i, ins_InstanceId i =s id) instances j)) as Hall.
  destruct (List.filter _ _) as [|i0 l]; [done|]. intros [= <-] Hrs.
  change (rs ∈ reserve (i0 :: l)) in Hrs. apply list_elem_of_fmap in Hrs as (j & -> & [_ Hj]%Hall). cbn. intros ->%list_elem_of_singleton.
  by apply String.eqb_eq.
Qed.

(** ** The resources *)

Definition tags : list Tag :=
  [{| tag_Key := owner_tag; tag_Value := "fleet" |}; {| tag_Key := operation_tag; tag_Value := "rs-a" |}].
Definition instance (state : string) : Instance_ :=
  {| ins_InstanceId := "i-1"; ins_ClientToken := "rs-a"; ins_Tags := tags; ins_Zone := Some "us-east-1a";
     ins_State := Some state; ins_SubnetId := "subnet-1"; ins_Devices := [("/dev/sda1", Some "vol-1")];
     ins_Interfaces := [("eni-1", "10.0.0.7")]; ins_StateReason := Some "Server.SpotInstanceTermination" |}.
Definition gone : Instance_ :=
  {| ins_InstanceId := "i-1"; ins_ClientToken := "rs-a"; ins_Tags := tags; ins_Zone := Some "us-east-1a";
     ins_State := Some "terminated"; ins_SubnetId := ""; ins_Devices := [];
     ins_Interfaces := []; ins_StateReason := Some "Server.SpotInstanceTermination" |}.
Definition volume (id : string) (tags : list Tag) : Volume :=
  {| vol_VolumeId := id; vol_Tags := tags; vol_AvailabilityZone := "us-east-1a"; vol_Attachments := [];
     vol_State := "available" |}.
Definition foreign : Volume := volume "vol-9" [{| tag_Key := owner_tag; tag_Value := "other" |}].
Definition image : Image :=
  {| img_ImageId := "ami-1"; img_Architecture := "arm64"; img_State := "available"; img_Platform := "";
     img_RootDeviceType := "ebs"; img_RootDeviceName := "/dev/sda1"; img_ProductCodes := [];
     img_Devices := [{| dm_DeviceName := "/dev/sda1";
                        dm_Ebs := Some {| ebs_DeleteOnTermination := false; ebs_Encrypted := false; ebs_Rest := "" |} |}] |}.

Definition recorded : list ResourceReference := [interface_ref "eni-1"; volume_ref "vol-1"].

(** Accounts: nothing is left; a volume is left; nothing was created yet. *)
Definition absent_account : Ec2 := account [gone] [foreign] [].
Definition residual_account : Ec2 := account [gone] [volume "vol-1" tags; foreign] [].
Definition empty_account : Ec2 := account [] [foreign] [].
End AwsExample.

Import AwsExample.

(** The recorded interface and volume are gone and the instance terminated:
    the observation says absent, and interrupted. *)
Lemma aws_absence_confirmed_witness :
  match snd (run (ec2 absent_account image gone) (observeAWS config (allocation "i-1" recorded)) tt) with
  | inr ob => ob_Exists ob = false ∧ ob_Interrupted ob = true ∧
      (∀ x, x ∈ ec2_volumes absent_account → ¬ volume_of config (allocation "i-1" recorded) x)
  | inl _ => False
  end.
Proof.
  pose proof (run_ensures (ec2 absent_account image gone) (λ _, True) (ec2_answers absent_account) _ _ tt (account_answers _ _ _ _ _) I
    (aws_absence_confirmed config absent_account (allocation "i-1" recorded) (account_complete _ _ _))) as Ha.
  destruct (snd (run (ec2 absent_account image gone) (observeAWS config (allocation "i-1" recorded)) tt)) as [e|ob] eqn:Hr.
  - vm_compute in Hr. discriminate.
  - assert (ob_Exists ob = false ∧ ob_Interrupted ob = true) as [H1 H2].
    { vm_compute in Hr. injection Hr as <-. done. }
    split; [done|]. split; [done|]. apply (Ha ob eq_refl H1).
Defined.

(** The volume of a terminated instance is deleted, nothing else. *)
Lemma aws_delete_proven_witness :
  ∃ pre, run_history (ec2 residual_account image gone) (deleteAWS config (allocation "i-1" recorded)) tt
           = pre ++ [ev (DeleteVolume "vol-1") None] ∧
    delete_safe config (allocation "i-1" recorded) pre (ev (DeleteVolume "vol-1") None).
Proof.
  set (h := run_history _ _ _).
  assert (h = take (length h - 1) h ++ [ev (DeleteVolume "vol-1") None]) as Hh by (vm_compute; reflexivity).
  exists (take (length h - 1) h). split; [exact Hh|].
  exact (run_ensures (ec2 residual_account image gone) (λ _, True) no_contract _ _ tt (λ _ _ _ _ _ _ _, conj I I) I
    (aws_delete_proven config (allocation "i-1" recorded)) _ _ [] Hh).
Defined.

(** An instance is created on an account that holds nothing of the allocation. *)
Lemma aws_create_truthful_witness :
  snd (run (ec2 empty_account image (instance "pending")) (createAWS config (allocation "" []) "#!") tt)
    = (receipt "i-1" recorded "10.0.0.7:51820", None) ∧
  ∃ pre mappings answer post,
    run_history (ec2 empty_account image (instance "pending")) (createAWS config (allocation "" []) "#!") tt
      = pre ++ ev (RunInstances (run_input config (allocation "" []) "#!" mappings)) answer :: post ∧
    disks_safe mappings ∧ unoccupied config (allocation "" []) empty_account.
Proof.
  pose proof (run_ensures (ec2 empty_account image (instance "pending")) (λ _, True) sdk_answers _ _ tt (account_sdk _ _ _ _ _) I
    (aws_create_truthful config (allocation "" []) "#!")) as Hc.
  assert (snd (run (ec2 empty_account image (instance "pending")) (createAWS config (allocation "" []) "#!") tt)
    = (receipt "i-1" recorded "10.0.0.7:51820", None)) as Hr by (vm_compute; reflexivity).
  split; [exact Hr|]. rewrite Hr in Hc.
  destruct Hc as [(_ & _ & Hne & _)|(pre & mappings & answer & post & Hh & _ & _ & Hd & _ & Hu)]; [by destruct Hne|].
  exists pre, mappings, answer, post. split; [exact Hh|]. split; [exact Hd|].
  apply Hu; [apply account_complete|].
  destruct (run_respects (ec2 empty_account image (instance "pending")) (λ _, True) (ec2_answers empty_account)
    (createAWS config (allocation "" []) "#!") tt (account_answers _ _ _ _ _) I) as [Hall _].
  rewrite Hh in Hall. by apply Forall_app in Hall as [? _].
Defined.
