(* ===== verification/Gcp.v ===== *)
(** * The GCP adapter
    (internal/provider/gcp_sdk.go)

    What the code reads of Compute Engine's types, the inventory of an
    allocation, the proof that its creation is settled, and the create, observe
    and delete operations as programs over Compute requests. *)
From S2P Require Import Prelude.
From S2P Require Import Effects.
From S2P Require Import Placement.
From S2P Require Import Resources.
From S2P Require Import Allocation.
From S2P Require Import Provider.
From S2P Require Import Command.
From S2P Require Import Cloud.
From S2P Require Import ConfigCheck.

(** ** Compute Engine's types *)

Record AttachedDisk := { ad_Boot : bool; ad_AutoDelete : bool; ad_Source : string }.

Record GcpInstance := {
  gi_Name : string;
  gi_Id : Z;
  gi_SelfLink : string;
  gi_Labels : gmap string string;
  gi_Disks : list (option AttachedDisk);           (* slices of pointers *)
  gi_Interfaces : list (option string)             (* their [NetworkIP] *)
}.

Record GcpDisk := {
  gd_Name : string;
  gd_Id : Z;
  gd_SelfLink : string;
  gd_Labels : gmap string string;
  gd_Users : list string
}.

Record Operation := {
  op_Name : string;
  op_ClientOperationId : string;
  op_OperationType : string;
  op_TargetLink : string;
  op_Status : string;
  op_Error : option (list (option string));        (* the codes of [Error.Errors] *)
  op_HttpErrorStatusCode : Z
}.

Record OperationList := { ol_Kind : string; ol_Items : list (option Operation) }.

(** What [createGCP] sets of the instance it inserts. *)
Record Scheduling := {
  sc_ProvisioningModel : string;
  sc_InstanceTerminationAction : string;
  sc_OnHostMaintenance : string;
  sc_AutomaticRestart : bool
}.

Record BootDisk := {
  bd_Boot : bool;
  bd_AutoDelete : bool;
  bd_Type : string;
  bd_DiskName : string;
  bd_SourceImage : string;
  bd_Labels : gmap string string
}.

Record InsertInstance := {
  in_Name : string;
  in_MachineType : string;
  in_Labels : gmap string string;
  in_Subnetwork : string;
  in_ServiceAccounts : list string;
  in_Disks : list BootDisk;
  in_Metadata : list (string * string);
  in_Scheduling : option Scheduling
}.

(** An SDK error and its HTTP code, if it is a [googleapi.Error]. *)
Record GcpError := { ge_error : error; ge_code : option Z }.

(** Where a resource is: project, zone and name. *)
Abbreviation location := (string * string * string)%type.

(** [OperationsPages] is the SDK's [Pages]: the pages it hands to the callback
    and the error it ends with.  A request that succeeds yields its object;
    operations may be nil, which the code checks. *)
Inductive gcpE : Type → Type :=
  | InstancesGet (l : location) : gcpE (GcpError + GcpInstance)
  | DisksGet (l : location) : gcpE (GcpError + GcpDisk)
  | OperationsPages (project zone filter : string) : gcpE (list OperationList * option error)
  | OperationsGet (l : location) : gcpE (GcpError + option Operation)
  | InstancesInsert (project zone : string) (i : InsertInstance) (requestID : string) : gcpE (GcpError + option Operation)
  | InstancesDelete (l : location) (requestID : string) : gcpE (GcpError + option Operation)
  | DisksDelete (l : location) (requestID : string) : gcpE (GcpError + option Operation)
  | WaitSecond : gcpE bool.                        (* the timer fired before the context ended *)

Abbreviation gcpM := (prog gcpE).

(** [uuid.NewSHA1(uuid.NameSpaceOID, ...)] of google/uuid *)
Class UUIDHash := { NewSHA1 : string → string }.

Definition missingGCP (err : GcpError) : bool :=
  match ge_code err with Some code => code =? 404 | None => false end.

Definition exhausted (code : string) : bool :=
  (code =s "ZONE_RESOURCE_POOL_EXHAUSTED") || (code =s "ZONE_RESOURCE_POOL_EXHAUSTED_WITH_DETAILS").

Definition gcpCapacityFailure (op : Operation) : bool :=
  match op_Error op with
  | None => false
  | Some codes => existsb (λ e, match e with Some code => exhausted code | None => false end) codes
  end.

Record gcpInventory := { inv_vm : option GcpInstance; inv_disk : option GcpDisk }.

(** The pages [Pages] handed over, folded by the callback [f]. *)
Fixpoint fold_pages {A} (f : A → OperationList → option A) (s : A) (pages : list OperationList) : option A :=
  match pages with
  | [] => Some s
  | page :: pages' => match f s page with None => None | Some s => fold_pages f s pages' end
  end.

Section adapter.
Context `{NameRules} `{UUIDHash}.
Context (c : ProviderConfig) (hasService : bool).  (* [p.GCP != nil && p.GCP.Service != nil] *)

Definition errNoService : error := errors_new "GCP credential scope unavailable".

Definition gcpResource (a : Allocation) (kind name : string) : string :=
  "projects/" +:+ Project c +:+ "/zones/" +:+ off_Zone (al_Offering a) +:+ "/" +:+ kind +:+ "/" +:+ name.

Definition gcpMatches (link resource : string) : bool :=
  match url_Parse link with
  | inl _ => false
  | inr u =>
      if url_Scheme u <>s "" then
        if (url_Scheme u <>s "https")
           || ((url_Host u <>s "www.googleapis.com") && (url_Host u <>s "compute.googleapis.com"))
           || (url_RawQuery u <>s "") || (url_Fragment u <>s "")
        then false
        else url_Path u =s "/compute/v1/" +:+ resource
      else link =s resource
  end.

Definition gcpRequestID (a : Allocation) (action : string) : string :=
  NewSHA1 ("runnerscout/" +:+ pc_Owner c +:+ "/" +:+ gcpResource a "instances" (ID a) +:+ "/" +:+ action).

Definition gcpLabels (a : Allocation) : gmap string string :=
  {[owner_tag := pc_Owner c; operation_tag := ID a]}.

Definition ownsGCP (a : Allocation) (labels : gmap string string) : bool :=
  (map_get "" labels owner_tag =s pc_Owner c) && (map_get "" labels operation_tag =s ID a).

(** Where the allocation's machine and its disk are. *)
Definition at_zone (a : Allocation) (name : string) : location := (Project c, off_Zone (al_Offering a), name).

(** ** Inventory *)

Definition vm_owned (a : Allocation) (vm : GcpInstance) : bool :=
  (gi_Name vm =s ID a) && negb (gi_Id vm =? 0) && gcpMatches (gi_SelfLink vm) (gcpResource a "instances" (ID a))
  && ownsGCP a (gi_Labels vm).

(** The machine has exactly its boot disk, which goes with it. *)
Definition disk_bound (a : Allocation) (vm : GcpInstance) : bool :=
  match gi_Disks vm with
  | [Some d] => ad_Boot d && ad_AutoDelete d && gcpMatches (ad_Source d) (gcpResource a "disks" (ID a))
  | _ => false
  end.

Definition disk_owned (a : Allocation) (disk : GcpDisk) : bool :=
  (gd_Name disk =s ID a) && negb (gd_Id disk =? 0) && gcpMatches (gd_SelfLink disk) (gcpResource a "disks" (ID a))
  && ownsGCP a (gd_Labels disk).

Definition inventory_vm (a : Allocation) : gcpM (result (option GcpInstance)) :=
  r ← call (InstancesGet (at_zone a (ID a)));
  mret match r with
       | inl err =>
           if missingGCP err then inr None else inl (wrapped "GCP VM inventory unavailable: " (ge_error err))
       | inr vm =>
           if negb (vm_owned a vm) then inl (errors_new "GCP VM ownership unconfirmed")
           else if negb (disk_bound a vm) then inl (errors_new "GCP VM disk binding changed; cleanup retained")
           else inr (Some vm)
       end.

Definition inventory_disk (a : Allocation) : gcpM (result (option GcpDisk)) :=
  r ← call (DisksGet (at_zone a (ID a)));
  mret match r with
       | inl err =>
           if missingGCP err then inr None else inl (wrapped "GCP disk inventory unavailable: " (ge_error err))
       | inr disk =>
           if negb (disk_owned a disk) then inl (errors_new "GCP disk ownership unconfirmed")
           else if negb (forallb (λ user, gcpMatches user (gcpResource a "instances" (ID a))) (gd_Users disk))
           then inl (errors_new "GCP disk attached outside its allocation")
           else inr (Some disk)
       end.

(** [gcpInventory] *)
Definition gcp_inventory (a : Allocation) : gcpM (result gcpInventory) :=
  let fail err := mret (inl err) in
  if negb hasService then mret (inl errNoService)
  else
    try fail (inventory_vm a) (λ vm,
    try fail (inventory_disk a) (λ disk,
    mret (inr {| inv_vm := vm; inv_disk := disk |}))).

(** ** Settled creations *)

(** The operation is the finished insert of this allocation. *)
Definition settled (a : Allocation) (op : Operation) : bool :=
  negb ((op_Name op =s "") || (op_ClientOperationId op <>s gcpRequestID a "create")
        || (op_OperationType op <>s "insert")
        || negb (gcpMatches (op_TargetLink op) (gcpResource a "instances" (ID a))) || (op_Status op <>s "DONE")).

(** The loop over a page's operations; [None] is an error. *)
Fixpoint count_operations (a : Allocation) (count : nat) (items : list (option Operation)) : option nat :=
  match items with
  | [] => Some count
  | op :: items' =>
      if (1 <? S count)%nat then None
      else match op with
      | None => None
      | Some op => if settled a op then count_operations a (S count) items' else None
      end
  end.

Definition terminal_page (a : Allocation) (count : nat) (page : OperationList) : option nat :=
  if ol_Kind page <>s "compute#operationList" then None else count_operations a count (ol_Items page).

Definition dquote : string := String (ascii_of_nat 34) "".

Definition create_filter (a : Allocation) : string :=
  "clientOperationId = " +:+ dquote +:+ gcpRequestID a "create" +:+ dquote.

(** [gcpCreateTerminal] *)
Definition gcpCreateTerminal (a : Allocation) : gcpM (option error) :=
  if negb hasService then mret (Some errNoService)
  else
    '(pages, err) ← call (OperationsPages (Project c) (off_Zone (al_Offering a)) (create_filter a));
    mret match fold_pages (terminal_page a) 0%nat pages, err with
         | Some count, None =>
             if (count =? 0)%nat && (ResourceID a =s "")
             then Some (errors_new "GCP create commitment unconfirmed") else None
         | _, _ => Some (errors_new "GCP create commitment unconfirmed")
         end.

(** ** Waiting for an operation *)

(** The identity checks of one answer. *)
Definition operation_known (a : Allocation) (op : Operation) (operationName action kind name : string) : bool :=
  negb ((op_OperationType op <>s (if action =s "create" then "insert" else "delete")) || (op_Name op =s "")
        || ((operationName <>s "") && (op_Name op <>s operationName))
        || (op_ClientOperationId op <>s gcpRequestID a action)
        || negb (gcpMatches (op_TargetLink op) (gcpResource a kind name))).

(** A finished operation. *)
Definition operation_done (a : Allocation) (op : Operation) (action : string) : gcpM (option error) :=
  if isSome (op_Error op) || negb (op_HttpErrorStatusCode op =? 0) then
    let failed := Some (errors_new "GCP operation failed; reconcile ownership") in
    if (action =s "create") && gcpCapacityFailure op then
      r ← gcp_inventory a;
      mret match r with
           | inr {| inv_vm := None; inv_disk := None |} => Some errCapacity
           | _ => failed
           end
    else mret failed
  else mret None.

(** [waitGCPOperation].  [n] is what is left, in seconds, of the time budget of
    the caller's context: every round waits a second, so the context has ended
    when it is used up. *)
Fixpoint wait_operation (n : nat) (a : Allocation) (op : option Operation) (operationName action kind name : string)
    : gcpM (option error) :=
  match op with
  | None => mret (Some (errors_new "GCP operation identity unconfirmed"))
  | Some op =>
      if negb (operation_known a op operationName action kind name)
      then mret (Some (errors_new "GCP operation identity unconfirmed"))
      else if op_Status op =s "DONE" then operation_done a op action
      else if (op_Status op =s "PENDING") || (op_Status op =s "RUNNING") then
        let unknown := mret (Some (errors_new "GCP operation commitment unknown")) in
        match n with
        | O => unknown
        | S n =>
            fired ← call WaitSecond;
            if (fired : bool) then
              r ← call (OperationsGet (at_zone a (op_Name op)));
              match r with
              | inl err => mret (Some (wrapped "GCP operation observation unavailable: " (ge_error err)))
              | inr op' => wait_operation n a op' (op_Name op) action kind name
              end
            else unknown
        end
      else mret (Some (errors_new "GCP operation state unknown"))
  end.

Definition waitGCPOperation (budget : nat) (a : Allocation) (op : option Operation) (action kind name : string)
    : gcpM (option error) :=
  if negb hasService then mret (Some errNoService) else wait_operation budget a op "" action kind name.

(** ** Create *)

Definition insert_instance (a : Allocation) (script : string) : InsertInstance :=
  let machine := off_Machine (al_Offering a) in
  let subnet := Subnet c in
  {| in_Name := ID a;
     in_MachineType := if strings_contains_any machine "/" then machine else gcpResource a "machineTypes" machine;
     in_Labels := gcpLabels a;
     in_Subnetwork :=
       if strings_contains_any subnet "/" then subnet
       else "projects/" +:+ Project c +:+ "/regions/" +:+ off_Region (al_Offering a) +:+ "/subnetworks/" +:+ subnet;
     in_ServiceAccounts := [];
     in_Disks := [{| bd_Boot := true; bd_AutoDelete := true; bd_Type := "PERSISTENT"; bd_DiskName := ID a;
                     bd_SourceImage := off_Image (al_Offering a); bd_Labels := gcpLabels a |}];
     in_Metadata := [("startup-script", script)];
     in_Scheduling :=
       if off_Spot (al_Offering a)
       then Some {| sc_ProvisioningModel := "SPOT"; sc_InstanceTerminationAction := "DELETE";
                    sc_OnHostMaintenance := "TERMINATE"; sc_AutomaticRestart := false |}
       else None |}.

(** [gcpCaptureWireGuardEndpoint] *)
Definition gcpCaptureWireGuardEndpoint (a : Allocation) : gcpM string :=
  r ← call (InstancesGet (at_zone a (ID a)));
  mret match r with
       | inr vm => match gi_Interfaces vm with [Some ip] => wireGuardEndpoint ip | _ => "" end
       | inl _ => ""
       end.

(** The context of a create lasts 5 minutes, that of a delete 60 seconds. *)
Definition create_budget : nat := 300.
Definition delete_budget : nat := 60.

(** [createGCP] *)
Definition createGCP (a : Allocation) (script : string) : gcpM (Creation * option error) :=
  let refuse err : gcpM (Creation * option error) := mret (no_creation, Some err) in
  if negb hasService then refuse errNoService
  else
    r ← gcp_inventory a;
    match r with
    | inr {| inv_vm := None; inv_disk := None |} =>
        r ← call (InstancesInsert (Project c) (off_Zone (al_Offering a)) (insert_instance a script)
              (gcpRequestID a "create"));
        match r with
        | inl err => refuse (wrapped "GCP creation commitment unknown: " (ge_error err))
        | inr op =>
            e ← waitGCPOperation create_budget a op "create" "instances" (ID a);
            match e with
            | Some err => refuse err
            | None =>
                endpoint ← (if NetworkProfile a <>s "" then gcpCaptureWireGuardEndpoint a else mret "");
                mret (receipt (ID a) [] endpoint, None)
            end
        end
    | _ => refuse (errors_new "GCP create requires an unoccupied allocation identity")
    end.

(** ** Observe *)

Definition preempted_type : string := "compute.instances.preempted".

Definition preemption_of (a : Allocation) (op : option Operation) : bool :=
  match op with
  | Some op => (op_OperationType op =s preempted_type)
               && gcpMatches (op_TargetLink op) (gcpResource a "instances" (ID a))
  | None => false
  end.

Definition preemption_page (a : Allocation) (found : bool) (page : OperationList) : option bool :=
  if ol_Kind page <>s "compute#operationList" then None
  else Some (found || existsb (preemption_of a) (ol_Items page)).

(** [gcpConfirmedPreemption] *)
Definition gcpConfirmedPreemption (a : Allocation) : gcpM bool :=
  if negb hasService then mret false
  else
    '(pages, err) ← call (OperationsPages (Project c) (off_Zone (al_Offering a))
        ("operationType = " +:+ dquote +:+ preempted_type +:+ dquote));
    mret match fold_pages (preemption_page a) false pages, err with
         | Some found, None => found
         | _, _ => false
         end.

(** [observeGCP] *)
Definition observeGCP (a : Allocation) : gcpM (result Observation) :=
  if (ResourceID a <>s "") && (ResourceID a <>s ID a)
  then mret (inl (errors_new "GCP durable resource identity mismatch"))
  else
    e ← gcpCreateTerminal a;
    match e with
    | Some err => mret (inl err)
    | None =>
        r ← gcp_inventory a;
        match r with
        | inl err => mret (inl err)
        | inr inv =>
            let exists_ := isSome (inv_vm inv) || isSome (inv_disk inv) in
            interrupted ← (if negb exists_ && off_Spot (al_Offering a) then gcpConfirmedPreemption a else mret false);
            mret (inr {| ob_Resources := []; ob_Exists := exists_; ob_Known := true; ob_Interrupted := interrupted;
                         ob_ResourceID := ID a |})
        end
    end.

(** ** Delete *)

(** After the delete request. *)
Definition deletion_answered (a : Allocation) (r : GcpError + option Operation) (action kind : string)
    : gcpM (option error) :=
  match r with
  | inl err =>
      if missingGCP err then mret None
      else mret (Some (wrapped "GCP deletion commitment unknown: " (ge_error err)))
  | inr op => waitGCPOperation delete_budget a op action kind (ID a)
  end.

(** [deleteGCP] *)
Definition deleteGCP (a : Allocation) : gcpM (option error) :=
  e ← gcpCreateTerminal a;
  match e with
  | Some err => mret (Some err)
  | None =>
      r ← gcp_inventory a;
      match r with
      | inl err => mret (Some err)
      | inr inv =>
          match inv_vm inv, inv_disk inv with
          | Some _, _ =>
              r ← call (InstancesDelete (at_zone a (ID a)) (gcpRequestID a "delete-vm"));
              deletion_answered a r "delete-vm" "instances"
          | None, Some disk =>
              if negb (length (gd_Users disk) =? 0)%nat
              then mret (Some (errors_new "GCP disk attachment remains; cleanup retained"))
              else
                r ← call (DisksDelete (at_zone a (ID a)) (gcpRequestID a "delete-disk"));
                deletion_answered a r "delete-disk" "disks"
          | None, None => mret None
          end
      end
  end.
End adapter.
