(* ===== verification/GcpProps.v ===== *)
(** * Properties of the GCP adapter

    Existence is reported exactly and only once the creation is settled; a
    delete makes one change at most, to a proven resource; a create makes one
    request at most and tells what came of it. *)
From S2P Require Import Prelude.
From S2P Require Import Effects.
From S2P Require Import Placement.
From S2P Require Import Resources.
From S2P Require Import Allocation.
From S2P Require Import Provider.
From S2P Require Import Command.
From S2P Require Import Cloud.
From S2P Require Import ConfigCheck.
From S2P Require Import Gcp.

Abbreviation gcp_history := (list (event gcpE)).

(** A request that changes nothing. *)
Definition gcp_reads (v : event gcpE) : Prop :=
  match v with
  | existT _ (e, _) =>
      match e with InstancesInsert _ _ _ _ | InstancesDelete _ _ | DisksDelete _ _ => False | _ => True end
  end.

(** The SDK's errors are its own. *)
Definition gcp_sdk : contract gcpE := λ X e, match e in gcpE T return T → Prop with
  | InstancesGet _ | DisksGet _ => λ r, match r with inl err => no_sentinel (ge_error err) | inr _ => True end
  | OperationsGet _ | InstancesInsert _ _ _ _ | InstancesDelete _ _ | DisksDelete _ _ => λ r,
      match r with inl err => no_sentinel (ge_error err) | inr _ => True end
  | OperationsPages _ _ _ => λ _, True
  | WaitSecond => λ _, True
  end.

(** What Compute Engine holds; it does not change during an observation. *)
Record Gcp := { gcp_instances : gmap location GcpInstance; gcp_disks : gmap location GcpDisk }.

(** A read shows what is there, and "not found" only what is not. *)
Definition gcp_answers (w : Gcp) : contract gcpE := λ X e, match e in gcpE T return T → Prop with
  | InstancesGet l => λ r,
      match r with
      | inr vm => gcp_instances w !! l = Some vm
      | inl err => missingGCP err = true → gcp_instances w !! l = None
      end
  | DisksGet l => λ r,
      match r with
      | inr disk => gcp_disks w !! l = Some disk
      | inl err => missingGCP err = true → gcp_disks w !! l = None
      end
  | _ => λ _, True
  end.

Section adapter.
Context `{NameRules} `{UUIDHash}.
Context (c : ProviderConfig) (hasService : bool) (a : Allocation).

Abbreviation here := (at_zone c a (ID a)).

(** ** What a history shows *)

Definition vm_missing (h : gcp_history) : Prop :=
  ∃ err, ev (InstancesGet here) (inl err) ∈ h ∧ missingGCP err = true.
Definition disk_missing (h : gcp_history) : Prop :=
  ∃ err, ev (DisksGet here) (inl err) ∈ h ∧ missingGCP err = true.

(** The machine was shown, with the allocation's name, labels and disk. *)
Definition vm_shown (h : gcp_history) (vm : GcpInstance) : Prop :=
  ev (InstancesGet here) (inr vm) ∈ h ∧ vm_owned c a vm = true ∧ disk_bound c a vm = true.
Definition disk_shown (h : gcp_history) (disk : GcpDisk) : Prop :=
  ev (DisksGet here) (inr disk) ∈ h ∧ disk_owned c a disk = true.

(** The operations of a listing. *)
Definition operations (pages : list OperationList) : list (option Operation) := pages ≫= ol_Items.

(** The only insert operation of the allocation is listed as done; without one
    a recorded resource is needed. *)
Definition create_settled (h : gcp_history) : Prop :=
  ∃ pages, ev (OperationsPages (Project c) (off_Zone (al_Offering a)) (create_filter c a)) (pages, None) ∈ h ∧
    (∀ op, op ∈ operations pages → ∃ o, op = Some o ∧ settled c a o = true) ∧
    (operations pages = [] → ResourceID a ≠ "") ∧ (length (operations pages) ≤ 1)%nat.

Lemma settled_mono h h' : h ⊆ h' → create_settled h → create_settled h'.
Proof. intros Hs (pages & Hin & Hrest). exists pages. auto. Qed.

(** ** Inventory *)

Record inventory_read (k : gcp_history) (inv : gcpInventory) : Prop := {
  read_vm : match inv_vm inv with Some vm => vm_shown k vm | None => vm_missing k end;
  read_disk : match inv_disk inv with Some disk => disk_shown k disk | None => disk_missing k end
}.

Lemma read_mono k h inv : k ⊆ h → inventory_read k inv → inventory_read h inv.
Proof.
  intros Hs [Hvm Hd]. split.
  - destruct (inv_vm inv); [destruct Hvm; split; auto|destruct Hvm as (err & ? & ?); exists err; auto].
  - destruct (inv_disk inv); [destruct Hd; split; auto|destruct Hd as (err & ? & ?); exists err; auto].
Qed.

Lemma wp_inventory_vm (G : contract gcpE) h :
  wp G (λ h' r, ∃ v, h' = h ++ [v] ∧ gcp_reads v ∧
    match r with
    | inl e => respects gcp_sdk v → no_sentinel e
    | inr (Some vm) => vm_shown [v] vm
    | inr None => vm_missing [v]
    end) h (inventory_vm c a).
Proof.
  unfold inventory_vm. apply wp_call_bind. intros r _. apply wp_ret. eexists. split_and!; [done|done|].
  destruct r as [err|vm].
  - destruct (missingGCP err) eqn:Hm; [|done]. exists err. split; [left|done].
  - destruct (vm_owned c a vm) eqn:Hown; cbn [negb]; [|intros _; by apply plain_error].
    destruct (disk_bound c a vm) eqn:Hb; cbn [negb]; [|intros _; by apply plain_error]. split; [left|done].
Qed.

Lemma wp_inventory_disk (G : contract gcpE) h :
  wp G (λ h' r, ∃ v, h' = h ++ [v] ∧ gcp_reads v ∧
    match r with
    | inl e => respects gcp_sdk v → no_sentinel e
    | inr (Some disk) => disk_shown [v] disk
    | inr None => disk_missing [v]
    end) h (inventory_disk c a).
Proof.
  unfold inventory_disk. apply wp_call_bind. intros r _. apply wp_ret. eexists. split_and!; [done|done|].
  destruct r as [err|disk].
  - destruct (missingGCP err) eqn:Hm; [|done]. exists err. split; [left|done].
  - destruct (disk_owned c a disk) eqn:Hown; cbn [negb]; [|intros _; by apply plain_error].
    destruct (forallb _ _); cbn [negb]; [|intros _; by apply plain_error]. split; [left|done].
Qed.

(** What an inventory has read, and the error of one that failed. *)
Definition inventoried (h h' : gcp_history) (r : result gcpInventory) : Prop :=
  ∃ k, h' = h ++ k ∧ Forall gcp_reads k ∧
    match r with inl e => Forall (respects gcp_sdk) k → no_sentinel e | inr inv => inventory_read k inv end.

Lemma wp_gcp_inventory (G : contract gcpE) h : wp G (inventoried h) h (gcp_inventory c hasService a).
Proof.
  unfold gcp_inventory. cbv zeta. destruct hasService; cbn [negb];
    [|apply wp_ret; exists []; rewrite app_nil_r; split_and!; [done|done|intros _; by apply plain_error]].
  apply wp_try. eapply wp_mono; [apply wp_inventory_vm|]. intros h1 [e|vm] (v & -> & Hv & Hvm).
  { apply wp_ret. exists [v]. split_and!; [done|by constructor|]. intros Hr. by apply Hvm, (Forall_inv Hr). }
  apply wp_try. eapply wp_mono; [apply wp_inventory_disk|]. intros h2 [e|disk] (d & -> & Hd & Hdisk); apply wp_ret;
    exists [v; d]; rewrite <- app_assoc; split_and!; try done; try by repeat constructor.
  - intros [_ Hr]%Forall_cons. by apply Hdisk, (Forall_inv Hr).
  - assert ([v] ⊆ [v; d]) as H1 by set_solver. assert ([d] ⊆ [v; d]) as H2 by set_solver. split; cbn [inv_vm inv_disk].
    + destruct vm; [destruct Hvm; split; auto|destruct Hvm as (err & ? & ?); exists err; auto].
    + destruct disk; [destruct Hdisk; split; auto|destruct Hdisk as (err & ? & ?); exists err; auto].
Qed.

(** ** Settled creations *)

Lemma count_operations_spec count items count' :
  count_operations c a count items = Some count' →
  count' = (count + length items)%nat ∧ (items ≠ [] → count' ≤ 1)%nat ∧
  ∀ op, op ∈ items → ∃ o, op = Some o ∧ settled c a o = true.
Proof.
  revert count. induction items as [|op items IH]; intros count; cbn [count_operations].
  { intros [= <-]. split_and!; [cbn; lia|done|]. intros op Hop. by apply not_elem_of_nil in Hop. }
  destruct (1 <? S count)%nat eqn:Hc; [done|]. apply Nat.ltb_ge in Hc. destruct op as [o|]; [|done].
  destruct (settled c a o) eqn:Ho; [|done]. intros (-> & Hle & Hall)%IH. split_and!.
  - cbn. lia.
  - intros _. destruct items; [cbn; lia|]. by apply Hle.
  - intros op [->|Hop]%elem_of_cons; [eauto|by apply Hall].
Qed.

Lemma terminal_pages_spec pages : ∀ count count',
  fold_pages (terminal_page c a) count pages = Some count' →
  count' = (count + length (operations pages))%nat ∧ (operations pages ≠ [] → count' ≤ 1)%nat ∧
  ∀ op, op ∈ operations pages → ∃ o, op = Some o ∧ settled c a o = true.
Proof.
  induction pages as [|page pages IH]; intros count count'; cbn [fold_pages].
  { intros [= <-]. split_and!; [cbn; lia|done|]. intros op Hop. by apply not_elem_of_nil in Hop. }
  destruct (terminal_page c a count page) as [n|] eqn:Hp; [|done]. intros (-> & Hle & Hall)%IH.
  unfold terminal_page in Hp. destruct (_ <>s _); [done|]. apply count_operations_spec in Hp as (-> & Hle' & Hall').
  change (operations (page :: pages)) with (ol_Items page ++ operations pages). rewrite length_app. split_and!; [lia| |].
  - intros Hne. destruct (operations pages) eqn:Hb.
    + rewrite app_nil_r in Hne. specialize (Hle' Hne). cbn. lia.
    + by apply Hle.
  - intros op [Hop|Hop]%elem_of_app; auto.
Qed.

Lemma wp_gcpCreateTerminal (G : contract gcpE) h :
  wp G (λ h' r, ∃ k, h' = h ++ k ∧ Forall gcp_reads k ∧
    match r with Some e => no_sentinel e | None => hasService = true ∧ create_settled k end) h
    (gcpCreateTerminal c hasService a).
Proof.
  unfold gcpCreateTerminal. destruct hasService; cbn [negb];
    [|apply wp_ret; exists []; rewrite app_nil_r; split_and!; [done|done|by apply plain_error]].
  apply wp_call_bind. intros [pages err] _. apply wp_ret. eexists. split; [done|]. split; [by repeat constructor|].
  destruct (fold_pages _ _ _) as [count|] eqn:Hf; [|by apply plain_error].
  destruct err as [e|]; [by apply plain_error|]. destruct (_ && _) eqn:Hc; [by apply plain_error|].
  split; [done|]. apply terminal_pages_spec in Hf as (-> & Hle & Hall). exists pages. split; [left|].
  split; [exact Hall|]. split.
  - intros Hnil. rewrite Hnil in Hc. reflect in Hc. by destruct Hc as [[]|].
  - destruct (operations pages) eqn:Hb; [cbn; lia|]. apply Hle. congruence.
Qed.

(** ** Observation *)

(** A preemption of the machine was listed. *)
Definition preemption_listed (h : gcp_history) : Prop :=
  ∃ filter pages op, ev (OperationsPages (Project c) (off_Zone (al_Offering a)) filter) (pages, None) ∈ h ∧
    op ∈ operations pages ∧ preemption_of c a op = true.

Lemma preemption_pages_spec pages : ∀ found,
  fold_pages (preemption_page c a) found pages = Some true →
  found = true ∨ ∃ op, op ∈ operations pages ∧ preemption_of c a op = true.
Proof.
  induction pages as [|page pages IH]; intros found; cbn [fold_pages]; [intros [= ->]; by left|].
  unfold preemption_page at 1. destruct (_ <>s _); [done|].
  intros [[->|Hex]%orb_true_iff|(op & Hop & Hp)]%IH; [by left| |]; right.
  - apply existsb_exists in Hex as (op & Hop%list_elem_of_In & Hp). exists op. split; [|done].
    apply elem_of_app. by left.
  - exists op. split; [|done]. apply elem_of_app. by right.
Qed.

Lemma wp_preemption (G : contract gcpE) h :
  wp G (λ h' found, ∃ k, h' = h ++ k ∧ (found = true → preemption_listed k)) h (gcpConfirmedPreemption c hasService a).
Proof.
  unfold gcpConfirmedPreemption. destruct (negb hasService); [apply wp_ret; exists []; by rewrite app_nil_r|].
  apply wp_call_bind. intros [pages err] _. apply wp_ret. eexists. split; [done|].
  destruct (fold_pages _ _ _) as [found|] eqn:Hf; [|done]. destruct err as [e|]; [done|]. intros ->.
  apply preemption_pages_spec in Hf as [?|(op & Hop & Hp)]; [done|]. eexists _, pages, op. split; [left|done].
Qed.

(** What an observation rests on. *)
Record observed (h : gcp_history) (ob : Observation) : Prop := {
  obs_inventory : ∃ inv, inventory_read h inv ∧ ob_Exists ob = isSome (inv_vm inv) || isSome (inv_disk inv);
  obs_settled : create_settled h;
  obs_known : ob_Known ob = true;
  obs_interrupted : ob_Interrupted ob = true →
    ob_Exists ob = false ∧ off_Spot (al_Offering a) = true ∧ preemption_listed h
}.

Lemma wp_observeGCP :
  wp no_contract (λ h r, Forall gcp_reads h ∧ ∀ ob, r = inr ob → observed h ob) [] (observeGCP c hasService a).
Proof.
  unfold observeGCP. destruct (_ && _); [by apply wp_ret|].
  apply wp_bind. eapply wp_mono; [apply wp_gcpCreateTerminal|]. intros h1 [e|] (k1 & -> & Hr1 & Hset); [by apply wp_ret|].
  destruct Hset as [_ Hset]. apply wp_bind. eapply wp_mono; [apply wp_gcp_inventory|].
  intros h2 [e|inv] (k2 & -> & Hr2 & Hinv); [apply wp_ret; split; [by apply Forall_app_2|done]|]. cbv zeta.
  assert (Forall gcp_reads (([] ++ k1) ++ k2)) as Hr by by apply Forall_app_2.
  assert (∀ k interrupted, Forall gcp_reads k →
    (interrupted = true → isSome (inv_vm inv) || isSome (inv_disk inv) = false ∧ off_Spot (al_Offering a) = true ∧
       preemption_listed k) →
    Forall gcp_reads ((([] ++ k1) ++ k2) ++ k) ∧ ∀ ob,
    inr {| ob_Resources := []; ob_Exists := isSome (inv_vm inv) || isSome (inv_disk inv); ob_Known := true;
           ob_Interrupted := interrupted; ob_ResourceID := ID a |} = (inr ob : result Observation) →
    observed ((([] ++ k1) ++ k2) ++ k) ob) as Hend.
  { intros k i Hk Hi. split; [by apply Forall_app_2|]. intros ob [= <-]. split; cbn.
    - exists inv. split; [|done]. eapply read_mono; [|done]. set_solver.
    - eapply settled_mono; [|done]. set_solver.
    - done.
    - intros Hi'. destruct (Hi Hi') as (? & ? & (filter & pages & op & Hin & Hop)). split_and!; [done|done|].
      exists filter, pages, op. split; [set_solver|done]. }
  apply wp_bind. destruct (_ && _) eqn:Hc.
  - rewrite andb_true_iff, negb_true_iff in Hc. destruct Hc as [Hne Hspot].
    eapply wp_mono; [apply wp_and; [apply wp_preemption|apply (emits_wp gcp_reads)]|].
    { unfold gcpConfirmedPreemption. emit. }
    intros h3 found [(k3 & -> & Hp) (k & Heq%app_inv_head & Hk)]. subst k. apply wp_ret, Hend; [done|]. auto.
  - apply wp_ret, wp_ret. rewrite <- (app_nil_r (([] ++ k1) ++ k2)). by apply Hend.
Qed.

Lemma read_exact w h inv :
  Forall (respects (gcp_answers w)) h → inventory_read h inv →
  (isSome (inv_vm inv) = true ↔ is_Some (gcp_instances w !! here)) ∧
  (isSome (inv_disk inv) = true ↔ is_Some (gcp_disks w !! here)).
Proof.
  intros Hh [Hvm Hd]. rewrite Forall_forall in Hh. split.
  - destruct (inv_vm inv) as [vm|].
    + destruct Hvm as [Hin%Hh _]. cbn in Hin. rewrite Hin. by split; eauto.
    + destruct Hvm as (err & Hin%Hh & Hm). cbn in Hin. rewrite (Hin Hm). split; [done|]. by intros [].
  - destruct (inv_disk inv) as [disk|].
    + destruct Hd as [Hin%Hh _]. cbn in Hin. rewrite Hin. by split; eauto.
    + destruct Hd as (err & Hin%Hh & Hm). cbn in Hin. rewrite (Hin Hm). split; [done|]. by intros [].
Qed.

(** C23: an observation on GCP is exact.  If Compute Engine does not change
    during it, an observation without error says "exists" exactly when the
    allocation's machine or its disk is there; it is made only after the
    allocation's single insert operation is listed as done (or a resource is
    recorded already), so absence is final; and it says "interrupted" only for a
    spot offering whose machine a preemption operation names. *)
Theorem gcp_observation_exact w :
  ensures (gcp_answers w) (observeGCP c hasService a) (λ h r, ∀ ob, r = inr ob →
    ob_Known ob = true ∧ create_settled h ∧
    (ob_Exists ob = true ↔ is_Some (gcp_instances w !! here) ∨ is_Some (gcp_disks w !! here)) ∧
    (ob_Interrupted ob = true → ob_Exists ob = false ∧ off_Spot (al_Offering a) = true ∧ preemption_listed h)).
Proof.
  intros h r Ht Hh ob ->. destruct (trace_wp _ _ _ _ Ht wp_observeGCP) as [_ Hob].
  destruct (Hob ob eq_refl) as [(inv & Hinv & ->) Hset Hk Hi]. split_and!; [done|done| |done].
  destruct (read_exact w h inv Hh Hinv) as [Hvm Hd]. rewrite orb_true_iff. tauto.
Qed.
End adapter.
