(* ===== verification/GcpSafety.v ===== *)
(** * Safety of the GCP adapter's changes

    Deletes of proven resources only, one at a time; creates on a vacant name,
    once, with a truthful outcome. *)
From S2P Require Import Prelude.
From S2P Require Import Effects.
From S2P Require Import Placement.
From S2P Require Import Resources.
From S2P Require Import Allocation.
From S2P Require Import Provider.
From S2P Require Import Command.
From S2P Require Import Cloud.
From S2P Require Import ConfigCheck.
From S2P Require Import Gcp.
From S2P Require Import GcpProps.

Section adapter.
Context `{NameRules} `{UUIDHash}.
Context (c : ProviderConfig) (hasService : bool) (a : Allocation).

Abbreviation here := (at_zone c a (ID a)).

(** ** Operations *)

Lemma reads_gcp_inventory : emits gcp_reads (gcp_inventory c hasService a).
Proof. unfold gcp_inventory, inventory_vm, inventory_disk. emit. Qed.
#[local] Hint Resolve reads_gcp_inventory : emits.

Lemma reads_wait n : ∀ op nm action kind name, emits gcp_reads (wait_operation c hasService n a op nm action kind name).
Proof. induction n; intros; cbn [wait_operation]; unfold operation_done; emit. Qed.

(** The operation is the one awaited, and it has ended. *)
Definition finished (action kind : string) (o : Operation) : Prop :=
  (∃ nm, operation_known c a o nm action kind (ID a) = true) ∧ op_Status o = "DONE".

(** The operation was answered: to the request, or when asked again. *)
Definition answered (op : option Operation) (k : gcp_history) (o : Operation) : Prop :=
  op = Some o ∨ ∃ l, ev (OperationsGet l) (inr (Some o)) ∈ k.

Lemma answered_later l o' k o : answered o' k o → answered None ([ev WaitSecond true; ev (OperationsGet l) (inr o')] ++ k) o.
Proof. intros [->|[l' Hl]]; right; [exists l; set_solver|exists l'; set_solver]. Qed.

(** What waiting for an operation has established. *)
Definition waited (action kind : string) (op : option Operation) (k : gcp_history) (r : option error) : Prop :=
  match r with
  | None => ∃ o, answered op k o ∧ finished action kind o ∧ op_Error o = None ∧ op_HttpErrorStatusCode o = 0
  | Some e =>
      Forall (respects gcp_sdk) k → errors_is e ErrNoEffect = false ∧
      (errors_is e ErrCapacity = true → vm_missing c a k ∧ disk_missing c a k ∧
         ∃ o, answered op k o ∧ finished action kind o ∧ gcpCapacityFailure o = true)
  end.

Lemma waited_plain action kind op k e : (Forall (respects gcp_sdk) k → no_sentinel e) → waited action kind op k (Some e).
Proof. intros He Hk. destruct (He Hk) as [Hn Hc]. split; [done|]. congruence. Qed.

Lemma wp_operation_done action kind o h :
  finished action kind o →
  wp no_contract (λ h' r, ∃ k, h' = h ++ k ∧ waited action kind (Some o) k r) h (operation_done c hasService a o action).
Proof.
  intros Hf. unfold operation_done. destruct (_ || _) eqn:He; cbv zeta.
  - destruct (_ && _) eqn:Hcap; [|apply wp_ret; exists []; rewrite app_nil_r; split; [done|]; apply waited_plain;
      intros _; by apply plain_error].
    apply wp_bind. eapply wp_mono; [apply wp_gcp_inventory|]. intros h' r (k & -> & _ & Hr). apply wp_ret.
    exists k. split; [done|]. apply andb_true_iff in Hcap as [_ Hcap].
    destruct r as [e|[[vm|] [disk|]]]; try (apply waited_plain; intros _; by apply plain_error).
    destruct Hr as [Hvm Hd]. intros _. split; [done|]. intros _. split_and!; [done|done|]. exists o. by split; [left|].
  - apply orb_false_iff in He as [He Hs]. reflect in He. apply negb_false_iff, Z.eqb_eq in Hs.
    apply wp_ret. exists []. rewrite app_nil_r. split; [done|]. exists o. by split; [left|].
Qed.

Lemma waited_later action kind l o' k r :
  waited action kind o' k r → waited action kind None ([ev WaitSecond true; ev (OperationsGet l) (inr o')] ++ k) r.
Proof.
  destruct r as [e|]; cbn [waited].
  - intros Hw [_ Hk]%Forall_app. destruct (Hw Hk) as [Hn Hc]. split; [done|].
    intros (Hv & Hd & o & Ho & Hrest)%Hc. split_and!.
    + destruct Hv as (err & Hin & Hm). exists err. split; [set_solver|done].
    + destruct Hd as (err & Hin & Hm). exists err. split; [set_solver|done].
    + exists o. split; [by apply answered_later|done].
  - intros (o & Ho & Hrest). exists o. split; [by apply answered_later|done].
Qed.

Lemma waited_some action kind o k r : waited action kind None k r → waited action kind (Some o) k r.
Proof.
  assert (∀ o', answered None k o' → answered (Some o) k o') as Ha by (intros o' [?|?]; [done|by right]).
  destruct r as [e|]; cbn [waited].
  - intros Hw Hk. destruct (Hw Hk) as [Hn Hc]. split; [done|]. intros (? & ? & o' & ? & ?)%Hc. eauto 10.
  - intros (o' & ? & ?). eauto.
Qed.

Lemma wp_wait action kind n : ∀ op nm h,
  wp no_contract (λ h' r, ∃ k, h' = h ++ k ∧ waited action kind op k r) h
    (wait_operation c hasService n a op nm action kind (ID a)).
Proof.
  assert (∀ op h k e, (Forall (respects gcp_sdk) k → no_sentinel e) →
    ∃ k', h ++ k = h ++ k' ∧ waited action kind op k' (Some e)) as Hplain
    by (intros op h k e He; exists k; split; [done|by apply waited_plain]).
  assert (∀ op h msg, wp no_contract (λ h' r, ∃ k, h' = h ++ k ∧ waited action kind op k r) h
    (mret (Some (errors_new msg)))) as Hend.
  { intros op h msg. apply wp_ret. exists []. rewrite app_nil_r. split; [done|]. apply waited_plain. intros _. by apply plain_error. }
  induction n as [|n IH]; intros op nm h; cbn [wait_operation];
    (destruct op as [o|]; [|apply Hend]); (destruct (operation_known _ _ _ _ _ _ _) eqn:Hk; cbn [negb]; [|apply Hend]);
    (destruct (String.eqb_spec (op_Status o) "DONE") as [Hs|Hs];
     [apply wp_operation_done; split; [by exists nm|done]|]);
    (destruct (_ || _); [|apply Hend]); cbv zeta; [apply Hend|].
  apply wp_call_bind. intros [|] _; [|apply wp_ret, Hplain; intros _; by apply plain_error].
  apply wp_call_bind. intros [err|o'] _.
  - rewrite <- app_assoc. apply wp_ret, Hplain. intros [_ Hr%Forall_inv]%Forall_cons. by apply wrapped_sentinel.
  - eapply wp_mono; [apply IH|]. intros h' r (k & -> & Hw). rewrite <- !app_assoc. eexists. split; [done|].
    by apply waited_some, waited_later.
Qed.

(** ** Delete *)

(** When each change may be requested. *)
Definition gcp_delete_safe (pre : gcp_history) (v : event gcpE) : Prop :=
  match v with
  | existT _ (e, _) =>
      match e with
      | InstancesInsert _ _ _ _ => False
      | InstancesDelete l id =>
          Forall gcp_reads pre ∧ create_settled c a pre ∧ l = here ∧ id = gcpRequestID c a "delete-vm" ∧
          ∃ vm, vm_shown c a pre vm
      | DisksDelete l id =>
          Forall gcp_reads pre ∧ create_settled c a pre ∧ l = here ∧ id = gcpRequestID c a "delete-disk" ∧
          vm_missing c a pre ∧ ∃ disk, disk_shown c a pre disk ∧ gd_Users disk = []
      | _ => True
      end
  end.

Lemma read_is_safe pre v : gcp_reads v → gcp_delete_safe pre v.
Proof. by destruct v as [X [[] x]]. Qed.

Lemma gcp_reads_safe h : Forall gcp_reads h → at_every gcp_delete_safe h.
Proof. apply at_every_only, read_is_safe. Qed.

Lemma wp_deletion_answered r action kind h :
  at_every gcp_delete_safe h →
  wp no_contract (λ h' _, at_every gcp_delete_safe h') h (deletion_answered c hasService a r action kind).
Proof.
  intros Hh. eapply wp_mono; [apply (emits_wp gcp_reads)|].
  - unfold deletion_answered, waitGCPOperation. destruct r as [err|op]; emit. apply reads_wait.
  - intros h' x (k & -> & Hk). by apply (at_every_app _ gcp_reads); [apply read_is_safe|..].
Qed.

(** C24: a delete on GCP makes at most one change, and only to a resource that
    is proven to be the allocation's, once its creation is settled: the machine
    if this call was shown it with the allocation's name, labels, link and
    single auto-deleted boot disk; the disk only if the machine was reported
    missing and the disk was shown as owned and without users. *)
Theorem gcp_delete_proven :
  ensures no_contract (deleteGCP c hasService a) (λ h _, at_every gcp_delete_safe h).
Proof.
  apply wp_ensures. unfold deleteGCP.
  apply wp_bind. eapply wp_mono; [apply wp_gcpCreateTerminal|]. intros h1 [e|] (k1 & -> & Hr1 & Hset).
  { by apply wp_ret, gcp_reads_safe. }
  destruct Hset as [_ Hset]. apply wp_bind. eapply wp_mono; [apply wp_gcp_inventory|].
  intros h2 r (k2 & -> & Hr2 & Hinv). cbn [app] in *. pose proof (Forall_app_2 _ _ _ Hr1 Hr2) as Hro.
  assert (create_settled c a (k1 ++ k2)) as Hset' by (eapply settled_mono; [|done]; set_solver).
  destruct r as [e|inv]; [by apply wp_ret, gcp_reads_safe|].
  apply (read_mono _ _ k2 (k1 ++ k2)) in Hinv as [Hvm Hd]; [|set_solver].
  destruct (inv_vm inv) as [vm|].
  - apply wp_call_bind. intros r _. apply wp_deletion_answered, at_every_snoc; [by apply gcp_reads_safe|]. cbn. eauto 10.
  - destruct (inv_disk inv) as [disk|]; [|by apply wp_ret, gcp_reads_safe].
    destruct (negb _) eqn:Hu; [by apply wp_ret, gcp_reads_safe|]. reflect in Hu.
    apply wp_call_bind. intros r _. apply wp_deletion_answered, at_every_snoc; [by apply gcp_reads_safe|]. cbn. eauto 10.
Qed.

(** ** Create *)

(** What the outcome of a create says after [answer] to its request and the
    reads [post] that followed. *)
Record gcp_reported (answer : GcpError + option Operation) (post : gcp_history) (creation : Creation)
    (err : option error) : Prop := {
  rep_effect : is_err err ErrNoEffect = false;
  rep_capacity : is_err err ErrCapacity = true →
    creation = no_creation ∧ vm_missing c a post ∧ disk_missing c a post ∧
    ∃ op o, answer = inr op ∧ answered op post o ∧ finished "create" "instances" o ∧ gcpCapacityFailure o = true;
  rep_created : creation = no_creation ∧ err ≠ None ∨
    cr_ResourceID creation = ID a ∧ err = None ∧
    ∃ op o, answer = inr op ∧ answered op post o ∧ finished "create" "instances" o ∧ op_Error o = None
}.

Lemma reported_refused answer post e :
  no_sentinel e → gcp_reported answer post no_creation (Some e).
Proof. intros [Hn Hc]. split; [done|cbn; congruence|by left]. Qed.

(** What a create has done and what its outcome says. *)
Definition gcp_outcome script (h : gcp_history) (creation : Creation) (err : option error) : Prop :=
  (Forall gcp_reads h ∧ creation = no_creation ∧ ∃ e, err = Some e ∧ no_sentinel e) ∨
  ∃ pre answer post,
    h = pre ++ ev (InstancesInsert (Project c) (off_Zone (al_Offering a)) (insert_instance c a script)
                     (gcpRequestID c a "create")) answer :: post ∧
    Forall gcp_reads pre ∧ Forall gcp_reads post ∧ vm_missing c a pre ∧ disk_missing c a pre ∧
    gcp_reported answer post creation err.

Lemma createGCP_outcome script :
  ensures gcp_sdk (createGCP c hasService a script) (λ h '(creation, err), gcp_outcome script h creation err).
Proof.
  apply ensures_under. unfold createGCP. cbv zeta. destruct (negb hasService) eqn:Hs;
    [apply wp_ret; intros _; left; split_and!; [done|done|eexists; split; [done|by apply plain_error]]|].
  apply wp_bind. eapply wp_mono; [apply wp_gcp_inventory|]. intros h1 r (k & -> & Hro & Hr). cbn [app].
  destruct r as [e|[[vm|] [disk|]]];
    try (apply wp_ret; intros _; left; split_and!; [done|done|eexists; split; [done|by apply plain_error]]).
  destruct Hr as [Hvm Hd]. cbn in Hvm, Hd. apply wp_call_bind. intros [err|op] _.
  { apply wp_ret. intros Hh. right. exists k, (inl err), []. split_and!; try done.
    apply reported_refused. apply Forall_app in Hh as [_ Hh%Forall_inv]. by apply wrapped_sentinel. }
  apply wp_bind. unfold waitGCPOperation. rewrite Hs.
  eapply wp_mono; [apply wp_and; [apply wp_wait|apply (emits_wp gcp_reads), reads_wait]|].
  intros h' r [(k2 & -> & Hw) (k2' & Heq%app_inv_head & Hro2)]. subst k2'. rewrite <- app_assoc. cbn [app].
  destruct r as [e|].
  { apply wp_ret. intros Hh. right. exists k, (inr op), k2. split_and!; try done.
    apply Forall_app in Hh as [_ [_ Hh]%Forall_cons]. destruct (Hw Hh) as [Hn Hc]. split; [done| |by left].
    intros (Hv2 & Hd2 & o & Ho)%Hc. split_and!; try done. exists op, o. tauto. }
  apply wp_bind. eapply wp_mono; [apply (emits_wp gcp_reads)|].
  { destruct (_ <>s _); unfold gcpCaptureWireGuardEndpoint; emit. }
  intros h2 endpoint (k3 & -> & Hro3). apply wp_ret. intros _. right. exists k, (inr op), (k2 ++ k3).
  rewrite <- app_assoc. split_and!; try done; [by apply Forall_app_2|]. split; [done|done|right].
  split_and!; [done|done|]. destruct Hw as (o & Ho & Hf & He & _). exists op, o. split_and!; try done.
  destruct Ho as [Ho|[l Hl]]; [by left|right; exists l; set_solver].
Qed.

(** A create on GCP inserts at most one machine and says truthfully what
    came of it.  Either nothing is changed, nothing is reported and the error
    is plain; or exactly one insert is made, with the allocation's request ID,
    after machine and disk were both reported missing.  Then the error is never
    "no effect"; it is a capacity rejection only if the awaited operation ended
    with an exhausted pool and machine and disk were again reported missing;
    and a resource is reported only if the operation ended without error. *)
Theorem gcp_create_truthful script :
  ensures gcp_sdk (createGCP c hasService a script) (λ h '(creation, err), gcp_outcome script h creation err).
Proof. apply createGCP_outcome. Qed.
End adapter.
