(* ===== verification/GcpExample.v ===== *)
(** * GCP runs

    A left-over disk observed and deleted, and a machine created after its
    operation was polled. *)
From S2P Require Import Prelude.
From S2P Require Import Effects.
From S2P Require Import Encoding.
From S2P Require Import Placement.
From S2P Require Import Resources.
From S2P Require Import Allocation.
From S2P Require Import Provider.
From S2P Require Import Command.
From S2P Require Import Cloud.
From S2P Require Import ConfigCheck.
From S2P Require Import Gcp.
From S2P Require Import GcpProps.
From S2P Require Import GcpSafety.

Module GcpExample.
(** URLs without a scheme, or of the Compute service. *)
Definition parse_url (s : string) : result URL :=
  match cut_prefix "https://compute.googleapis.com" s with
  | Some path => inr {| url_Scheme := "https"; url_Host := "compute.googleapis.com"; url_User := false;
                        url_RawQuery := ""; url_Fragment := ""; url_Path := path |}
  | None => inr {| url_Scheme := ""; url_Host := ""; url_User := false; url_RawQuery := ""; url_Fragment := "";
                   url_Path := s |}
  end.
#[export] Instance rules : NameRules :=
  {| IsDNS1123Label := λ _, true; IsDNS1123Subdomain := λ _, true; IsConfigMapKey := λ _, true; url_Parse := parse_url |}.
#[export] Instance uuids : UUIDHash := {| NewSHA1 := λ s, s |}.

Definition config : ProviderConfig :=
  {| AccountID := ""; Subscription := ""; ResourceGroup := ""; SSHPublicKey := ""; pc_Kind := "gcp";
     Project := "proj"; Profile := ""; Subnet := "net"; SecurityGroup := ""; pc_Owner := "fleet";
     WireGuardControllerURL := ""; AzureDiskControllerType := "" |}.

Definition offering : Offering :=
  {| off_ID := "spot"; off_Provider := "gcp"; off_Region := "us-central1"; off_Zone := "us-central1-a";
     off_Machine := "n2-standard-2"; off_Image := "img"; off_CPU := 2; off_MemoryMiB := 8192;
     off_Architecture := "amd64"; off_Vendor := ""; off_Capabilities := []; off_Spot := true;
     off_PriceMicros := 40000; off_Currency := "USD"; off_ObservedAt := zero_time; off_GCPSkuRefs := None |}.

Definition allocation : Allocation :=
  {| Resources := []; RejectedAt := ∅; Completed := false; ID := "rs-a"; Revision := "1"; al_Phase := Creating;
     Deadline := zero_time; Attempts := 1; MaxAttempts := 3; al_Offering := offering; Outcomes := ∅;
     al_Catalog := zero_catalog; al_Requirements := zero_requirements; ResourceID := "";
     Ready := false; Retire := false; Condition := ""; RunID := 0; Owner := ""; Repo := "";
     ScaleSetJobID := ""; RetryProcessed := false; NetworkProfile := ""; WireGuardPublicKey := [];
     WireGuardOverlayAddress := ""; WireGuardEndpoint := ""; WireGuardPollTokenHash := [];
     TerminalAt := zero_time |}.

Definition link (kind : string) : string := "https://compute.googleapis.com/compute/v1/" +:+ gcpResource config allocation kind "rs-a".
Definition labels : gmap string string := gcpLabels config allocation.

Definition disk : GcpDisk :=
  {| gd_Name := "rs-a"; gd_Id := 7; gd_SelfLink := link "disks"; gd_Labels := labels; gd_Users := [] |}.
Definition machine : GcpInstance :=
  {| gi_Name := "rs-a"; gi_Id := 5; gi_SelfLink := link "instances"; gi_Labels := labels;
     gi_Disks := [Some {| ad_Boot := true; ad_AutoDelete := true; ad_Source := link "disks" |}];
     gi_Interfaces := [Some "10.2.0.3"] |}.

Definition operation (type action kind status : string) : Operation :=
  {| op_Name := "operation-1"; op_ClientOperationId := gcpRequestID config allocation action;
     op_OperationType := type; op_TargetLink := link kind; op_Status := status; op_Error := None;
     op_HttpErrorStatusCode := 0 |}.

Definition not_found : GcpError := {| ge_error := errors_new "404"; ge_code := Some 404 |}.

(** A project that holds [w]; an insert is polled once. *)
Definition compute (w : Gcp) (X : Type) (e : gcpE X) (u : unit) : unit * X :=
  (u, match e in gcpE X return X with
      | InstancesGet l => match gcp_instances w !! l with Some vm => inr vm | None => inl not_found end
      | DisksGet l => match gcp_disks w !! l with Some d => inr d | None => inl not_found end
      | OperationsPages _ _ _ =>
          ([{| ol_Kind := "compute#operationList"; ol_Items := [] |};
            {| ol_Kind := "compute#operationList"; ol_Items := [Some (operation "insert" "create" "instances" "DONE")] |}], None)
      | OperationsGet _ => inr (Some (operation "insert" "create" "instances" "DONE"))
      | InstancesInsert _ _ _ _ => inr (Some (operation "insert" "create" "instances" "RUNNING"))
      | InstancesDelete _ _ => inr (Some (operation "delete" "delete-vm" "instances" "DONE"))
      | DisksDelete _ _ => inr (Some (operation "delete" "delete-disk" "disks" "DONE"))
      | WaitSecond => true
      end).

Definition left_over : Gcp := {| gcp_instances := ∅; gcp_disks := {[at_zone config allocation "rs-a" := disk]} |}.
Definition vacant : Gcp := {| gcp_instances := ∅; gcp_disks := ∅ |}.

Lemma compute_answers w : implements (compute w) (λ _, True) (gcp_answers w).
Proof.
  intros X e u u' x _ [= <- <-]. split; [done|]. destruct e; try done; cbn.
  - by destruct (gcp_instances w !! l) eqn:Hl.
  - by destruct (gcp_disks w !! l) eqn:Hl.
Qed.

Lemma compute_sdk w : implements (compute w) (λ _, True) gcp_sdk.
Proof.
  intros X e u u' x _ [= <- <-]. split; [done|]. destruct e; try done; cbn.
  - by destruct (gcp_instances w !! l).
  - by destruct (gcp_disks w !! l).
Qed.
End GcpExample.

Import GcpExample.

(** The disk that is left counts as existing. *)
Lemma gcp_observation_exact_witness :
  match snd (run (compute left_over) (observeGCP config true allocation) tt) with
  | inr ob => ob_Exists ob = true ∧
      create_settled config allocation (run_history (compute left_over) (observeGCP config true allocation) tt) ∧
      (ob_Exists ob = true ↔ is_Some (gcp_instances left_over !! at_zone config allocation "rs-a") ∨
                             is_Some (gcp_disks left_over !! at_zone config allocation "rs-a"))
  | inl _ => False
  end.
Proof.
  pose proof (run_ensures (compute left_over) (λ _, True) _ _ _ tt (compute_answers left_over) I
    (gcp_observation_exact config true allocation left_over)) as Ho.
  destruct (snd (run (compute left_over) (observeGCP config true allocation) tt)) as [e|ob] eqn:Hr.
  - vm_compute in Hr. discriminate.
  - destruct (Ho ob eq_refl) as (_ & Hset & Hex & _). split; [vm_compute in Hr; injection Hr as <-; reflexivity|].
    exact (conj Hset Hex).
Defined.

(** It is deleted. *)
Lemma gcp_delete_proven_witness :
  ∃ pre r, run_history (compute left_over) (deleteGCP config true allocation) tt
      = pre ++ [ev (DisksDelete (at_zone config allocation "rs-a") (gcpRequestID config allocation "delete-disk")) r] ∧
    gcp_delete_safe config allocation pre
      (ev (DisksDelete (at_zone config allocation "rs-a") (gcpRequestID config allocation "delete-disk")) r).
Proof.
  set (h := run_history _ _ _). set (op := inr (Some (operation "delete" "delete-disk" "disks" "DONE")) : GcpError + option Operation).
  assert (h = take (length h - 1) h
    ++ [ev (DisksDelete (at_zone config allocation "rs-a") (gcpRequestID config allocation "delete-disk")) op]) as Hh
    by (vm_compute; reflexivity).
  exists (take (length h - 1) h), op. split; [exact Hh|].
  exact (run_ensures (compute left_over) (λ _, True) no_contract _ _ tt (λ _ _ _ _ _ _ _, conj I I) I
    (gcp_delete_proven config true allocation) _ _ [] Hh).
Defined.

(** The machine is created on a vacant name. *)
Lemma gcp_create_truthful_witness :
  snd (run (compute vacant) (createGCP config true allocation "#!") tt) = (receipt "rs-a" [] "", None) ∧
  ∃ pre answer post,
    run_history (compute vacant) (createGCP config true allocation "#!") tt
      = pre ++ ev (InstancesInsert "proj" "us-central1-a" (insert_instance config allocation "#!")
                     (gcpRequestID config allocation "create")) answer :: post ∧
    vm_missing config allocation pre ∧ disk_missing config allocation pre.
Proof.
  pose proof (run_ensures (compute vacant) (λ _, True) _ _ _ tt (compute_sdk vacant) I
    (gcp_create_truthful config true allocation "#!")) as Hc.
  assert (snd (run (compute vacant) (createGCP config true allocation "#!") tt) = (receipt "rs-a" [] "", None)) as Hr
    by (vm_compute; reflexivity).
  split; [exact Hr|]. rewrite Hr in Hc.
  destruct Hc as [(_ & Hn & _)|(pre & answer & post & Hh & _ & _ & Hv & Hd & _)]; [discriminate|].
  exists pre, answer, post. exact (conj Hh (conj Hv Hd)).
Defined.
