(* ===== verification/Azure.v ===== *)
(** * The Azure adapter: requests and inventory
    (internal/provider/azure_sdk.go, azure_inventory.go; the identities and
     types of azure.go and azure_binding.go)

    What the code reads of ARM's types, the requests of [AzureSDK], and the
    inventory of an allocation's three resources.  Unicode case folding, the
    UUID and resource ID parsers and the decoding of a resource's properties
    are parameters. *)
From S2P Require Import Prelude.
From S2P Require Import Effects.
From S2P Require Import Placement.
From S2P Require Import Resources.
From S2P Require Import Allocation.
From S2P Require Import Provider.
From S2P Require Import Cloud.

(** ** Parameters *)

Definition is_ascii (s : string) : Prop := Forall (λ ch, (N_of_ascii ch < 128)%N) (String.list_ascii_of_string s).

Definition lower_char (ch : ascii) : ascii :=
  if (65 <=? N_of_ascii ch)%N && (N_of_ascii ch <=? 90)%N then ascii_of_N (N_of_ascii ch + 32) else ch.
Definition lower_ascii (s : string) : string :=
  String.string_of_list_ascii (lower_char <$> String.list_ascii_of_string s).

(** [strings.EqualFold] compares a canonical spelling, [strings.ToLower] maps
    to lower case; on ASCII both are the usual ones. *)
Class CaseFold := {
  fold_key : string → string;
  ToLower : string → string;
  fold_key_ascii s : is_ascii s → fold_key s = lower_ascii s;
  ToLower_ascii s : is_ascii s → ToLower s = lower_ascii s
}.
Definition EqualFold `{CaseFold} (s t : string) : bool := fold_key s =s fold_key t.

(** [uuid.Parse], with the canonical text of the result. *)
Class UUIDs := { uuid_Parse : string → option string }.
Definition uuid_Nil : string := "00000000-0000-0000-0000-000000000000".

(** What the code reads of a machine's and a disk's properties. *)
Record azureVMProperties := {
  vm_VMID : string;
  vm_ProvisioningState : string;
  vm_DataDisks : nat;                              (* how many *)
  vm_ImageID : string;
  vm_OSDiskName : string;
  vm_OSDiskCreateOption : string;
  vm_OSDiskManagedID : string;
  vm_NetworkInterfaces : list string               (* their IDs *)
}.
Record azureDiskProperties := {
  dp_UniqueID : string;
  dp_ProvisioningState : string;
  dp_CreateOption : string;
  dp_ImageID : string
}.
(** The anonymous structs of [azureInventory] and of the image checks. *)
Record azureGeneration := {
  gen_VMID : string;
  gen_UniqueID : string;
  gen_ResourceGUID : string;
  gen_VirtualMachineID : string;
  gen_PrivateIPs : list string
}.
Record azureImageProperties := {
  ip_ProvisioningState : string; ip_OSType : string; ip_OSState : string; ip_DataDisks : nat
}.

(** [json.Marshal] and [json.Unmarshal] of a properties value. *)
Class AzureJSON := {
  azureAny : Type;
  decode_vm : azureAny → option azureVMProperties;
  decode_disk : azureAny → option azureDiskProperties;
  decode_generation : azureAny → option azureGeneration;
  decode_image : azureAny → option azureImageProperties;      (* a managed image *)
  decode_definition : azureAny → option (string * string);     (* a gallery image's OS type and OS state *)
  decode_version : azureAny → option (string * nat)            (* provisioning state; data disk images *)
}.

(** [azureProperties] *)
Definition azureProperties {J T} (dec : J → option T) (value : option J) : option T :=
  match value with None => None | Some v => dec v end.

(** ** ARM *)

(** A [GenericResource]; nil strings read as "". *)
Record GenericResource `{AzureJSON} := {
  gr_ID : string;
  gr_Name : string;
  gr_Type : string;
  gr_Location : string;
  gr_Tags : gmap string (option string);
  gr_ManagedBy : string;
  gr_Properties : option azureAny
}.

(** An entry of a listing. *)
Record ListedResource := {
  lr_Name : option string;
  lr_ID : option string;
  lr_Type : option string;
  lr_Tags : gmap string (option string)
}.

Inductive ErrorResponse := ErrorResponse_ (code : option string) (details : list (option ErrorResponse)).

(** A deployment: its provisioning state and structured error, if any. *)
Record Deployment := { dep_State : option string; dep_Error : option ErrorResponse }.

(** The deployment template of [createAzure]. *)
Record azureTemplate := {
  tp_NICName : string;
  tp_Location : string;
  tp_Tags : gmap string string;
  tp_SecurityGroup : string;
  tp_Subnet : string;
  tp_VMName : string;
  tp_Zones : list string;
  tp_DependsOn : list string;
  tp_VMSize : string;
  tp_Image : string;
  tp_OSDiskName : string;
  tp_OSDiskDeleteOption : string;
  tp_StorageAccountType : string;
  tp_DiskControllerType : option string;
  tp_ComputerName : string;
  tp_SSHKey : string;
  tp_NICID : string;
  tp_NICDeleteOption : string;
  tp_MaxPrice : option string                      (* of a spot machine, evicted by deletion *)
}.

(** An SDK error, with status and error code if it is a [ResponseError]. *)
Record AzError := { az_error : error; az_response : option (Z * string) }.

(** [ListByResourceGroup] is the SDK's pager: the pages it yields (a page's
    value may be nil) and the error it ends with. *)
Inductive azureE `{AzureJSON} : Type → Type :=
  | NewResourcesClient : azureE (option error)
  | NewDeploymentsClient : azureE (option error)
  | GetByID (id version : string) : azureE (AzError + GenericResource)
  | ListByResourceGroup (group : string) : azureE (list (option (list (option ListedResource))) * option error)
  | DeploymentGet (group id : string) : azureE (AzError + Deployment)
  | BeginCreateOrUpdate (group id : string) (template : azureTemplate) (bootstrap : string) : azureE (option error)
  | PollDeployment : azureE (option error)
  | BeginUpdateTags (id version : string) (tags : gmap string string) : azureE (option error)
  | PollUpdate : azureE (option error)
  | BeginDeleteByID (id version : string) : azureE (option AzError).

Abbreviation azureM := (prog azureE).

(** ** Errors and capacity *)

Definition response_is (err : AzError) (codes : list string) : bool :=
  match az_response err with Some (status, code) => (status =? 404) && slices_contains codes code | None => false end.

Definition missingAzureResource (err : AzError) : bool := response_is err ["ResourceNotFound"; "DeploymentNotFound"].
Definition azureResourceMissing (err : AzError) : bool := response_is err ["ResourceNotFound"].

Definition azureCapacityErrorCodes : list string :=
  ["OverconstrainedAllocationRequest"; "OverconstrainedZonalAllocationRequest"; "AllocationFailed"; "ZonalAllocationFailed"].

Fixpoint azureCapacityFailure (e : ErrorResponse) : bool :=
  match e with
  | ErrorResponse_ code details =>
      match code with Some c => slices_contains azureCapacityErrorCodes c | None => false end
      || existsb (λ d, match d with Some d => azureCapacityFailure d | None => false end) details
  end.

(** ** Resources of an allocation *)

Record azureResource := {
  ar_ID : string;
  ar_Name : string;
  ar_Type : string;
  ar_Tags : gmap string string;
  ar_UID : string;
  ar_ManagedBy : string;
  ar_VM : option azureVMProperties;
  ar_PrivateIP : string
}.

Record azureResourceSpec := { sp_kind : string; sp_resourceType : string; sp_name : string; sp_version : string }.

Definition vm_type : string := "Microsoft.Compute/virtualMachines".
Definition nic_type : string := "Microsoft.Network/networkInterfaces".
Definition disk_type : string := "Microsoft.Compute/disks".

Definition azureSpecs (a : Allocation) : list azureResourceSpec :=
  [{| sp_kind := "azure-vm"; sp_resourceType := vm_type; sp_name := ID a; sp_version := "2024-07-01" |};
   {| sp_kind := "azure-network-interface"; sp_resourceType := nic_type; sp_name := ID a +:+ "-nic";
      sp_version := "2024-05-01" |};
   {| sp_kind := "azure-disk"; sp_resourceType := disk_type; sp_name := ID a +:+ "-os"; sp_version := "2024-03-02" |}].

Section adapter.
Context `{CaseFold} `{UUIDs} `{AzureJSON}.
Context (c : ProviderConfig).

Definition azureID (kind name : string) : string :=
  "/subscriptions/" +:+ Subscription c +:+ "/resourceGroups/" +:+ ResourceGroup c +:+ "/providers/" +:+ kind +:+ "/" +:+ name.

Definition azureIdentity (resource : GenericResource) (kind name : string) : bool :=
  EqualFold (gr_ID resource) (azureID kind name) && EqualFold (gr_Type resource) kind && EqualFold (gr_Name resource) name.

Definition azureUUID (value : string) : bool :=
  match uuid_Parse value with Some id => id <>s uuid_Nil | None => false end.

(** ** Tags *)

Definition ownership_key (key : string) : bool := (key =s owner_tag) || (key =s operation_tag).

(** The loop of [azureTagSnapshot].  Two names that differ only in case end it
    with an error, so the order in which the map is ranged over does not show. *)
Fixpoint snapshot_tags (tags : list (string * option string)) (seen : gset string) (snapshot : gmap string string)
    : result (gmap string string) :=
  match tags with
  | [] => inr snapshot
  | (name, value) :: tags' =>
      let key := ToLower name in
      match value with
      | None => inl (errors_new "Azure disk tag inventory ambiguous or incomplete")
      | Some value =>
          if bool_decide (key ∈ seen) then inl (errors_new "Azure disk tag inventory ambiguous or incomplete")
          else snapshot_tags tags' ({[key]} ∪ seen) (<[(if ownership_key key then key else name) := value]> snapshot)
      end
  end.

Definition azureTagSnapshot (tags : gmap string (option string)) : result (gmap string string) :=
  snapshot_tags (map_to_list tags) ∅ ∅.

(** [azureOwnership]; one error for either key. *)
Definition azureOwnership (tags : gmap string string) (a : Allocation) (allowUntagged : bool) : option error :=
  let bad key want := (map_get "" tags key <>s want) && (isSome (tags !! key) || negb allowUntagged) in
  if bad owner_tag (pc_Owner c) || bad operation_tag (ID a)
  then Some (errors_new "Azure resource ownership unconfirmed; cleanup retained") else None.

(** ** Requests *)

Definition get (id version : string) : azureM (AzError + GenericResource) :=
  e ← call NewResourcesClient;
  match e with
  | Some err => mret (inl {| az_error := err; az_response := None |})
  | None => call (GetByID id version)
  end.

(** The loop over the entries of a page. *)
Fixpoint list_entries (id : string) (entries : list (option ListedResource)) : result (list azureResource) :=
  match entries with
  | [] => inr []
  | None :: _ => inl (errors_new "invalid Azure inventory entry")
  | Some entry :: entries' =>
      match lr_Name entry with
      | None => inl (errors_new "invalid Azure inventory entry")
      | Some name =>
          if negb (EqualFold name id) && negb (EqualFold name (id +:+ "-nic")) && negb (EqualFold name (id +:+ "-os"))
          then list_entries id entries'
          else match lr_ID entry, lr_Type entry with
          | Some rid, Some type =>
              match azureTagSnapshot (lr_Tags entry) with
              | inl err => inl err
              | inr tags =>
                  match list_entries id entries' with
                  | inl err => inl err
                  | inr rest =>
                      inr ({| ar_ID := rid; ar_Name := name; ar_Type := type; ar_Tags := tags; ar_UID := "";
                              ar_ManagedBy := ""; ar_VM := None; ar_PrivateIP := "" |} :: rest)
                  end
              end
          | _, _ => inl (errors_new "invalid Azure resource identity")
          end
      end
  end.

Fixpoint list_pages (id : string) (pages : list (option (list (option ListedResource)))) : result (list azureResource) :=
  match pages with
  | [] => inr []
  | None :: _ => inl (errors_new "incomplete Azure inventory")
  | Some entries :: pages' =>
      match list_entries id entries with
      | inl err => inl err
      | inr found => match list_pages id pages' with inl err => inl err | inr rest => inr (found ++ rest) end
      end
  end.

(** [list] *)
Definition list_resources (id : string) : azureM (result (list azureResource)) :=
  e ← call NewResourcesClient;
  match e with
  | Some err => mret (inl err)
  | None =>
      '(pages, err) ← call (ListByResourceGroup (ResourceGroup c));
      mret match list_pages id pages with
           | inl e => inl e
           | inr found => match err with Some e => inl e | None => inr found end
           end
  end.

(** [terminal] *)
Definition terminal (id : string) : azureM (result bool) :=
  e ← call NewDeploymentsClient;
  match e with
  | Some err => mret (inl err)
  | None =>
      r ← call (DeploymentGet (ResourceGroup c) id);
      mret match r with
           | inl err => if missingAzureResource err then inr true else inl (az_error err)
           | inr d =>
               match dep_State d with
               | None => inl (errors_new "invalid Azure deployment state")
               | Some state => inr (slices_contains ["Succeeded"; "Failed"; "Canceled"] state)
               end
           end
  end.

(** [deploymentCapacityRejected] *)
Definition deploymentCapacityRejected (id : string) : azureM bool :=
  e ← call NewDeploymentsClient;
  match e with
  | Some _ => mret false
  | None =>
      r ← call (DeploymentGet (ResourceGroup c) id);
      mret match r with
           | inr {| dep_State := Some state; dep_Error := err |} =>
               if state <>s "Failed" then false
               else match err with Some e => azureCapacityFailure e | None => false end
           | _ => false
           end
  end.

(** [deploy] *)
Definition deploy (id : string) (template : azureTemplate) (bootstrap : string) : azureM (option error) :=
  e ← call NewDeploymentsClient;
  match e with
  | Some err => mret (Some err)
  | None =>
      e ← call (BeginCreateOrUpdate (ResourceGroup c) id template bootstrap);
      match e with Some err => mret (Some err) | None => call PollDeployment end
  end.

(** [tagDisk] *)
Definition tagDisk (id : string) (tags : gmap string string) : azureM (option error) :=
  e ← call NewResourcesClient;
  match e with
  | Some err => mret (Some err)
  | None =>
      e ← call (BeginUpdateTags (azureID disk_type (id +:+ "-os")) "2024-03-02" tags);
      match e with Some err => mret (Some err) | None => call PollUpdate end
  end.

(** The API version [delete] selects. *)
Definition delete_version (type : string) : option string :=
  let type := ToLower type in
  if type =s "microsoft.compute/virtualmachines" then Some "2024-07-01"
  else if type =s "microsoft.compute/disks" then Some "2024-03-02"
  else if type =s "microsoft.network/networkinterfaces" then Some "2024-05-01"
  else None.

(** [delete] *)
Definition delete_resource (resource : azureResource) : azureM (option error) :=
  e ← call NewResourcesClient;
  match e with
  | Some err => mret (Some err)
  | None =>
      match delete_version (ar_Type resource) with
      | None => mret (Some (errors_new "unsupported Azure cleanup resource"))
      | Some version =>
          e ← call (BeginDeleteByID (ar_ID resource) version);
          mret match e with
               | Some err => if missingAzureResource err then None else Some (az_error err)
               | None => None
               end
      end
  end.

(** The loop over the three resources of [requireVacantCreation]. *)
Fixpoint vacant_names (resources : list (string * string * string)) : azureM (option error) :=
  match resources with
  | [] => mret None
  | (kind, name, version) :: resources' =>
      r ← get (azureID kind name) version;
      match r with
      | inl err =>
          if response_is err ["ResourceNotFound"] then vacant_names resources'
          else mret (Some (errors_new "Azure resource name occupied or absence unconfirmed"))
      | inr _ => mret (Some (errors_new "Azure resource name occupied or absence unconfirmed"))
      end
  end.

(** [requireVacantCreation] *)
Definition requireVacantCreation (id : string) : azureM (option error) :=
  e ← call NewDeploymentsClient;
  match e with
  | Some _ => mret (Some (errors_new "Azure creation inventory unavailable"))
  | None =>
      r ← call (DeploymentGet (ResourceGroup c) id);
      match r with
      | inl err =>
          if response_is err ["ResourceNotFound"; "DeploymentNotFound"] then
            vacant_names [(vm_type, id, "2024-07-01"); (nic_type, id +:+ "-nic", "2024-05-01");
                          (disk_type, id +:+ "-os", "2024-03-02")]
          else mret (Some (errors_new "Azure deployment name occupied or absence unconfirmed"))
      | inr _ => mret (Some (errors_new "Azure deployment name occupied or absence unconfirmed"))
      end
  end.

(** ** Recorded references *)

(** The loop over the specs for one reference. *)
Fixpoint match_reference (specs : list azureResourceSpec) (reference : ResourceReference)
    (refs : gmap string ResourceReference) (valid : bool) : result (gmap string ResourceReference * bool) :=
  match specs with
  | [] => inr (refs, valid)
  | spec :: specs' =>
      if Kind reference <>s sp_kind spec then match_reference specs' reference refs valid
      else
        let invalid := inl (errors_new "invalid Azure durable resource identity") in
        match uuid_Parse (UID reference) with
        | None => invalid
        | Some uid =>
            if (uid =s uuid_Nil) || (UID reference <>s uid)
               || negb (EqualFold (ref_ID reference) (azureID (sp_resourceType spec) (sp_name spec)))
            then invalid
            else if isSome (refs !! Kind reference) then inl (errors_new "duplicate Azure resource identity")
            else match_reference specs' reference (<[Kind reference := reference]> refs) true
        end
  end.

Fixpoint match_references (a : Allocation) (references : list ResourceReference) (refs : gmap string ResourceReference)
    : result (gmap string ResourceReference) :=
  match references with
  | [] => inr refs
  | reference :: references' =>
      match match_reference (azureSpecs a) reference refs false with
      | inl err => inl err
      | inr (refs, valid) =>
          if negb valid then inl (errors_new "unsupported Azure dependency kind")
          else match_references a references' refs
      end
  end.

(** [azureReferences] *)
Definition azureReferences (a : Allocation) : result (gmap string ResourceReference) :=
  if (ResourceID a <>s "") && negb (EqualFold (ResourceID a) (azureID vm_type (ID a)))
  then inl (errors_new "Azure allocation VM identity differs")
  else match MergeResources [] (Resources a) with
  | inl err => inl err
  | inr (references, _) => match_references a references ∅
  end.

(** ** Inventory *)

(** The loop over the specs for one listed resource. *)
Fixpoint match_listed (a : Allocation) (allowUntaggedDisk : bool) (specs : list azureResourceSpec)
    (resource : azureResource) (seen : gset string) (valid : bool) : result (gset string * bool) :=
  match specs with
  | [] => inr (seen, valid)
  | spec :: specs' =>
      if negb (EqualFold (ar_Name resource) (sp_name spec)) then match_listed a allowUntaggedDisk specs' resource seen valid
      else if bool_decide (sp_kind spec ∈ seen) || negb (EqualFold (ar_Type resource) (sp_resourceType spec))
              || negb (EqualFold (ar_ID resource) (azureID (sp_resourceType spec) (sp_name spec)))
      then inl (errors_new "Azure inventory identity mismatch")
      else match azureOwnership (ar_Tags resource) a (allowUntaggedDisk && (sp_kind spec =s "azure-disk")) with
      | Some err => inl err
      | None => match_listed a allowUntaggedDisk specs' resource ({[sp_kind spec]} ∪ seen) true
      end
  end.

Fixpoint check_listed (a : Allocation) (allowUntaggedDisk : bool) (listed : list azureResource) (seen : gset string)
    : result (gset string) :=
  match listed with
  | [] => inr seen
  | resource :: listed' =>
      match match_listed a allowUntaggedDisk (azureSpecs a) resource seen false with
      | inl err => inl err
      | inr (seen, valid) =>
          if negb valid then inl (errors_new "unexpected Azure inventory resource")
          else check_listed a allowUntaggedDisk listed' seen
      end
  end.

(** The generation, owner machine and address of a resource. *)
Definition generation_of (spec : azureResourceSpec) (p : azureGeneration) (managedBy : string) : string * string * string :=
  if sp_kind spec =s "azure-network-interface"
  then (gen_ResourceGUID p, gen_VirtualMachineID p, match gen_PrivateIPs p with [ip] => ip | _ => "" end)
  else if sp_kind spec =s "azure-disk" then (gen_UniqueID p, managedBy, "")
  else (gen_VMID p, managedBy, "").

(** What is checked of a resource that was read. *)
Definition inspect (a : Allocation) (allowUntaggedDisk : bool) (references : gmap string ResourceReference)
    (spec : azureResourceSpec) (resource : GenericResource) : result azureResource :=
  if negb (azureIdentity resource (sp_resourceType spec) (sp_name spec))
  then inl (errors_new "Azure resource identity unavailable")
  else match azureTagSnapshot (gr_Tags resource) with
  | inl err => inl err
  | inr tags =>
  match azureOwnership tags a (allowUntaggedDisk && (sp_kind spec =s "azure-disk")) with
  | Some err => inl err
  | None =>
  match azureProperties decode_generation (gr_Properties resource) with
  | None => inl (errors_new "Azure resource generation missing")
  | Some properties =>
      let '(value, managedBy, privateIP) := generation_of spec properties (gr_ManagedBy resource) in
      match uuid_Parse value with
      | None => inl (errors_new "Azure resource generation invalid")
      | Some uid =>
          if uid =s uuid_Nil then inl (errors_new "Azure resource generation invalid")
          else
            let vm := if sp_kind spec =s "azure-vm" then azureProperties decode_vm (gr_Properties resource) else None in
            if (sp_kind spec =s "azure-vm") && isNone vm
            then inl (errors_new "Azure VM dependency metadata unavailable")
            else if match references !! sp_kind spec with Some previous => UID previous <>s uid | None => false end
            then inl (errors_new "Azure recorded resource generation changed")
            else if (managedBy <>s "") && negb (EqualFold managedBy (azureID vm_type (ID a)))
            then inl (errors_new "Azure dependency attached to another VM")
            else inr {| ar_ID := azureID (sp_resourceType spec) (sp_name spec); ar_Name := sp_name spec;
                        ar_Type := sp_resourceType spec; ar_Tags := tags; ar_UID := uid; ar_ManagedBy := managedBy;
                        ar_VM := vm; ar_PrivateIP := privateIP |}
      end
  end
  end
  end.

(** The direct reads. *)
Fixpoint read_specs (a : Allocation) (allowUntaggedDisk : bool) (references : gmap string ResourceReference)
    (seen : gset string) (specs : list azureResourceSpec) : azureM (result (list azureResource)) :=
  match specs with
  | [] => mret (inr [])
  | spec :: specs' =>
      r ← get (azureID (sp_resourceType spec) (sp_name spec)) (sp_version spec);
      match r with
      | inl err =>
          if azureResourceMissing err then
            if bool_decide (sp_kind spec ∈ seen)
            then mret (inl (errors_new "Azure inventory changed during observation"))
            else read_specs a allowUntaggedDisk references seen specs'
          else mret (inl (errors_new "Azure resource identity unavailable"))
      | inr resource =>
          match inspect a allowUntaggedDisk references spec resource with
          | inl err => mret (inl err)
          | inr item =>
              rest ← read_specs a allowUntaggedDisk references seen specs';
              mret match rest with inl err => inl err | inr items => inr (item :: items) end
          end
      end
  end.

(** [azureInventory] *)
Definition azureInventory (a : Allocation) (allowUntaggedDisk : bool) : azureM (result (list azureResource)) :=
  match azureReferences a with
  | inl err => mret (inl err)
  | inr references =>
      listed ← list_resources (ID a);
      match listed with
      | inl _ => mret (inl (errors_new "Azure resource inventory unavailable"))
      | inr listed =>
          match check_listed a allowUntaggedDisk listed ∅ with
          | inl err => mret (inl err)
          | inr seen => read_specs a allowUntaggedDisk references seen (azureSpecs a)
          end
      end
  end.

(** ** Observation *)

(** The references of one resource: the loop over the specs. *)
Fixpoint resource_references (retained : gmap string ResourceReference) (specs : list azureResourceSpec)
    (resource : azureResource) : result (list ResourceReference) :=
  match specs with
  | [] => inr []
  | spec :: specs' =>
      if negb (EqualFold (ar_Type resource) (sp_resourceType spec)) then resource_references retained specs' resource
      else
        let reference := {| Kind := sp_kind spec; ref_ID := ar_ID resource; UID := ar_UID resource |} in
        let continue r :=
          match resource_references retained specs' resource with inl err => inl err | inr rest => inr (r :: rest) end in
        match retained !! sp_kind spec with
        | Some previous =>
            if UID previous <>s ar_UID resource then inl (errors_new "Azure recorded resource generation changed")
            else continue previous
        | None => continue reference
        end
  end.

Fixpoint observed_references (a : Allocation) (retained : gmap string ResourceReference) (resources : list azureResource)
    : result (list ResourceReference) :=
  match resources with
  | [] => inr []
  | resource :: resources' =>
      match resource_references retained (azureSpecs a) resource with
      | inl err => inl err
      | inr refs =>
          match observed_references a retained resources' with inl err => inl err | inr rest => inr (refs ++ rest) end
      end
  end.

(** [azureObservation] *)
Definition azureObservation (a : Allocation) (resources : list azureResource) : result Observation :=
  match azureReferences a with
  | inl err => inl err
  | inr retained =>
      match observed_references a retained resources with
      | inl err => inl err
      | inr found =>
          match MergeResources [] (Resources a ++ found) with
          | inl err => inl err
          | inr (references, _) =>
              inr {| ob_Resources := references; ob_Exists := (0 <? length resources)%nat; ob_Known := true;
                     ob_Interrupted := false; ob_ResourceID := azureID vm_type (ID a) |}
          end
      end
  end.

(** [azureVMDeletionBindings] *)
Definition azureVMDeletionBindings (a : Allocation) (vm : option azureVMProperties) : option error :=
  let unconfirmed := Some (errors_new "Azure VM has unconfirmed deletion dependencies") in
  match vm with
  | None => unconfirmed
  | Some vm =>
      match vm_NetworkInterfaces vm with
      | [nic] =>
          if negb (vm_DataDisks vm =? 0)%nat || negb (EqualFold (vm_OSDiskManagedID vm) (azureID disk_type (ID a +:+ "-os")))
             || negb (EqualFold nic (azureID nic_type (ID a +:+ "-nic")))
          then unconfirmed else None
      | _ => unconfirmed
      end
  end.
End adapter.
