(* ===== verification/Prices.v ===== *)
(** * The price clients
    (internal/prices/aws.go, azure.go, gcp.go)

    Each [Observe] is a program over [pricesE]: the EC2 call, an HTTP request,
    the state of the context and the clock.  Parsing a float, decoding JSON and
    building URLs are the classes [ParseFloats], [PriceJSON] and [URLs];
    [Envelope] models the check of EC2's responses.  The Accept header and
    closing a body are left out. *)
From stdpp Require Import pretty.
From Stdlib Require Import SpecFloat.
From S2P Require Import Prelude.
From S2P Require Import Effects.
From S2P Require Import Encoding.
From S2P Require Import Cloud.
From S2P Require Import Fleet.
From S2P Require Import Azure.
From S2P Require Import Float.
From S2P Require Import Envelope.

(** ** What the clients read *)

(** An entry of EC2's spot price history. *)
Record SpotEntry := {
  se_AvailabilityZone : string;
  se_InstanceType : string;
  se_ProductDescription : string;
  se_Timestamp : option time;
  se_SpotPrice : string
}.
(** A response: whether it carries a request ID, and its entries. *)
Record SpotHistory := { sh_Known : bool; sh_Entries : list SpotEntry }.
Record SpotHistoryInput := {
  shi_Region : string;
  shi_InstanceType : string;
  shi_AvailabilityZone : string;
  shi_ProductDescription : string;
  shi_StartTime : time;
  shi_MaxResults : Z
}.

Record azureRetailPriceItem := {
  ri_CurrencyCode : string;
  ri_RetailPrice : float64;
  ri_ArmRegionName : string;
  ri_ArmSkuName : string;
  ri_MeterName : string;
  ri_ProductName : string;
  ri_ServiceName : string;
  ri_Type : string
}.
Record azureRetailPriceResponse := { rr_Items : list azureRetailPriceItem; rr_NextPageLink : option string }.

Record gcpSkuMoney := { mo_CurrencyCode : string; mo_Units : string; mo_Nanos : Z }.
Record gcpPricingExpression := { px_UsageUnit : string; px_TieredRates : list gcpSkuMoney }.
Record gcpSku := {
  sku_ID : string;
  sku_ResourceGroup : string;
  sku_PricingInfo : list gcpPricingExpression
}.
Record gcpSkuListResponse := { sl_Skus : list gcpSku; sl_NextPageToken : string }.

(** An HTTP response: its status, and its body or a failure to read it. *)
Record PriceResponse := { pr_StatusCode : Z; pr_Body : result string }.

Inductive pricesE : Type → Type :=
  | DescribeSpotPriceHistory (i : SpotHistoryInput) : pricesE (result (option SpotHistory))
  | HTTPGet (url : string) : pricesE (result (option PriceResponse))
  | PricesCtxErr : pricesE (option error)
  | PricesNow : pricesE time.

Abbreviation pricesM := (prog pricesE).

Class ParseFloats := { ParseFloat : string → result float64 }.
Class PriceJSON := {
  decode_azure_prices : string → option azureRetailPriceResponse;
  decode_skus : string → option gcpSkuListResponse;
  go_quote : string → string                        (* the verb %q *)
}.
Class URLs := {
  URL : Type;
  url_Parse : string → option URL;
  url_SetQuery : URL → list (string * string) → URL;  (* Query, Set of each, Encode *)
  url_String : URL → string;
  request_ok : string → bool                        (* http.NewRequestWithContext accepts it *)
}.

Definition read_body (r : PriceResponse) : option string := read_limited (pr_Body r).

Fixpoint strings_contains (s sub : string) : bool :=
  strings_has_prefix s sub || match s with "" => false | String _ s' => strings_contains s' sub end.
Fixpoint trim_right_slash (s : string) : string :=
  match s with
  | "" => ""
  | String ch s' =>
      let t := trim_right_slash s' in
      if Ascii.eqb ch "/" && (t =s "") then "" else String ch t
  end.

(** [strconv.ParseInt(s, 10, 64)] *)
Fixpoint parse_digits (acc : Z) (s : string) : option Z :=
  match s with
  | "" => Some acc
  | String ch s' =>
      let d := Z.of_N (N_of_ascii ch) - 48 in
      if (0 <=? d) && (d <=? 9) then parse_digits (10 * acc + d) s' else None
  end.
Definition ParseInt64 (s : string) : option Z :=
  let '(negative, digits) :=
    match s with
    | String ch s' => if Ascii.eqb ch "-" then (true, s') else if Ascii.eqb ch "+" then (false, s') else (false, s)
    | "" => (false, s)
    end in
  if digits =s "" then None
  else
    match parse_digits 0 digits with
    | None => None
    | Some n =>
        let n := if negative then - n else n in
        if (- 2 ^ 63 <=? n) && (n <? 2 ^ 63) then Some n else None
    end.

Definition quote_now (price : Z) : pricesM (result Quote) :=
  now ← call PricesNow;
  mret (inr {| q_PriceMicros := price; q_Currency := "USD"; q_ObservedAt := now |}).
Definition decline {A} (text : string) : pricesM (result A) := mret (inl (errors_new text)).

(** ** AWS *)

Record AWSSpotClient := { sc_Credentials : bool; sc_Endpoint : string }.

Section aws.
Context `{GoTarget} `{ParseFloats}.

Definition LinuxUnix : string := "Linux/UNIX".

Definition awsSpotPriceMicros (value : string) : result Z :=
  match ParseFloat value with
  | inl _ => inl (errors_new "AWS spot price value invalid")
  | inr parsed =>
      if float_le parsed (float_of 0) then inl (errors_new "AWS spot price value invalid") else inr (micros parsed)
  end.

(** [client]: the checks before the SDK's client is built. *)
Definition aws_price_client (c : option AWSSpotClient) (region : string) : option error :=
  match c with
  | Some c => if negb (sc_Credentials c) || (region =s "")
              then Some (errors_new "AWS pricing client configuration unavailable") else None
  | None => Some (errors_new "AWS pricing client configuration unavailable")
  end.

Definition spot_input (region zone instanceType : string) (now : time) : SpotHistoryInput :=
  {| shi_Region := region; shi_InstanceType := instanceType; shi_AvailabilityZone := zone;
     shi_ProductDescription := LinuxUnix; shi_StartTime := now; shi_MaxResults := 1 |}.

(** The entry is the one that was asked for. *)
Definition spot_entry_ok (zone instanceType : string) (e : SpotEntry) : bool :=
  negb ((se_AvailabilityZone e <>s zone) || (se_InstanceType e <>s instanceType)
        || (se_ProductDescription e <>s LinuxUnix)
        || match se_Timestamp e with None => true | Some t => is_zero t end).

Definition AWS_Observe (c : option AWSSpotClient) (region zone instanceType : string) : pricesM (result Quote) :=
  if (zone =s "") || (instanceType =s "") then decline "AWS spot price request incomplete"
  else
    match aws_price_client c region with
    | Some err => mret (inl err)
    | None =>
        now ← call PricesNow;
        response ← call (DescribeSpotPriceHistory (spot_input region zone instanceType now));
        ctx ← call PricesCtxErr;
        match ctx with
        | Some err => mret (inl err)
        | None =>
            match response with
            | inr (Some r) =>
                if negb (sh_Known r) then decline "AWS spot price observation unavailable"
                else
                  match sh_Entries r with
                  | [entry] =>
                      if negb (spot_entry_ok zone instanceType entry) then decline "AWS spot price observation malformed"
                      else
                        match awsSpotPriceMicros (se_SpotPrice entry) with
                        | inl err => mret (inl err)
                        | inr price => quote_now price
                        end
                  | _ => decline "AWS spot price history has no entry for the requested pool"
                  end
            | _ => decline "AWS spot price observation unavailable"
            end
        end
    end.
End aws.

(** ** Azure *)

Definition azureRetailPricesEndpoint : string := "https://prices.azure.com/api/retail/prices".

(** [azureODataLiteral]: a quote is doubled. *)
Fixpoint azureODataLiteral (value : string) : string :=
  match value with
  | "" => ""
  | String ch rest =>
      if Ascii.eqb ch "'" then String "'" (String "'" (azureODataLiteral rest)) else String ch (azureODataLiteral rest)
  end.

Definition azure_filter (region instanceType : string) : string :=
  "serviceName eq 'Virtual Machines' and priceType eq 'Consumption' and armRegionName eq '" +:+ azureODataLiteral region
  +:+ "' and armSkuName eq '" +:+ azureODataLiteral instanceType +:+ "' and contains(meterName, 'Spot')".

(** The entries of the pool: every dimension of the filter, and no Windows licence. *)
Definition azure_spot_item (region instanceType : string) (item : azureRetailPriceItem) : bool :=
  if (ri_ServiceName item <>s "Virtual Machines") || (ri_Type item <>s "Consumption") then false
  else if (ri_ArmRegionName item <>s region) || (ri_ArmSkuName item <>s instanceType) then false
  else if negb (strings_contains (ri_MeterName item) "Spot") then false
  else negb (strings_contains (ri_ProductName item) "Windows").

(** The loop of [azureUnambiguousSpotMatch]. *)
Fixpoint spot_match (region instanceType : string) (items : list azureRetailPriceItem)
    (found : option azureRetailPriceItem) : result azureRetailPriceItem :=
  match items with
  | [] =>
      match found with
      | None => inl (errors_new "Azure spot price observation has no entry for the requested pool")
      | Some item => inr item
      end
  | item :: items =>
      if negb (azure_spot_item region instanceType item) then spot_match region instanceType items found
      else
        match found with
        | Some _ => inl (errors_new "Azure spot price observation ambiguous for the requested pool")
        | None => spot_match region instanceType items (Some item)
        end
  end.
Definition azureUnambiguousSpotMatch (items : list azureRetailPriceItem) (region instanceType : string)
    : result azureRetailPriceItem := spot_match region instanceType items None.

Section azure.
Context `{GoTarget} `{PriceJSON} `{URLs} `{CaseFold}.

Definition azureRetailPriceMicros (value : float64) : Z := micros value.

Definition azure_request (endpoint region instanceType : string) : result string :=
  let endpoint := if endpoint =s "" then azureRetailPricesEndpoint else endpoint in
  match url_Parse endpoint with
  | None => inl (errors_new "Azure spot price endpoint invalid")
  | Some parsed =>
      let url := url_String (url_SetQuery parsed [("currencyCode", "USD"); ("$filter", azure_filter region instanceType)]) in
      if request_ok url then inr url else inl (errors_new "Azure spot price request invalid")
  end.

(** From the decoded response on. *)
Definition azure_quote (envelope : azureRetailPriceResponse) (region instanceType : string) : pricesM (result Quote) :=
  if match rr_NextPageLink envelope with Some link => link <>s "" | None => false end
  then decline "Azure spot price response paginated; ambiguous match"
  else
    match azureUnambiguousSpotMatch (rr_Items envelope) region instanceType with
    | inl err => mret (inl err)
    | inr item =>
        if negb (EqualFold (ri_CurrencyCode item) "USD") then decline "Azure spot price currency unexpected"
        else if float_le (ri_RetailPrice item) (float_of 0) then decline "Azure spot price value invalid"
        else quote_now (azureRetailPriceMicros (ri_RetailPrice item))
    end.

Definition Azure_Observe (endpoint region instanceType : string) : pricesM (result Quote) :=
  if (region =s "") || (instanceType =s "") then decline "Azure spot price request incomplete"
  else
    match azure_request endpoint region instanceType with
    | inl err => mret (inl err)
    | inr url =>
        response ← call (HTTPGet url);
        ctx ← call PricesCtxErr;
        match ctx with
        | Some err => mret (inl err)
        | None =>
            match response with
            | inr (Some r) =>
                if negb (status_ok (pr_StatusCode r)) then decline "Azure spot price observation unavailable"
                else
                  match read_body r with
                  | None => decline "Azure spot price response unavailable or excessive"
                  | Some data =>
                      match decode_azure_prices data with
                      | None => decline "Azure spot price response malformed"
                      | Some envelope => azure_quote envelope region instanceType
                      end
                  end
            | _ => decline "Azure spot price observation unavailable"
            end
        end
    end.
End azure.

(** ** GCP *)

Definition gcpBillingEndpoint : string := "https://cloudbilling.googleapis.com/v1".
Definition gcpComputeEngineService : string := "services/6F81-5844-456A".
Definition gcpSkuPageSize : Z := 500.
Definition gcpMaxSkuPages : nat := 64.
Definition gcpCoreUsageUnit : string := "h".
Definition gcpRamUsageUnit : string := "GiBy.h".

Record GCPSkuClient := { kc_APIKey : string; kc_Endpoint : string }.

(** A page merged into what was found: wanted entries, none of them twice. *)
Fixpoint find_page (want : gset string) (skus : list gcpSku) (found : gmap string gcpSku) : result (gmap string gcpSku) :=
  match skus with
  | [] => inr found
  | sku :: skus =>
      if negb (bool_decide (sku_ID sku ∈ want)) then find_page want skus found
      else if isSome (found !! sku_ID sku) then inl (errors_new "GCP SKU list returned a duplicate entry for a requested SKU")
      else find_page want skus (<[sku_ID sku := sku]> found)
  end.

Section gcp.
Context `{GoTarget} `{PriceJSON} `{URLs} `{CaseFold}.

Definition gcpDecodeSkuPage (r : PriceResponse) : result gcpSkuListResponse :=
  if negb (status_ok (pr_StatusCode r)) then inl (errors_new "GCP SKU list observation unavailable")
  else
    match read_body r with
    | None => inl (errors_new "GCP SKU list response unavailable or excessive")
    | Some data =>
        match decode_skus data with
        | None => inl (errors_new "GCP SKU list response malformed")
        | Some envelope => inr envelope
        end
    end.

Definition gcp_request (c : GCPSkuClient) (pageToken : string) : result string :=
  let endpoint := if kc_Endpoint c =s "" then gcpBillingEndpoint else kc_Endpoint c in
  match url_Parse (trim_right_slash endpoint +:+ "/" +:+ gcpComputeEngineService +:+ "/skus") with
  | None => inl (errors_new "GCP SKU price endpoint invalid")
  | Some parsed =>
      let query := [("key", kc_APIKey c); ("currencyCode", "USD"); ("pageSize", pretty gcpSkuPageSize)]
                   ++ (if pageToken <>s "" then [("pageToken", pageToken)] else []) in
      let url := url_String (url_SetQuery parsed query) in
      if request_ok url then inr url else inl (errors_new "GCP SKU price request invalid")
  end.

Fixpoint find_pages (pages : nat) (c : GCPSkuClient) (want : gset string) (pageToken : string)
    (found : gmap string gcpSku) : pricesM (result (gmap string gcpSku)) :=
  match pages with
  | O => decline "GCP SKU list pagination exceeded without locating every requested SKU"
  | S pages =>
      match gcp_request c pageToken with
      | inl err => mret (inl err)
      | inr url =>
          response ← call (HTTPGet url);
          ctx ← call PricesCtxErr;
          match ctx with
          | Some err => mret (inl err)
          | None =>
              match response with
              | inr (Some r) =>
                  match gcpDecodeSkuPage r with
                  | inl err => mret (inl err)
                  | inr envelope =>
                      match find_page want (sl_Skus envelope) found with
                      | inl err => mret (inl err)
                      | inr found =>
                          if (size found =? size want)%nat then mret (inr found)
                          else if sl_NextPageToken envelope =s "" then mret (inr found)
                          else find_pages pages c want (sl_NextPageToken envelope) found
                      end
                  end
              | _ => decline "GCP SKU list observation unavailable"
              end
          end
      end
  end.
Definition findSkus (c : GCPSkuClient) (want : gset string) : pricesM (result (gmap string gcpSku)) :=
  find_pages gcpMaxSkuPages c want "" ∅.

Definition gcpSkuUnitPrice (sku : gcpSku) (wantUsageUnit : string) : result float64 :=
  match sku_PricingInfo sku with
  | [expr] =>
      if px_UsageUnit expr <>s wantUsageUnit then
        inl (errors_new ("usage unit " +:+ go_quote (px_UsageUnit expr) +:+ " unexpected, want " +:+ go_quote wantUsageUnit))
      else
        match px_TieredRates expr with
        | [money] =>
            if negb (EqualFold (mo_CurrencyCode money) "USD") then inl (errors_new "price currency unexpected")
            else
              match ParseInt64 (mo_Units money) with
              | None => inl (errors_new "price value invalid")
              | Some units =>
                  let dollars := float_add (float_of units) (float_div (float_of (mo_Nanos money)) (float_of 1000000000)) in
                  if float_le dollars (float_of 0) then inl (errors_new "price value invalid") else inr dollars
              end
        | _ => inl (errors_new "pricing ambiguous: expected exactly one pricing tier")
        end
  | _ => inl (errors_new "pricing ambiguous: expected exactly one currently effective price")
  end.

Definition gcp_total (coreDollars ramDollars : float64) (cpu memoryMiB : Z) : float64 :=
  sum_products coreDollars (float_of cpu) ramDollars (float_div (float_of memoryMiB) (float_of 1024)).

Definition GCP_Observe (c : option GCPSkuClient) (coreSkuID ramSkuID : string) (cpu memoryMiB : Z) : pricesM (result Quote) :=
  match c with
  | None => decline "GCP SKU price client configuration unavailable"
  | Some c =>
      if kc_APIKey c =s "" then decline "GCP SKU price client configuration unavailable"
      else if (coreSkuID =s "") || (ramSkuID =s "") || (coreSkuID =s ramSkuID)
      then decline "GCP SKU price request incomplete or ambiguous"
      else if (cpu <? 1) || (memoryMiB <? 1) then decline "GCP SKU price request incomplete"
      else try (λ err, mret (inl err)) (findSkus c {[coreSkuID; ramSkuID]}) (λ found,
        match found !! coreSkuID, found !! ramSkuID with
        | None, _ => decline "GCP SKU price observation has no entry for the pinned core SKU"
        | _, None => decline "GCP SKU price observation has no entry for the pinned RAM SKU"
        | Some core, Some ram =>
            match gcpSkuUnitPrice core gcpCoreUsageUnit with
            | inl err => mret (inl (wrapped "pinned core SKU: " err))
            | inr coreDollars =>
                match gcpSkuUnitPrice ram gcpRamUsageUnit with
                | inl err => mret (inl (wrapped "pinned RAM SKU: " err))
                | inr ramDollars =>
                    let total := gcp_total coreDollars ramDollars cpu memoryMiB in
                    if float_le total (float_of 0) then decline "GCP SKU price value invalid"
                    else quote_now (micros total)
                end
            end
        end)
  end.
End gcp.
