(* ===== verification/PricesProps.v ===== *)
(** * What a quote is worth

    Every quote of the three clients comes from a response that answers the
    question alone (internal/prices): one entry of the pool, the pinned SKUs
    once each.  A price of whole micros survives float64. *)
From stdpp Require Import pretty.
From Stdlib Require Import SpecFloat.
From S2P Require Import Prelude.
From S2P Require Import Effects.
From S2P Require Import Fleet.
From S2P Require Import Azure.
From S2P Require Import Float.
From S2P Require Import Envelope.
From S2P Require Import Prices.

(** ** One entry of the pool *)

Lemma spot_match_filter region machine items found item :
  spot_match region machine items found = inr item
  ↔ option_list found ++ filter (λ i, azure_spot_item region machine i = true) items = [item].
Proof.
  revert found. induction items as [|i items IH]; intros found; cbn [spot_match].
  - rewrite filter_nil, app_nil_r. destruct found; cbn; naive_solver.
  - destruct (azure_spot_item region machine i) eqn:E; cbn [negb].
    + rewrite filter_cons_True by done. destruct found as [f|]; [naive_solver|]. rewrite IH. cbn. done.
    + rewrite filter_cons_False by congruence. apply IH.
Qed.

(** The text a filter quotes is the text: reading a literal back, from behind its
    opening quote, gives the value and what follows. *)
Fixpoint read_literal (s : string) : option (string * string) :=
  match s with
  | "" => None
  | String ch rest =>
      if Ascii.eqb ch "'" then
        match rest with
        | String ch2 rest2 =>
            if Ascii.eqb ch2 "'" then
              match read_literal rest2 with Some (v, r) => Some (String "'" v, r) | None => None end
            else Some ("", rest)
        | "" => Some ("", "")
        end
      else match read_literal rest with Some (v, r) => Some (String ch v, r) | None => None end
  end.

Lemma literal_roundtrip value rest :
  strings_has_prefix rest "'" = false →
  read_literal (azureODataLiteral value +:+ String "'" rest) = Some (value, rest).
Proof.
  intros Hrest. induction value as [|ch value IH].
  - change (read_literal (String "'" rest) = Some ("", rest)). cbn -[Ascii.eqb]. rewrite Ascii.eqb_refl.
    destruct rest as [|ch rest]; [done|]. destruct (Ascii.eqb_spec ch "'") as [->|]; [by destruct rest|done].
  - cbn [azureODataLiteral]. destruct (Ascii.eqb_spec ch "'") as [->|Hne].
    + change (read_literal (String "'" (String "'" (azureODataLiteral value +:+ String "'" rest))) = Some (String "'" value, rest)).
      cbn -[Ascii.eqb]. by rewrite !Ascii.eqb_refl, IH.
    + change (read_literal (String ch (azureODataLiteral value +:+ String "'" rest)) = Some (String ch value, rest)).
      cbn -[Ascii.eqb]. by rewrite (proj2 (Ascii.eqb_neq _ _) Hne), IH.
Qed.

(** ** The pages of the catalog *)

Section gcp.
Context `{GoTarget} `{PriceJSON} `{URLs} `{CaseFold}.

(** The SKUs a history has shown, and its requests. *)
Definition skus_of (v : event pricesE) : list gcpSku :=
  match v with
  | existT _ (e, x) =>
      match e in pricesE X return X → list gcpSku with
      | HTTPGet _ => λ a,
          match a with
          | inr (Some r) => match gcpDecodeSkuPage r with inr page => sl_Skus page | inl _ => [] end
          | _ => []
          end
      | _ => λ _, []
      end x
  end.
Definition skus_seen (h : list (event pricesE)) : list gcpSku := flat_map skus_of h.
Definition is_request (v : event pricesE) : Prop :=
  match v with existT _ (e, _) => match e with HTTPGet _ => True | _ => False end end.
#[export] Instance is_request_dec v : Decision (is_request v).
Proof. destruct v as [X [e x]]. destruct e; cbn; apply _. Defined.
Definition requests (h : list (event pricesE)) : nat := length (filter is_request h).

(** The entries of an ID. *)
Definition entries (id : string) (skus : list gcpSku) : list gcpSku := filter (λ s, sku_ID s = id) skus.

(** What was found is the one entry of each wanted ID. *)
Definition found_in (want : gset string) (skus : list gcpSku) (found : gmap string gcpSku) : Prop :=
  ∀ id, id ∈ want → entries id skus = option_list (found !! id).

Lemma find_page_found want skus seen found found' :
  found_in want seen found → find_page want skus found = inr found' → found_in want (seen ++ skus) found'.
Proof.
  revert seen found. induction skus as [|s skus IH]; intros seen found Hf; cbn [find_page].
  { rewrite app_nil_r. by intros [= <-]. }
  rewrite cons_middle, app_assoc. case_bool_decide as Hw; cbn [negb].
  - destruct (found !! sku_ID s) eqn:E; cbn [isSome isNone negb]; [done|]. apply IH.
    intros id Hid. unfold entries. rewrite filter_app. destruct (decide (sku_ID s = id)) as [<-|Hne].
    + setoid_rewrite (Hf _ Hid). rewrite E, lookup_insert_eq, filter_cons_True by done. done.
    + rewrite lookup_insert_ne, filter_cons_False, filter_nil, app_nil_r by done. by apply Hf.
  - apply IH. intros id Hid. unfold entries. rewrite filter_app, filter_cons_False, filter_nil, app_nil_r by naive_solver.
    by apply Hf.
Qed.

Lemma wp_find_pages pages c want token found h n :
  found_in want (skus_seen h) found → (requests h + pages ≤ n)%nat →
  wp no_contract (λ h' r, (requests h' ≤ n)%nat ∧ ∀ found', r = inr found' → found_in want (skus_seen h') found')
     h (find_pages pages c want token found).
Proof.
  revert token found h. induction pages as [|pages IH]; intros token found h Hf Hn; cbn [find_pages].
  { apply wp_ret. split; [lia|done]. }
  destruct (gcp_request c token) as [|url]; [apply wp_ret; split; [lia|done]|].
  apply wp_call_bind. intros response _. apply wp_call_bind. intros ctx _.
  assert (Hreq : requests ((h ++ [ev (HTTPGet url) response]) ++ [ev PricesCtxErr ctx]) = S (requests h)).
  { unfold requests. rewrite <-app_assoc, filter_app, length_app. cbn [app].
    rewrite filter_cons_True, filter_cons_False, filter_nil; [cbn; lia|by intros []|exact I]. }
  assert (Hstop : ∀ e : error, (requests ((h ++ [ev (HTTPGet url) response]) ++ [ev PricesCtxErr ctx]) ≤ n)%nat
    ∧ ∀ found', inl e = inr found' → found_in want (skus_seen ((h ++ [ev (HTTPGet url) response]) ++ [ev PricesCtxErr ctx])) found').
  { intros e. split; [lia|done]. }
  assert (Hseen : skus_seen ((h ++ [ev (HTTPGet url) response]) ++ [ev PricesCtxErr ctx])
                  = skus_seen h ++ skus_of (ev (HTTPGet url) response)).
  { unfold skus_seen. rewrite !flat_map_app. cbn. by rewrite !app_nil_r. }
  destruct ctx as [err|]; [apply wp_ret, Hstop|].
  destruct response as [err|[r|]]; [apply wp_ret, Hstop| |apply wp_ret, Hstop].
  destruct (gcpDecodeSkuPage r) as [err|page] eqn:Hpage; [apply wp_ret, Hstop|].
  destruct (find_page want (sl_Skus page) found) as [err|found'] eqn:Hfind; [apply wp_ret, Hstop|].
  assert (Hf' : found_in want (skus_seen ((h ++ [ev (HTTPGet url) (inr (Some r))]) ++ [ev PricesCtxErr None])) found').
  { rewrite Hseen. cbn. rewrite Hpage. by eapply find_page_found. }
  destruct (size found' =? size want)%nat; [apply wp_ret; split; [lia|by intros ? [= <-]]|].
  destruct (sl_NextPageToken page =s ""); [apply wp_ret; split; [lia|by intros ? [= <-]]|].
  apply IH; [done|lia].
Qed.

(** The evidence behind a quote of two pinned SKUs: each of them once among the
    SKUs of the pages that were read, priced once, in its unit and in USD. *)
Definition gcp_evidence (coreSkuID ramSkuID : string) (cpu memoryMiB : Z) (h : list (event pricesE)) (q : Quote) : Prop :=
  ∃ core ram coreDollars ramDollars,
    entries coreSkuID (skus_seen h) = [core] ∧ entries ramSkuID (skus_seen h) = [ram]
    ∧ gcpSkuUnitPrice core gcpCoreUsageUnit = inr coreDollars ∧ gcpSkuUnitPrice ram gcpRamUsageUnit = inr ramDollars
    ∧ float_le (gcp_total coreDollars ramDollars cpu memoryMiB) (float_of 0) = false
    ∧ q_PriceMicros q = micros (gcp_total coreDollars ramDollars cpu memoryMiB) ∧ q_Currency q = "USD"
    ∧ last h = Some (ev PricesNow (q_ObservedAt q)).

Lemma wp_gcp_observe c coreSkuID ramSkuID cpu memoryMiB :
  wp no_contract (λ h r, (requests h ≤ gcpMaxSkuPages)%nat ∧ ∀ q, r = inr q → gcp_evidence coreSkuID ramSkuID cpu memoryMiB h q)
     [] (GCP_Observe c coreSkuID ramSkuID cpu memoryMiB).
Proof.
  unfold GCP_Observe.
  assert (Hstop : ∀ e : error, (requests [] ≤ gcpMaxSkuPages)%nat
    ∧ ∀ q, inl e = inr q → gcp_evidence coreSkuID ramSkuID cpu memoryMiB [] q) by (intros; split; [cbn; lia|done]).
  destruct c as [c|]; [|apply wp_ret, Hstop]. repeat (case_match; [apply wp_ret, Hstop|]). clear Hstop.
  apply wp_try. unfold findSkus. eapply wp_mono.
  { apply wp_find_pages with (n := gcpMaxSkuPages); [intros id _; by rewrite lookup_empty|done]. }
  intros h [e|found] [Hn Hfound]; [by apply wp_ret|]. specialize (Hfound found eq_refl).
  assert (Hstop : ∀ e : error, (requests h ≤ gcpMaxSkuPages)%nat
    ∧ ∀ q, inl e = inr q → gcp_evidence coreSkuID ramSkuID cpu memoryMiB h q) by (intros; split; [done|done]).
  pose proof (Hfound coreSkuID ltac:(set_solver)) as Hcore. pose proof (Hfound ramSkuID ltac:(set_solver)) as Hram.
  destruct (found !! coreSkuID) as [core|]; [|apply wp_ret, Hstop].
  destruct (found !! ramSkuID) as [ram|]; [|apply wp_ret, Hstop].
  destruct (gcpSkuUnitPrice core gcpCoreUsageUnit) as [e|cd] eqn:Hc; [apply wp_ret, Hstop|].
  destruct (gcpSkuUnitPrice ram gcpRamUsageUnit) as [e|rd] eqn:Hr; [apply wp_ret, Hstop|].
  destruct (float_le _ _) eqn:Hle; [apply wp_ret, Hstop|].
  apply wp_call_bind. intros now _. apply wp_ret. split.
  { unfold requests in *. rewrite filter_app, filter_cons_False, filter_nil, app_nil_r by (by intros []). done. }
  intros q [= <-]. exists core, ram, cd, rd. cbn [q_PriceMicros q_Currency q_ObservedAt].
  unfold skus_seen. rewrite flat_map_app. cbn [flat_map skus_of ev app]. rewrite !app_nil_r.
  split_and!; try done. apply last_snoc.
Qed.
End gcp.

(** ** The evidence of the other two *)

Definition aws_evidence `{GoTarget} `{ParseFloats} (region zone machine : string) (h : list (event pricesE)) (q : Quote) : Prop :=
  ∃ now entry,
    h = [ev PricesNow now;
         ev (DescribeSpotPriceHistory (spot_input region zone machine now))
            (inr (Some {| sh_Known := true; sh_Entries := [entry] |}));
         ev PricesCtxErr None; ev PricesNow (q_ObservedAt q)]
    ∧ se_AvailabilityZone entry = zone ∧ se_InstanceType entry = machine ∧ se_ProductDescription entry = LinuxUnix
    ∧ awsSpotPriceMicros (se_SpotPrice entry) = inr (q_PriceMicros q) ∧ q_Currency q = "USD".

Definition azure_evidence `{GoTarget} `{PriceJSON} `{URLs} `{CaseFold} (endpoint region machine : string)
    (h : list (event pricesE)) (q : Quote) : Prop :=
  ∃ url response data envelope item,
    h = [ev (HTTPGet url) (inr (Some response)); ev PricesCtxErr None; ev PricesNow (q_ObservedAt q)]
    ∧ azure_request endpoint region machine = inr url
    ∧ 200 ≤ pr_StatusCode response < 300 ∧ pr_Body response = inr data ∧ decode_azure_prices data = Some envelope
    ∧ rr_NextPageLink envelope ∈ [None; Some ""]
    ∧ filter (λ i, azure_spot_item region machine i = true) (rr_Items envelope) = [item]
    ∧ EqualFold (ri_CurrencyCode item) "USD" = true ∧ float_le (ri_RetailPrice item) (float_of 0) = false
    ∧ q_PriceMicros q = azureRetailPriceMicros (ri_RetailPrice item) ∧ q_Currency q = "USD".

Lemma wp_aws_observe `{GoTarget} `{ParseFloats} c region zone machine :
  wp no_contract (λ h r, ∀ q, r = inr q → aws_evidence region zone machine h q) [] (AWS_Observe c region zone machine).
Proof.
  unfold AWS_Observe, decline. case_match; [by apply wp_ret|]. case_match; [by apply wp_ret|].
  apply wp_call_bind. intros now _. apply wp_call_bind. intros response _. apply wp_call_bind. intros ctx _.
  destruct ctx as [err|]; [by apply wp_ret|]. destruct response as [err|[[known entries]|]]; [by apply wp_ret| |by apply wp_ret].
  cbn [sh_Known sh_Entries]. destruct known; [|by apply wp_ret]. cbn [negb].
  destruct entries as [|entry [|? ?]]; [by apply wp_ret| |by apply wp_ret].
  destruct (spot_entry_ok zone machine entry) eqn:Hok; [|by apply wp_ret]. cbn [negb].
  destruct (awsSpotPriceMicros (se_SpotPrice entry)) as [err|price] eqn:Hprice; [by apply wp_ret|].
  apply wp_call_bind. intros done_at _. apply wp_ret. intros q [= <-].
  unfold spot_entry_ok in Hok. reflect in Hok. exists now, entry. cbn. naive_solver.
Qed.

Lemma wp_azure_observe `{GoTarget} `{PriceJSON} `{URLs} `{CaseFold} endpoint region machine :
  wp no_contract (λ h r, ∀ q, r = inr q → azure_evidence endpoint region machine h q)
     [] (Azure_Observe endpoint region machine).
Proof.
  unfold Azure_Observe, decline. case_match; [by apply wp_ret|].
  destruct (azure_request endpoint region machine) as [err|url] eqn:Hurl; [by apply wp_ret|].
  apply wp_call_bind. intros response _. apply wp_call_bind. intros ctx _.
  destruct ctx as [err|]; [by apply wp_ret|]. destruct response as [err|[r|]]; [by apply wp_ret| |by apply wp_ret].
  destruct (status_ok (pr_StatusCode r)) eqn:Hstatus; [|by apply wp_ret]. cbn [negb].
  destruct (read_body r) as [data|] eqn:Hdata; [|by apply wp_ret].
  destruct (decode_azure_prices data) as [envelope|] eqn:Henv; [|by apply wp_ret].
  unfold azure_quote, decline. destruct (match rr_NextPageLink envelope with Some _ => _ | None => _ end) eqn:Hlink; [by apply wp_ret|].
  destruct (azureUnambiguousSpotMatch _ _ _) as [err|item] eqn:Hmatch; [by apply wp_ret|].
  destruct (EqualFold (ri_CurrencyCode item) "USD") eqn:Hcur; [|by apply wp_ret]. cbn [negb].
  destruct (float_le _ _) eqn:Hle; [by apply wp_ret|].
  apply wp_call_bind. intros now _. apply wp_ret. intros q [= <-].
  unfold azureUnambiguousSpotMatch in Hmatch. apply spot_match_filter in Hmatch.
  unfold read_body, read_limited in Hdata. unfold status_ok in Hstatus. reflect in Hstatus.
  exists url, r, data, envelope, item. cbn [q_PriceMicros q_Currency q_ObservedAt]. split_and!; try done; try lia.
  - by repeat case_match; simplify_eq.
  - destruct (rr_NextPageLink envelope) as [link|]; [|set_solver]. reflect in Hlink. subst. set_solver.
Qed.

(** C33: scaling to micros loses nothing.  A price of [n] micros, up to 2^50 of
    them (a billion dollars an hour), that arrives as the float64 nearest to
    it comes out of either client as [n]: the two roundings together, of the
    text to float64 and of the product with 1e6, stay below half a micro. *)
Theorem micros_exact `{GoTarget} `{ParseFloats} n text x :
  0 < n ≤ 2 ^ 50 → nearest n 1000000 x → ParseFloat text = inr x →
  awsSpotPriceMicros text = inr n ∧ azureRetailPriceMicros x = n.
Proof.
  intros Hn Hx Htext. pose proof (micros_of_nearest n x Hn Hx) as Hm. split; [|exact Hm].
  unfold awsSpotPriceMicros. rewrite Htext, Hm. destruct Hx as (m & e & -> & _). done.
Qed.

(** The price of the comment, 0.018816 dollars an hour, on a target that
    converts as amd64 does and does not fuse. *)
Definition amd64 : GoTarget :=
  {| out_of_range := λ _, - 2 ^ 63; sum_products := λ a b c d, float_add (float_mul a b) (float_mul c d) |}.
Definition spot_0_018816 : float64 := S754_finite false 5423342757670608 (-58).
Definition example_floats : ParseFloats :=
  {| ParseFloat := λ s, if s =s "0.018816" then inr spot_0_018816 else inl (errors_new "invalid syntax") |}.

Lemma micros_exact_witness :
  @awsSpotPriceMicros amd64 example_floats "0.018816" = inr 18816 ∧ @azureRetailPriceMicros amd64 spot_0_018816 = 18816.
Proof.
  apply (@micros_exact amd64 example_floats 18816 "0.018816" spot_0_018816); [lia| |reflexivity].
  exists 5423342757670608%positive, (-58). split_and!; [reflexivity|lia..|vm_compute; discriminate].
Defined.

(** A price of "NaN", which [strconv.ParseFloat] reads, passes the check
    [parsed <= 0]: the quote is whatever the target makes of it. *)
Lemma nan_price_accepted `{GoTarget} `{ParseFloats} :
  ParseFloat "NaN" = inr S754_nan → awsSpotPriceMicros "NaN" = inr (out_of_range S754_nan).
Proof. intros Hnan. unfold awsSpotPriceMicros. by rewrite Hnan. Qed.

(** ** Quotes that are given

    A run of each client on a concrete world: EC2 and Azure answer with one
    entry, the catalog has its two SKUs on two pages. *)
Definition example_case : CaseFold.
Proof.
  refine {| fold_key := lower_ascii; ToLower := lower_ascii |}; done.
Defined.
Definition example_urls : URLs :=
  {| URL := string; url_Parse := Some;
     url_SetQuery := λ u q, u +:+ "?" +:+ String.concat "&" ((λ kv : string * string, kv.1 +:+ "=" +:+ kv.2) <$> q);
     url_String := id; request_ok := λ _, true |}.
Definition example_item (product : string) : azureRetailPriceItem :=
  {| ri_CurrencyCode := "USD"; ri_RetailPrice := spot_0_018816; ri_ArmRegionName := "eastus";
     ri_ArmSkuName := "Standard_D2s_v3"; ri_MeterName := "D2s v3 Spot"; ri_ProductName := product;
     ri_ServiceName := "Virtual Machines"; ri_Type := "Consumption" |}.
Definition example_sku (id unit : string) (nanos : Z) : gcpSku :=
  {| sku_ID := id; sku_ResourceGroup := "N1Standard";
     sku_PricingInfo := [{| px_UsageUnit := unit;
       px_TieredRates := [{| mo_CurrencyCode := "USD"; mo_Units := "0"; mo_Nanos := nanos |}] |}] |}.
Definition example_json : PriceJSON :=
  {| decode_azure_prices := λ s, if s =s "items" then
       Some {| rr_Items := [example_item "Virtual Machines DSv3 Series Windows"; example_item "Virtual Machines DSv3 Series"];
               rr_NextPageLink := None |} else None;
     decode_skus := λ s,
       if s =s "page 1" then Some {| sl_Skus := [example_sku "CORE" "h" 6655000; example_sku "OTHER" "h" 1]; sl_NextPageToken := "more" |}
       else if s =s "page 2" then Some {| sl_Skus := [example_sku "RAM" "GiBy.h" 892000]; sl_NextPageToken := "" |} else None;
     go_quote := λ s, s |}.
Definition example_prices (X : Type) (e : pricesE X) (clock : Z) : Z * X :=
  match e in pricesE X return Z * X with
  | DescribeSpotPriceHistory i =>
      (clock, inr (Some {| sh_Known := true; sh_Entries :=
        [{| se_AvailabilityZone := shi_AvailabilityZone i; se_InstanceType := shi_InstanceType i;
            se_ProductDescription := "Linux/UNIX"; se_Timestamp := Some 1; se_SpotPrice := "0.018816" |}] |}))
  | HTTPGet url =>
      (clock, inr (Some {| pr_StatusCode := 200;
        pr_Body := inr (if strings_contains url "prices.azure.com" then "items"
                        else if strings_contains url "pageToken=more" then "page 2" else "page 1") |}))
  | PricesCtxErr => (clock, None)
  | PricesNow => (clock + 1, clock + 1)
  end.

Example aws_quoted :
  snd (run example_prices (@AWS_Observe amd64 example_floats (Some {| sc_Credentials := true; sc_Endpoint := "" |})
         "us-east-1" "us-east-1a" "m5.large") 100)
  = inr {| q_PriceMicros := 18816; q_Currency := "USD"; q_ObservedAt := 102 |}.
Proof. vm_compute. reflexivity. Qed.
Example azure_quoted :
  snd (run example_prices (@Azure_Observe amd64 example_json example_urls example_case "" "eastus" "Standard_D2s_v3") 100)
  = inr {| q_PriceMicros := 18816; q_Currency := "USD"; q_ObservedAt := 101 |}.
Proof. vm_compute. reflexivity. Qed.
(** Two cores at 0.006655 and 7.5 GiB at 0.000892. *)
Example gcp_quoted :
  snd (run example_prices (@GCP_Observe amd64 example_json example_urls example_case (Some {| kc_APIKey := "key"; kc_Endpoint := "" |})
         "CORE" "RAM" 2 7680) 100)
  = inr {| q_PriceMicros := 20000; q_Currency := "USD"; q_ObservedAt := 101 |}.
Proof. vm_compute. reflexivity. Qed.
Example gcp_swapped_refused :
  snd (run example_prices (@GCP_Observe amd64 example_json example_urls example_case (Some {| kc_APIKey := "key"; kc_Endpoint := "" |})
         "RAM" "CORE" 2 7680) 100)
  = inl (errors_new "pinned core SKU: usage unit GiBy.h unexpected, want h").
Proof. vm_compute. reflexivity. Qed.
