(* ===== verification/PriceFeed.v ===== *)
(** * The price observers behind the price refresh
    (internal/provider/aws_prices.go, azure_prices.go, gcp_prices.go; the
    credential scope of aws_sdk.go)

    The three refresh passes of Operator.v call an observer per offering; here
    each call is carried out by the observer: for AWS by the credentials of
    Credentials.v and the client of Prices.v, for the others by the client
    alone.  A nil receiver is [None]. *)
From S2P Require Import Prelude.
From S2P Require Import Effects.
From S2P Require Import Float.
From S2P Require Import Placement.
From S2P Require Import Fleet.
From S2P Require Import Operator.
From S2P Require Import Credentials.
From S2P Require Import Azure.
From S2P Require Import Prices.
From S2P Require Import PricesProps.

Inductive feedE : Type → Type :=
  | FeedCred {X} (e : awsCredE X) : feedE X
  | FeedPrice {X} (e : pricesE X) : feedE X
  | FeedRest {X} (e : operatorE X) : feedE X.

Abbreviation feedM := (prog feedE).
Abbreviation feed_history := (list (event feedE)).

(** ** The observers *)

(** [awsCredentialScope] and [AWSSDK]; the HTTP client a test injects is left out. *)
Record awsCredentialScope := { sc_values : gmap string string; sc_profile : string; sc_endpoint : string }.
Record AWSSDK := { aws_scope : option awsCredentialScope; aws_Endpoint : string }.

Definition resolvedScope (s : option AWSSDK) (region : string) : result awsCredentialScope :=
  match s with
  | Some {| aws_scope := Some scope; aws_Endpoint := endpoint |} =>
      if region =s "" then inl (errors_new "AWS SDK configuration unavailable")
      else inr {| sc_values := sc_values scope; sc_profile := sc_profile scope;
                  sc_endpoint := if endpoint <>s "" then endpoint else sc_endpoint scope |}
  | _ => inl (errors_new "AWS SDK configuration unavailable")
  end.

Record AzurePriceSDK := { PricesEndpoint : string }.
Record GCPPriceSDK := { BillingAPIKey : string; BillingEndpoint : string }.

(** What the operator's three observers are bound to. *)
Record PriceSDKs := { aws_sdk : option AWSSDK; azure_sdk : option AzurePriceSDK; gcp_sdk : option GCPPriceSDK }.

Definition on_cred {R} (p : credM R) : feedM R := interp (λ X e, call (FeedCred e)) p.
Definition on_price {R} (p : pricesM R) : feedM R := interp (λ X e, call (FeedPrice e)) p.

Section observers.
Context `{GoTarget} `{ParseFloats} `{PriceJSON} `{URLs} `{CaseFold}.

(** [AWSSpotPrices.Observe] *)
Definition AWSSpotPrices_Observe (sdk : option AWSSDK) (region zone instanceType : string) : feedM (result Quote) :=
  match sdk with
  | None => mret (inl (errors_new "AWS spot price observer unavailable"))
  | Some _ =>
      match resolvedScope sdk region with
      | inl err => mret (inl err)
      | inr scope =>
          value ← on_cred (retrieve (sc_values scope) (sc_profile scope) region);
          match value with
          | inl err => mret (inl err)
          | inr _ =>
              on_price (AWS_Observe (Some {| sc_Credentials := true; sc_Endpoint := sc_endpoint scope |}) region zone instanceType)
          end
      end
  end.

(** [AzureSpotPrices.Observe]; the zone is not used. *)
Definition AzureSpotPrices_Observe (sdk : option AzurePriceSDK) (region instanceType : string) : feedM (result Quote) :=
  match sdk with
  | None => mret (inl (errors_new "Azure spot price observer unavailable"))
  | Some a => on_price (Azure_Observe (PricesEndpoint a) region instanceType)
  end.

(** [GCPSkuPrices.Observe] *)
Definition GCPSkuPrices_Observe (sdk : option GCPPriceSDK) (coreSkuID ramSkuID : string) (cpu memoryMiB : Z)
    : feedM (result Quote) :=
  match sdk with
  | None => mret (inl (errors_new "GCP SKU price observer unavailable"))
  | Some g =>
      if BillingAPIKey g =s "" then mret (inl (errors_new "GCP SKU price observer unavailable"))
      else on_price (GCP_Observe (Some {| kc_APIKey := BillingAPIKey g; kc_Endpoint := BillingEndpoint g |})
                       coreSkuID ramSkuID cpu memoryMiB)
  end.

(** The operator's calls with the observers in place. *)
Definition feed (s : PriceSDKs) (X : Type) (e : operatorE X) : feedM X :=
  match e in operatorE X return feedM X with
  | AWSObserve region zone machine => AWSSpotPrices_Observe (aws_sdk s) region zone machine
  | AzureObserve region zone machine => AzureSpotPrices_Observe (azure_sdk s) region machine
  | GCPObserve core ram cpu memory => GCPSkuPrices_Observe (gcp_sdk s) core ram cpu memory
  | e => call (FeedRest e)
  end.

(** The refresh of [HandleDesiredRunnerCount]. *)
Definition refresh_all (o : Operator) (cat : Catalog) : opM Catalog :=
  cat ← refreshAWSPrices o cat; cat ← refreshAzurePrices o cat; refreshGCPPrices o cat.
End observers.

(** ** Properties of one pass *)

(** Which call observes the price of an offering. *)
Definition aws_query (o : Operator) (off : Offering) : option (operatorE (result Quote)) :=
  if hasAWSPrices o && (off_Provider off =s "aws") && off_Spot off
  then Some (AWSObserve (off_Region off) (off_Zone off) (off_Machine off)) else None.
Definition azure_query (o : Operator) (off : Offering) : option (operatorE (result Quote)) :=
  if hasAzurePrices o && (off_Provider off =s "azure") && off_Spot off
  then Some (AzureObserve (off_Region off) (off_Zone off) (off_Machine off)) else None.
Definition gcp_query (o : Operator) (off : Offering) : option (operatorE (result Quote)) :=
  if hasGCPPrices o && (off_Provider off =s "gcp") then
    (λ refs, GCPObserve (CoreSkuID refs) (RamSkuID refs) (off_CPU off) (off_MemoryMiB off)) <$> off_GCPSkuRefs off
  else None.

Definition price_query (o : Operator) (off : Offering) : option (operatorE (result Quote)) :=
  match aws_query o off with
  | Some e => Some e
  | None => match azure_query o off with Some e => Some e | None => gcp_query o off end
  end.

(** [off'] is [off] with the answer of its query in [h], if it has one. *)
Definition answered_by (query : Offering → option (operatorE (result Quote))) (h : list (event operatorE))
    (off off' : Offering) : Prop :=
  match query off with
  | None => off' = off
  | Some e => ∃ q, ev e q ∈ h ∧ off' = observe_offering q off
  end.

Lemma answered_mono query h h' off off' : h ⊆ h' → answered_by query h off off' → answered_by query h' off off'.
Proof. unfold answered_by. destruct (query off); [|done]. set_solver. Qed.

Section pass.
Context (observe : Offering → option (opM (result Quote))) (query : Offering → option (operatorE (result Quote))).

Lemma wp_refresh_pass l : ∀ h,
  (∀ off, observe off = call <$> query off) →
  wp no_contract (λ h' l', ∃ k, h' = h ++ k ∧ Forall2 (answered_by query k) l l') h (refresh_offerings observe l).
Proof.
  intros h Hobs. revert h. induction l as [|off l IH]; intros h; cbn [refresh_offerings].
  - apply wp_ret. exists []. rewrite app_nil_r. by split; [|constructor].
  - rewrite Hobs. assert (∀ k off', answered_by query k off off' →
      wp no_contract (λ h' l', ∃ k, h' = h ++ k ∧ Forall2 (answered_by query k) (off :: l) l') (h ++ k)
        (rest ← refresh_offerings observe l; mret (off' :: rest))) as Hrest.
    { intros k off' Hoff. apply wp_bind. eapply wp_mono; [apply IH|]. intros h' l' (k' & -> & Hl). apply wp_ret.
      exists (k ++ k'). rewrite app_assoc. split; [done|]. constructor; [eapply answered_mono; [|done]; set_solver|].
      eapply Forall2_impl; [done|]. intros x y. apply answered_mono. set_solver. }
    destruct (query off) as [e|] eqn:Hq; cbn [fmap option_fmap option_map].
    + apply wp_bind, wp_call_bind. intros q _. apply wp_ret, Hrest. unfold answered_by. rewrite Hq. exists q. split; [left|done].
    + apply wp_bind, wp_ret. specialize (Hrest [] off). rewrite app_nil_r in Hrest. apply Hrest. unfold answered_by. by rewrite Hq.
Qed.

Lemma wp_refresh_enabled (enabled : bool) cat h :
  (∀ off, if enabled then observe off = call <$> query off else query off = None) →
  wp no_contract (λ h' cat', ∃ k, h' = h ++ k ∧ Complete cat' = Complete cat ∧
     Forall2 (answered_by query k) (Offerings cat) (Offerings cat')) h (refresh_catalog enabled observe cat).
Proof.
  intros Hobs. unfold refresh_catalog. destruct enabled.
  - apply wp_bind. eapply wp_mono; [by apply wp_refresh_pass|]. intros h' l (k & -> & Hl). apply wp_ret. by exists k.
  - apply wp_ret. exists []. rewrite app_nil_r. split_and!; [done..|]. apply Forall_Forall2_diag, Forall_forall.
    intros off _. unfold answered_by. by rewrite Hobs.
Qed.

End pass.

(** ** The three passes *)

(** An observation leaves what the queries are made of. *)
Lemma observe_keeps q off :
  off_Provider (observe_offering q off) = off_Provider off ∧ (∀ o, price_query o (observe_offering q off) = price_query o off).
Proof. by destruct q. Qed.

Lemma queries_exclusive o off e : aws_query o off = Some e → azure_query o off = None ∧ gcp_query o off = None.
Proof.
  unfold aws_query, azure_query, gcp_query. destruct (String.eqb_spec (off_Provider off) "aws") as [->|]; [|by rewrite andb_false_r].
  by rewrite !andb_false_r.
Qed.
Lemma azure_not_gcp o off e : azure_query o off = Some e → gcp_query o off = None.
Proof.
  unfold azure_query, gcp_query. destruct (String.eqb_spec (off_Provider off) "azure") as [->|]; [|by rewrite andb_false_r].
  by rewrite !andb_false_r.
Qed.

Lemma passes_compose o k off1 off2 off3 off4 :
  answered_by (aws_query o) k off1 off2 → answered_by (azure_query o) k off2 off3 → answered_by (gcp_query o) k off3 off4 →
  answered_by (price_query o) k off1 off4.
Proof.
  unfold answered_by, price_query. destruct (aws_query o off1) as [e|] eqn:Ha.
  - destruct (queries_exclusive _ _ _ Ha) as [Hz Hg]. intros (q & Hq & ->).
    assert (azure_query o (observe_offering q off1) = azure_query o off1) as -> by by destruct q. rewrite Hz. intros ->.
    assert (gcp_query o (observe_offering q off1) = gcp_query o off1) as -> by by destruct q. rewrite Hg. intros ->. eauto.
  - intros ->. destruct (azure_query o off1) as [e|] eqn:Hz; [|by intros ->].
    intros (q & Hq & ->). assert (gcp_query o (observe_offering q off1) = gcp_query o off1) as -> by by destruct q.
    rewrite (azure_not_gcp _ _ _ Hz). intros ->. eauto.
Qed.

Lemma Forall2_chain {A B C D} (P : A → B → Prop) (Q : B → C → Prop) (R : C → D → Prop) (S : A → D → Prop) l1 l2 l3 l4 :
  (∀ x y z w, P x y → Q y z → R z w → S x w) →
  Forall2 P l1 l2 → Forall2 Q l2 l3 → Forall2 R l3 l4 → Forall2 S l1 l4.
Proof.
  intros HS H1. revert l3 l4. induction H1 as [|x y l1 l2 Hx _ IH]; intros l3 l4 H2 H3;
    inversion H2; subst; inversion H3; subst; constructor; eauto.
Qed.

Definition refreshed_by (o : Operator) (cat : Catalog) (h : list (event operatorE)) (cat' : Catalog) : Prop :=
  Complete cat' = Complete cat ∧ Forall2 (answered_by (price_query o) h) (Offerings cat) (Offerings cat').

Lemma wp_refresh_all o cat : wp no_contract (refreshed_by o cat) [] (refresh_all o cat).
Proof.
  unfold refresh_all. apply wp_bind. eapply wp_mono; [apply (wp_refresh_enabled _ (aws_query o))|].
  { intros off. unfold aws_query. destruct (hasAWSPrices o); [|done]. cbn. destruct (_ =s _); [|done]. by destruct (off_Spot off). }
  intros h1 cat1 (k1 & -> & Hc1 & H1). apply wp_bind. eapply wp_mono; [apply (wp_refresh_enabled _ (azure_query o))|].
  { intros off. unfold azure_query. destruct (hasAzurePrices o); [|done]. cbn. destruct (_ =s _); [|done]. by destruct (off_Spot off). }
  intros h2 cat2 (k2 & -> & Hc2 & H2). eapply wp_mono; [apply (wp_refresh_enabled _ (gcp_query o))|].
  { intros off. unfold gcp_query. destruct (hasGCPPrices o); [|done]. cbn. destruct (_ =s _); [|done]. by destruct (off_GCPSkuRefs off). }
  intros h3 cat3 (k3 & -> & Hc3 & H3). split; [congruence|]. cbn [app].
  assert (∀ (query : Offering → option (operatorE (result Quote))) k l l', k ⊆ (k1 ++ k2) ++ k3 →
    Forall2 (answered_by query k) l l' → Forall2 (answered_by query ((k1 ++ k2) ++ k3)) l l') as Hup.
  { intros query k l l' Hk Hl. eapply Forall2_impl; [done|]. intros x y. by apply answered_mono. }
  eapply Forall2_chain; [apply passes_compose|apply (Hup _ k1)|apply (Hup _ k2)|apply (Hup _ k3)]; first [done|set_solver].
Qed.

(** ** The observers carry the queries out *)

Definition lift_cred (v : event awsCredE) : event feedE := match v with existT _ (e, x) => ev (FeedCred e) x end.
Definition lift_price (v : event pricesE) : event feedE := match v with existT _ (e, x) => ev (FeedPrice e) x end.

Lemma wp_lifted {E R} (into : ∀ X, E X → feedE X) (Q : list (event E) → R → Prop) (p : prog E R) h :
  wp no_contract Q [] p →
  wp no_contract (λ h' r, ∃ k, h' = h ++ ((λ v : event E, match v with existT X (e, x) => ev (into X e) x end) <$> k) ∧ Q k r)
    h (interp (λ X e, call (into X e)) p).
Proof.
  intros Hp. eapply wp_mono; [apply (wp_interp no_contract no_contract _
    (λ k h', h' = h ++ ((λ v : event E, match v with existT X (e, x) => ev (into X e) x end) <$> k)) Q p [] h)|].
  - intros X e k h' ->. apply wp_call. intros x _. split; [done|]. by rewrite fmap_app, app_assoc.
  - by rewrite app_nil_r.
  - done.
  - intros h' r (k & -> & Hk). eauto.
Qed.

Section sourced.
Context `{GoTarget} `{ParseFloats} `{PriceJSON} `{URLs} `{CaseFold} (s : PriceSDKs).

(** The observer's calls [k] behind the answer to a query. *)
Definition behind {X} (e : operatorE X) : X → feed_history → Prop :=
  match e in operatorE X return X → feed_history → Prop with
  | AWSObserve region zone machine => λ x k, ∀ q, x = inr q →
      ∃ scope value kc kp, resolvedScope (aws_sdk s) region = inr scope ∧
        trace_of (retrieve (sc_values scope) (sc_profile scope) region) kc (inr value) ∧
        k = (lift_cred <$> kc) ++ (lift_price <$> kp) ∧ aws_evidence region zone machine kp q
  | AzureObserve region _ machine => λ x k, ∀ q, x = inr q →
      ∃ a kp, azure_sdk s = Some a ∧ k = lift_price <$> kp ∧ azure_evidence (PricesEndpoint a) region machine kp q
  | GCPObserve core ram cpu memory => λ x k, ∃ kp, k = lift_price <$> kp ∧ (requests kp ≤ gcpMaxSkuPages)%nat ∧
      ∀ q, x = inr q → (∃ g, gcp_sdk s = Some g ∧ BillingAPIKey g ≠ "") ∧ gcp_evidence core ram cpu memory kp q
  | _ => λ _ _, True
  end.

Lemma wp_aws_spot region zone machine h :
  wp no_contract (λ h' x, ∃ k, h' = h ++ k ∧ behind (AWSObserve region zone machine) x k) h
    (AWSSpotPrices_Observe (aws_sdk s) region zone machine).
Proof.
  unfold AWSSpotPrices_Observe. assert (∀ err : error, wp no_contract (λ h' x, ∃ k, h' = h ++ k ∧
    behind (AWSObserve region zone machine) x k) h (mret (inl err))) as Hstop.
  { intros err. apply wp_ret. exists []. by rewrite app_nil_r. }
  destruct (aws_sdk s) as [sdk|] eqn:Hsdk; [|apply Hstop]. destruct (resolvedScope _ region) as [err|scope] eqn:Hr; [apply Hstop|].
  apply wp_bind. eapply wp_mono; [apply (wp_lifted (@FeedCred) (trace_of (retrieve (sc_values scope) (sc_profile scope) region)))|].
  { apply wp_traces. by intros k r Ht _. }
  intros h1 [err|value] (kc & -> & Hc); [apply wp_ret; by eexists|].
  eapply wp_mono; [apply (wp_lifted (@FeedPrice)), wp_aws_observe|]. intros h2 x (kp & -> & Hp).
  eexists. split; [by rewrite <- app_assoc|]. intros q ->. exists scope, value, kc, kp. rewrite Hsdk. by split_and!; [..|apply Hp].
Qed.

Lemma wp_azure_spot region zone machine h :
  wp no_contract (λ h' x, ∃ k, h' = h ++ k ∧ behind (AzureObserve region zone machine) x k) h
    (AzureSpotPrices_Observe (azure_sdk s) region machine).
Proof.
  unfold AzureSpotPrices_Observe. destruct (azure_sdk s) as [a|] eqn:Ha; [|apply wp_ret; exists []; by rewrite app_nil_r].
  eapply wp_mono; [apply (wp_lifted (@FeedPrice)), wp_azure_observe|]. intros h' x (kp & -> & Hp).
  eexists. split; [done|]. intros q ->. exists a, kp. by split_and!; [..|apply Hp].
Qed.

Lemma wp_gcp_sku core ram cpu memory h :
  wp no_contract (λ h' x, ∃ k, h' = h ++ k ∧ behind (GCPObserve core ram cpu memory) x k) h
    (GCPSkuPrices_Observe (gcp_sdk s) core ram cpu memory).
Proof.
  unfold GCPSkuPrices_Observe. assert (∀ err : error, wp no_contract (λ h' x, ∃ k, h' = h ++ k ∧
    behind (GCPObserve core ram cpu memory) x k) h (mret (inl err))) as Hstop.
  { intros err. apply wp_ret. exists []. rewrite app_nil_r. split; [done|]. exists []. split_and!; [done|cbn; lia|done]. }
  destruct (gcp_sdk s) as [g|] eqn:Hg; [|apply Hstop]. destruct (String.eqb_spec (BillingAPIKey g) ""); [apply Hstop|].
  eapply wp_mono; [apply (wp_lifted (@FeedPrice)), wp_gcp_observe|]. intros h' x (kp & -> & Hn & Hp).
  eexists. split; [done|]. exists kp. split_and!; [done|done|]. intros q ->. split; [by exists g|by apply Hp].
Qed.

Definition carried (v : event operatorE) (k : feed_history) : Prop :=
  match v with existT _ (e, x) => behind e x k end.

Lemma wp_feed X (e : operatorE X) h :
  wp no_contract (λ h' x, ∃ k, h' = h ++ k ∧ no_contract X e x ∧ carried (ev e x) k) h (feed s X e).
Proof.
  destruct e; try (apply wp_call; intros x _; by eexists);
    [eapply wp_mono; [apply (wp_aws_spot region zone machine)|]|eapply wp_mono; [apply (wp_azure_spot region zone machine)|]|
     eapply wp_mono; [apply wp_gcp_sku|]]; intros h' x (k & -> & Hk); by exists k.
Qed.

End sourced.
