(* ===== verification/AzureOps.v ===== *)
(** * The Azure adapter: operations
    (internal/provider/azure.go, azure_binding.go, azure_image.go)

    The binding of a disk to its machine, the checks of an image, and the
    create, observe, recovery and delete operations. *)
From stdpp Require Import pretty.
From S2P Require Import Prelude.
From S2P Require Import Effects.
From S2P Require Import Encoding.
From S2P Require Import Placement.
From S2P Require Import Resources.
From S2P Require Import Allocation.
From S2P Require Import Provider.
From S2P Require Import Command.
From S2P Require Import Cloud.
From S2P Require Import Azure.

(** [arm.ParseResourceID]: the parts the code reads; the parent with its type
    and text. *)
Record ArmID := {
  arm_SubscriptionID : string;
  arm_ResourceGroupName : string;
  arm_ResourceType : string;
  arm_Name : string;
  arm_Parent : option (string * string)
}.
Class ArmIDs := { ParseResourceID : string → option ArmID }.

Record azureDiskBinding := { bi_vmUID : string; bi_diskUID : string; bi_tags : gmap string string }.

(** Decimal digits with the width 6 of ["%06d"]. *)
Fixpoint zeros (n : nat) : string := match n with O => "" | S n => "0" +:+ zeros n end.
Definition pad6 (x : Z) : string :=
  let digits := pretty (Z.abs x) in
  if x <? 0 then "-" +:+ zeros (5 - String.length digits) +:+ digits else zeros (6 - String.length digits) +:+ digits.
(** [fmt.Sprintf("%d.%06d", m/1000000, m%1000000)] *)
Definition max_price (micros : Z) : string := pretty (Z.quot micros 1000000) +:+ "." +:+ pad6 (Z.rem micros 1000000).

Section adapter.
Context `{CaseFold} `{UUIDs} `{AzureJSON} `{ArmIDs}.
Context (c : ProviderConfig) (interrupted : gmap string bool).   (* [p.AzureInterrupted] *)

(** ** The binding of a disk *)

(** The tag, if it is there, is [want]. *)
Definition tag_agrees (tags : gmap string string) (key want : string) : bool :=
  match tags !! key with Some value => value =s want | None => true end.

Definition tags_owned (tags : gmap string string) (a : Allocation) : bool :=
  (map_get "" tags owner_tag =s pc_Owner c) && (map_get "" tags operation_tag =s ID a).

(** The checks of the disk's own record. *)
Definition bind_disk (a : Allocation) (disk : GenericResource) : result (gmap string string * string) :=
  if negb (azureIdentity c disk disk_type (ID a +:+ "-os")) then inl (errors_new "Azure disk identity unavailable")
  else match azureTagSnapshot (gr_Tags disk) with
  | inl err => inl err
  | inr tags =>
      if negb (tag_agrees tags owner_tag (pc_Owner c) && tag_agrees tags operation_tag (ID a))
      then inl (errors_new "Azure disk has conflicting ownership")
      else if negb (EqualFold (gr_ManagedBy disk) (azureID c vm_type (ID a)))
      then inl (errors_new "Azure disk is not attached to the allocation VM")
      else
        let unconfirmed := inl (errors_new "Azure disk creation binding unconfirmed") in
        match azureProperties decode_disk (gr_Properties disk) with
        | None => unconfirmed
        | Some p =>
            if negb (azureUUID (dp_UniqueID p)) || (dp_ProvisioningState p <>s "Succeeded")
               || negb (EqualFold (dp_CreateOption p) "FromImage")
            then unconfirmed
            else if (dp_ImageID p <>s "") && negb (EqualFold (dp_ImageID p) (off_Image (al_Offering a)))
            then inl (errors_new "Azure disk image binding differs")
            else inr (tags, ToLower (dp_UniqueID p))
        end
  end.

(** The checks of the machine's record. *)
Definition bind_vm (a : Allocation) (vm : GenericResource) : result string :=
  let unowned := inl (errors_new "Azure VM ownership unconfirmed") in
  match azureTagSnapshot (gr_Tags vm) with
  | inl _ => unowned
  | inr tags =>
      if negb (azureIdentity c vm vm_type (ID a)) || negb (tags_owned tags a) then unowned
      else
        let unconfirmed := inl (errors_new "Azure VM creation binding unconfirmed") in
        match azureProperties decode_vm (gr_Properties vm) with
        | None => unconfirmed
        | Some p =>
            if negb (azureUUID (vm_VMID p)) || (vm_ProvisioningState p <>s "Succeeded") then unconfirmed
            else if negb (EqualFold (vm_ImageID p) (off_Image (al_Offering a)))
                    || negb (EqualFold (vm_OSDiskName p) (ID a +:+ "-os"))
                    || negb (EqualFold (vm_OSDiskCreateOption p) "FromImage")
                    || negb (EqualFold (vm_OSDiskManagedID p) (azureID c disk_type (ID a +:+ "-os")))
            then inl (errors_new "Azure VM and disk creation graph differs")
            else inr (ToLower (vm_VMID p))
        end
  end.

(** A recorded generation is unchanged. *)
Definition generation_kept (references : gmap string ResourceReference) (kind uid : string) : bool :=
  match references !! kind with Some previous => UID previous =s uid | None => true end.

(** [azureDiskBinding] *)
Definition disk_binding (a : Allocation) : azureM (result azureDiskBinding) :=
  match azureReferences c a with
  | inl err => mret (inl err)
  | inr references =>
      disk ← get (azureID c disk_type (ID a +:+ "-os")) "2024-03-02";
      match disk with
      | inl _ => mret (inl (errors_new "Azure disk identity unavailable"))
      | inr disk =>
          match bind_disk a disk with
          | inl err => mret (inl err)
          | inr (tags, diskUID) =>
              vm ← get (azureID c vm_type (ID a)) "2024-07-01";
              mret match vm with
                   | inl _ => inl (errors_new "Azure VM ownership unconfirmed")
                   | inr vm =>
                       match bind_vm a vm with
                       | inl err => inl err
                       | inr vmUID =>
                           if generation_kept references "azure-vm" vmUID && generation_kept references "azure-disk" diskUID
                           then inr {| bi_vmUID := vmUID; bi_diskUID := diskUID; bi_tags := tags |}
                           else inl (errors_new "Azure recorded creation generation changed")
                       end
                   end
          end
      end
  end.

(** ** Images *)

Definition azureGalleryImageVersionAPIVersion : string := "2024-03-03".

(** The identity and region of an image resource. *)
Definition image_identity (a : Allocation) (id : ArmID) (type : string) (image : GenericResource) : bool :=
  EqualFold (gr_ID image) (off_Image (al_Offering a)) && EqualFold (gr_Name image) (arm_Name id)
  && EqualFold (gr_Type image) type && EqualFold (gr_Location image) (off_Region (al_Offering a)).

(** [validateAzureManagedImage] *)
Definition validateAzureManagedImage (a : Allocation) (id : ArmID) : azureM (option error) :=
  r ← get (off_Image (al_Offering a)) "2026-04-01";
  mret match r with
       | inl _ => Some (errors_new "Azure image identity or region unconfirmed")
       | inr image =>
           if negb (image_identity a id "Microsoft.Compute/images" image)
           then Some (errors_new "Azure image identity or region unconfirmed")
           else match azureProperties decode_image (gr_Properties image) with
           | Some p =>
               if (ip_ProvisioningState p <>s "Succeeded") || (ip_OSType p <>s "Linux")
                  || (ip_OSState p <>s "Generalized") || negb (ip_DataDisks p =? 0)%nat
               then Some (errors_new "Azure requires an available generalized Linux image with only an OS disk") else None
           | None => Some (errors_new "Azure requires an available generalized Linux image with only an OS disk")
           end
       end.

(** [validateAzureGalleryImageVersion] *)
Definition validateAzureGalleryImageVersion (a : Allocation) (id : ArmID) : azureM (option error) :=
  let unsupported := mret (Some (errors_new "Azure requires a managed-image or gallery-image-version resource ID")) in
  match arm_Parent id with
  | None => unsupported
  | Some (parentType, parent) =>
      if negb (EqualFold parentType "Microsoft.Compute/galleries/images") then unsupported
      else
        r ← get (off_Image (al_Offering a)) azureGalleryImageVersionAPIVersion;
        match r with
        | inl _ => mret (Some (errors_new "Azure image identity or region unconfirmed"))
        | inr version =>
            if negb (image_identity a id "Microsoft.Compute/galleries/images/versions" version)
            then mret (Some (errors_new "Azure image identity or region unconfirmed"))
            else if match azureProperties decode_version (gr_Properties version) with
                    | Some (state, disks) => (state <>s "Succeeded") || negb (disks =? 0)%nat
                    | None => true
                    end
            then mret (Some (errors_new "Azure requires an available gallery image version with only an OS disk"))
            else
              d ← get parent azureGalleryImageVersionAPIVersion;
              mret match d with
                   | inl _ => Some (errors_new "Azure gallery image definition unconfirmed")
                   | inr definition =>
                       if negb (EqualFold (gr_Type definition) "Microsoft.Compute/galleries/images")
                       then Some (errors_new "Azure gallery image definition unconfirmed")
                       else match azureProperties decode_definition (gr_Properties definition) with
                       | Some (osType, osState) =>
                           if (osType <>s "Linux") || (osState <>s "Generalized")
                           then Some (errors_new "Azure requires an available generalized Linux gallery image") else None
                       | None => Some (errors_new "Azure requires an available generalized Linux gallery image")
                       end
                   end
        end
  end.

(** [validateAzureImage] *)
Definition validateAzureImage (a : Allocation) : azureM (option error) :=
  let unsupported := mret (Some (errors_new "Azure requires a managed-image or gallery-image-version resource ID")) in
  match ParseResourceID (off_Image (al_Offering a)) with
  | None => unsupported
  | Some id =>
      if (arm_SubscriptionID id =s "") || (arm_ResourceGroupName id =s "") || (off_Region (al_Offering a) =s "")
      then unsupported
      else if EqualFold (arm_ResourceType id) "Microsoft.Compute/images" then validateAzureManagedImage a id
      else if EqualFold (arm_ResourceType id) "Microsoft.Compute/galleries/images/versions"
      then validateAzureGalleryImageVersion a id
      else unsupported
  end.

(** ** Create *)

Definition azure_tags (a : Allocation) : gmap string string := {[owner_tag := pc_Owner c; operation_tag := ID a]}.

(** The template of [createAzure]. *)
Definition template (a : Allocation) : azureTemplate :=
  let o := al_Offering a in
  let nicID := azureID c nic_type (ID a +:+ "-nic") in
  {| tp_NICName := ID a +:+ "-nic"; tp_Location := off_Region o; tp_Tags := azure_tags a;
     tp_SecurityGroup := SecurityGroup c; tp_Subnet := Subnet c; tp_VMName := ID a; tp_Zones := [off_Zone o];
     tp_DependsOn := [nicID]; tp_VMSize := off_Machine o; tp_Image := off_Image o; tp_OSDiskName := ID a +:+ "-os";
     tp_OSDiskDeleteOption := "Delete"; tp_StorageAccountType := "StandardSSD_LRS";
     tp_DiskControllerType := if AzureDiskControllerType c <>s "" then Some (AzureDiskControllerType c) else None;
     tp_ComputerName := ID a; tp_SSHKey := SSHPublicKey c; tp_NICID := nicID; tp_NICDeleteOption := "Delete";
     tp_MaxPrice := if off_Spot o then Some (max_price (req_MaxPriceMicros (al_Requirements a))) else None |}.

(** The endpoint of the receipt: that of the last interface of the inventory. *)
Fixpoint endpoint_of (resources : list azureResource) (endpoint : string) : string :=
  match resources with
  | [] => endpoint
  | r :: resources' =>
      endpoint_of resources' (if EqualFold (ar_Type r) nic_type then wireGuardEndpoint (ar_PrivateIP r) else endpoint)
  end.

(** [finishAzureDiskOwnership] *)
Definition finishAzureDiskOwnership (a : Allocation) : azureM (Creation * option error) :=
  let vmID := azureID c vm_type (ID a) in
  let stop refs endpoint err : azureM (Creation * option error) := mret (receipt vmID refs endpoint, Some err) in
  binding ← disk_binding a;
  match binding with
  | inl err => stop [] "" err
  | inr binding =>
      let refs := [{| Kind := "azure-vm"; ref_ID := vmID; UID := bi_vmUID binding |};
                   {| Kind := "azure-disk"; ref_ID := azureID c disk_type (ID a +:+ "-os"); UID := bi_diskUID binding |}] in
      match MergeResources (Resources a) refs with
      | inl err => stop refs "" err
      | inr (merged, _) =>
          let proof := set_Resources merged a in
          resources ← azureInventory c proof true;
          match resources with
          | inl err => stop refs "" err
          | inr resources =>
              match azureObservation c proof resources with
              | inl err => stop refs "" err
              | inr observed =>
                  let refs := ob_Resources observed in
                  let endpoint := endpoint_of resources "" in
                  if negb (length resources =? 3)%nat
                  then stop refs endpoint (errors_new "Azure creation dependencies incomplete")
                  else if tags_owned (bi_tags binding) a then mret (receipt vmID refs endpoint, None)
                  else
                    e ← tagDisk c (ID a) (<[operation_tag := ID a]> (<[owner_tag := pc_Owner c]> (bi_tags binding)));
                    match e with
                    | Some err => stop refs endpoint (wrapped "Azure disk ownership tagging incomplete: " err)
                    | None =>
                        confirmed ← disk_binding proof;
                        match confirmed with
                        | inr confirmed =>
                            if (bi_vmUID confirmed <>s bi_vmUID binding) || (bi_diskUID confirmed <>s bi_diskUID binding)
                               || negb (tags_owned (bi_tags confirmed) a)
                            then stop refs endpoint (errors_new "Azure disk ownership update unconfirmed")
                            else mret (receipt vmID refs endpoint, None)
                        | inl _ => stop refs endpoint (errors_new "Azure disk ownership update unconfirmed")
                        end
                    end
              end
          end
      end
  end.

(** After a deployment that failed with [err]. *)
Definition deployment_failed (a : Allocation) (err : error) : azureM (Creation * option error) :=
  let unknown := (no_creation, Some (wrapped "Azure deployment commitment unknown: " err)) in
  rejected ← deploymentCapacityRejected c (ID a);
  if (rejected : bool) then
    resources ← azureInventory c a false;
    mret match resources with
         | inr [] => (no_creation, Some errCapacity)
         | _ => unknown
         end
  else mret unknown.

(** [createAzure] *)
Definition createAzure (a : Allocation) (script : string) : azureM (Creation * option error) :=
  let refuse err : azureM (Creation * option error) := mret (no_creation, Some err) in
  if negb (strings_has_prefix (ToLower (off_Image (al_Offering a))) "/subscriptions/")
  then refuse (errors_new "Azure requires a pinned managed-image resource ID")
  else
    e ← requireVacantCreation c (ID a);
    match e with
    | Some err => refuse err
    | None =>
        e ← validateAzureImage a;
        match e with
        | Some err => refuse err
        | None =>
            e ← deploy c (ID a) (template a) (base64_encode (go_bytes script));
            match e with
            | Some err => deployment_failed a err
            | None => finishAzureDiskOwnership a
            end
        end
    end.

(** ** Observe *)

(** [azureConfirmedPreemption] *)
Definition azureConfirmedPreemption (a : Allocation) : bool :=
  existsb (λ '(id, preempted), preempted && EqualFold id (azureID c vm_type (ID a))) (map_to_list interrupted).

(** The VM identity the record may name. *)
Definition identity_differs (a : Allocation) : bool :=
  (ResourceID a <>s "") && negb (EqualFold (ResourceID a) (azureID c vm_type (ID a))).

Definition set_Interrupted (b : bool) (ob : Observation) : Observation :=
  {| ob_Resources := ob_Resources ob; ob_Exists := ob_Exists ob; ob_Known := ob_Known ob; ob_Interrupted := b;
     ob_ResourceID := ob_ResourceID ob |}.

(** [observeAzure], with [azureTerminal] *)
Definition observeAzure (a : Allocation) : azureM (result Observation) :=
  match azureReferences c a with
  | inl err => mret (inl err)
  | inr _ =>
      if identity_differs a then mret (inl (errors_new "Azure allocation VM identity differs"))
      else
        t ← terminal c (ID a);
        match t with
        | inl err => mret (inl (wrapped "Azure deployment commitment still unknown: Azure deployment observation unavailable: " err))
        | inr false => mret (inl (errors_new "Azure deployment commitment still unknown"))
        | inr true =>
            resources ← azureInventory c a false;
            mret match resources with
                 | inl err => inl err
                 | inr resources =>
                     match azureObservation c a resources with
                     | inl err => inl err
                     | inr ob =>
                         inr (set_Interrupted
                                (negb (ob_Exists ob) && off_Spot (al_Offering a) && azureConfirmedPreemption a) ob)
                     end
                 end
        end
  end.

(** ** Recover a creation *)

(** A machine or disk that does not carry both ownership tags. *)
Definition needs_tags (a : Allocation) (r : azureResource) : bool :=
  (EqualFold (ar_Type r) vm_type || EqualFold (ar_Type r) disk_type) && negb (tags_owned (ar_Tags r) a).

Definition partial_observation (id : string) (refs : list ResourceReference) : Observation :=
  {| ob_Resources := refs; ob_Exists := false; ob_Known := false; ob_Interrupted := false; ob_ResourceID := id |}.

(** The observation that ends [reconcileAzureCreation]. *)
Definition reobserve (a : Allocation) : azureM (Observation * option error) :=
  r ← observeAzure a;
  mret match r with
       | inl err => (partial_observation (ResourceID a) (Resources a), Some err)
       | inr ob => (ob, None)
       end.

(** [reconcileAzureCreation] *)
Definition reconcileAzureCreation (a : Allocation) : azureM (Observation * option error) :=
  let refuse err : azureM (Observation * option error) := mret (no_observation, Some err) in
  match azureReferences c a with
  | inl err => refuse err
  | inr _ =>
      if identity_differs a then refuse (errors_new "Azure allocation VM identity differs")
      else
        t ← terminal c (ID a);
        match t with
        | inr true =>
            resources ← azureInventory c a true;
            match resources with
            | inl err => refuse err
            | inr resources =>
                if existsb (needs_tags a) resources then
                  '(receipt, err) ← finishAzureDiskOwnership a;
                  match err with
                  | Some err => mret (partial_observation (cr_ResourceID receipt) (cr_Resources receipt), Some err)
                  | None =>
                      match MergeResources (Resources a) (cr_Resources receipt) with
                      | inl err => refuse err
                      | inr (merged, _) => reobserve (set_ResourceID (cr_ResourceID receipt) (set_Resources merged a))
                      end
                  end
                else reobserve a
            end
        | _ => refuse (errors_new "Azure deployment commitment still unknown")
        end
  end.

(** ** Delete *)

(** The inner loop: delete the first detached resource of [kind]; [None] when
    there is none. *)
Fixpoint delete_kind (a : Allocation) (kind : string) (resources : list azureResource) : azureM (option (option error)) :=
  match resources with
  | [] => mret None
  | r :: resources' =>
      if EqualFold (ar_Type r) kind then
        if ar_ManagedBy r <>s "" then delete_kind a kind resources'
        else match (if EqualFold kind vm_type then azureVMDeletionBindings c a (ar_VM r) else None) with
        | Some err => mret (Some (Some err))
        | None =>
            e ← delete_resource r;
            mret (Some match e with
                       | Some err => Some (wrapped "Azure deletion commitment unknown: " err)
                       | None => None
                       end)
        end
      else delete_kind a kind resources'
  end.

Fixpoint delete_kinds (a : Allocation) (kinds : list string) (resources : list azureResource) : azureM (option error) :=
  match kinds with
  | [] => mret None
  | kind :: kinds' =>
      r ← delete_kind a kind resources;
      match r with Some e => mret e | None => delete_kinds a kinds' resources end
  end.

(** [deleteAzure] *)
Definition deleteAzure (a : Allocation) : azureM (option error) :=
  match azureReferences c a with
  | inl err => mret (Some err)
  | inr _ =>
      t ← terminal c (ID a);
      match t with
      | inr true =>
          resources ← azureInventory c a false;
          match resources with
          | inl err => mret (Some err)
          | inr resources =>
              match azureObservation c a resources with
              | inl err => mret (Some err)
              | inr ob =>
                  if match MergeResources (Resources a) (ob_Resources ob) with
                     | inl _ => true
                     | inr (_, changed) => changed
                     end
                  then mret (Some (errors_new "Azure dependencies require durable checkpoint before deletion"))
                  else delete_kinds a [vm_type; nic_type; disk_type] resources
              end
          end
      | _ => mret (Some (errors_new "Azure deployment still active; deletion deferred"))
      end
  end.
End adapter.
