(* ===== verification/AzureProps.v ===== *)
(** * Properties of the Azure adapter

    Observations are exact once the deployment is settled; a delete makes one
    change at most, to a proven and recorded resource that nothing uses. *)
From S2P Require Import Prelude.
From S2P Require Import Effects.
From S2P Require Import Placement.
From S2P Require Import Resources.
From S2P Require Import Allocation.
From S2P Require Import Provider.
From S2P Require Import Command.
From S2P Require Import Cloud.
From S2P Require Import Azure.
From S2P Require Import AzureOps.

Abbreviation azure_history := (list (event azureE)).

Section adapter.
Context `{CaseFold} `{UUIDs} `{AzureJSON}.
Context (c : ProviderConfig) (a : Allocation).

(** A request that changes nothing. *)
Definition azure_reads (v : event azureE) : Prop :=
  match v with
  | existT _ (e, _) =>
      match e with BeginCreateOrUpdate _ _ _ _ | BeginUpdateTags _ _ _ | BeginDeleteByID _ _ => False | _ => True end
  end.

(** ** What a history shows *)

Abbreviation spec_id spec := (azureID c (sp_resourceType spec) (sp_name spec)).

Definition shown (h : azure_history) (spec : azureResourceSpec) (resource : GenericResource) : Prop :=
  ev (GetByID (spec_id spec) (sp_version spec)) (inr resource) ∈ h.
Definition missing (h : azure_history) (spec : azureResourceSpec) : Prop :=
  ∃ err, ev (GetByID (spec_id spec) (sp_version spec)) (inl err) ∈ h ∧ azureResourceMissing err = true.

(** The allocation's deployment does not exist or has ended. *)
Definition deployment_settled (h : azure_history) : Prop :=
  ∃ r, ev (DeploymentGet (ResourceGroup c) (ID a)) r ∈ h ∧
    match r with
    | inl err => missingAzureResource err = true
    | inr d => ∃ s, dep_State d = Some s ∧ s ∈ ["Succeeded"; "Failed"; "Canceled"]
    end.

(** The specs read: each missing, or shown and accepted, in order. *)
Inductive specs_read (allow : bool) (refs : gmap string ResourceReference) (k : azure_history)
    : list azureResourceSpec → list azureResource → Prop :=
  | read_nil : specs_read allow refs k [] []
  | read_missing spec specs items :
      missing k spec → specs_read allow refs k specs items → specs_read allow refs k (spec :: specs) items
  | read_found spec specs resource item items :
      shown k spec resource → inspect c a allow refs spec resource = inr item →
      specs_read allow refs k specs items → specs_read allow refs k (spec :: specs) (item :: items).

Lemma specs_read_mono allow refs k k' specs items :
  k ⊆ k' → specs_read allow refs k specs items → specs_read allow refs k' specs items.
Proof.
  intros Hs Hr. induction Hr as [|spec specs items (err & Hin & Hm) _ IH|spec specs resource item items Hsh Hi _ IH].
  - constructor.
  - constructor; [|done]. exists err. auto.
  - econstructor; [|done|done]. by apply Hs.
Qed.

Lemma specs_read_item allow refs k specs items item :
  specs_read allow refs k specs items → item ∈ items →
  ∃ spec resource, spec ∈ specs ∧ shown k spec resource ∧ inspect c a allow refs spec resource = inr item.
Proof.
  intros Hr. induction Hr as [|spec specs items _ _ IH|spec specs resource item' items Hsh Hi _ IH].
  - by intros ?%not_elem_of_nil.
  - intros (spec' & r & ? & ?)%IH. exists spec', r. split; [by right|done].
  - intros [->|(spec' & r & ? & ?)%IH]%elem_of_cons; [exists spec, resource; split; [left|done]|].
    exists spec', r. split; [by right|done].
Qed.

Lemma specs_read_nil allow refs k specs : specs_read allow refs k specs [] → ∀ spec, spec ∈ specs → missing k spec.
Proof.
  intros Hr. remember [] as items eqn:Hnil. induction Hr as [|spec specs items Hm _ IH|]; [| |done].
  - intros spec Hs. by apply not_elem_of_nil in Hs.
  - intros spec' [->|Hs]%elem_of_cons; [done|]. by apply IH.
Qed.

(** ** Errors of the inventory

    They are the code's own: none is an error of the lifecycle's. *)

Definition plain_result {A} (r : result A) : Prop := match r with inl e => err_chain e = [] | inr _ => True end.

Lemma snapshot_plain tags seen snapshot : plain_result (snapshot_tags tags seen snapshot).
Proof.
  revert seen snapshot. induction tags as [|[name [value|]] tags IH]; intros seen snapshot; [done| |done].
  cbn [snapshot_tags]. cbv zeta. case_bool_decide; [done|]. apply IH.
Qed.

Lemma tags_plain tags : plain_result (azureTagSnapshot tags).
Proof. apply snapshot_plain. Qed.

Lemma ownership_plain tags allow e : azureOwnership c tags a allow = Some e → err_chain e = [].
Proof. unfold azureOwnership. cbv zeta. destruct (_ || _); [by intros [= <-]|done]. Qed.

Lemma match_reference_plain specs reference : ∀ refs valid, plain_result (match_reference c specs reference refs valid).
Proof.
  induction specs as [|spec specs IH]; intros refs valid; cbn [match_reference]; [done|].
  destruct (_ <>s _); [done|]. destruct (uuid_Parse _) as [uid|]; [|done]. destruct (_ || _); [done|].
  destruct (isSome _); [done|]. apply IH.
Qed.

Lemma match_references_plain references : ∀ refs, plain_result (match_references c a references refs).
Proof.
  induction references as [|reference references IH]; intros refs; cbn [match_references]; [done|].
  pose proof (match_reference_plain (azureSpecs a) reference refs false) as Hp.
  destruct (match_reference _ _ _ _ _) as [e|[refs' [|]]]; [done|apply IH|done].
Qed.

Lemma references_plain : plain_result (azureReferences c a).
Proof.
  unfold azureReferences. destruct (_ && _); [done|].
  destruct (MergeResources _ _) as [e|[references ch]] eqn:Hm; [by apply merge_error in Hm|]. apply match_references_plain.
Qed.

Lemma match_listed_plain allow specs resource : ∀ seen valid, plain_result (match_listed c a allow specs resource seen valid).
Proof.
  induction specs as [|spec specs IH]; intros seen valid; cbn [match_listed]; [done|].
  destruct (negb _); [apply IH|]. destruct (_ || _); [done|].
  destruct (azureOwnership _ _ _ _) as [e|] eqn:Ho; [by apply ownership_plain in Ho|apply IH].
Qed.

Lemma check_listed_plain allow listed : ∀ seen, plain_result (check_listed c a allow listed seen).
Proof.
  induction listed as [|resource listed IH]; intros seen; cbn [check_listed]; [done|].
  pose proof (match_listed_plain allow (azureSpecs a) resource seen false) as Hp.
  destruct (match_listed _ _ _ _ _ _ _) as [e|[seen' [|]]]; [done|apply IH|done].
Qed.

Lemma inspect_plain allow refs spec resource : plain_result (inspect c a allow refs spec resource).
Proof.
  unfold inspect. destruct (negb _); [done|].
  pose proof (tags_plain (gr_Tags resource)) as Ht. destruct (azureTagSnapshot _) as [e|tags]; [done|].
  destruct (azureOwnership _ _ _ _) as [e|] eqn:Ho; [by apply ownership_plain in Ho|].
  destruct (azureProperties _ _) as [p|]; [|done]. destruct (generation_of _ _ _) as [[value managedBy] ip].
  destruct (uuid_Parse value) as [uid|]; [|done]. destruct (uid =s uuid_Nil); [done|]. cbv zeta.
  by repeat case_match.
Qed.

Lemma resource_references_plain retained specs resource : plain_result (resource_references retained specs resource).
Proof.
  induction specs as [|spec specs IH]; cbn [resource_references]; [done|]. destruct (negb _); [done|]. cbv zeta.
  destruct (retained !! _); [destruct (_ <>s _); [done|]|]; by destruct (resource_references _ _ _).
Qed.

Lemma observed_references_plain retained resources : plain_result (observed_references a retained resources).
Proof.
  induction resources as [|resource resources IH]; cbn [observed_references]; [done|].
  pose proof (resource_references_plain retained (azureSpecs a) resource) as Hp.
  destruct (resource_references _ _ _); [done|]. by destruct (observed_references _ _ _).
Qed.

Lemma observation_plain items : plain_result (azureObservation c a items).
Proof.
  unfold azureObservation. pose proof references_plain as Hr. destruct (azureReferences c a) as [|retained]; [done|].
  pose proof (observed_references_plain retained items) as Ho. destruct (observed_references _ _ _); [done|].
  destruct (MergeResources _ _) as [e|[refs ch]] eqn:Hm; [by apply merge_error in Hm|done].
Qed.

(** ** Reading *)

Lemma wp_azure_get (G : contract azureE) id version h :
  wp G (λ h' r, ∃ k, h' = h ++ k ∧ Forall azure_reads k ∧
    match r with
    | inl err => az_response err = None ∨ ev (GetByID id version) (inl err) ∈ k
    | inr resource => ev (GetByID id version) (inr resource) ∈ k
    end) h (get id version).
Proof.
  unfold get. apply wp_call_bind. intros [err|] _.
  - apply wp_ret. eexists. split_and!; [done|by repeat constructor|by left].
  - apply wp_call. intros r _. rewrite <- app_assoc. eexists. split_and!; [done|by repeat constructor|].
    destruct r; [right|]; set_solver.
Qed.

Lemma missing_response err : azureResourceMissing err = true → az_response err ≠ None.
Proof. unfold azureResourceMissing, response_is. by destruct (az_response err). Qed.

Lemma wp_read_specs (G : contract azureE) allow refs seen specs : ∀ h,
  wp G (λ h' r, ∃ k, h' = h ++ k ∧ Forall azure_reads k ∧
    match r with inl e => err_chain e = [] | inr items => specs_read allow refs k specs items end) h
    (read_specs c a allow refs seen specs).
Proof.
  induction specs as [|spec specs IH]; intros h; cbn [read_specs].
  { apply wp_ret. exists []. rewrite app_nil_r. split_and!; [done|done|constructor]. }
  apply wp_bind. eapply wp_mono; [apply wp_azure_get|]. intros h1 r (k & -> & Hk & Hr).
  destruct r as [err|resource].
  - destruct (azureResourceMissing err) eqn:Hm; [|apply wp_ret; by exists k].
    case_bool_decide; [apply wp_ret; by exists k|].
    eapply wp_mono; [apply IH|]. intros h2 x (k2 & -> & Hk2 & Hx). rewrite <- app_assoc. eexists. split; [done|].
    split; [by apply Forall_app_2|]. destruct x as [e|items]; [done|].
    apply read_missing; [|eapply specs_read_mono; [|done]; set_solver].
    exists err. split; [|done]. destruct Hr as [Hn|Hin]; [by apply missing_response in Hm|]. set_solver.
  - pose proof (inspect_plain allow refs spec resource) as Hp.
    destruct (inspect c a allow refs spec resource) as [e|item] eqn:Hi; [apply wp_ret; by exists k|].
    apply wp_bind. eapply wp_mono; [apply IH|]. intros h2 x (k2 & -> & Hk2 & Hx). apply wp_ret. rewrite <- app_assoc.
    eexists. split; [done|]. split; [by apply Forall_app_2|]. destruct x as [e|items]; [done|].
    eapply read_found; [|done|eapply specs_read_mono; [|done]; set_solver]. unfold shown. set_solver.
Qed.

(** What an inventory has read. *)
Definition inventoried (allow : bool) (k : azure_history) (items : list azureResource) : Prop :=
  ∃ refs, azureReferences c a = inr refs ∧ specs_read allow refs k (azureSpecs a) items.

Lemma wp_azureInventory (G : contract azureE) allow h :
  wp G (λ h' r, ∃ k, h' = h ++ k ∧ Forall azure_reads k ∧
    match r with inl e => err_chain e = [] | inr items => inventoried allow k items end) h (azureInventory c a allow).
Proof.
  unfold azureInventory. pose proof references_plain as Hrp. destruct (azureReferences c a) as [e|refs] eqn:Href;
    [apply wp_ret; exists []; by rewrite app_nil_r|].
  apply wp_bind. eapply wp_mono; [apply (emits_wp azure_reads); unfold list_resources; emit|].
  intros h1 listed (k & -> & Hk). destruct listed as [e|listed]; [apply wp_ret; by exists k|].
  pose proof (check_listed_plain allow listed ∅) as Hlp. destruct (check_listed c a allow listed ∅) as [e|seen]; [apply wp_ret; by exists k|].
  eapply wp_mono; [apply wp_read_specs|]. intros h2 r (k2 & -> & Hk2 & Hr). rewrite <- app_assoc. eexists.
  split; [done|]. split; [by apply Forall_app_2|]. destruct r as [e|items]; [done|].
  exists refs. split; [done|]. eapply specs_read_mono; [|done]. set_solver.
Qed.

Lemma wp_terminal (G : contract azureE) h :
  wp G (λ h' r, ∃ k, h' = h ++ k ∧ Forall azure_reads k ∧ (r = inr true → deployment_settled k)) h (terminal c (ID a)).
Proof.
  unfold terminal. apply wp_call_bind. intros [err|] _.
  { apply wp_ret. eexists. split_and!; [done|by repeat constructor|done]. }
  apply wp_call_bind. intros r _. apply wp_ret. rewrite <- app_assoc. eexists. split; [done|].
  split; [by repeat constructor|]. intros Hr. exists r. split; [set_solver|].
  destruct r as [err|d]; [by destruct (missingAzureResource err)|].
  destruct (dep_State d) as [s|]; [|done]. exists s. split; [done|].
  apply slices_contains_spec. congruence.
Qed.

(** ** Observation *)

Lemma observation_shape items ob :
  azureObservation c a items = inr ob →
  ob_Known ob = true ∧ ob_Exists ob = (0 <? length items)%nat ∧ ob_Interrupted ob = false.
Proof.
  unfold azureObservation. destruct (azureReferences c a); [done|]. destruct (observed_references _ _ _); [done|].
  destruct (MergeResources _ _) as [|[refs ch]]; [done|]. by intros [= <-].
Qed.

(** What ARM holds, by resource ID; it does not change during an observation. *)
Definition azure_answers (w : gmap string GenericResource) : contract azureE := λ X e, match e in azureE T return T → Prop with
  | GetByID id _ => λ r,
      match r with
      | inr resource => w !! id = Some resource
      | inl err => azureResourceMissing err = true → w !! id = None
      end
  | _ => λ _, True
  end.

Lemma specs_read_exact w allow refs k specs items :
  Forall (respects (azure_answers w)) k → specs_read allow refs k specs items →
  items ≠ [] ↔ ∃ spec, spec ∈ specs ∧ is_Some (w !! spec_id spec).
Proof.
  intros Hk Hr. rewrite Forall_forall in Hk. split.
  - intros Hne. destruct items as [|item items]; [done|].
    destruct (specs_read_item _ _ _ _ _ item Hr) as (spec & resource & Hs & Hsh & _); [left|].
    apply Hk in Hsh. exists spec. split; [done|]. exists resource. exact Hsh.
  - intros (spec & Hs & [resource Hw]) ->.
    destruct (specs_read_nil _ _ _ _ Hr spec Hs) as (err & Hin%Hk & Hm). cbn in Hin. rewrite (Hin Hm) in Hw. done.
Qed.

Context `{ArmIDs} (interrupted : gmap string bool).

(** What an observation rests on. *)
Lemma wp_observeAzure :
  wp no_contract (λ h r, Forall azure_reads h ∧ ∀ ob, r = inr ob →
    deployment_settled h ∧ ob_Known ob = true ∧
    (∃ items refs, specs_read false refs h (azureSpecs a) items ∧ ob_Exists ob = (0 <? length items)%nat) ∧
    (ob_Interrupted ob = true → ob_Exists ob = false ∧ off_Spot (al_Offering a) = true ∧
       azureConfirmedPreemption c interrupted a = true)) [] (observeAzure c interrupted a).
Proof.
  unfold observeAzure. destruct (azureReferences c a); [by apply wp_ret|]. destruct (identity_differs c a); [by apply wp_ret|].
  apply wp_bind. eapply wp_mono; [apply wp_terminal|]. intros h1 t (k1 & -> & Hk1 & Hset).
  destruct t as [e|[|]]; [by apply wp_ret| |by apply wp_ret].
  apply wp_bind. eapply wp_mono; [apply wp_azureInventory|]. intros h2 r (k2 & -> & Hk2 & Hr). apply wp_ret.
  split; [by apply Forall_app_2|]. intros ob. destruct r as [e|items]; [done|].
  destruct (azureObservation c a items) as [e|ob'] eqn:Hob; [done|]. intros [= <-].
  apply observation_shape in Hob as (Hkn & Hex & _). destruct Hr as (refs & _ & Hr). split_and!.
  - destruct (Hset eq_refl) as (d & Hd & Hd'). exists d. split; [set_solver|done].
  - done.
  - exists items, refs. split; [|done]. eapply specs_read_mono; [|done]. set_solver.
  - cbn. rewrite !andb_true_iff, negb_true_iff. tauto.
Qed.

(** C25: an observation on Azure is exact.  If ARM does not change during it, an
    observation without error says "exists" exactly when one of the three
    resources of the allocation is there; it is made only when the allocation's
    deployment is missing or has ended, so absence is final; and it says
    "interrupted" only for a spot offering whose machine a confirmed preemption
    event names. *)
Theorem azure_observation_exact w :
  ensures (azure_answers w) (observeAzure c interrupted a) (λ h r, ∀ ob, r = inr ob →
    deployment_settled h ∧ ob_Known ob = true ∧
    (ob_Exists ob = true ↔ ∃ spec, spec ∈ azureSpecs a ∧ is_Some (w !! spec_id spec)) ∧
    (ob_Interrupted ob = true → ob_Exists ob = false ∧ off_Spot (al_Offering a) = true ∧
       ∃ id, interrupted !! id = Some true ∧ EqualFold id (azureID c vm_type (ID a)) = true)).
Proof.
  intros h r Ht Hh ob ->. destruct (trace_wp _ _ _ _ Ht wp_observeAzure) as [_ Hob].
  destruct (Hob ob eq_refl) as (Hset & Hk & (items & refs & Hr & Hex) & Hi). split_and!; [done|done| |].
  - rewrite Hex, length_ltb_true. by eapply specs_read_exact.
  - intros (? & ? & Hp)%Hi. split_and!; [done|done|].
    apply existsb_exists in Hp as ([id b] & Hin%list_elem_of_In%elem_of_map_to_list & Hb).
    apply andb_true_iff in Hb as [-> Hb]. by exists id.
Qed.
End adapter.
