(* ===== verification/AzureSafety.v ===== *)
(** * Safety of the Azure adapter's deletes

    Deletes of proven, recorded and detached resources only, one at a time. *)
From S2P Require Import Prelude.
From S2P Require Import Effects.
From S2P Require Import Placement.
From S2P Require Import Resources.
From S2P Require Import Allocation.
From S2P Require Import Provider.
From S2P Require Import Command.
From S2P Require Import Cloud.
From S2P Require Import Azure.
From S2P Require Import AzureOps.
From S2P Require Import AzureProps.

Section adapter.
Context `{CaseFold} `{UUIDs} `{AzureJSON}.
Context (c : ProviderConfig) (a : Allocation).

Abbreviation spec_id spec := (azureID c (sp_resourceType spec) (sp_name spec)).

(** ** Case folding *)

Lemma fold_refl s : EqualFold s s = true.
Proof. apply String.eqb_refl. Qed.

Lemma fold_join s t u : EqualFold s t = true → EqualFold s u = true → EqualFold t u = true.
Proof. unfold EqualFold. rewrite !String.eqb_eq. congruence. Qed.

Lemma spec_version spec version :
  spec ∈ azureSpecs a → delete_version (sp_resourceType spec) = Some version → version = sp_version spec.
Proof.
  intros Hs. unfold delete_version. cbv zeta.
  assert (ToLower (sp_resourceType spec) = lower_ascii (sp_resourceType spec)) as ->.
  { apply ToLower_ascii. unfold azureSpecs in Hs. rewrite !elem_of_cons, elem_of_nil in Hs.
    destruct Hs as [->|[->|[->|[]]]]; unfold is_ascii; cbn; repeat (constructor; [done|]); constructor. }
  unfold azureSpecs in Hs. rewrite !elem_of_cons, elem_of_nil in Hs.
  destruct Hs as [->|[->|[->|[]]]]; vm_compute; by intros [= <-].
Qed.

(** ** What an accepted resource is *)

Lemma inspect_item allow refs spec resource item :
  inspect c a allow refs spec resource = inr item →
  ar_ID item = spec_id spec ∧ ar_Type item = sp_resourceType spec.
Proof.
  unfold inspect. destruct (negb _); [done|]. destruct (azureTagSnapshot _) as [|tags]; [done|].
  destruct (azureOwnership _ _ _ _); [done|]. destruct (azureProperties _ _) as [p|]; [|done].
  destruct (generation_of _ _ _) as [[value managedBy] ip]. destruct (uuid_Parse value) as [uid|]; [|done].
  destruct (uid =s uuid_Nil); [done|]. cbv zeta. repeat case_match; intros ?; by simplify_eq.
Qed.

(** Recorded references are kept under their kind. *)
Definition keyed (refs : gmap string ResourceReference) : Prop := ∀ kind r, refs !! kind = Some r → Kind r = kind.

Lemma match_reference_keyed specs reference : ∀ refs valid refs' valid',
  match_reference c specs reference refs valid = inr (refs', valid') → keyed refs → keyed refs'.
Proof.
  induction specs as [|spec specs IH]; intros refs valid refs' valid'; cbn [match_reference]; [by intros [= <- _]|].
  destruct (_ <>s _); [apply IH|]. destruct (uuid_Parse _) as [uid|]; [|done]. destruct (_ || _); [done|].
  destruct (isSome _); [done|]. intros Hm Hk. eapply IH; [exact Hm|].
  intros kind r [[<- <-]|[_ Hr]]%lookup_insert_Some; [done|by apply Hk].
Qed.

Lemma match_references_keyed references : ∀ refs refs',
  match_references c a references refs = inr refs' → keyed refs → keyed refs'.
Proof.
  induction references as [|reference references IH]; intros refs refs'; cbn [match_references]; [by intros [= <-]|].
  destruct (match_reference _ _ _ _ _) as [|[refs1 [|]]] eqn:Hm; try done. intros Hms Hk.
  eapply IH; [exact Hms|]. by eapply match_reference_keyed.
Qed.

Lemma references_keyed refs : azureReferences c a = inr refs → keyed refs.
Proof.
  unfold azureReferences. destruct (_ && _); [done|]. destruct (MergeResources _ _) as [|[references ch]]; [done|].
  intros Hm. eapply match_references_keyed; [exact Hm|]. by intros kind r ?.
Qed.

Lemma resource_references_own retained specs resource refs spec :
  keyed retained → resource_references retained specs resource = inr refs → spec ∈ specs →
  ar_Type resource = sp_resourceType spec →
  ∃ r, r ∈ refs ∧ Kind r = sp_kind spec ∧ UID r = ar_UID resource.
Proof.
  intros Hk. revert refs. induction specs as [|s specs IH]; intros refs Hr Hs Ht; [by apply not_elem_of_nil in Hs|].
  cbn [resource_references] in Hr. cbv zeta in Hr. apply elem_of_cons in Hs as [->|Hs].
  - rewrite Ht, fold_refl in Hr. cbn [negb] in Hr. destruct (retained !! sp_kind s) as [p|] eqn:Hp.
    + destruct (String.eqb_spec (UID p) (ar_UID resource)) as [Hu|]; [|done]. cbn [negb] in Hr.
      destruct (resource_references _ _ _); simplify_eq. exists p. split_and!; [left|by apply Hk|done].
    + destruct (resource_references _ _ _); simplify_eq. eexists. split_and!; [left|done|done].
  - assert (∀ r0, match resource_references retained specs resource with inl e => inl e | inr rest => inr (r0 :: rest) end
      = inr refs → ∃ r, r ∈ refs ∧ Kind r = sp_kind spec ∧ UID r = ar_UID resource) as Hgo.
    { intros r0. destruct (resource_references _ _ _) as [|rest]; [done|]. intros [= <-].
      destruct (IH rest) as (r & ? & ?); [done..|]. exists r. split; [by right|done]. }
    destruct (negb _); [by apply IH|]. destruct (retained !! _); [destruct (_ <>s _); [done|]|]; by eapply Hgo.
Qed.

Lemma observed_references_own retained resources found resource spec :
  keyed retained → observed_references a retained resources = inr found → resource ∈ resources →
  spec ∈ azureSpecs a → ar_Type resource = sp_resourceType spec →
  ∃ r, r ∈ found ∧ Kind r = sp_kind spec ∧ UID r = ar_UID resource.
Proof.
  intros Hk Hf Hin Hs Ht. revert found Hf.
  induction resources as [|x resources IH]; intros found; [by apply not_elem_of_nil in Hin|]. cbn [observed_references].
  destruct (resource_references _ _ _) as [|refs] eqn:Hr; [done|].
  destruct (observed_references _ _ _) as [|rest]; [done|]. intros [= <-]. apply elem_of_cons in Hin as [->|Hin].
  - destruct (resource_references_own _ _ _ _ _ Hk Hr Hs Ht) as (r & ? & ?). exists r. rewrite elem_of_app. tauto.
  - destruct (IH Hin rest eq_refl) as (r & ? & ?). exists r. rewrite elem_of_app. tauto.
Qed.

(** An observation that adds nothing to the record: each resource is in it. *)
Lemma observed_recorded resources ob m resource spec :
  azureObservation c a resources = inr ob → MergeResources (Resources a) (ob_Resources ob) = inr (m, false) →
  resource ∈ resources → spec ∈ azureSpecs a → ar_Type resource = sp_resourceType spec →
  ∃ r, r ∈ Resources a ∧ Kind r = sp_kind spec ∧ UID r = ar_UID resource.
Proof.
  unfold azureObservation. destruct (azureReferences c a) as [|retained] eqn:Href; [done|].
  destruct (observed_references _ _ _) as [|found] eqn:Hf; [done|].
  destruct (MergeResources [] _) as [|[refs ch]] eqn:Hm1; [done|]. intros [= <-] Hm2 Hin Hs Ht. cbn in Hm2.
  destruct (observed_references_own _ _ _ _ _ (references_keyed _ Href) Hf Hin Hs Ht) as (r & Hr & Hrest).
  exists r. split; [|done]. rewrite (merge_unchanged _ _ _ Hm2).
  apply merge_spec in Hm1 as (_ & _ & Hm1 & _), Hm2 as (_ & _ & Hm2 & _).
  apply Hm2. right. apply Hm1. right. by apply elem_of_app; right.
Qed.

(** ** Delete *)

(** What is proven of a resource before it is deleted. *)
Definition deletable (pre : azure_history) (spec : azureResourceSpec) : Prop :=
  ∃ refs resource item, azureReferences c a = inr refs ∧ shown c pre spec resource ∧
    inspect c a false refs spec resource = inr item ∧ ar_ManagedBy item = "" ∧
    (∃ r, r ∈ Resources a ∧ Kind r = sp_kind spec ∧ UID r = ar_UID item) ∧
    (sp_resourceType spec = vm_type → azureVMDeletionBindings c a (ar_VM item) = None).

(** When each change may be requested. *)
Definition azure_delete_safe (pre : azure_history) (v : event azureE) : Prop :=
  match v with
  | existT _ (e, _) =>
      match e with
      | BeginCreateOrUpdate _ _ _ _ | BeginUpdateTags _ _ _ => False
      | BeginDeleteByID id version =>
          Forall azure_reads pre ∧ deployment_settled c a pre ∧
          ∃ spec, spec ∈ azureSpecs a ∧ id = spec_id spec ∧ version = sp_version spec ∧ deletable pre spec
      | _ => True
      end
  end.

Lemma azure_reads_safe h : Forall azure_reads h → at_every azure_delete_safe h.
Proof. apply at_every_only. intros pre v. by destruct v as [X [[] x]]. Qed.

(** What the inventory and the record say of each resource. *)
Definition accounted (pre : azure_history) (item : azureResource) : Prop :=
  ∃ refs spec resource, azureReferences c a = inr refs ∧ spec ∈ azureSpecs a ∧ shown c pre spec resource ∧
    inspect c a false refs spec resource = inr item ∧
    ∃ r, r ∈ Resources a ∧ Kind r = sp_kind spec ∧ UID r = ar_UID item.

Lemma wp_delete_resource h item :
  Forall azure_reads h → deployment_settled c a h → accounted h item → ar_ManagedBy item = "" →
  (ar_Type item = vm_type → azureVMDeletionBindings c a (ar_VM item) = None) →
  wp no_contract (λ h' _, at_every azure_delete_safe h') h (delete_resource item).
Proof.
  intros Hro (d & Hd & Hst) (refs & spec & resource & Href & Hs & Hsh & Hi & Hrec) Hm Hb. unfold delete_resource.
  destruct (inspect_item _ _ _ _ _ Hi) as [Hid Hty].
  apply wp_call_bind. intros [e|] _; [apply wp_ret, azure_reads_safe, Forall_app_2; [done|by repeat constructor]|].
  destruct (delete_version _) as [version|] eqn:Hv;
    [|apply wp_ret, azure_reads_safe, Forall_app_2; [done|by repeat constructor]].
  assert (Forall azure_reads (h ++ [ev NewResourcesClient None])) as Hro' by (apply Forall_app_2; [done|by repeat constructor]).
  apply wp_call_bind. intros e _. apply wp_ret, at_every_snoc; [by apply azure_reads_safe|].
  cbn. split; [done|]. split; [exists d; split; [set_solver|done]|]. exists spec. rewrite Hty in Hv.
  split_and!; [done|done|by apply spec_version|]. exists refs, resource, item. split_and!; try done.
  - unfold shown. set_solver.
  - intros Ht. apply Hb. congruence.
Qed.

Lemma wp_delete_kind h kind items :
  Forall azure_reads h → deployment_settled c a h → Forall (accounted h) items →
  wp no_contract (λ h' r, at_every azure_delete_safe h' ∧ (r = None → h' = h)) h (delete_kind c a kind items).
Proof.
  intros Hro Hset Hit. induction Hit as [|item items Hi _ IH]; cbn [delete_kind].
  { apply wp_ret. split; [by apply azure_reads_safe|done]. }
  destruct (EqualFold (ar_Type item) kind) eqn:Hk; [|done].
  destruct (String.eqb_spec (ar_ManagedBy item) "") as [Hm|]; [|done]. cbn [negb].
  destruct (if EqualFold kind vm_type then _ else _) as [e|] eqn:Hb;
    [apply wp_ret; split; [by apply azure_reads_safe|done]|].
  apply wp_bind. eapply wp_mono; [apply wp_delete_resource; try done|].
  - intros Ht. rewrite (fold_join (ar_Type item) kind vm_type) in Hb; [done|done|]. rewrite Ht. apply fold_refl.
  - intros h' r Hh. by apply wp_ret.
Qed.

Lemma wp_delete_kinds h kinds items :
  Forall azure_reads h → deployment_settled c a h → Forall (accounted h) items →
  wp no_contract (λ h' _, at_every azure_delete_safe h') h (delete_kinds c a kinds items).
Proof.
  intros Hro Hset Hit. induction kinds as [|kind kinds IH]; cbn [delete_kinds]; [by apply wp_ret, azure_reads_safe|].
  apply wp_bind. eapply wp_mono; [by apply wp_delete_kind|]. intros h' [e|] [Hs Heq]; [by apply wp_ret|]. by rewrite Heq.
Qed.

(** C26: a delete on Azure makes at most one change, and only to a resource that
    is proven to be the allocation's, once its deployment is missing or has
    ended.  The resource has one of the allocation's three names; this call was
    shown it with the allocation's tags and a valid generation, which is the
    generation the record has for that kind; it is attached to nothing; and a
    machine is deleted only if its only disk and interface are the
    allocation's own, so that the cascade reaches nothing else. *)
Theorem azure_delete_proven :
  ensures no_contract (deleteAzure c a) (λ h _, at_every azure_delete_safe h).
Proof.
  apply wp_ensures. unfold deleteAzure. destruct (azureReferences c a) as [|refs0] eqn:Href; [by apply wp_ret, azure_reads_safe|].
  apply wp_bind. eapply wp_mono; [apply wp_terminal|]. intros h1 t (k1 & -> & Hk1 & Hset). cbn [app].
  destruct t as [e|[|]]; [by apply wp_ret, azure_reads_safe| |by apply wp_ret, azure_reads_safe].
  apply wp_bind. eapply wp_mono; [apply wp_azureInventory|]. intros h2 r (k2 & -> & Hk2 & Hr).
  pose proof (Forall_app_2 _ _ _ Hk1 Hk2) as Hro. destruct (Hset eq_refl) as (d & Hd & Hst).
  destruct r as [e|items]; [by apply wp_ret, azure_reads_safe|]. destruct Hr as (refs & Href' & Hr).
  destruct (azureObservation c a items) as [e|ob] eqn:Hob; [by apply wp_ret, azure_reads_safe|].
  destruct (MergeResources _ _) as [e|[m [|]]] eqn:Hm; [by apply wp_ret, azure_reads_safe..|].
  apply wp_delete_kinds; [done|exists d; split; [set_solver|done]|]. apply Forall_forall. intros item Hin.
  destruct (specs_read_item _ _ _ _ _ _ _ item Hr Hin) as (spec & resource & Hs & Hsh & Hi).
  destruct (inspect_item _ _ _ _ _ Hi) as [_ Hty]. exists refs, spec, resource. split_and!; try done.
  - unfold shown in *. set_solver.
  - by eapply observed_recorded.
Qed.
End adapter.
