(* ===== verification/AzureCreate.v ===== *)
(** * Safety of the Azure adapter's creates

    One deployment per create, on vacant names, then at most one change of the
    tags of the allocation's own disk; with a truthful outcome. *)
From S2P Require Import Prelude.
From S2P Require Import Effects.
From S2P Require Import Encoding.
From S2P Require Import Placement.
From S2P Require Import Resources.
From S2P Require Import Allocation.
From S2P Require Import Provider.
From S2P Require Import Command.
From S2P Require Import Cloud.
From S2P Require Import Azure.
From S2P Require Import AzureOps.
From S2P Require Import AzureProps.

Section adapter.
Context `{CaseFold} `{UUIDs} `{AzureJSON}.
Context (c : ProviderConfig) (a : Allocation).

(** The SDK's errors are not the lifecycle's. *)
Definition azure_sdk : contract azureE := λ X e, match e in azureE T return T → Prop with
  | NewResourcesClient | NewDeploymentsClient | BeginCreateOrUpdate _ _ _ _ | PollDeployment
  | BeginUpdateTags _ _ _ | PollUpdate => λ r, ∀ e, r = Some e → no_sentinel e
  | _ => λ _, True
  end.

Lemma wp_vacant_names names : ∀ h,
  wp no_contract (λ h' r, ∃ k, h' = h ++ k ∧ Forall azure_reads k ∧
    match r with
    | Some e => no_sentinel e
    | None => ∀ kind name version, (kind, name, version) ∈ names →
        ∃ err, ev (GetByID (azureID c kind name) version) (inl err) ∈ k ∧ azureResourceMissing err = true
    end) h (vacant_names c names).
Proof.
  induction names as [|[[kind name] version] names IH]; intros h; cbn [vacant_names].
  { apply wp_ret. exists []. rewrite app_nil_r. split_and!; [done|done|]. intros ???. by rewrite elem_of_nil. }
  apply wp_bind. eapply wp_mono; [apply wp_azure_get|]. intros h1 r (k & -> & Hk & Hr).
  destruct r as [err|resource]; [|apply wp_ret; exists k; auto with cloud].
  destruct (response_is err _) eqn:Hm; [|apply wp_ret; exists k; auto with cloud].
  eapply wp_mono; [apply IH|]. intros h2 x (k2 & -> & Hk2 & Hx). rewrite <- app_assoc. eexists. split; [done|].
  split; [by apply Forall_app_2|]. destruct x as [e|]; [done|]. intros kind' name' version' Hin.
  apply elem_of_cons in Hin as [Hin|(err' & ? & ?)%Hx]; [|exists err'; set_solver]. simplify_eq. exists err.
  split; [|done]. destruct Hr as [Hn|Hin]; [by apply missing_response in Hm|]. set_solver.
Qed.

(** The names of the deployment and of its resources are free. *)
Definition vacant (k : azure_history) : Prop :=
  (∃ err, ev (DeploymentGet (ResourceGroup c) (ID a)) (inl err) ∈ k ∧ missingAzureResource err = true) ∧
  ∀ spec, spec ∈ azureSpecs a → missing c k spec.

Lemma vacant_mono k k' : k ⊆ k' → vacant k → vacant k'.
Proof.
  intros Hs [(err & ? & ?) Hm]. split; [exists err; auto|]. intros spec (err' & ? & ?)%Hm. exists err'. auto.
Qed.

Lemma wp_requireVacantCreation h :
  wp no_contract (λ h' r, ∃ k, h' = h ++ k ∧ Forall azure_reads k ∧
    match r with Some e => no_sentinel e | None => vacant k end) h (requireVacantCreation c (ID a)).
Proof.
  unfold requireVacantCreation. apply wp_call_bind. intros [e|] _.
  { apply wp_ret. eexists. split_and!; [done|by repeat constructor|auto with cloud]. }
  apply wp_call_bind. intros [err|d] _;
    [|apply wp_ret; rewrite <- app_assoc; eexists; split_and!; [done|by repeat constructor|auto with cloud]].
  destruct (response_is _ _) eqn:Hm;
    [|apply wp_ret; rewrite <- app_assoc; eexists; split_and!; [done|by repeat constructor|auto with cloud]].
  eapply wp_mono; [apply wp_vacant_names|]. intros h' r (k & -> & Hk & Hr). rewrite <- !app_assoc. eexists.
  split; [done|]. split; [by repeat constructor|]. destruct r as [e|]; [done|]. split.
  - exists err. split; [set_solver|done].
  - intros spec Hs. destruct (Hr (sp_resourceType spec) (sp_name spec) (sp_version spec)) as (err' & Hin & Hmiss).
    + unfold azureSpecs in Hs. rewrite !elem_of_cons, elem_of_nil in Hs. destruct Hs as [->|[->|[->|[]]]]; set_solver.
    + exists err'. split; [set_solver|done].
Qed.

Context `{ArmIDs}.

Lemma reads_validateAzureImage : emits azure_reads (validateAzureImage a).
Proof.
  unfold validateAzureImage, validateAzureManagedImage, validateAzureGalleryImageVersion, get. emit.
Qed.

Lemma wp_validateAzureImage h :
  wp no_contract (λ h' r, ∃ k, h' = h ++ k ∧ Forall azure_reads k ∧ ∀ e, r = Some e → no_sentinel e) h
    (validateAzureImage a).
Proof.
  eapply wp_mono; [apply wp_and; [apply (emits_wp azure_reads), reads_validateAzureImage|
    apply (wp_mono _ (λ _ r, ∀ e, r = Some e → no_sentinel e))]|].
  - unfold validateAzureImage, validateAzureManagedImage, validateAzureGalleryImageVersion, get.
    wp_explore; intros e0 ?; simplify_eq; auto with cloud; repeat case_match; simplify_eq; auto with cloud.
  - intros h' r Hr. exact Hr.
  - intros h' r [(k & -> & Hk) Hr]. eauto.
Qed.

(** ** The binding of the disk *)

(** Disk and machine were read, and each names the other. *)
Definition bound (k : azure_history) (b : azureDiskBinding) : Prop :=
  ∃ disk vm, ev (GetByID (azureID c disk_type (ID a +:+ "-os")) "2024-03-02") (inr disk) ∈ k ∧
    ev (GetByID (azureID c vm_type (ID a)) "2024-07-01") (inr vm) ∈ k ∧
    bind_disk c a disk = inr (bi_tags b, bi_diskUID b) ∧ bind_vm c a vm = inr (bi_vmUID b).

Lemma bound_mono k k' b : k ⊆ k' → bound k b → bound k' b.
Proof. intros Hs (disk & vm & ? & ? & ? & ?). exists disk, vm. auto. Qed.

Lemma bind_disk_plain disk : plain_result (bind_disk c a disk).
Proof.
  unfold bind_disk. destruct (negb _); [done|]. pose proof (tags_plain (gr_Tags disk)) as Ht.
  destruct (azureTagSnapshot _) as [|tags]; [done|]. by repeat case_match.
Qed.

Lemma bind_vm_plain vm : plain_result (bind_vm c a vm).
Proof. unfold bind_vm. by repeat case_match. Qed.

Lemma wp_disk_binding h :
  wp no_contract (λ h' r, ∃ k, h' = h ++ k ∧ Forall azure_reads k ∧
    match r with inl e => err_chain e = [] | inr b => bound k b end) h (disk_binding c a).
Proof.
  unfold disk_binding. pose proof (references_plain c a) as Hrp. destruct (azureReferences c a) as [e|refs];
    [apply wp_ret; exists []; by rewrite app_nil_r|].
  apply wp_bind. eapply wp_mono; [apply wp_azure_get|]. intros h1 [err|disk] (k1 & -> & Hk1 & Hd);
    [apply wp_ret; by exists k1|].
  pose proof (bind_disk_plain disk) as Hdp. destruct (bind_disk c a disk) as [e|[tags uid]] eqn:Hbd;
    [apply wp_ret; by exists k1|].
  apply wp_bind. eapply wp_mono; [apply wp_azure_get|]. intros h2 r (k2 & -> & Hk2 & Hv). apply wp_ret.
  rewrite <- app_assoc. eexists. split; [done|]. split; [by apply Forall_app_2|]. destruct r as [err|vm]; [done|].
  pose proof (bind_vm_plain vm) as Hvp. destruct (bind_vm c a vm) as [e|vmUID] eqn:Hbv; [done|].
  destruct (_ && _); [|done]. exists disk, vm. split_and!; [set_solver|set_solver|done|done].
Qed.
End adapter.

Section create.
Context `{CaseFold} `{UUIDs} `{AzureJSON} `{ArmIDs}.
Context (c : ProviderConfig) (a : Allocation).

(** ** Ownership of the disk *)

(** After the deployment: reads, and one change of tags that adds the ownership
    of a disk this call found bound to the allocation's machine. *)
Definition tag_safe (pre : azure_history) (v : event azureE) : Prop :=
  azure_reads v ∨
  Forall azure_reads pre ∧ ∃ b r, bound c a pre b ∧ tags_owned c (bi_tags b) a = false ∧
    v = ev (BeginUpdateTags (azureID c disk_type (ID a +:+ "-os")) "2024-03-02"
              (<[operation_tag := ID a]> (<[owner_tag := pc_Owner c]> (bi_tags b)))) r.

Lemma reads_tag_safe k : Forall azure_reads k → at_every tag_safe k.
Proof. apply at_every_only. intros pre v Hv. by left. Qed.

Lemma tag_safe_cons v k : azure_reads v → at_every tag_safe k → at_every tag_safe (v :: k).
Proof.
  intros Hv Hk [|v' pre] w post [= <- Heq]; [by left|].
  destruct (Hk pre w post Heq) as [Hw|(Hpre & b & r & Hb & Hw)]; [by left|right].
  split; [by constructor|]. exists b, r. split; [|done]. eapply bound_mono; [|exact Hb]. set_solver.
Qed.

(** What the end of a create says. *)
Definition owned_receipt (k : azure_history) (creation : Creation) (err : option error) : Prop :=
  cr_ResourceID creation = azureID c vm_type (ID a) ∧
  match err with
  | Some e => Forall (respects azure_sdk) k → no_sentinel e
  | None => ∃ b, bound c a k b ∧ tags_owned c (bi_tags b) a = true
  end.

Lemma owned_stop k refs endpoint e :
  no_sentinel e → owned_receipt k (receipt (azureID c vm_type (ID a)) refs endpoint) (Some e).
Proof. by split. Qed.

Lemma wp_tagDisk h tags :
  wp no_contract (λ h' r, ∃ k, h' = h ++ k ∧ (Forall (respects azure_sdk) k → ∀ e, r = Some e → no_sentinel e) ∧
    ((Forall azure_reads k) ∨ ∃ x k', k = ev NewResourcesClient None
       :: ev (BeginUpdateTags (azureID c disk_type (ID a +:+ "-os")) "2024-03-02" tags) x :: k' ∧ Forall azure_reads k'))
    h (tagDisk c (ID a) tags).
Proof.
  unfold tagDisk. apply wp_call_bind. intros [e|] _.
  { apply wp_ret. eexists. split; [done|]. split; [|left; by repeat constructor]. intros Hk%Forall_inv e' He. by apply Hk. }
  apply wp_call_bind. intros [e|] _.
  { apply wp_ret. rewrite <- app_assoc. eexists. split; [done|].
    split; [intros [_ Hk%Forall_inv]%Forall_cons e' He; by apply Hk|right; eexists _, []; by split]. }
  apply wp_call. intros r _. rewrite <- !app_assoc. eexists. split; [done|].
  split; [|right; eexists _, _; split; [done|by repeat constructor]].
  intros [_ [_ Hk%Forall_inv]%Forall_cons]%Forall_cons e' He. by apply Hk.
Qed.

(** The end of a create, from the disk's binding on. *)
Lemma wp_finish h :
  wp no_contract (λ h' '(creation, err), ∃ k, h' = h ++ k ∧ at_every tag_safe k ∧ owned_receipt k creation err) h
    (finishAzureDiskOwnership c a).
Proof.
  unfold finishAzureDiskOwnership. cbv zeta.
  assert (∀ h k refs endpoint e, Forall azure_reads k → no_sentinel e → ∃ k',
    h ++ k = h ++ k' ∧ at_every tag_safe k' ∧
    owned_receipt k' (receipt (azureID c vm_type (ID a)) refs endpoint) (Some e)) as Hstop.
  { intros h0 k refs endpoint e Hk He. exists k. split_and!; [done|by apply reads_tag_safe|by apply owned_stop]. }
  apply wp_bind. eapply wp_mono; [apply wp_disk_binding|]. intros h1 r (k1 & -> & Hk1 & Hb).
  destruct r as [e|b]; [apply wp_ret; apply Hstop; [done|by apply plain_error]|].
  destruct (MergeResources _ _) as [e|[merged ch]] eqn:Hm;
    [apply wp_ret; apply Hstop; [done|by eapply plain_error, merge_error]|].
  apply wp_bind. eapply wp_mono; [apply wp_azureInventory|]. intros h2 r (k2 & -> & Hk2 & Hr).
  rewrite <- app_assoc. pose proof (Forall_app_2 _ _ _ Hk1 Hk2) as Hk. apply (bound_mono _ _ _ (k1 ++ k2)) in Hb; [|set_solver].
  destruct r as [e|items]; [apply wp_ret; apply Hstop; [done|by apply plain_error]|].
  pose proof (observation_plain c (set_Resources merged a) items) as Hop.
  destruct (azureObservation _ _ _) as [e|ob]; [apply wp_ret; apply Hstop; [done|by apply plain_error]|].
  destruct (negb _); [apply wp_ret; apply Hstop; [done|by apply plain_error]|].
  destruct (tags_owned c (bi_tags b) a) eqn:Ho.
  { apply wp_ret. exists (k1 ++ k2). split_and!; [done|by apply reads_tag_safe|]. split; [done|]. by exists b. }
  apply wp_bind. eapply wp_mono; [apply wp_tagDisk|]. intros h3 r (k3 & -> & Herr & Hk3).
  rewrite <- app_assoc. assert (at_every tag_safe ((k1 ++ k2) ++ k3)) as Hsafe.
  { destruct Hk3 as [Hk3|(x & k' & -> & Hk')]; [apply reads_tag_safe; by apply Forall_app_2|].
    rewrite (cons_middle _ _ (_ :: _)), app_assoc, (cons_middle _ _ k'), app_assoc.
    apply (at_every_app _ azure_reads); [by left| |done]. apply at_every_snoc.
    - apply reads_tag_safe, Forall_app_2; [done|by repeat constructor].
    - right. split; [apply Forall_app_2; [done|by repeat constructor]|]. exists b, x. split_and!; [|done|done].
      eapply bound_mono; [|exact Hb]. set_solver. }
  destruct r as [e|].
  { apply wp_ret. eexists. split; [done|]. split; [done|]. split; [done|]. intros [_ Hr3]%Forall_app.
    by apply wrapped_sentinel, Herr. }
  apply wp_bind. eapply wp_mono; [apply wp_disk_binding|]. intros h4 r (k4 & -> & Hk4 & Hb2). rewrite <- app_assoc.
  assert (at_every tag_safe (((k1 ++ k2) ++ k3) ++ k4)) as Hsafe' by (apply (at_every_app _ azure_reads); [by left|done|done]).
  destruct r as [e|b2]; [apply wp_ret; eexists; split; [done|]; split; [done|]; apply owned_stop; by apply plain_error|].
  destruct (_ || _) eqn:Hc; [apply wp_ret; eexists; split; [done|]; split; [done|]; apply owned_stop; by apply plain_error|].
  apply wp_ret. eexists. split; [done|]. split; [done|]. split; [done|]. exists b2. split.
  - eapply bound_mono; [|exact Hb2]. set_solver.
  - apply orb_false_iff in Hc as [_ Hc]. by apply negb_false_iff in Hc.
Qed.

(** ** Create *)

(** The deployment failed for want of capacity and left nothing. *)
Definition capacity_shown (k : azure_history) : Prop :=
  (∀ spec, spec ∈ azureSpecs a → missing c k spec) ∧
  ∃ d e, ev (DeploymentGet (ResourceGroup c) (ID a)) (inr d) ∈ k ∧ dep_State d = Some "Failed" ∧
    dep_Error d = Some e ∧ azureCapacityFailure e = true.

(** An error without a receipt: never "no effect", and capacity only if shown. *)
Definition failed (k : azure_history) (creation : Creation) (err : option error) : Prop :=
  creation = no_creation ∧ ∃ e, err = Some e ∧ errors_is e ErrNoEffect = false ∧
    (errors_is e ErrCapacity = true → capacity_shown k).

Lemma failed_plain k e : no_sentinel e → failed k no_creation (Some e).
Proof. intros [Hn Hc]. split; [done|]. exists e. split_and!; [done|done|congruence]. Qed.

Lemma failed_mono k k' creation err : k ⊆ k' → failed k creation err → failed k' creation err.
Proof.
  intros Hs (? & e & ? & ? & Hc). split; [done|]. exists e. split_and!; [done|done|].
  intros (Hm & d & x & ? & ?)%Hc. split.
  - intros spec (err' & ? & ?)%Hm. exists err'. auto.
  - exists d, x. auto.
Qed.

Lemma wp_capacity h :
  wp no_contract (λ h' r, ∃ k, h' = h ++ k ∧ Forall azure_reads k ∧ (r = true →
    ∃ d e, ev (DeploymentGet (ResourceGroup c) (ID a)) (inr d) ∈ k ∧ dep_State d = Some "Failed" ∧
      dep_Error d = Some e ∧ azureCapacityFailure e = true)) h (deploymentCapacityRejected c (ID a)).
Proof.
  unfold deploymentCapacityRejected. apply wp_call_bind. intros [e|] _.
  { apply wp_ret. eexists. split_and!; [done|by repeat constructor|done]. }
  apply wp_call_bind. intros r _. apply wp_ret. rewrite <- app_assoc. eexists. split; [done|].
  split; [by repeat constructor|]. destruct r as [err|[[state|] e]]; try done.
  destruct (String.eqb_spec state "Failed") as [->|]; [|done]. destruct e as [e|]; [|done]. intros Hc.
  exists {| dep_State := Some "Failed"; dep_Error := Some e |}, e. split; [set_solver|done].
Qed.

Lemma wp_deployment_failed h e :
  wp no_contract (λ h' '(creation, err), ∃ k, h' = h ++ k ∧ Forall azure_reads k ∧
    (no_sentinel e → failed k creation err)) h (deployment_failed c a e).
Proof.
  unfold deployment_failed. cbv zeta. apply wp_bind. eapply wp_mono; [apply wp_capacity|].
  intros h1 rejected (k1 & -> & Hk1 & Hrej).
  destruct rejected; [|apply wp_ret; exists k1; split_and!; [done|done|intros; by apply failed_plain, wrapped_sentinel]].
  destruct (Hrej eq_refl) as (d & x & Hd & Hx). apply wp_bind. eapply wp_mono; [apply wp_azureInventory|].
  intros h2 r (k2 & -> & Hk2 & Hr). apply wp_ret. rewrite <- app_assoc.
  destruct r as [e'|[|item items]]; eexists; (split; [done|]); (split; [by apply Forall_app_2|]); intros Hs;
    try (by apply failed_plain, wrapped_sentinel).
  split; [done|]. exists errCapacity. split_and!; [done|done|]. intros _. destruct Hr as (refs & _ & Hr). split.
  - intros spec Hspec. destruct (specs_read_nil _ _ _ _ _ _ Hr spec Hspec) as (err & ? & ?). exists err. set_solver.
  - exists d, x. split; [set_solver|done].
Qed.

(** What the outcome of a create says after the [answer] to its deployment and
    the calls [post] that followed. *)
Definition azure_reported (answer : option error) (post : azure_history) (creation : Creation) (err : option error) : Prop :=
  failed post creation err ∨
  answer = None ∧ ev PollDeployment None ∈ post ∧ cr_ResourceID creation = azureID c vm_type (ID a) ∧
  match err with
  | Some e => no_sentinel e
  | None => ∃ b, bound c a post b ∧ tags_owned c (bi_tags b) a = true
  end.

(** From the deployment on. *)
Lemma wp_deployed pre script (Q : azure_history → Creation * option error → Prop) :
  let begin := BeginCreateOrUpdate (ResourceGroup c) (ID a) (template c a) (base64_encode (go_bytes script)) in
  (∀ h creation err, (Forall (respects azure_sdk) h → ∃ answer post,
      h = pre ++ ev begin answer :: post ∧ at_every tag_safe post ∧ azure_reported answer post creation err) →
    Q h (creation, err)) →
  wp no_contract
    (λ h e, wp no_contract Q h match e with Some err => deployment_failed c a err | None => finishAzureDiskOwnership c a end)
    pre (e ← call begin; match e with Some err => mret (Some err) | None => call PollDeployment end).
Proof.
  intros begin HQ. apply wp_call_bind. intros [e|] _.
  - apply wp_ret. eapply wp_mono; [apply wp_deployment_failed|]. intros h [creation err] (k & -> & Hk & Hf). apply HQ. intros Hh.
    rewrite <- app_assoc in *. exists (Some e), k. split_and!; [done|by apply reads_tag_safe|]. left. apply Hf.
    apply Forall_app in Hh as [_ Hh%Forall_inv]. by apply Hh.
  - apply wp_call. intros [e|] _.
    + eapply wp_mono; [apply wp_deployment_failed|]. intros h [creation err] (k & -> & Hk & Hf). apply HQ. intros Hh.
      rewrite <- !app_assoc in *. exists None, (ev PollDeployment (Some e) :: k).
      split_and!; [done|apply reads_tag_safe; by constructor|].
      left. eapply failed_mono; [|apply Hf]; [set_solver|].
      apply Forall_app in Hh as [_ [_ Hh%Forall_inv]%Forall_cons]. by apply Hh.
    + eapply wp_mono; [apply wp_finish|]. intros h [creation err] (k & -> & Hk & Hid & He). apply HQ. intros Hh.
      rewrite <- !app_assoc in *. exists None, (ev PollDeployment None :: k). split; [done|]. split.
      * by apply tag_safe_cons.
      * right. split_and!; [done|set_solver|done|]. destruct err as [e|].
        -- apply He. by apply Forall_app in Hh as [_ [_ [_ Hh]%Forall_cons]%Forall_cons].
        -- destruct He as (b & Hb & Ht). exists b. split; [|done]. eapply bound_mono; [|exact Hb]. set_solver.
Qed.

(** What a create has done and what its outcome says. *)
Definition azure_outcome script (h : azure_history) (creation : Creation) (err : option error) : Prop :=
  (Forall azure_reads h ∧ failed h creation err) ∨
  ∃ pre answer post,
    h = pre ++ ev (BeginCreateOrUpdate (ResourceGroup c) (ID a) (template c a) (base64_encode (go_bytes script))) answer
          :: post ∧
    Forall azure_reads pre ∧ vacant c a pre ∧ at_every tag_safe post ∧ azure_reported answer post creation err.

Lemma createAzure_outcome script :
  ensures azure_sdk (createAzure c a script) (λ h '(creation, err), azure_outcome script h creation err).
Proof.
  apply ensures_under. unfold createAzure. cbv zeta.
  destruct (negb _); [apply wp_ret; intros _; left; split; [done|by apply failed_plain, plain_error]|].
  apply wp_bind. eapply wp_mono; [apply wp_requireVacantCreation|]. intros h1 r (k1 & -> & Hk1 & Hv). cbn [app].
  destruct r as [e|]; [apply wp_ret; intros _; left; split; [done|by apply failed_plain]|].
  apply wp_bind. eapply wp_mono; [apply wp_validateAzureImage|]. intros h2 r (k2 & -> & Hk2 & He).
  pose proof (Forall_app_2 _ _ _ Hk1 Hk2) as Hk.
  destruct r as [e|]; [apply wp_ret; intros _; left; split; [done|apply failed_plain; by apply He]|].
  apply wp_bind. unfold deploy. apply wp_call_bind. intros [e|] _.
  { apply wp_ret. eapply wp_mono; [apply wp_deployment_failed|]. intros h' [creation err] (k & -> & Hk' & Hf) Hh.
    left. split; [repeat apply Forall_app_2; try done; by repeat constructor|].
    eapply failed_mono; [|apply Hf]; [set_solver|]. apply Forall_app in Hh as [[_ Hh%Forall_inv]%Forall_app _]. by apply Hh. }
  apply wp_deployed. intros h' creation err Hpost Hh. right.
  destruct (Hpost Hh) as (answer & post & -> & Hrest). eexists _, answer, post. split; [done|]. split_and!; try apply Hrest.
  - apply Forall_app_2; [done|by repeat constructor].
  - eapply vacant_mono; [|exact Hv]. clear. set_solver.
Qed.

(** C27: a create on Azure makes at most one deployment and says truthfully what
    came of it.  Either nothing is changed and nothing is reported; or exactly
    one deployment is made, named for the allocation, after that name and the
    three names of its resources were each reported free, and afterwards only
    reads and at most one update of tags, which adds the ownership to a disk
    that this call found bound to the allocation's machine.  The error is never
    "no effect"; it is a capacity rejection only if the deployment was shown to
    have failed with a capacity code and the three resources are missing; a
    machine is reported only if the deployment ended well, and without error
    only if its disk was read with both ownership tags. *)
Theorem azure_create_truthful script :
  ensures azure_sdk (createAzure c a script) (λ h '(creation, err), azure_outcome script h creation err).
Proof. apply createAzure_outcome. Qed.
End create.
