(* ===== verification/AzureExample.v ===== *)
(** * Azure runs

    A left-over disk observed and deleted, and a machine created, whose disk
    gets its ownership tags afterwards. *)
From S2P Require Import Prelude.
From S2P Require Import Effects.
From S2P Require Import Encoding.
From S2P Require Import Placement.
From S2P Require Import Resources.
From S2P Require Import Allocation.
From S2P Require Import Provider.
From S2P Require Import Command.
From S2P Require Import Cloud.
From S2P Require Import Azure.
From S2P Require Import AzureOps.
From S2P Require Import AzureProps.
From S2P Require Import AzureSafety.
From S2P Require Import AzureCreate.

Module AzureExample.
#[export] Instance folds : CaseFold :=
  {| fold_key := lower_ascii; ToLower := lower_ascii; fold_key_ascii := λ _ _, eq_refl; ToLower_ascii := λ _ _, eq_refl |}.
#[export] Instance uuids : UUIDs := {| uuid_Parse := λ s, if s =s "" then None else Some s |}.

(** A properties value is what it decodes to. *)
Record Properties := {
  pr_vm : option azureVMProperties;
  pr_disk : option azureDiskProperties;
  pr_generation : option azureGeneration;
  pr_image : option azureImageProperties
}.
#[export] Instance json : AzureJSON :=
  {| azureAny := Properties; decode_vm := pr_vm; decode_disk := pr_disk; decode_generation := pr_generation;
     decode_image := pr_image; decode_definition := λ _, None; decode_version := λ _, None |}.

Definition image_id : string := "/subscriptions/sub/resourceGroups/images/providers/Microsoft.Compute/images/runner".
#[export] Instance arm : ArmIDs :=
  {| ParseResourceID := λ s, if s =s image_id
       then Some {| arm_SubscriptionID := "sub"; arm_ResourceGroupName := "images";
                    arm_ResourceType := "Microsoft.Compute/images"; arm_Name := "runner"; arm_Parent := None |}
       else None |}.

Definition config : ProviderConfig :=
  {| AccountID := ""; Subscription := "sub"; ResourceGroup := "group"; SSHPublicKey := "ssh-ed25519 k"; pc_Kind := "azure";
     Project := ""; Profile := ""; Subnet := "net"; SecurityGroup := "nsg"; pc_Owner := "fleet";
     WireGuardControllerURL := ""; AzureDiskControllerType := "" |}.

Definition offering : Offering :=
  {| off_ID := "spot"; off_Provider := "azure"; off_Region := "westeurope"; off_Zone := "1";
     off_Machine := "Standard_D2s_v5"; off_Image := image_id; off_CPU := 2; off_MemoryMiB := 8192;
     off_Architecture := "amd64"; off_Vendor := ""; off_Capabilities := []; off_Spot := true;
     off_PriceMicros := 40000; off_Currency := "USD"; off_ObservedAt := zero_time; off_GCPSkuRefs := None |}.

Definition vmID : string := azureID config vm_type "rs-a".
Definition nicID : string := azureID config nic_type "rs-a-nic".
Definition diskID : string := azureID config disk_type "rs-a-os".
Definition disk_ref : ResourceReference := {| Kind := "azure-disk"; ref_ID := diskID; UID := "d-1" |}.

Definition with_refs (refs : list ResourceReference) : Allocation :=
  {| Resources := refs; RejectedAt := ∅; Completed := false; ID := "rs-a"; Revision := "1"; al_Phase := Creating;
     Deadline := zero_time; Attempts := 1; MaxAttempts := 3; al_Offering := offering; Outcomes := ∅;
     al_Catalog := zero_catalog; al_Requirements := zero_requirements; ResourceID := "";
     Ready := false; Retire := false; Condition := ""; RunID := 0; Owner := ""; Repo := "";
     ScaleSetJobID := ""; RetryProcessed := false; NetworkProfile := ""; WireGuardPublicKey := [];
     WireGuardOverlayAddress := ""; WireGuardEndpoint := ""; WireGuardPollTokenHash := [];
     TerminalAt := zero_time |}.
Definition allocation : Allocation := with_refs [].
Definition retired : Allocation := with_refs [disk_ref].

Definition owned_tags : gmap string (option string) := {[owner_tag := Some "fleet"; operation_tag := Some "rs-a"]}.
Definition generation (vm disk nic vmRef : string) (ips : list string) : azureGeneration :=
  {| gen_VMID := vm; gen_UniqueID := disk; gen_ResourceGUID := nic; gen_VirtualMachineID := vmRef; gen_PrivateIPs := ips |}.

Definition disk (managedBy : string) (tags : gmap string (option string)) : GenericResource :=
  {| gr_ID := diskID; gr_Name := "rs-a-os"; gr_Type := disk_type; gr_Location := "westeurope"; gr_Tags := tags;
     gr_ManagedBy := managedBy;
     gr_Properties := Some {| pr_vm := None;
       pr_disk := Some {| dp_UniqueID := "d-1"; dp_ProvisioningState := "Succeeded"; dp_CreateOption := "FromImage";
                          dp_ImageID := image_id |};
       pr_generation := Some (generation "" "d-1" "" "" []); pr_image := None |} |}.
Definition nic : GenericResource :=
  {| gr_ID := nicID; gr_Name := "rs-a-nic"; gr_Type := nic_type; gr_Location := "westeurope"; gr_Tags := owned_tags;
     gr_ManagedBy := "";
     gr_Properties := Some {| pr_vm := None; pr_disk := None; pr_generation := Some (generation "" "" "n-1" vmID ["10.3.0.4"]);
                              pr_image := None |} |}.
Definition machine : GenericResource :=
  {| gr_ID := vmID; gr_Name := "rs-a"; gr_Type := vm_type; gr_Location := "westeurope"; gr_Tags := owned_tags;
     gr_ManagedBy := "";
     gr_Properties := Some {|
       pr_vm := Some {| vm_VMID := "v-1"; vm_ProvisioningState := "Succeeded"; vm_DataDisks := 0; vm_ImageID := image_id;
                        vm_OSDiskName := "rs-a-os"; vm_OSDiskCreateOption := "FromImage"; vm_OSDiskManagedID := diskID;
                        vm_NetworkInterfaces := [nicID] |};
       pr_disk := None; pr_generation := Some (generation "v-1" "" "" "" []); pr_image := None |} |}.
Definition image : GenericResource :=
  {| gr_ID := image_id; gr_Name := "runner"; gr_Type := "Microsoft.Compute/images"; gr_Location := "westeurope";
     gr_Tags := ∅; gr_ManagedBy := "";
     gr_Properties := Some {| pr_vm := None; pr_disk := None; pr_generation := None;
       pr_image := Some {| ip_ProvisioningState := "Succeeded"; ip_OSType := "Linux"; ip_OSState := "Generalized";
                           ip_DataDisks := 0 |} |} |}.

(** Resource groups: one with a left-over disk, an empty one, and the latter
    after the deployment with the disk not yet tagged and tagged. *)
Inductive Group := LeftOver | Vacant | Deployed | Tagged.
Definition holds (g : Group) : gmap string GenericResource :=
  match g with
  | LeftOver => {[diskID := disk "" owned_tags]}
  | Vacant => {[image_id := image]}
  | Deployed => {[image_id := image; vmID := machine; nicID := nic; diskID := disk vmID ∅]}
  | Tagged => {[image_id := image; vmID := machine; nicID := nic; diskID := disk vmID owned_tags]}
  end.

Definition not_found : AzError := {| az_error := errors_new "404"; az_response := Some (404, "ResourceNotFound") |}.
Definition listed (r : GenericResource) : option ListedResource :=
  Some {| lr_Name := Some (gr_Name r); lr_ID := Some (gr_ID r); lr_Type := Some (gr_Type r); lr_Tags := gr_Tags r |}.

Definition azure (X : Type) (e : azureE X) (g : Group) : Group * X :=
  match e in azureE X return Group * X with
  | NewResourcesClient => (g, None)
  | NewDeploymentsClient => (g, None)
  | GetByID id _ => (g, match holds g !! id with Some r => inr r | None => inl not_found end)
  | ListByResourceGroup _ => (g, ([Some (listed <$> (map_to_list (holds g)).*2)], None))
  | DeploymentGet _ _ =>
      (g, match g with Deployed | Tagged => inr {| dep_State := Some "Succeeded"; dep_Error := None |} | _ => inl not_found end)
  | BeginCreateOrUpdate _ _ _ _ => (Deployed, None)
  | PollDeployment => (g, None)
  | BeginUpdateTags _ _ _ => (Tagged, None)
  | PollUpdate => (g, None)
  | BeginDeleteByID _ _ => (Vacant, None)
  end.

Lemma azure_reads_left_over : Forall (respects (azure_answers (holds LeftOver)))
  (run_history azure (observeAzure config ∅ retired) LeftOver).
Proof. vm_compute. repeat constructor. Qed.

Lemma azure_sdk_ok : implements azure (λ _, True) azure_sdk.
Proof. intros X e g g' x _ Hx. split; [done|]. destruct e; simplify_eq/=; done. Qed.
End AzureExample.

Import AzureExample.

(** The disk that is left counts as existing. *)
Lemma azure_observation_exact_witness :
  match snd (run azure (observeAzure config ∅ retired) LeftOver) with
  | inr ob => ob_Exists ob = true ∧
      deployment_settled config retired (run_history azure (observeAzure config ∅ retired) LeftOver) ∧
      (ob_Exists ob = true ↔ ∃ spec, spec ∈ azureSpecs retired ∧
         is_Some (holds LeftOver !! azureID config (sp_resourceType spec) (sp_name spec)))
  | inl _ => False
  end.
Proof.
  pose proof (azure_observation_exact config retired ∅ (holds LeftOver) _ _ (run_trace azure _ LeftOver)
    azure_reads_left_over) as Ho.
  destruct (snd (run azure (observeAzure config ∅ retired) LeftOver)) as [e|ob] eqn:Hr.
  - vm_compute in Hr. discriminate.
  - destruct (Ho ob eq_refl) as (Hset & _ & Hex & _). split; [vm_compute in Hr; injection Hr as <-; reflexivity|].
    exact (conj Hset Hex).
Defined.

(** It is deleted. *)
Lemma azure_delete_proven_witness :
  ∃ pre, run_history azure (deleteAzure config retired) LeftOver = pre ++ [ev (BeginDeleteByID diskID "2024-03-02") None] ∧
    azure_delete_safe config retired pre (ev (BeginDeleteByID diskID "2024-03-02") None).
Proof.
  set (h := run_history _ _ _).
  assert (h = take (length h - 1) h ++ [ev (BeginDeleteByID diskID "2024-03-02") None]) as Hh by (vm_compute; reflexivity).
  exists (take (length h - 1) h). split; [exact Hh|].
  exact (run_ensures azure (λ _, True) no_contract _ _ LeftOver (λ _ _ _ _ _ _ _, conj I I) I
    (azure_delete_proven config retired) _ _ [] Hh).
Defined.

(** The machine is deployed on vacant names; its disk is tagged afterwards. *)
Lemma azure_create_truthful_witness :
  fst (run azure (createAzure config allocation "#!") Vacant) = Tagged ∧
  snd (snd (run azure (createAzure config allocation "#!") Vacant)) = None ∧
  ∃ pre answer post,
    run_history azure (createAzure config allocation "#!") Vacant
      = pre ++ ev (BeginCreateOrUpdate "group" "rs-a" (template config allocation) (base64_encode (go_bytes "#!"))) answer
          :: post ∧
    vacant config allocation pre ∧ at_every (tag_safe config allocation) post.
Proof.
  pose proof (run_ensures azure (λ _, True) _ _ _ Vacant azure_sdk_ok I
    (azure_create_truthful config allocation "#!")) as Hc.
  split; [vm_compute; reflexivity|].
  assert (snd (snd (run azure (createAzure config allocation "#!") Vacant)) = None) as Hr by (vm_compute; reflexivity).
  split; [exact Hr|]. destruct (snd (run azure (createAzure config allocation "#!") Vacant)) as [creation err].
  cbn in Hr. subst err. destruct Hc as [(_ & _ & e & He & _)|(pre & answer & post & Hh & _ & Hv & Hs & _)]; [discriminate|].
  exists pre, answer, post. exact (conj Hh (conj Hv Hs)).
Defined.
