(* ===== verification/EndToEnd.v ===== *)
(** * The lifecycle on the clouds

    [Step] with its provider calls answered by [Command] and its cloud requests
    made by an adapter: what a recorded phase says about the requests and
    answers of the step that recorded it.  Proved for every adapter that keeps
    the laws of [AdapterLaws]: the interface between the provider boundary
    (Command.v) and the three adapters, which are its instances. *)
From S2P Require Import Prelude.
From S2P Require Import Effects.
From S2P Require Import Placement.
From S2P Require Import Resources.
From S2P Require Import Allocation.
From S2P Require Import Provider.
From S2P Require Import Command.
From S2P Require Import Cloud.
From S2P Require Import ConfigCheck.
From S2P Require Import Aws.
From S2P Require Import AwsProps.
From S2P Require Import AwsSafety.
From S2P Require Import Gcp.
From S2P Require Import GcpProps.
From S2P Require Import GcpSafety.
From S2P Require Import Azure.
From S2P Require Import AzureOps.
From S2P Require Import AzureProps.
From S2P Require Import AzureCreate.
From S2P Require Import Lifecycle.
From S2P Require Import LifecycleProps.
From S2P Require Import Peers.

Record Adapter := {
  sdkE : Type → Type;
  ad_create : Allocation → string → prog sdkE (Creation * option error);
  ad_observe : Allocation → prog sdkE (Observation * option error);
  ad_reconcile : Allocation → prog sdkE (Observation * option error);
  ad_delete : Allocation → prog sdkE (option error)
}.

(** An answer that the resource is known to be gone. *)
Definition says_gone (r : Observation * option error) : Prop :=
  snd r = None ∧ ob_Known (fst r) = true ∧ ob_Exists (fst r) = false.

(** [quiet] requests change nothing; [honest] is what is relied on of the SDK;
    [rejected a k] and [gone a k]: the requests and answers [k] show that the
    creation of [a] was rejected for capacity, that nothing of [a] is left. *)
Class AdapterLaws (A : Adapter) := {
  quiet : event (sdkE A) → Prop;
  honest : contract (sdkE A);
  rejected : Allocation → list (event (sdkE A)) → Prop;
  gone : Allocation → list (event (sdkE A)) → Prop;
  create_law a script : ensures honest (ad_create A a script) (λ k '(_, err),
    (is_err err ErrNoEffect = true → Forall quiet k) ∧ (is_err err ErrCapacity = true → rejected a k));
  observe_law a : ensures honest (ad_observe A a) (λ k r, Forall quiet k ∧ (says_gone r → gone a k));
  reconcile_law a : ensures honest (ad_reconcile A a) (λ k r, says_gone r → gone a k)
}.

(** An observation as the boundary returns it. *)
Definition as_observation (r : result Observation) : Observation * option error :=
  match r with inl err => (no_observation, Some err) | inr ob => (ob, None) end.

Lemma ensures_map {E R S} (G : contract E) (p : prog E R) (f : R → S) (Q : list (event E) → S → Prop) :
  ensures G p (λ h r, Q h (f r)) → ensures G (r ← p; mret (f r)) Q.
Proof.
  intros Hp. apply wp_ensures, wp_bind. apply wp_traces. intros h r Ht Hh. by apply Hp.
Qed.

Lemma ensures_and {E R} (G : contract E) (p : prog E R) (Q Q' : list (event E) → R → Prop) :
  ensures G p Q → ensures G p Q' → ensures G p (λ h r, Q h r ∧ Q' h r).
Proof. intros Hp Hp' h r Ht Hh. split; auto. Qed.

(** ** AWS *)

Section aws.
Context (c : ProviderConfig).

Definition aws_adapter : Adapter := {|
  sdkE := awsE;
  ad_create := createAWS c;
  ad_observe a := (r ← observeAWS c a; mret (as_observation r));
  ad_reconcile a := (r ← observeAWS c a; mret (as_observation r));
  ad_delete := deleteAWS c
|}.

(** The only request that changes anything asked for one instance, and EC2
    answered that it has no capacity. *)
Definition aws_rejected (a : Allocation) (k : aws_history) : Prop :=
  ∃ pre input e post, k = pre ++ ev (RunInstances input) (inl e) :: post ∧ Forall read_only pre ∧ Forall read_only post ∧
    awsMissing e "InsufficientInstanceCapacity" = true.

(** Every account these answers can come from holds nothing of the allocation. *)
Definition aws_gone (a : Allocation) (k : aws_history) : Prop :=
  ∀ w, ec2_complete w → Forall (respects (ec2_answers w)) k → nothing_left c w a.

Lemma aws_observe_law a :
  ensures sdk_answers (ad_observe aws_adapter a) (λ k r, Forall read_only k ∧ (says_gone r → aws_gone a k)).
Proof.
  apply ensures_map, ensures_and.
  - intros h r Ht _. apply (emits_trace read_only (observeAWS c a) h r); [|done].
    unfold observeAWS. apply emits_bind; [apply reads_session|]. intros [e|]; emit. apply reads_inventory.
  - intros h [e|ob] Ht _; [by intros [? _]|]. intros (_ & _ & Hex) w Hw Hh.
    exact (wp_sound _ _ _ [] _ _ (wp_observeAWS_absent c w a Hw) Ht Hh ob eq_refl Hex).
Qed.

#[export] Program Instance aws_laws : AdapterLaws aws_adapter := {|
  quiet := read_only; honest := sdk_answers; rejected := aws_rejected; gone := aws_gone
|}.
Next Obligation.
  intros a script h [creation err] Ht Hh.
  destruct (wp_ensures _ _ _ (wp_createAWS c a script) h _ Ht Hh) as
    [(Hr & _ & _ & Hc)|(pre & mappings & answer & post & -> & Hpre & Hpost & _ & (Hn & Hc & _) & _)].
  - split; [done|]. congruence.
  - split; [congruence|]. intros (e & -> & He & _)%Hc. by eexists pre, _, e, post.
Qed.
Next Obligation. apply aws_observe_law. Qed.
Next Obligation. intros a h r Ht Hh. by destruct (aws_observe_law a h r Ht Hh). Qed.
End aws.

(** ** GCP *)

Section gcp.
Context `{NameRules} `{UUIDHash} (c : ProviderConfig) (hasService : bool).

Definition gcp_adapter : Adapter := {|
  sdkE := gcpE;
  ad_create := createGCP c hasService;
  ad_observe a := (r ← observeGCP c hasService a; mret (as_observation r));
  ad_reconcile a := (r ← observeGCP c hasService a; mret (as_observation r));
  ad_delete := deleteGCP c hasService
|}.

(** The operation in an answer. *)
Definition gcp_operation (v : event gcpE) : option Operation :=
  match v with existT _ (e, x) =>
    (match e in gcpE X return X → option Operation with
     | InstancesInsert _ _ _ _ | OperationsGet _ => λ r, match r with inr (Some o) => Some o | _ => None end
     | _ => λ _, None
     end) x
  end.

(** An operation ended with an exhausted pool; machine and disk are missing. *)
Definition gcp_rejected (a : Allocation) (k : gcp_history) : Prop :=
  vm_missing c a k ∧ disk_missing c a k ∧
  ∃ v o, v ∈ k ∧ gcp_operation v = Some o ∧ finished c a "create" "instances" o ∧ gcpCapacityFailure o = true.

(** The insert has ended; machine and disk are missing. *)
Definition gcp_gone (a : Allocation) (k : gcp_history) : Prop :=
  create_settled c a k ∧ vm_missing c a k ∧ disk_missing c a k.

Lemma gcp_observe_law a :
  ensures gcp_sdk (ad_observe gcp_adapter a) (λ k r, Forall gcp_reads k ∧ (says_gone r → gcp_gone a k)).
Proof.
  apply ensures_map. intros h r Ht _. destruct (trace_wp _ _ _ _ Ht (wp_observeGCP c hasService a)) as [Hr Hob].
  split; [done|]. destruct r as [e|ob]; [by intros [? _]|]. intros (_ & _ & Hex).
  destruct (Hob ob eq_refl) as [(inv & [Hvm Hd] & Hinv) Hset _ _]. cbn in Hex. rewrite Hex in Hinv. symmetry in Hinv.
  apply orb_false_iff in Hinv as [Hv' Hd']. destruct (inv_vm inv), (inv_disk inv); try done.
Qed.

#[export] Program Instance gcp_laws : AdapterLaws gcp_adapter := {|
  quiet := gcp_reads; honest := gcp_sdk; rejected := gcp_rejected; gone := gcp_gone
|}.
Next Obligation.
  intros a script h [creation err] Ht Hh.
  destruct (createGCP_outcome c hasService a script h _ Ht Hh) as
    [(Hr & _ & e & -> & _ & He)|(pre & answer & post & -> & _ & _ & _ & _ & [Hn Hc _])].
  - split; [done|]. cbn. congruence.
  - split; [congruence|]. intros (_ & (e1 & ? & ?) & (e2 & ? & ?) & op & o & -> & Ho & Hf & Hcap)%Hc. split_and!.
    + exists e1. split; [set_solver|done].
    + exists e2. split; [set_solver|done].
    + destruct Ho as [->|[l Hl]]; eexists _, o; (split; [|split; [|done]]).
      * apply elem_of_app. right. left.
      * done.
      * apply elem_of_app. right. right. exact Hl.
      * done.
Qed.
Next Obligation. apply gcp_observe_law. Qed.
Next Obligation. intros a h r Ht Hh. by destruct (gcp_observe_law a h r Ht Hh). Qed.
End gcp.

(** ** Azure *)

Section azure.
Context `{CaseFold} `{UUIDs} `{AzureJSON} `{ArmIDs} (c : ProviderConfig) (interrupted : gmap string bool).

Definition azure_adapter : Adapter := {|
  sdkE := azureE;
  ad_create := createAzure c;
  ad_observe a := (r ← observeAzure c interrupted a; mret (as_observation r));
  ad_reconcile := reconcileAzureCreation c interrupted;
  ad_delete := deleteAzure c
|}.

(** The deployment is missing or has ended; the three resources are missing. *)
Definition azure_gone (a : Allocation) (k : azure_history) : Prop :=
  deployment_settled c a k ∧ ∀ spec, spec ∈ azureSpecs a → missing c k spec.

Lemma azure_gone_mono a k k' : k ⊆ k' → azure_gone a k → azure_gone a k'.
Proof.
  intros Hs [(r & ? & ?) Hm]. split; [exists r; auto|]. intros spec (err & ? & ?)%Hm. exists err. auto.
Qed.

Lemma wp_azure_gone a :
  wp no_contract (λ h r, Forall azure_reads h ∧ (says_gone (as_observation r) → azure_gone a h)) []
    (observeAzure c interrupted a).
Proof.
  eapply wp_mono; [apply wp_observeAzure|]. intros h r [Hr Hob]. split; [done|]. destruct r as [e|ob]; [by intros [? _]|].
  intros (_ & _ & Hex). destruct (Hob ob eq_refl) as (Hset & _ & (items & refs & Hread & Hlen) & _). split; [done|].
  cbn in Hex. rewrite Hex in Hlen. destruct items; [|done]. by eapply specs_read_nil.
Qed.

Lemma wp_reobserve a h :
  wp no_contract (λ h' r, ∃ k, h' = h ++ k ∧ (says_gone r → azure_gone a k)) h (reobserve c interrupted a).
Proof.
  unfold reobserve. apply wp_bind. eapply wp_mono; [apply wp_shift, wp_azure_gone|].
  intros h' r (k & -> & _ & Hg). apply wp_ret. exists k. split; [done|]. by destruct r as [e|ob]; [intros [? _]|].
Qed.

Lemma azure_reconcile_law a :
  ensures no_contract (reconcileAzureCreation c interrupted a) (λ k r, says_gone r → azure_gone a k).
Proof.
  apply wp_ensures. unfold reconcileAzureCreation. destruct (azureReferences c a); [apply wp_ret; by intros [? _]|].
  destruct (identity_differs c a); [apply wp_ret; by intros [? _]|].
  apply wp_bind. eapply wp_mono; [apply wp_true|]. intros h1 [e|[|]] _; [apply wp_ret; by intros [? _]| |apply wp_ret; by intros [? _]].
  apply wp_bind. eapply wp_mono; [apply wp_true|]. intros h2 [e|items] _; [apply wp_ret; by intros [? _]|].
  destruct (existsb _ _).
  - apply wp_bind. eapply wp_mono; [apply wp_true|]. intros h3 [cr [e|]] _; [apply wp_ret; by intros [? _]|].
    destruct (MergeResources _ _) as [e|[merged ch]]; [apply wp_ret; by intros [? _]|].
    eapply wp_mono; [apply wp_reobserve|]. intros h4 r (k & -> & Hg) Hr. eapply azure_gone_mono; [|by apply Hg]. set_solver.
  - eapply wp_mono; [apply wp_reobserve|]. intros h4 r (k & -> & Hg) Hr. eapply azure_gone_mono; [|by apply Hg]. set_solver.
Qed.

#[export] Program Instance azure_laws : AdapterLaws azure_adapter := {|
  quiet := azure_reads; honest := azure_sdk; rejected := capacity_shown c; gone := azure_gone
|}.
Next Obligation.
  intros a script h [creation err] Ht Hh.
  destruct (createAzure_outcome c a script h _ Ht Hh) as
    [(Hr & _ & e & -> & Hn & Hc)|(pre & answer & post & -> & _ & _ & _ & [(_ & e & -> & Hn & Hc)|(_ & _ & _ & He)])].
  - done.
  - split; [cbn; congruence|]. intros [Hm (d & x & ? & ?)]%Hc. split.
    + intros spec (e' & ? & ?)%Hm. exists e'. split; [set_solver|done].
    + exists d, x. split; [set_solver|done].
  - destruct err as [e|]; [|done]. destruct He as [Hn Hc]. split; cbn; congruence.
Qed.
Next Obligation.
  intros a. apply ensures_map, ensures_weaken. apply wp_ensures, wp_azure_gone.
Qed.
Next Obligation. intros a. apply ensures_weaken, azure_reconcile_law. Qed.
End azure.

(** ** The adapter of a command *)

Section selection.
Context `{NameRules} `{UUIDHash} `{CaseFold} `{UUIDs} `{AzureJSON} `{ArmIDs}.
Context (hasService : bool) (interrupted : gmap string bool).

Definition cloud_adapter (p : Command) : Adapter :=
  let kind := pc_Kind (cmd_Config p) in
  if kind =s "aws" then aws_adapter (cmd_Config p)
  else if kind =s "azure" then azure_adapter (cmd_Config p) interrupted
  else gcp_adapter (cmd_Config p) hasService.

#[export] Instance cloud_laws p : AdapterLaws (cloud_adapter p).
Proof.
  unfold cloud_adapter. cbv zeta. destruct (_ =s _); [apply aws_laws|]. destruct (_ =s _); [apply azure_laws|apply gcp_laws].
Defined.
End selection.

(** ** A step on the adapters *)

(** ** What a step has called before it saves *)

(** No call of a provider. *)
Definition calm_call (v : event lifecycleE) : Prop := is_provider_call v = false.

(** The create [v] made for [a] on [provider] answered [err]. *)
Definition create_answered (v : event lifecycleE) (provider : string) (a : Allocation) (err : option error) : Prop :=
  (∃ r, v = ev (Lifecycle.Create provider a) r ∧ snd r = err) ∨
  (∃ r, v = ev (Lifecycle.CreateWithResources provider a) r ∧ snd r = err).

(** The observation [v] of [a] on [provider] says that it is gone. *)
Definition gone_answered (v : event lifecycleE) (provider : string) (a : Allocation) : Prop :=
  ∃ r, says_gone r ∧ (v = ev (Lifecycle.Observe provider a) r ∨ v = ev (Lifecycle.ReconcileCreation provider a) r).

Lemma step_pending_saves c id :
  ensures store_contract (Step c id) (λ h _, at_every (λ pre v, ∀ a, save_arg v = Some a → al_Phase a = Pending →
    Forall calm_call pre ∨ ∃ pre' w provider a0 e, pre = pre' ++ [w] ∧ Forall calm_call pre' ∧
      create_answered w provider a0 e ∧ ID a0 = ID a ∧ (is_err e ErrNoEffect || is_err e ErrCapacity) = true) h).
Proof.
  step_histories ltac:(try done; intros ? [= <-]; lifecycle_simpl; use_phase; try done).
  all: intros _; try (left; by repeat constructor).
  all: right; eexists [_; _; _], _, _, _, _; split; [reflexivity|]; split; [by repeat constructor|].
  all: split; [first [left; eexists; split; reflexivity|right; eexists; split; reflexivity]|].
  all: split; [lifecycle_simpl; reflexivity|]; cbn; apply orb_true_iff.
  all: repeat match goal with H : _ && _ = true |- _ => apply andb_true_iff in H as [? ?] end; tauto.
Qed.

Lemma step_deleted_saves c id :
  ensures store_contract (Step c id) (λ h _, at_every (λ pre v, ∀ a, save_arg v = Some a → al_Phase a = Deleted →
    ∃ pre' w post' provider a0, pre = pre' ++ w :: post' ∧ Forall calm_call post' ∧
      gone_answered w provider a0 ∧ ID a0 = ID a ∧ provider = off_Provider (al_Offering a)) h).
Proof.
  step_histories ltac:(try done; intros ? [= <-]; lifecycle_simpl; use_phase; try done).
  all: intros _; match goal with H : negb (ob_Exists ?o) = true |- _ => apply negb_true_iff in H end.
  all: first [eexists [_; _], _, _, _, _; split; [reflexivity|split; [by repeat constructor|]];
                split; [eexists; split; [|left; reflexivity]; done|done]
             |eexists [_; _; _], _, _, _, _; split; [reflexivity|split; [by repeat constructor|]];
                split; [eexists; split; [|right; reflexivity]; done|done]].
Qed.

(** ** What the boundary calls *)

Section boundary.
Context `{Crypto} `{PayloadJSON}.

Definition is_hook (v : event commandE) : Prop :=
  match v with existT _ (e, _) => match e with BootstrapJIT _ | RandRead _ | NetworkPeers _ => True | _ => False end end.

(** Hooks only, or hooks and one create, whose error is the result's. *)
Definition create_shaped (a : Allocation) (h : list (event commandE)) (err : option error) : Prop :=
  Forall is_hook h ∨ ∃ pre kind script answer,
    h = pre ++ [ev (CloudCreate kind a script) (answer, err)] ∧ Forall is_hook pre.

Lemma create_shape p a :
  wp no_contract (λ h r, create_shaped a h (snd r)) [] (Command.CreateWithResources p a).
Proof.
  unfold Command.CreateWithResources. cbv zeta. destruct (_ || _); [by apply wp_ret; left|].
  destruct (ValidateName _); [by apply wp_ret; left|]. destruct (Command_Validate _); [by apply wp_ret; left|].
  destruct (negb _); [by apply wp_ret; left|]. apply wp_call_bind. intros [e|jit] _; [apply wp_ret; left; by repeat constructor|].
  destruct (jit =s ""); [apply wp_ret; left; by repeat constructor|].
  apply wp_bind. eapply wp_mono; [apply (emits_wp is_hook); unfold wireguard_material; emit|].
  intros h' m (k & -> & Hk). destruct m as [e|m]; [apply wp_ret; left; by repeat constructor|].
  destruct (BootstrapWithWireGuard _ _); [apply wp_ret; left; by repeat constructor|].
  apply wp_call_bind. intros [answer err] _. apply wp_ret. right. eexists _, _, _, answer. split; [done|]. by repeat constructor.
Qed.

Lemma create_id_shape p a : wp no_contract (λ h r, create_shaped a h (snd r)) [] (Command.Create p a).
Proof. unfold Command.Create. apply wp_bind. eapply wp_mono; [apply create_shape|]. by intros h [cr err] Hs. Qed.

Lemma observe_shape p a :
  wp no_contract (λ h r, (h = [] ∧ snd r ≠ None) ∨ ∃ kind, h = [ev (CloudObserve kind a) r]) [] (Command.Observe p a).
Proof. unfold Command.Observe. wp_explore; [by left..|]. right. by eexists. Qed.

Lemma recovery_shape p a :
  wp no_contract (λ h r, (h = [] ∧ snd r ≠ None) ∨ (∃ kind, h = [ev (CloudObserve kind a) r]) ∨
    h = [ev (ReconcileAzureCreation a) r]) [] (Command.ReconcileCreation p a).
Proof.
  unfold Command.ReconcileCreation. destruct (negb _); [by apply wp_ret; left|].
  destruct (_ <>s _); [eapply wp_mono; [apply observe_shape|]; naive_solver|].
  wp_explore; [by left..|]. by right; right.
Qed.
End boundary.

(** ** The composed program *)

Section system.
Context `{Crypto} `{PayloadJSON}.
Context (A : Command → Adapter) `{laws : ∀ p, AdapterLaws (A p)}.
Context (commands : string → Command).            (* the provider of each name *)

(** The calls that are left: those of the lifecycle that are not the
    provider's, the boundary's hooks, and the requests to the clouds. *)
Inductive systemE : Type → Type :=
  | Outer {X} (e : lifecycleE X) : systemE X
  | Hook {X} (e : commandE X) : systemE X
  | Sdk {X} (provider : string) (e : sdkE (A (commands provider)) X) : systemE X.

Definition sdk_event (provider : string) (v : event (sdkE (A (commands provider)))) : event systemE :=
  ev (Sdk provider (fst (projT2 v))) (snd (projT2 v)).

Definition on_cloud {R} (provider : string) (p : prog (sdkE (A (commands provider))) R) : prog systemE R :=
  interp (λ X e, call (Sdk provider e)) p.

(** The calls of the boundary, on the adapter of the provider. *)
Definition boundary_call (provider : string) X (e : commandE X) : prog systemE X :=
  match e with
  | CloudCreate _ a script => on_cloud provider (ad_create (A (commands provider)) a script)
  | CloudObserve _ a => on_cloud provider (ad_observe (A (commands provider)) a)
  | ReconcileAzureCreation a => on_cloud provider (ad_reconcile (A (commands provider)) a)
  | CloudDelete _ a => on_cloud provider (ad_delete (A (commands provider)) a)
  | BootstrapJIT id => call (Hook (BootstrapJIT id))
  | RandRead n => call (Hook (RandRead n))
  | NetworkPeers a => call (Hook (NetworkPeers a))
  end.

(** The calls of the lifecycle, on the boundary. *)
Definition provider_call X (e : lifecycleE X) : prog systemE X :=
  match e with
  | Lifecycle.Create provider a => interp (boundary_call provider) (Command.Create (commands provider) a)
  | Lifecycle.CreateWithResources provider a =>
      interp (boundary_call provider) (Command.CreateWithResources (commands provider) a)
  | Lifecycle.Observe provider a => interp (boundary_call provider) (Command.Observe (commands provider) a)
  | Lifecycle.ReconcileCreation provider a =>
      interp (boundary_call provider) (Command.ReconcileCreation (commands provider) a)
  | Lifecycle.Delete provider a => interp (boundary_call provider) (Command.Delete (commands provider) a)
  | Load id => call (Outer (Load id))
  | Save a revision => call (Outer (Save a revision))
  | Now => call (Outer Now)
  | DeregisterRunner id => call (Outer (DeregisterRunner id))
  end.

Definition system_step (c : Controller) (id : string) : prog systemE (option error) := interp provider_call (Step c id).

(** What is relied on: the store's contract and the adapters' SDKs. *)
Definition system_contract : contract systemE := λ X e, match e in systemE X return X → Prop with
  | Outer e => λ x, store_contract _ e x
  | Hook _ => λ _, True
  | Sdk provider e => λ x, honest _ e x
  end.

(** The call of the lifecycle an event is. *)
Definition outer_of (v : event systemE) : option (event lifecycleE) :=
  match v with
  | existT _ (e, x) => (match e in systemE X return X → option (event lifecycleE) with Outer e => λ x, Some (ev e x) | _ => λ _, None end) x
  end.

(** Nothing is changed in a cloud. *)
Definition calm (v : event systemE) : Prop :=
  match v with
  | existT _ (e, x) => (match e in systemE X return X → Prop with Sdk provider e => λ x, quiet (ev e x) | _ => λ _, True end) x
  end.

Abbreviation sys_history := (list (event systemE)).

Lemma calm_sdk provider k : Forall calm (sdk_event provider <$> k) ↔ Forall quiet k.
Proof. rewrite Forall_fmap. apply Forall_iff. by intros [X [e x]]. Qed.

(** ** An adapter's program in the system *)

Lemma wp_on_cloud {R} provider (p : prog (sdkE (A (commands provider))) R) Q h :
  ensures honest p Q →
  wp system_contract (λ h' r, ∃ k, h' = h ++ (sdk_event provider <$> k) ∧ Q k r) h (on_cloud provider p).
Proof.
  intros Hp. eapply wp_mono.
  - apply (wp_interp honest system_contract _ (λ k h', h' = h ++ (sdk_event provider <$> k) ∧ Forall (respects honest) k)
      (λ k r, Forall (respects honest) k → Q k r) p []).
    + intros X e k h' [-> Hk]. apply wp_call. intros x Hx. split; [done|]. split.
      * rewrite fmap_app, <- app_assoc. done.
      * apply Forall_app_2; [done|]. by repeat constructor.
    + split; [by rewrite app_nil_r|done].
    + apply wp_traces. intros k r Ht _ Hk. by apply Hp.
  - intros h' r (k & [-> Hk] & HQ). exists k. split; [done|]. by apply HQ.
Qed.

(** ** The boundary in the system *)

(** What the calls of the boundary become. *)
Definition boundary_realised (provider : string) (v : event commandE) (seg : sys_history) : Prop :=
  match v with
  | existT _ (e, x) =>
      (match e in commandE X return X → Prop with
       | CloudCreate _ a _ => λ r, ∃ k, seg = sdk_event provider <$> k ∧
           (is_err (snd r) ErrNoEffect = true → Forall quiet k) ∧ (is_err (snd r) ErrCapacity = true → rejected a k)
       | CloudObserve _ a => λ r, ∃ k, seg = sdk_event provider <$> k ∧ Forall quiet k ∧ (says_gone r → gone a k)
       | ReconcileAzureCreation a => λ r, ∃ k, seg = sdk_event provider <$> k ∧ (says_gone r → gone a k)
       | CloudDelete _ _ => λ _, ∃ k, seg = sdk_event provider <$> k
       | BootstrapJIT id => λ r, seg = [ev (Hook (BootstrapJIT id)) r]
       | RandRead n => λ r, seg = [ev (Hook (RandRead n)) r]
       | NetworkPeers a => λ r, seg = [ev (Hook (NetworkPeers a)) r]
       end) x
  end.

Lemma wp_boundary_call provider X (e : commandE X) h :
  wp system_contract (λ h' x, ∃ seg, h' = h ++ seg ∧ no_contract X e x ∧ boundary_realised provider (ev e x) seg) h
    (boundary_call provider X e).
Proof.
  destruct e; cbn [boundary_call]; try (apply wp_call; intros x _; by eexists).
  - eapply wp_mono; [apply wp_on_cloud, create_law|]. intros h' [cr err] (k & -> & Hk). eexists. split_and!; [done|done|].
    by exists k.
  - eapply wp_mono; [apply wp_on_cloud, observe_law|]. intros h' r (k & -> & Hk). eexists. split_and!; [done|done|].
    by exists k.
  - eapply wp_mono; [apply wp_on_cloud, reconcile_law|]. intros h' r (k & -> & Hk). eexists. split_and!; [done|done|].
    by exists k.
  - eapply wp_mono; [apply wp_on_cloud|]. { instantiate (1 := λ _ _, True). done. }
    intros h' r (k & -> & Hk). eexists. split_and!; [done|done|]. by exists k.
Qed.

Lemma wp_boundary {R} provider (p : prog commandE R) (Q : list (event commandE) → R → Prop) h :
  wp no_contract Q [] p →
  wp system_contract (λ h' r, ∃ hc segs, h' = h ++ concat segs ∧ Forall2 (boundary_realised provider) hc segs ∧ Q hc r) h
    (interp (boundary_call provider) p).
Proof. apply wp_realised. apply wp_boundary_call. Qed.

Definition inner (v : event systemE) : Prop := outer_of v = None.

Lemma inner_sdk provider k : Forall inner (sdk_event provider <$> k).
Proof. rewrite Forall_fmap. apply Forall_true. by intros [X [e x]]. Qed.

Lemma boundary_inner provider v seg : boundary_realised provider v seg → Forall inner seg.
Proof.
  destruct v as [X [e x]]. destruct e; cbn; try (intros ->; by repeat constructor);
    intros (k & -> & _) || intros (k & ->); apply inner_sdk.
Qed.

Lemma boundaries_inner provider hc segs : Forall2 (boundary_realised provider) hc segs → Forall inner (concat segs).
Proof. intros Hs. induction Hs; cbn; [done|]. apply Forall_app_2; [by eapply boundary_inner|done]. Qed.

Lemma hooks_calm provider hc segs :
  Forall is_hook hc → Forall2 (boundary_realised provider) hc segs → Forall calm (concat segs).
Proof.
  intros Hh Hs. induction Hs as [|v seg hc segs Hv _ IH]; cbn; [done|]. apply Forall_cons in Hh as [Hhk Hh].
  apply Forall_app_2; [|by apply IH]. destruct v as [X [e x]]. destruct e; try done; cbn in Hv; subst; by repeat constructor.
Qed.

(** ** The lifecycle in the system *)

(** The requests of a create that may be repeated: they change nothing, or they
    show that the creation was rejected. *)
Definition no_machine (provider : string) (a : Allocation) (seg : sys_history) : Prop :=
  Forall calm seg ∨ ∃ hooks k, seg = hooks ++ (sdk_event provider <$> k) ∧ Forall calm hooks ∧ rejected a k.

Definition create_realised (provider : string) (a : Allocation) (err : option error) (seg : sys_history) : Prop :=
  Forall inner seg ∧ ((is_err err ErrNoEffect || is_err err ErrCapacity) = true → no_machine provider a seg).

Definition observe_realised (provider : string) (a : Allocation) (r : Observation * option error) (seg : sys_history) : Prop :=
  Forall inner seg ∧ (says_gone r → ∃ k, seg = sdk_event provider <$> k ∧ gone a k).

(** What the calls of the lifecycle become. *)
Definition realised (v : event lifecycleE) (seg : sys_history) : Prop :=
  match v with
  | existT _ (e, x) =>
      (match e in lifecycleE X return X → Prop with
       | Lifecycle.Create provider a => λ r, create_realised provider a (snd r) seg
       | Lifecycle.CreateWithResources provider a => λ r, create_realised provider a (snd r) seg
       | Lifecycle.Observe provider a => λ r, observe_realised provider a r seg
       | Lifecycle.ReconcileCreation provider a => λ r, observe_realised provider a r seg
       | Lifecycle.Delete _ _ => λ _, Forall inner seg
       | Load id => λ r, seg = [ev (Outer (Load id)) r]
       | Save a revision => λ r, seg = [ev (Outer (Save a revision)) r]
       | Now => λ r, seg = [ev (Outer Now) r]
       | DeregisterRunner id => λ r, seg = [ev (Outer (DeregisterRunner id)) r]
       end) x
  end.

Lemma wp_create_realised {R} provider a (p : prog commandE (R * option error)) h :
  wp no_contract (λ h r, create_shaped a h (snd r)) [] p →
  wp system_contract (λ h' r, ∃ seg, h' = h ++ seg ∧ create_realised provider a (snd r) seg) h
    (interp (boundary_call provider) p).
Proof.
  intros Hp. eapply wp_mono; [apply wp_boundary, Hp|]. intros h' [cr err] (hc & segs & -> & Hs & Hshape).
  eexists. split; [done|]. split; [by eapply boundaries_inner|]. intros He.
  destruct Hshape as [Hh|(pre & kind & script & answer & -> & Hh)]; [left; by eapply hooks_calm|].
  apply Forall2_app_inv_l in Hs as (segs1 & segs2 & Hs1 & Hs2 & ->).
  apply Forall2_cons_inv_l in Hs2 as (seg & segs3 & Hseg & Hs3 & ->). apply Forall2_nil_inv_l in Hs3 as ->.
  rewrite concat_app. cbn [concat]. rewrite app_nil_r. destruct Hseg as (k & -> & Hn & Hc). cbn in Hn, Hc.
  pose proof (hooks_calm _ _ _ Hh Hs1) as Hcalm. apply orb_true_iff in He as [He|He].
  - left. apply Forall_app_2; [done|]. by apply calm_sdk, Hn.
  - right. eauto 10.
Qed.

Lemma wp_observe_realised provider a (p : prog commandE (Observation * option error)) h :
  wp no_contract (λ h r, (h = [] ∧ snd r ≠ None) ∨ (∃ kind, h = [ev (CloudObserve kind a) r]) ∨
    h = [ev (ReconcileAzureCreation a) r]) [] p →
  wp system_contract (λ h' r, ∃ seg, h' = h ++ seg ∧ observe_realised provider a r seg) h
    (interp (boundary_call provider) p).
Proof.
  intros Hp. eapply wp_mono; [apply wp_boundary, Hp|]. intros h' r (hc & segs & -> & Hs & Hshape).
  eexists. split; [done|]. split; [by eapply boundaries_inner|]. intros Hgone.
  assert (∀ v, hc = [v] → boundary_realised provider v (concat segs)) as Hone.
  { intros v ->. apply Forall2_cons_inv_l in Hs as (seg & segs3 & Hseg & Hs3 & ->). apply Forall2_nil_inv_l in Hs3 as ->.
    cbn [concat]. by rewrite app_nil_r. }
  destruct Hshape as [[_ Hn]|[[kind Hh]|Hh]]; [by destruct Hgone| |]; apply Hone in Hh; cbn in Hh.
  - destruct Hh as (k & -> & _ & Hg). eauto.
  - destruct Hh as (k & -> & Hg). eauto.
Qed.

Lemma wp_provider_call X (e : lifecycleE X) h :
  wp system_contract (λ h' x, ∃ seg, h' = h ++ seg ∧ store_contract X e x ∧ realised (ev e x) seg) h (provider_call X e).
Proof.
  destruct e; cbn [provider_call]; try (apply wp_call; intros x Hx; by eexists).
  - eapply wp_mono; [apply wp_create_realised, create_id_shape|]. intros h' r (seg & -> & Hs). exists seg; split; [done|split; [done|exact Hs]].
  - eapply wp_mono; [apply wp_create_realised, create_shape|]. intros h' r (seg & -> & Hs). exists seg; split; [done|split; [done|exact Hs]].
  - eapply wp_mono; [apply wp_observe_realised|]. 2: intros h' r (seg & -> & Hs); exists seg; split; [done|split; [done|exact Hs]].
    eapply wp_mono; [apply observe_shape|]. naive_solver.
  - eapply wp_mono; [apply wp_observe_realised, recovery_shape|]. intros h' r (seg & -> & Hs). exists seg; split; [done|split; [done|exact Hs]].
  - eapply wp_mono; [apply wp_boundary, wp_true|]. intros h' r (hc & segs & -> & Hs & _). eexists.
    split_and!; [done|done|]. by eapply boundaries_inner.
Qed.

(** ** Positions of a history of the system *)

Lemma realised_cases v seg : realised v seg → Forall inner seg ∨ ∃ x, seg = [x] ∧ outer_of x = Some v.
Proof.
  destruct v as [X [e x]]. destruct e; cbn; try (intros ->; right; by eexists); intros Hs; left; try apply Hs; done.
Qed.

Lemma outer_split h segs : ∀ pre v post w,
  Forall2 realised h segs → concat segs = pre ++ v :: post → outer_of v = Some w →
  ∃ h1 h2 segs1, h = h1 ++ w :: h2 ∧ pre = concat segs1 ∧ Forall2 realised h1 segs1.
Proof.
  intros pre v post w Hs. revert pre. induction Hs as [|u seg h segs Hu _ IH]; intros pre Heq Hv; [by destruct pre|].
  cbn [concat] in Heq.
  assert (∀ pre', concat segs = pre' ++ v :: post → pre = seg ++ pre' →
    ∃ h1 h2 segs1, u :: h = h1 ++ w :: h2 ∧ pre = concat segs1 ∧ Forall2 realised h1 segs1) as Hlater.
  { intros pre' Hc ->. destruct (IH pre' Hc Hv) as (h1 & h2 & segs1 & -> & -> & Hs1).
    exists (u :: h1), h2, (seg :: segs1). split_and!; [done|done|by constructor]. }
  apply app_eq_inv in Heq as [(k & -> & Hk)|(k & -> & Hk)]; [|by apply (Hlater k)].
  destruct k as [|v' k]; [by apply (Hlater []); rewrite ?app_nil_r|]. injection Hk as -> _.
  apply realised_cases in Hu as [Hin|(x & Hx & Ho)].
  - apply Forall_app in Hin as [_ Hin%Forall_inv]. unfold inner in Hin. congruence.
  - destruct pre as [|? pre]; [|by destruct pre]. injection Hx as -> ->. rewrite Hv in Ho. injection Ho as ->.
    exists [], h, []. by split_and!.
Qed.

(** What the lifecycle guarantees where it calls the store holds of the calls
    the history of the system realises. *)
Lemma system_positions c id (P : history → event lifecycleE → Prop) :
  ensures store_contract (Step c id) (λ h _, at_every P h) →
  ensures system_contract (system_step c id) (λ h _, at_every (λ pre v, ∀ w, outer_of v = Some w →
    ∃ h1 segs, pre = concat segs ∧ Forall2 realised h1 segs ∧ P h1 w) h).
Proof.
  intros HP. apply wp_ensures. eapply wp_mono.
  - apply (wp_realised store_contract system_contract provider_call realised (λ h _, at_every P h)); [apply wp_provider_call|].
    apply wp_traces. intros h r Ht Hh. by apply (HP h r).
  - intros h' r (h & segs & -> & Hs & Hev) pre v post Heq w Hw.
    destruct (outer_split h segs pre v post w Hs Heq Hw) as (h1 & h2 & segs1 & -> & -> & Hs1).
    exists h1, segs1. split_and!; [done|done|]. by eapply Hev.
Qed.

Lemma calm_realised h segs : Forall calm_call h → Forall2 realised h segs → Forall calm (concat segs).
Proof.
  intros Hh Hs. induction Hs as [|v seg h segs Hv _ IH]; cbn; [done|]. apply Forall_cons in Hh as [Hc Hh].
  apply Forall_app_2; [|by apply IH]. destruct v as [X [e x]]. destruct e; try done; cbn in Hv; subst; by repeat constructor.
Qed.

Lemma realised_one h w segs :
  Forall2 realised (h ++ [w]) segs → ∃ segs1 seg, segs = segs1 ++ [seg] ∧ Forall2 realised h segs1 ∧ realised w seg.
Proof.
  intros (segs1 & segs2 & Hs1 & Hs2 & ->)%Forall2_app_inv_l.
  apply Forall2_cons_inv_l in Hs2 as (seg & segs3 & Hseg & Hs3 & ->). apply Forall2_nil_inv_l in Hs3 as ->. eauto.
Qed.

Lemma create_answered_realised w provider a e seg :
  create_answered w provider a e → realised w seg → create_realised provider a e seg.
Proof. by intros [(r & -> & <-)|(r & -> & <-)]. Qed.

Lemma gone_answered_realised w provider a seg :
  gone_answered w provider a → realised w seg → ∃ k, seg = sdk_event provider <$> k ∧ gone a k.
Proof. by intros (r & Hr & [->| ->]) [_ Hs]; apply Hs. Qed.

(** A record returned to Pending: the requests of the step so far. *)
Definition pending_evidence (id : string) (pre : sys_history) : Prop :=
  Forall calm pre ∨ ∃ before provider a k, pre = before ++ (sdk_event provider <$> k) ∧ Forall calm before ∧
    ID a = id ∧ rejected a k.

Lemma system_pending c id :
  ensures system_contract (system_step c id) (λ h _, at_every (λ pre v, ∀ a,
    outer_of v ≫= save_arg = Some a → al_Phase a = Pending → pending_evidence (ID a) pre) h).
Proof.
  intros h r Ht Hh pre v post Heq a (w & Hw & Hsave)%bind_Some Hph.
  destruct (system_positions c id _ (step_pending_saves c id) h r Ht Hh pre v post Heq w Hw)
    as (h1 & segs & -> & Hs & HP).
  destruct (HP a Hsave Hph) as [Hcalm|(pre' & w' & provider & a0 & e & -> & Hcalm & Hans & Hid & He)].
  { left. by eapply calm_realised. }
  apply realised_one in Hs as (segs1 & seg & -> & Hs1 & Hseg). pose proof (calm_realised _ _ Hcalm Hs1) as Hc1.
  destruct (create_answered_realised _ _ _ _ _ Hans Hseg) as [_ Hno]. rewrite concat_app. cbn [concat]. rewrite app_nil_r.
  destruct (Hno He) as [Hc2|(hooks & k & -> & Hhooks & Hrej)]; [left; by apply Forall_app_2|].
  right. exists (concat segs1 ++ hooks), provider, a0, k. split_and!; [by rewrite app_assoc|by apply Forall_app_2|done|done].
Qed.

(** A record released: the evidence is followed by no change. *)
Definition release_evidence (a : Allocation) (pre : sys_history) : Prop :=
  let provider := off_Provider (al_Offering a) in
  ∃ before a0 k after, pre = before ++ (sdk_event provider <$> k) ++ after ∧ Forall calm after ∧
    ID a0 = ID a ∧ gone a0 k.

Lemma system_release c id :
  ensures system_contract (system_step c id) (λ h _, at_every (λ pre v, ∀ a,
    outer_of v ≫= save_arg = Some a → al_Phase a = Deleted → release_evidence a pre) h).
Proof.
  intros h r Ht Hh pre v post Heq a (w & Hw & Hsave)%bind_Some Hph.
  destruct (system_positions c id _ (step_deleted_saves c id) h r Ht Hh pre v post Heq w Hw)
    as (h1 & segs & -> & Hs & HP).
  destruct (HP a Hsave Hph) as (pre' & w' & post' & provider & a0 & -> & Hcalm & Hg & Hid & ->).
  apply Forall2_app_inv_l in Hs as (segs1 & segs2 & Hs1 & Hs2 & ->).
  apply Forall2_cons_inv_l in Hs2 as (seg & segs3 & Hseg & Hs3 & ->).
  destruct (gone_answered_realised _ _ _ _ Hg Hseg) as (k & -> & Hk).
  exists (concat segs1), a0, k, (concat segs3). rewrite concat_app. split_and!; [done|by eapply calm_realised|done|done].
Qed.
End system.
