(* ===== verification/Cluster.v ===== *)
(** * The calls of the configuration runtime
    (internal/configapi: the Kubernetes clients, [Worker] and [WorkerFactory])

    The signature of every call the runtime makes: the dynamic client, Secrets,
    the checkpoint's ConfigMap, the workers it builds and drives, and the clock.
    All objects are those of the runtime's namespace. *)
From S2P Require Import Prelude.
From S2P Require Import Effects.
From S2P Require Import Fleet.
From S2P Require Import Compile.
From S2P Require Import Api.
Import Api.

(** A value of [status.conditions]: an entry, if it is a JSON object. *)
Record RootCondition := {
  rcn_Type : string;
  rcn_Status : string;
  rcn_Reason : string;
  rcn_Message : string;
  rcn_ObservedGeneration : Z;
  rcn_LastTransitionTime : option string   (* when it is a string *)
}.

(** [unstructured.Unstructured]: what the sources read of its content, and the
    rest of it ([spec] among others) as text. *)
Record Unstructured := {
  u_Meta : ObjectMeta;
  u_APIVersion : string;
  u_Kind : string;
  u_ObservedGeneration : Z;                (* [status.observedGeneration] *)
  u_Conditions : list (option RootCondition);
  u_Body : string
}.

(** [corev1.ConfigMap], with the metadata the checkpoints use. *)
Record CheckpointMap := {
  ck_Namespace : string;
  ck_Name : string;
  ck_UID : string;
  ck_ResourceVersion : string;
  ck_Labels : gmap string string;
  ck_Annotations : gmap string string;
  ck_Data : gmap string string
}.

(** [corev1.Secret] *)
Record Secret := {
  sec_Namespace : string;
  sec_Name : string;
  sec_UID : string;
  sec_ResourceVersion : string;
  sec_DeletionTimestamp : option time;
  sec_Data : gmap string string
}.

Record Revision := {
  rev_Resource : string;
  rev_Name : string;
  rev_UID : string;
  rev_ResourceVersion : string;
  rev_Generation : Z
}.

Record SecretRevision := {
  srev_Name : string;
  srev_UID : string;
  srev_ResourceVersion : string;
  srev_ContentHash : string
}.

Record Credentials := {
  cr_GitHub : string;
  cr_Providers : gmap string (gmap string string);
  cr_Revisions : list SecretRevision
}.

Inductive WorkerMode := SessionMode | RecoveryMode | CleanupMode.
#[export] Instance WorkerMode_eq_dec : EqDecision WorkerMode.
Proof. solve_decision. Defined.

(** What [NewWithCredentials] built: a handle of the worker (and of its cleanup
    function) and which provider clients it has. *)
Record Built := {
  b_Worker : Z;
  b_AWS : bool;                            (* a configured "aws" provider client *)
  b_Azure : bool;
  b_GCPBilling : bool                      (* a "gcp" client with a billing key *)
}.

Inductive clusterE : Type → Type :=
  (* the dynamic client *)
  | ObjectGet (resource name : string) : clusterE (result Unstructured)
  | RootUpdate (u : Unstructured) : clusterE (option error)
  | RootUpdateStatus (u : Unstructured) : clusterE (option error)
  (* Secrets *)
  | SecretGet (name : string) : clusterE (result Secret)
  (* ConfigMaps *)
  | CheckpointGet (name : string) : clusterE (result CheckpointMap)
  | CheckpointCreate (cm : CheckpointMap) : clusterE (option error)
  | CheckpointUpdate (cm : CheckpointMap) : clusterE (option error)
  | CheckpointDelete (name uid resourceVersion : string) : clusterE (option error)
  | OwnedMaps (owner : string) : clusterE (result Z)
  (* the order in which a Go map is ranged over; the clock as RFC 3339 text *)
  | RangeOrder (keys : list string) : clusterE (list string)
  | NowText : clusterE string
  (* workers *)
  | NewGitHub (auth : GitHubAuthentication) (url token : string) : clusterE (option error)
  | NewWithCredentials (r : Resolved) (c : Credentials) : clusterE (result Built)
  | InterruptionQueue (w : Z) (url : string) : clusterE (option error)
  | Pause (w : Z) (paused : bool) : clusterE unit
  | DrainWorker (w : Z) : clusterE unit
  | StartWorker (w : Z) (mode : WorkerMode) : clusterE unit
  | CancelWorker (w : Z) : clusterE unit                  (* cancel and wait for [done] *)
  | CleanupWorker (w : Z) : clusterE (option error)
  | WorkerDone (w : Z) : clusterE (option (option error)) (* [done] closed, with [err] *)
  | WorkerDrained (w : Z) : clusterE (result bool)
  | WorkerReady (w : Z) : clusterE bool
  | SetReady (ready : bool) : clusterE unit
  (* [operator.New(config, ..).Drained] over the durable state *)
  | DrainedState (config : Config) : clusterE (result bool).

Abbreviation clM := (prog clusterE).
