(* ===== verification/Checkpoint.v ===== *)
(** * Configuration checkpoints
    (internal/configapi/checkpoint.go)

    The accepted configuration of a scale set, kept in a ConfigMap so that an
    interrupted deletion stays recoverable.  encoding/json of a snapshot is the
    class [SnapshotCodec]. *)
From S2P Require Import Prelude.
From S2P Require Import Effects.
From S2P Require Import Overlay.
From S2P Require Import State.
From S2P Require Import Fleet.
From S2P Require Import ConfigCheck.
From S2P Require Import Api.
From S2P Require Import Compile.
From S2P Require Import Cluster.
Import Api.

Definition checkpointKind : string := "configuration".
Definition checkpointUID : string := "runnerscout.io/scale-set-uid".
Definition checkpointLimit : Z := Z.shiftl 900 10.

Definition errCheckpointOwnership : error :=
  Err "configuration checkpoint ownership mismatch" [ErrCheckpointOwnership].
Definition errBindingChange : error :=
  Err "restore the accepted provider and class binding for cleanup" [ErrBindingChange].

(** [Checkpoints], without its client. *)
Record Checkpoints := { cp_Namespace : string; cp_Name : string }.

Definition metadata (meta : ObjectMeta) : ObjectMeta :=
  {| om_Name := om_Name meta; om_Namespace := om_Namespace meta; om_UID := om_UID meta;
     om_ResourceVersion := ""; om_Generation := om_Generation meta; om_DeletionTimestamp := None;
     om_Finalizers := [] |}.

Definition no_status : ConfigurationStatus := {| st_ObservedGeneration := 0; st_Conditions := [] |}.

Definition strip_provider (p : Api.ProviderConfig) : Api.ProviderConfig :=
  {| pcf_Meta := metadata (pcf_Meta p); pcf_Spec := pcf_Spec p; pcf_Status := no_status |}.

(** The assignments of [checkpointSnapshot]. *)
Definition strip (s : Snapshot) : Snapshot :=
  {| sn_ScaleSet := {| ss_Meta := metadata (ss_Meta (sn_ScaleSet s)); ss_Spec := ss_Spec (sn_ScaleSet s);
                       ss_Status := no_status |};
     sn_Class := {| rc_Meta := metadata (rc_Meta (sn_Class s)); rc_Spec := rc_Spec (sn_Class s);
                    rc_Status := no_status |};
     sn_Catalog := {| cc_Meta := metadata (cc_Meta (sn_Catalog s)); cc_Spec := cc_Spec (sn_Catalog s);
                      cc_Status := no_status |};
     sn_Providers := strip_provider <$> sn_Providers s;
     sn_Network := (λ n, {| np_Meta := metadata (np_Meta n); np_Spec := np_Spec n; np_Status := no_status |})
                     <$> sn_Network s;
     sn_Budget := (λ b, {| cb_Meta := metadata (cb_Meta b); DailyBudgetMicros := DailyBudgetMicros b;
                           cb_Status := no_status |}) <$> sn_Budget s |}.

(** [json.Marshal], [json.Unmarshal], and the strict decoder with whether
    nothing follows the first value. *)
Class SnapshotCodec := {
  snapshot_marshal : Snapshot → result string;
  snapshot_unmarshal : string → result Snapshot;
  snapshot_decode : string → result (Snapshot * bool)
}.

(** A value that went through JSON once, stripped, goes through it unchanged. *)
Definition codec_roundtrips `{SnapshotCodec} : Prop :=
  ∀ s0 t s d, snapshot_marshal s0 = inr t → snapshot_unmarshal t = inr s →
    snapshot_marshal (strip s) = inr d → snapshot_decode d = inr (strip s, true).

Section checkpoint.
Context `{NetText} `{NameRules} `{FleetCodec} `{SnapshotCodec}.

Definition checkpoint_name (c : Checkpoints) : string := cp_Name c +:+ "-configuration".

(** [Checkpoints.decode] *)
Definition decode (c : Checkpoints) (cm : CheckpointMap) : result Snapshot :=
  if (ck_Namespace cm <>s cp_Namespace c) || (ck_Name cm <>s checkpoint_name c)
     || (map_get "" (ck_Labels cm) owner_label <>s cp_Name c)
     || (map_get "" (ck_Labels cm) kind_label <>s checkpointKind)
  then inl errCheckpointOwnership
  else
    let data := map_get "" (ck_Data cm) "snapshot" in
    if (strlen data =? 0) || (checkpointLimit <? strlen data)
    then inl (errors_new "invalid configuration checkpoint size")
    else match snapshot_decode data with
    | inl _ => inl (errors_new "invalid configuration checkpoint")
    | inr (_, false) => inl (errors_new "invalid configuration checkpoint trailer")
    | inr (snapshot, true) =>
        let root := ss_Meta (sn_ScaleSet snapshot) in
        if (om_Namespace root <>s cp_Namespace c) || (om_Name root <>s cp_Name c) || (om_UID root =s "")
           || (om_UID root <>s map_get "" (ck_Annotations cm) checkpointUID)
        then inl errCheckpointOwnership
        else match Compile snapshot with
        | inl err => inl err
        | inr _ => inr snapshot
        end
    end.

(** [Checkpoints.Read] *)
Definition Checkpoints_Read (c : Checkpoints) : clM (result Snapshot) :=
  r ← call (CheckpointGet (checkpoint_name c));
  mret match r with inl err => inl err | inr cm => decode c cm end.

Definition checkpointSnapshot (s : Snapshot) : result Snapshot :=
  match snapshot_marshal s with
  | inl _ => inl (errors_new "configuration exceeds checkpoint limits")
  | inr data =>
      if Z.shiftl 4 20 <? strlen data then inl (errors_new "configuration exceeds checkpoint limits")
      else match snapshot_unmarshal data with inl err => inl err | inr snapshot => inr (strip snapshot) end
  end.

(** The new ConfigMap of [Save]. *)
Definition checkpoint_map (c : Checkpoints) (uid data : string) : CheckpointMap :=
  {| ck_Namespace := cp_Namespace c; ck_Name := checkpoint_name c; ck_UID := ""; ck_ResourceVersion := "";
     ck_Labels := {[owner_label := cp_Name c; kind_label := checkpointKind]};
     ck_Annotations := {[checkpointUID := uid]}; ck_Data := {["snapshot" := data]} |}.

Definition put_snapshot (data : string) (cm : CheckpointMap) : CheckpointMap :=
  {| ck_Namespace := ck_Namespace cm; ck_Name := ck_Name cm; ck_UID := ck_UID cm;
     ck_ResourceVersion := ck_ResourceVersion cm; ck_Labels := ck_Labels cm;
     ck_Annotations := ck_Annotations cm; ck_Data := <["snapshot" := data]> (ck_Data cm) |}.

(** The part of [Save] before the first request: what is to be written. *)
Definition prepare (c : Checkpoints) (source : Snapshot) : result (Snapshot * Resolved * string) :=
  match Compile source with
  | inl err => inl err
  | inr _ =>
      match checkpointSnapshot source with
      | inl err => inl err
      | inr snapshot =>
          let root := ss_Meta (sn_ScaleSet snapshot) in
          if (om_UID root =s "") || (om_Namespace root <>s cp_Namespace c) || (om_Name root <>s cp_Name c)
          then inl errCheckpointOwnership
          else match Compile snapshot with
          | inl err => inl err
          | inr resolved =>
              match snapshot_marshal snapshot with
              | inl _ => inl (errors_new "configuration exceeds checkpoint limits")
              | inr data =>
                  if checkpointLimit <? strlen data then inl (errors_new "configuration exceeds checkpoint limits")
                  else inr (snapshot, resolved, data)
              end
          end
      end
  end.

(** The checks of [Save] against the checkpoint found. *)
Definition check_previous (c : Checkpoints) (cm : CheckpointMap) (snapshot : Snapshot) (resolved : Resolved)
    : option error :=
  match decode c cm with
  | inl err => Some err
  | inr old =>
      if om_UID (ss_Meta (sn_ScaleSet old)) <>s om_UID (ss_Meta (sn_ScaleSet snapshot))
      then Some errCheckpointOwnership
      else match Compile old with
      | inl err => Some err
      | inr previous =>
          if negb (SameBinding (rs_Config previous) (rs_Config resolved)) then Some errBindingChange else None
      end
  end.

(** [Checkpoints.Save] *)
Definition Checkpoints_Save (c : Checkpoints) (source : Snapshot) : clM (option error) :=
  match prepare c source with
  | inl err => mret (Some err)
  | inr (snapshot, resolved, data) =>
      r ← call (CheckpointGet (checkpoint_name c));
      match r with
      | inl err =>
          if errors_is err APINotFound
          then call (CheckpointCreate (checkpoint_map c (om_UID (ss_Meta (sn_ScaleSet snapshot))) data))
          else mret (Some err)
      | inr cm =>
          match check_previous c cm snapshot resolved with
          | Some err => mret (Some err)
          | None =>
              if map_get "" (ck_Data cm) "snapshot" =s data then mret None
              else call (CheckpointUpdate (put_snapshot data cm))
          end
      end
  end.

(** [Checkpoints.Remove] *)
Definition Checkpoints_Remove (c : Checkpoints) (scaleSetUID : string) : clM (option error) :=
  r ← call (CheckpointGet (checkpoint_name c));
  match r with
  | inl err => mret (if errors_is err APINotFound then None else Some err)
  | inr cm =>
      match decode c cm with
      | inl err => mret (Some err)
      | inr snapshot =>
          if (om_UID (ss_Meta (sn_ScaleSet snapshot)) <>s scaleSetUID) || (ck_UID cm =s "")
             || (ck_ResourceVersion cm =s "")
          then mret (Some errCheckpointOwnership)
          else call (CheckpointDelete (ck_Name cm) (ck_UID cm) (ck_ResourceVersion cm))
      end
  end.
End checkpoint.
