(* ===== verification/CheckpointProps.v ===== *)
(** * What a checkpoint guarantees

    Every write of a checkpoint replaces the version it was compared with, for
    the same scale set and an unchanged binding; what was written reads back. *)
From S2P Require Import Prelude.
From S2P Require Import Effects.
From S2P Require Import Overlay.
From S2P Require Import State.
From S2P Require Import Fleet.
From S2P Require Import ConfigCheck.
From S2P Require Import Api.
From S2P Require Import Compile.
From S2P Require Import CompileProps.
From S2P Require Import Cluster.
From S2P Require Import Checkpoint.
Import Api.

Abbreviation cl_history := (list (event clusterE)).

(** ** Stripping keeps the configuration *)

(** The list of checks in the goal has no error. *)
Ltac checks_pass :=
  match goal with |- context [first_error ?l] => assert (first_error l = None) as -> end;
  [apply first_error_Forall; rewrite !Forall_cons; split_and!; try done|].

(** Pass the guard a successful computation starts with. *)
Ltac pass_guard H E :=
  cbv zeta in H; match type of H with (if ?b then _ else _) = _ => destruct b eqn:E; [discriminate H|] end.

Section strip.
Context `{NetText} `{NameRules}.

Lemma object_strip meta ns name : object meta ns name = None → object (metadata meta) ns name = None.
Proof.
  unfold object. rewrite !first_error_Forall, !Forall_cons. intros (H1 & H2 & _). by split_and!.
Qed.

Lemma compile_providers_strip s refs : ∀ prov cred names x,
  compile_providers s refs prov cred names = inr x → compile_providers (strip s) refs prov cred names = inr x.
Proof.
  induction refs as [|ref refs IH]; intros prov cred names x; cbn [compile_providers]; [done|].
  cbn [strip sn_Providers sn_ScaleSet ss_Meta metadata om_Namespace om_Name]. rewrite lookup_fmap.
  destruct (sn_Providers s !! ref) as [p|]; [|done]. cbn [fmap option_fmap option_map].
  destruct (first_error _) as [|] eqn:Hf; [done|]. intros Hx.
  apply first_error_Forall in Hf. rewrite !Forall_cons in Hf. destruct Hf as (H1 & H2 & H3 & _).
  checks_pass; [by apply object_strip|by apply IH].
Qed.

Lemma network_strip s prov x : network s prov = inr x → network (strip s) prov = inr x.
Proof.
  unfold network. cbn [strip sn_Network sn_Class rc_Spec sn_ScaleSet ss_Meta metadata om_Namespace sn_Catalog cc_Spec].
  destruct (NetworkRef _) as [ref|], (sn_Network s) as [n|]; try done.
  cbn [fmap option_fmap option_map np_Meta np_Spec]. destruct (first_error _) as [|] eqn:Hf; [done|].
  apply first_error_Forall in Hf. rewrite !Forall_cons in Hf. destruct Hf as (H1 & H2 & _). intros Hx.
  checks_pass; [by apply object_strip|done].
Qed.

Lemma budget_strip s b : resolve_budget s = inr b → resolve_budget (strip s) = inr b.
Proof.
  unfold resolve_budget. cbn [strip sn_ScaleSet ss_Spec ss_Meta metadata om_Namespace sn_Budget].
  destruct (BudgetRef _) as [ref|], (sn_Budget s) as [cb|]; try done. cbn [fmap option_fmap option_map].
  destruct (object _ _ _) as [|] eqn:Ho; [done|]. intros Hb. cbn [cb_Meta]. by rewrite (object_strip _ _ _ Ho).
Qed.

(** Dropping status and volatile metadata keeps what a snapshot compiles to. *)
Lemma compile_strip s r : Compile s = inr r → Compile (strip s) = inr r.
Proof.
  unfold Compile. cbv zeta. destruct (first_error _) as [|] eqn:Hf; [done|].
  apply first_error_Forall in Hf. rewrite !Forall_cons in Hf.
  destruct Hf as (H1 & H2 & H3 & H4 & H5 & H6 & _).
  intros Hx. checks_pass; [by apply object_strip..|]. revert Hx.
  change (sn_Class (strip s)) with {| rc_Meta := metadata (rc_Meta (sn_Class s)); rc_Spec := rc_Spec (sn_Class s);
    rc_Status := no_status |}. cbn [rc_Spec].
  destruct (compile_providers _ _ _ _ _) as [|[[prov cred] names]] eqn:Hp; [done|].
  rewrite (compile_providers_strip _ _ _ _ _ _ Hp).
  destruct (network s prov) as [|[np cidrs]] eqn:Hn; [done|]. rewrite (network_strip _ _ _ Hn).
  destruct (resolve_budget s) as [|b] eqn:Hb; [done|]. by rewrite (budget_strip _ _ Hb).
Qed.
End strip.

(** ** Writes *)

Section save.
Context `{NetText} `{NameRules} `{FleetCodec} `{SnapshotCodec}.

Definition uid_of (s : Snapshot) : string := om_UID (ss_Meta (sn_ScaleSet s)).

(** A write of the checkpoint, with its answer. *)
Definition write_of (v : event clusterE) : option (CheckpointMap * option error) :=
  match v with
  | existT _ (e, x) =>
      match e in clusterE T return T → option (CheckpointMap * option error) with
      | CheckpointCreate cm => λ err, Some (cm, err)
      | CheckpointUpdate cm => λ err, Some (cm, err)
      | _ => λ _, None
      end x
  end.

(** What [prepare] establishes about what is to be written. *)
Lemma prepare_spec c source snapshot resolved data :
  prepare c source = inr (snapshot, resolved, data) →
  checkpointSnapshot source = inr snapshot ∧ Compile snapshot = inr resolved ∧
  snapshot_marshal snapshot = inr data ∧ strlen data ≤ checkpointLimit ∧ uid_of snapshot ≠ "" ∧
  om_Namespace (ss_Meta (sn_ScaleSet snapshot)) = cp_Namespace c ∧
  om_Name (ss_Meta (sn_ScaleSet snapshot)) = cp_Name c.
Proof.
  unfold prepare. destruct (Compile source) as [|r0]; [done|]. destruct (checkpointSnapshot source) as [|s]; [done|].
  cbv zeta. destruct (_ || _) eqn:Hg; [done|]. destruct (Compile s) as [|r] eqn:Hr; [done|].
  destruct (snapshot_marshal s) as [|d] eqn:Hm; [done|]. destruct (_ <? _) eqn:Hl; [done|].
  intros [= <- <- <-]. reflect in Hg. reflect in Hl. naive_solver.
Qed.

(** A map with the ownership of the checkpoint and this text decodes to it. *)
Lemma decode_written c snapshot resolved data source cm :
  codec_roundtrips → prepare c source = inr (snapshot, resolved, data) → data ≠ "" →
  ck_Namespace cm = cp_Namespace c → ck_Name cm = checkpoint_name c →
  map_get "" (ck_Labels cm) owner_label = cp_Name c → map_get "" (ck_Labels cm) kind_label = checkpointKind →
  map_get "" (ck_Annotations cm) checkpointUID = uid_of snapshot → map_get "" (ck_Data cm) "snapshot" = data →
  decode c cm = inr snapshot.
Proof.
  intros Hrt (Hsn & Hr & Hm & Hlen & Huid & Hns & Hname)%prepare_spec Hne Hk1 Hk2 Hk3 Hk4 Hk5 Hk6.
  unfold decode. rewrite Hk1, Hk2, Hk3, Hk4, Hk5, Hk6, !String.eqb_refl. cbn [negb orb]. cbv zeta.
  assert (strlen data =? 0 = false) as ->.
  { apply Z.eqb_neq. unfold strlen. by destruct data. }
  assert (checkpointLimit <? strlen data = false) as -> by (by apply Z.ltb_ge).
  assert (snapshot_decode data = inr (snapshot, true)) as ->.
  { unfold checkpointSnapshot in Hsn. destruct (snapshot_marshal source) as [|t] eqn:Ht; [done|].
    destruct (_ <? _); [done|]. destruct (snapshot_unmarshal t) as [|s] eqn:Hu; [done|].
    injection Hsn as <-. eapply Hrt; [exact Ht|exact Hu|exact Hm]. }
  cbn [orb]. unfold uid_of in *. rewrite Hns, Hname, !String.eqb_refl. apply String.eqb_neq in Huid.
  by rewrite Huid, Hr.
Qed.

(** What [decode] requires of the map. *)
Lemma decode_owned c cm s :
  decode c cm = inr s →
  ck_Namespace cm = cp_Namespace c ∧ ck_Name cm = checkpoint_name c ∧
  map_get "" (ck_Labels cm) owner_label = cp_Name c ∧ map_get "" (ck_Labels cm) kind_label = checkpointKind ∧
  map_get "" (ck_Annotations cm) checkpointUID = uid_of s ∧ uid_of s ≠ "" ∧
  om_Namespace (ss_Meta (sn_ScaleSet s)) = cp_Namespace c ∧ om_Name (ss_Meta (sn_ScaleSet s)) = cp_Name c ∧
  ∃ r, Compile s = inr r.
Proof.
  unfold decode. intros Hd. pass_guard Hd Ho. pass_guard Hd Hl.
  destruct (snapshot_decode _) as [|[s' []]]; [done| |done].
  pass_guard Hd Hg. destruct (Compile s') as [|r] eqn:Hc; [done|].
  injection Hd as <-. reflect in Ho. reflect in Hg. unfold uid_of. naive_solver.
Qed.

(** The write [cm'] belongs to the accepted snapshot [new]: it creates the
    checkpoint after it was found absent, or replaces the very version that was
    read, of the same scale set and binding. *)
Definition justified_write (c : Checkpoints) (new : Snapshot) (pre : cl_history) (cm' : CheckpointMap) : Prop :=
  decode c cm' = inr new ∧
  ((∃ err, ev (CheckpointGet (checkpoint_name c)) (inl err) ∈ pre ∧ errors_is err APINotFound = true) ∨
   ∃ cm old r r', ev (CheckpointGet (checkpoint_name c)) (inr cm) ∈ pre ∧ decode c cm = inr old ∧
     ck_ResourceVersion cm' = ck_ResourceVersion cm ∧ uid_of old = uid_of new ∧
     Compile old = inr r ∧ Compile new = inr r' ∧ binding (rs_Config r) = binding (rs_Config r')).

Lemma check_previous_None c cm snapshot resolved :
  check_previous c cm snapshot resolved = None →
  ∃ old r, decode c cm = inr old ∧ uid_of old = uid_of snapshot ∧ Compile old = inr r ∧
    binding (rs_Config r) = binding (rs_Config resolved).
Proof.
  unfold check_previous. intros Hc. destruct (decode c cm) as [|old]; [done|]. pass_guard Hc Hu.
  destruct (Compile old) as [|r] eqn:Hr; [done|]. pass_guard Hc Hb. unfold SameBinding in Hb.
  reflect in Hu. reflect in Hb. exists old, r. by split_and!.
Qed.

(** C19: A checkpoint keeps its scale set and its binding, and reads back.  Every
    write of [Save] stores a map that decodes to the stripped snapshot, and
    either creates the checkpoint after it was found absent or replaces the
    version just read, which belonged to the same scale set and had the same
    binding; and [Save] succeeds only when the checkpoint it wrote or found
    decodes to that snapshot. *)
Theorem checkpoint_saved c source :
  codec_roundtrips → (∀ s, snapshot_marshal s ≠ inr "") →
  ensures no_contract (Checkpoints_Save c source) (λ h r,
    ∃ new, at_every (λ pre v, ∀ cm' err, write_of v = Some (cm', err) → justified_write c new pre cm') h ∧
      (r = None → checkpointSnapshot source = inr new ∧
        ∃ cm, decode c cm = inr new ∧
          (ev (CheckpointGet (checkpoint_name c)) (inr cm) ∈ h ∨
           ∃ v, v ∈ h ∧ write_of v = Some (cm, None)))).
Proof.
  intros Hrt Hnonempty. apply wp_ensures. unfold Checkpoints_Save.
  destruct (prepare c source) as [err|[[new resolved] data]] eqn:Hp.
  { apply wp_ret. exists source. split; [apply at_every_nil|done]. }
  pose proof (prepare_spec _ _ _ _ _ Hp) as (Hsn & Hr & Hm & _).
  assert (data ≠ "") as Hne by (intros ->; by eapply Hnonempty).
  apply wp_call_bind. intros [err|cm] _.
  - destruct (errors_is err APINotFound) eqn:He.
    2: { apply wp_ret. exists new. split; [|done]. apply at_every_compute. by repeat split. }
    apply wp_call. intros e _. exists new.
    assert (decode c (checkpoint_map c (uid_of new) data) = inr new) as Hd by (by eapply decode_written).
    split.
    + apply at_every_compute. split; [done|]. split; [|done]. intros cm' err' [= <- <-].
      split; [exact Hd|]. left. exists err. split; [left|done].
    + intros ->. split; [done|]. eexists. split; [exact Hd|]. right. eexists. split; [right; left|done].
  - destruct (check_previous c cm new resolved) as [err|] eqn:Hc.
    { apply wp_ret. exists new. split; [|done]. apply at_every_compute. by repeat split. }
    apply check_previous_None in Hc as (old & r & Hold & Huid & Hcomp & Hb).
    pose proof (decode_owned _ _ _ Hold) as (Hk1 & Hk2 & Hk3 & Hk4 & Hk5 & _).
    assert (∀ cm', ck_Namespace cm' = ck_Namespace cm → ck_Name cm' = ck_Name cm → ck_Labels cm' = ck_Labels cm →
      ck_Annotations cm' = ck_Annotations cm → map_get "" (ck_Data cm') "snapshot" = data → decode c cm' = inr new) as Hd.
    { intros cm' E1 E2 E3 E4 E5. eapply decode_written; try done; congruence. }
    destruct (_ =s data) eqn:Hsame.
    + apply wp_ret. exists new. split; [apply at_every_compute; by repeat split|]. intros _. split; [done|].
      exists cm. apply String.eqb_eq in Hsame. split; [by apply Hd|]. left. left.
    + apply wp_call. intros e _. exists new.
      assert (decode c (put_snapshot data cm) = inr new) as Hd'.
      { apply Hd; try done. unfold map_get. simpl. by rewrite lookup_insert_eq. }
      split.
      * apply at_every_compute. split; [done|]. split; [|done]. intros cm' err' [= <- <-].
        split; [exact Hd'|]. right. exists cm, old, r, resolved. split_and!; try done. left.
      * intros ->. split; [done|]. eexists. split; [exact Hd'|]. right. eexists. split; [right; left|done].
Qed.

(** Removal is of the version and object that were read, for the named scale
    set only. *)
Lemma checkpoint_removed c uid :
  ensures no_contract (Checkpoints_Remove c uid) (λ h r,
    ∀ name u rv err, ev (CheckpointDelete name u rv) err ∈ h →
      ∃ cm s, ev (CheckpointGet (checkpoint_name c)) (inr cm) ∈ h ∧ decode c cm = inr s ∧ uid_of s = uid ∧
        u = ck_UID cm ∧ u ≠ "" ∧ rv = ck_ResourceVersion cm ∧ rv ≠ "" ∧ name = ck_Name cm).
Proof.
  apply wp_ensures. unfold Checkpoints_Remove. apply wp_call_bind. intros [e|cm] _.
  { apply wp_ret. intros name u rv err Hin. by apply elem_of_cons in Hin as [Hin|Hin%elem_of_nil]. }
  destruct (decode c cm) as [e|s] eqn:Hd.
  { apply wp_ret. intros name u rv err Hin. by apply elem_of_cons in Hin as [Hin|Hin%elem_of_nil]. }
  destruct (_ || _) eqn:Hg.
  { apply wp_ret. intros name u rv err Hin. by apply elem_of_cons in Hin as [Hin|Hin%elem_of_nil]. }
  apply wp_call. intros e _ name u rv err Hin. reflect in Hg. exists cm, s.
  apply elem_of_cons in Hin as [Hin|[Hin|Hin%elem_of_nil]%elem_of_cons]; [done| |done].
  unfold ev in Hin. simplify_eq. split_and!; try tauto; left.
Qed.
End save.
