(* ===== verification/Load.v ===== *)
(** * Reading configuration and credentials
    (internal/configapi/read.go, secrets.go, load.go)

    A snapshot of the referenced objects and Secrets, read one by one and then
    verified by identity and version.  JSON decoding of the objects and SHA-256
    are classes. *)
From S2P Require Import Prelude.
From S2P Require Import Effects.
From S2P Require Import Overlay.
From S2P Require Import Provider.
From S2P Require Import Fleet.
From S2P Require Import ConfigCheck.
From S2P Require Import Api.
From S2P Require Import Compile.
From S2P Require Import Cluster.
Import Api.

Definition errChanged : error :=
  Err "configuration dependencies changed during snapshot collection" [ErrChanged].

(** [json.Marshal(u.Object)]: the length of the text, none when it fails; and
    the strict decoders of that text. *)
Class ObjectCodec := {
  object_size : Unstructured → option Z;
  decode_ScaleSet : Unstructured → result RunnerScaleSet;
  decode_Class : Unstructured → result RunnerClass;
  decode_Catalog : Unstructured → result CapacityCatalog;
  decode_Provider : Unstructured → result Api.ProviderConfig;
  decode_Network : Unstructured → result NetworkProfile;
  decode_Budget : Unstructured → result CapacityBudget
}.

(** What [Loaded.Key] hashes. *)
Record KeyView := {
  kv_Config : Config;
  kv_Auth : GitHubAuthentication;
  kv_References : gmap string (gmap string SecretKeyReference);
  kv_Suspend : bool;
  kv_Network : option NetworkProfileSpec;
  kv_Identities : list (string * string * string);
  kv_Secrets : list (string * string * string)
}.

(** SHA-256 in hexadecimal, and the JSON text of a key. *)
Class Hashing := {
  sha256_hex : string → string;
  key_json : KeyView → string;
  sha256_hex_length : ∀ s, String.length (sha256_hex s) = 64%nat
}.

Definition apiVersion : string := "runnerscout.io/v1alpha1".

Section read.
Context `{NetText} `{NameRules} `{ObjectCodec} `{Hashing}.

(** The checks of the closure [get] on an object. *)
Definition check_identity (namespace name kind : string) (u : Unstructured) : option error :=
  reject ((om_Namespace (u_Meta u) <>s namespace) || (om_Name (u_Meta u) <>s name)
          || (u_APIVersion u <>s apiVersion) || (u_Kind u <>s kind) || (om_UID (u_Meta u) =s "")
          || (om_ResourceVersion (u_Meta u) =s ""))
    "configuration dependency identity is invalid".

Definition revision_of (resource name : string) (u : Unstructured) : Revision :=
  {| rev_Resource := resource; rev_Name := name; rev_UID := om_UID (u_Meta u);
     rev_ResourceVersion := om_ResourceVersion (u_Meta u); rev_Generation := om_Generation (u_Meta u) |}.

(** The closure [get] *)
Definition get {A} (namespace resource kind name : string) (dec : Unstructured → result A)
    : clM (result (A * Revision)) :=
  r ← call (ObjectGet resource name);
  mret match r with
       | inl _ => inl (errors_new "cannot read configuration dependency")
       | inr u =>
           match check_identity namespace name kind u with
           | Some err => inl err
           | None =>
               if match object_size u with None => true | Some n => Z.shiftl 4 20 <? n end
               then inl (errors_new "configuration dependency exceeds decoding limits")
               else match dec u with
               | inl _ => inl (errors_new "configuration dependency has unsupported fields or types")
               | inr x => inr (x, revision_of resource name u)
               end
           end
       end.

(** The loop over the class's providers. *)
Fixpoint get_providers (namespace : string) (refs : list string)
    (providers : gmap string Api.ProviderConfig) (revisions : list Revision)
    : clM (result (gmap string Api.ProviderConfig * list Revision)) :=
  match refs with
  | [] => mret (inr (providers, revisions))
  | ref :: refs' =>
      if isSome (providers !! ref) then mret (inl (errors_new "duplicate provider reference"))
      else
        r ← get namespace "providerconfigs" "ProviderConfig" ref decode_Provider;
        match r with
        | inl err => mret (inl err)
        | inr (p, rev) => get_providers namespace refs' (<[ref := p]> providers) (revisions ++ [rev])
        end
  end.

(** An optional dependency. *)
Definition get_optional {A} (namespace resource kind : string) (ref : option string)
    (dec : Unstructured → result A) (revisions : list Revision) : clM (result (option A * list Revision)) :=
  match ref with
  | None => mret (inr (None, revisions))
  | Some name =>
      r ← get namespace resource kind name dec;
      mret match r with inl err => inl err | inr (x, rev) => inr (Some x, revisions ++ [rev]) end
  end.

(** [Recheck] *)
Fixpoint Recheck (namespace : string) (revisions : list Revision) : clM (option error) :=
  match revisions with
  | [] => mret None
  | rev :: revisions' =>
      r ← call (ObjectGet (rev_Resource rev) (rev_Name rev));
      match r with
      | inl _ => mret (Some (errors_new "cannot verify configuration snapshot"))
      | inr u =>
          if (om_UID (u_Meta u) <>s rev_UID rev) || (om_ResourceVersion (u_Meta u) <>s rev_ResourceVersion rev)
             || (om_Namespace (u_Meta u) <>s namespace) || (om_Name (u_Meta u) <>s rev_Name rev)
          then mret (Some errChanged)
          else Recheck namespace revisions'
      end
  end.

(** The collection of [Read], before the verification. *)
Definition collect (namespace name : string) : clM (result (Snapshot * list Revision)) :=
  try (λ err, mret (inl err)) (get namespace "runnerscalesets" "RunnerScaleSet" name decode_ScaleSet)
  (λ '(scaleSet, rev1),
  try (λ err, mret (inl err))
    (get namespace "runnerclasses" "RunnerClass" (RunnerClassRef (ss_Spec scaleSet)) decode_Class)
  (λ '(class, rev2),
  try (λ err, mret (inl err))
    (get namespace "capacitycatalogs" "CapacityCatalog" (CatalogRef (rc_Spec class)) decode_Catalog)
  (λ '(catalog, rev3),
  if (length (rc_Providers (rc_Spec class)) <? 1)%nat || (16 <? length (rc_Providers (rc_Spec class)))%nat
  then mret (inl (errors_new "runner class must reference 1..16 providers"))
  else
  try (λ err, mret (inl err)) (get_providers namespace (rc_Providers (rc_Spec class)) ∅ [rev1; rev2; rev3])
  (λ '(providers, revisions),
  try (λ err, mret (inl err))
    (get_optional namespace "networkprofiles" "NetworkProfile" (NetworkRef (rc_Spec class)) decode_Network revisions)
  (λ '(net, revisions),
  try (λ err, mret (inl err))
    (get_optional namespace "capacitybudgets" "CapacityBudget" (BudgetRef (ss_Spec scaleSet)) decode_Budget revisions)
  (λ '(budget, revisions),
  mret (inr ({| sn_ScaleSet := scaleSet; sn_Class := class; sn_Catalog := catalog; sn_Providers := providers;
                sn_Network := net; sn_Budget := budget |}, revisions)))))))).

(** [Read] *)
Definition Read (namespace name : string) : clM (result (Snapshot * list Revision)) :=
  try (λ err, mret (inl err)) (collect namespace name) (λ '(s, revisions),
  e ← Recheck namespace revisions;
  mret match e with
       | Some err => inl err
       | None => match Compile s with inl err => inl err | inr _ => inr (s, revisions) end
       end).

(** ** Secrets *)

(** The bytes that [secretDataHash] writes, keys in order. *)
Definition secret_bytes (data : gmap string string) : string :=
  foldr (λ key rest, key +:+ (String (ascii_of_N 0) (map_get "" data key +:+ String (ascii_of_N 0) rest))) ""
    (sort_strings (fst <$> map_to_list data)).

Definition secretDataHash (data : gmap string string) : string := sha256_hex (secret_bytes data).

(** The closure [read]: the value of a key, and the objects read so far. *)
Definition read_secret (namespace : string) (ref : SecretKeyReference) (objects : gmap string Secret)
    : clM (result (string * gmap string Secret)) :=
  match secret ref with
  | Some err => mret (inl err)
  | None =>
      r ← match objects !! sk_Name ref with
          | Some obj => mret (inr (obj, objects))
          | None =>
              r ← call (SecretGet (sk_Name ref));
              mret match r with
                   | inl _ => inl (errors_new "referenced Secret unavailable")
                   | inr obj =>
                       if (sec_Namespace obj <>s namespace) || (sec_Name obj <>s sk_Name ref)
                          || (sec_UID obj =s "") || (sec_ResourceVersion obj =s "")
                          || isSome (sec_DeletionTimestamp obj)
                       then inl (errors_new "referenced Secret identity invalid")
                       else inr (obj, <[sk_Name ref := obj]> objects)
                   end
          end;
      mret match r with
           | inl err => inl err
           | inr (obj, objects) =>
               match sec_Data obj !! sk_Key ref with
               | None => inl (errors_new "referenced Secret key missing or empty")
               | Some value =>
                   if strlen value =? 0 then inl (errors_new "referenced Secret key missing or empty")
                   else inr (value, objects)
               end
           end
  end.

Definition contains_nul (s : string) : bool := strings_contains_any s (String (ascii_of_N 0) "").
Definition nul_cr_lf : string := String (ascii_of_N 0) (String (ascii_of_N 13) (String (ascii_of_N 10) "")).

(** The GitHub credential. *)
Definition github_secret (resolved : Resolved) : clM (result (string * gmap string Secret)) :=
  r ← read_secret (Namespace (rs_Config resolved)) (auth_SecretRef (rs_Auth resolved)) ∅;
  mret match r with
       | inl err => inl err
       | inr (value, objects) =>
           if auth_Mode (rs_Auth resolved) =s "pat" then
             let token := strings_trim_space value in
             if (strlen token =? 0) || strings_contains_any token nul_cr_lf
             then inl (errors_new "invalid GitHub token") else inr (token, objects)
           else inr (value, objects)
       end.

(** The loop over the variables of one provider. *)
Fixpoint provider_secrets (namespace kind : string) (refs : gmap string SecretKeyReference)
    (variables : list string) (values : gmap string string) (objects : gmap string Secret)
    : clM (result (gmap string string * gmap string Secret)) :=
  match variables with
  | [] => mret (inr (values, objects))
  | variable :: variables' =>
      match refs !! variable with
      | None => provider_secrets namespace kind refs variables' values objects
      | Some ref =>
          if negb (CredentialVariable kind variable)
          then mret (inl (errors_new "unsupported provider credential variable"))
          else
            r ← read_secret namespace ref objects;
            match r with
            | inl err => mret (inl err)
            | inr (value, objects) =>
                if contains_nul value then mret (inl (errors_new "invalid provider credential value"))
                else provider_secrets namespace kind refs variables' (<[variable := value]> values) objects
            end
      end
  end.

(** The loop over the providers. *)
Fixpoint all_secrets (resolved : Resolved) (names : list string)
    (providers : gmap string (gmap string string)) (objects : gmap string Secret)
    : clM (result (gmap string (gmap string string) * gmap string Secret)) :=
  match names with
  | [] => mret (inr (providers, objects))
  | name :: names' =>
      match rs_Credentials resolved !! name with
      | None => all_secrets resolved names' providers objects
      | Some refs =>
          match cfg_Providers (rs_Config resolved) !! name with
          | None => mret (inl (errors_new "credential provider is not configured"))
          | Some config =>
              variables ← call (RangeOrder (fst <$> map_to_list refs));
              r ← provider_secrets (Namespace (rs_Config resolved)) (pc_Kind config) refs variables ∅ objects;
              match r with
              | inl err => mret (inl err)
              | inr (values, objects) => all_secrets resolved names' (<[name := values]> providers) objects
              end
          end
      end
  end.

(** The loop that reads the Secrets again. *)
Fixpoint recheck_secrets (objects : gmap string Secret) (names : list string) (revisions : list SecretRevision)
    : clM (result (list SecretRevision)) :=
  match names with
  | [] => mret (inr revisions)
  | name :: names' =>
      match objects !! name with
      | None => recheck_secrets objects names' revisions
      | Some old =>
          r ← call (SecretGet name);
          match r with
          | inl _ => mret (inl (errors_new "referenced Secret recheck failed"))
          | inr current =>
              if (sec_Namespace current <>s sec_Namespace old) || (sec_Name current <>s sec_Name old)
                 || (sec_UID current <>s sec_UID old) || (sec_ResourceVersion current <>s sec_ResourceVersion old)
                 || isSome (sec_DeletionTimestamp current)
              then mret (inl errChanged)
              else recheck_secrets objects names'
                     (revisions ++ [{| srev_Name := name; srev_UID := sec_UID current;
                                       srev_ResourceVersion := sec_ResourceVersion current;
                                       srev_ContentHash := secretDataHash (sec_Data current) |}])
          end
      end
  end.

Definition srev_le (a b : SecretRevision) : Prop := str_le (srev_Name a) (srev_Name b).
#[export] Instance srev_le_dec a b : Decision (srev_le a b).
Proof. unfold srev_le. apply _. Defined.

(** [resolveSecrets] *)
Definition resolveSecrets (resolved : Resolved) (github : bool) : clM (result Credentials) :=
  try (λ err, mret (inl err)) (if github then github_secret resolved else mret (inr ("", ∅)))
  (λ '(token, objects),
  names ← call (RangeOrder (fst <$> map_to_list (rs_Credentials resolved)));
  try (λ err, mret (inl err)) (all_secrets resolved names ∅ objects)
  (λ '(providers, objects),
  names ← call (RangeOrder (fst <$> map_to_list objects));
  try (λ err, mret (inl err)) (recheck_secrets objects names [])
  (λ revisions,
  mret (inr {| cr_GitHub := token; cr_Providers := providers; cr_Revisions := merge_sort srev_le revisions |})))).

Definition ResolveSecrets (resolved : Resolved) : clM (result Credentials) := resolveSecrets resolved true.
Definition ResolveCleanupSecrets (resolved : Resolved) : clM (result Credentials) := resolveSecrets resolved false.

(** ** Both together *)

Record Loaded := {
  ld_Snapshot : Snapshot;
  ld_Resolved : Resolved;
  ld_Credentials : Credentials;
  ld_Revisions : list Revision
}.

(** [Load] *)
Definition Load (namespace name : string) : clM (result Loaded) :=
  try (λ err, mret (inl err)) (Read namespace name) (λ '(snapshot, revisions),
  match Compile snapshot with
  | inl err => mret (inl err)
  | inr resolved =>
      try (λ err, mret (inl err)) (ResolveSecrets resolved) (λ credentials,
      e ← Recheck namespace revisions;
      mret match e with
           | Some err => inl err
           | None => inr {| ld_Snapshot := snapshot; ld_Resolved := resolved; ld_Credentials := credentials;
                            ld_Revisions := revisions |}
           end)
  end).

Definition key_view (l : Loaded) : KeyView :=
  {| kv_Config := rs_Config (ld_Resolved l); kv_Auth := rs_Auth (ld_Resolved l);
     kv_References := rs_Credentials (ld_Resolved l); kv_Suspend := rs_Suspend (ld_Resolved l);
     kv_Network := np_Spec <$> sn_Network (ld_Snapshot l);
     kv_Identities := (λ r, (rev_Resource r, rev_Name r, rev_UID r)) <$> ld_Revisions l;
     kv_Secrets := (λ r, (srev_Name r, srev_UID r, srev_ContentHash r)) <$> cr_Revisions (ld_Credentials l) |}.

(** [Loaded.Key] *)
Definition Key (l : Loaded) : string := sha256_hex (key_json (key_view l)).
End read.
