(* ===== verification/LoadProps.v ===== *)
(** * A loaded configuration is a snapshot

    Objects and Secrets are read one after the other while others change them.
    What [Load] accepts is nevertheless the content of the cluster at one
    instant within the call. *)
From S2P Require Import Prelude.
From S2P Require Import Effects.
From S2P Require Import Overlay.
From S2P Require Import Provider.
From S2P Require Import Fleet.
From S2P Require Import ConfigCheck.
From S2P Require Import Api.
From S2P Require Import Compile.
From S2P Require Import Cluster.
From S2P Require Import CheckpointProps.
From S2P Require Import Load.
Import Api.

(** ** The cluster over time *)

Record ClusterState := {
  cs_objects : gmap (string * string) Unstructured;
  cs_secrets : gmap string Secret
}.

(** A call answered in the state [w]. *)
Definition answered (w : ClusterState) (v : event clusterE) : Prop :=
  match v with
  | existT _ (e, x) =>
      match e in clusterE T return T → Prop with
      | ObjectGet resource name => λ r, match r with inr u => cs_objects w !! (resource, name) = Some u | inl _ => True end
      | SecretGet name => λ r, match r with inr s => cs_secrets w !! name = Some s | inl _ => True end
      | RangeOrder keys => λ l, l ≡ₚ keys
      | _ => λ _, True
      end x
  end.

(** The calls of [h] are answered one after the other between two instants of
    the timeline [W]. *)
Inductive served (W : nat → ClusterState) : nat → cl_history → nat → Prop :=
  | served_nil t : served W t [] t
  | served_cons t t1 t2 v h :
      (t ≤ t1)%nat → answered (W t1) v → served W t1 h t2 → served W t (v :: h) t2.

(** What Kubernetes documents of UIDs and resource versions: an object with
    the same ones at two instants was not touched in between. *)
Definition versioned (W : nat → ClusterState) : Prop :=
  (∀ k t1 t2 u1 u2, (t1 ≤ t2)%nat → cs_objects (W t1) !! k = Some u1 → cs_objects (W t2) !! k = Some u2 →
     om_UID (u_Meta u1) = om_UID (u_Meta u2) → om_ResourceVersion (u_Meta u1) = om_ResourceVersion (u_Meta u2) →
     ∀ t, (t1 ≤ t ≤ t2)%nat → cs_objects (W t) !! k = Some u1) ∧
  (∀ k t1 t2 s1 s2, (t1 ≤ t2)%nat → cs_secrets (W t1) !! k = Some s1 → cs_secrets (W t2) !! k = Some s2 →
     sec_UID s1 = sec_UID s2 → sec_ResourceVersion s1 = sec_ResourceVersion s2 →
     ∀ t, (t1 ≤ t ≤ t2)%nat → cs_secrets (W t) !! k = Some s1).

Lemma served_le W t h t' : served W t h t' → (t ≤ t')%nat.
Proof. induction 1; lia. Qed.

Lemma served_app W t h1 h2 t' : served W t (h1 ++ h2) t' → ∃ tm, served W t h1 tm ∧ served W tm h2 t'.
Proof.
  revert t. induction h1 as [|v h1 IH]; intros t; simpl; [intros Hs; exists t; split; [constructor|done]|].
  inversion 1 as [|? t1 ? ? ? Hle Ha Hs]; subst. destruct (IH _ Hs) as (tm & H1 & H2).
  exists tm. split; [|done]. by econstructor.
Qed.

Lemma served_elem W t h t' v : served W t h t' → v ∈ h → ∃ t1, (t ≤ t1 ≤ t')%nat ∧ answered (W t1) v.
Proof.
  induction 1 as [t|t t1 t2 w h Hle Ha Hs IH]; intros Hv; [by apply elem_of_nil in Hv|].
  pose proof (served_le _ _ _ _ Hs). apply elem_of_cons in Hv as [->|Hv]; [exists t1; split; [lia|done]|].
  destruct (IH Hv) as (t3 & ? & ?). exists t3. split; [lia|done].
Qed.

(** The contract of [range] over a map. *)
Definition range_contract : contract clusterE := λ X e, match e in clusterE T return T → Prop with
  | RangeOrder keys => λ l, l ≡ₚ keys
  | _ => λ _, True
  end.

Lemma served_range W t h t' : served W t h t' → Forall (respects range_contract) h.
Proof.
  induction 1 as [|t t1 t2 [X [e x]] h Hle Ha Hs IH]; constructor; [|done].
  unfold respects. simpl in *. by destruct e.
Qed.

(** ** What a loaded configuration says of the cluster *)

Section load.
Context `{NetText} `{NameRules} `{ObjectCodec} `{Hashing}.

(** Given the objects [obj] and Secrets [sec] of an instant. *)
Section describes.
Context (obj : string → string → Unstructured → Prop) (sec : string → Secret → Prop).

Definition decoded {A} (resource name : string) (dec : Unstructured → result A) (x : A) : Prop :=
  ∃ u, obj resource name u ∧ dec u = inr x.

(** Every part of the snapshot is the object its referrer names. *)
Definition snapshot_of (name : string) (s : Snapshot) : Prop :=
  decoded "runnerscalesets" name decode_ScaleSet (sn_ScaleSet s) ∧
  decoded "runnerclasses" (RunnerClassRef (ss_Spec (sn_ScaleSet s))) decode_Class (sn_Class s) ∧
  decoded "capacitycatalogs" (CatalogRef (rc_Spec (sn_Class s))) decode_Catalog (sn_Catalog s) ∧
  dom (sn_Providers s) = list_to_set (rc_Providers (rc_Spec (sn_Class s))) ∧
  (∀ ref p, sn_Providers s !! ref = Some p → decoded "providerconfigs" ref decode_Provider p) ∧
  match NetworkRef (rc_Spec (sn_Class s)) with
  | None => sn_Network s = None
  | Some ref => ∃ n, sn_Network s = Some n ∧ decoded "networkprofiles" ref decode_Network n
  end ∧
  match BudgetRef (ss_Spec (sn_ScaleSet s)) with
  | None => sn_Budget s = None
  | Some ref => ∃ b, sn_Budget s = Some b ∧ decoded "capacitybudgets" ref decode_Budget b
  end.

Definition secret_value (ref : SecretKeyReference) (v : string) : Prop :=
  ∃ s, sec (sk_Name ref) s ∧ sec_Data s !! sk_Key ref = Some v ∧ v ≠ "".

(** Exactly the referenced values, of provider credentials without NUL. *)
Definition values_of (refs : gmap string SecretKeyReference) (vals : gmap string string) : Prop :=
  dom vals = dom refs ∧
  ∀ var ref v, refs !! var = Some ref → vals !! var = Some v → secret_value ref v ∧ contains_nul v = false.

Definition credentials_of (r : Resolved) (c : Credentials) : Prop :=
  (∃ v, secret_value (auth_SecretRef (rs_Auth r)) v ∧
     cr_GitHub c = if auth_Mode (rs_Auth r) =s "pat" then strings_trim_space v else v) ∧
  dom (cr_Providers c) = dom (rs_Credentials r) ∧
  ∀ name refs vals, rs_Credentials r !! name = Some refs → cr_Providers c !! name = Some vals → values_of refs vals.

Definition loaded_of (name : string) (l : Loaded) : Prop :=
  snapshot_of name (ld_Snapshot l) ∧ Compile (ld_Snapshot l) = inr (ld_Resolved l) ∧
  credentials_of (ld_Resolved l) (ld_Credentials l).
End describes.

Lemma decoded_mono {A} (obj obj' : string → string → Unstructured → Prop) r n (dec : Unstructured → result A) x :
  (∀ r n u, obj r n u → obj' r n u) → decoded obj r n dec x → decoded obj' r n dec x.
Proof. intros Ho (u & Hu & Hd). exists u. auto. Qed.

Lemma snapshot_mono (obj obj' : string → string → Unstructured → Prop) name s :
  (∀ r n u, obj r n u → obj' r n u) → snapshot_of obj name s → snapshot_of obj' name s.
Proof.
  intros Ho (H1' & H2' & H3' & H4' & H5' & H6' & H7').
  split_and!; try (by eapply decoded_mono); [done|intros ref p Hp; eapply decoded_mono; eauto| |].
  - destruct (NetworkRef _); [|done]. destruct H6' as (x & ? & ?). exists x. split; [done|]. by eapply decoded_mono.
  - destruct (BudgetRef _); [|done]. destruct H7' as (x & ? & ?). exists x. split; [done|]. by eapply decoded_mono.
Qed.

Lemma values_mono (sec sec' : string → Secret → Prop) refs vals :
  (∀ n s, sec n s → sec' n s) → values_of sec refs vals → values_of sec' refs vals.
Proof.
  intros Hs [Hd Hv]. split; [done|]. intros var ref v Hr Hval. destruct (Hv var ref v Hr Hval) as [(s & ? & ?) ?].
  split; [|done]. exists s. auto.
Qed.

Lemma credentials_mono (sec sec' : string → Secret → Prop) r c :
  (∀ n s, sec n s → sec' n s) → credentials_of sec r c → credentials_of sec' r c.
Proof.
  intros Hs ((v & (s & ? & ?) & ?) & Hd & Hv). split; [|split; [done|]].
  - exists v. split; [|done]. exists s. auto.
  - intros name refs vals Hr Hc. eapply values_mono; [done|]. by eapply Hv.
Qed.

(** ** Collection *)

(** [u] was read, and its revision recorded. *)
Definition held (h : cl_history) (revs : list Revision) (resource name : string) (u : Unstructured) : Prop :=
  ev (ObjectGet resource name) (inr u) ∈ h ∧ revision_of resource name u ∈ revs.

Lemma held_mono h h' revs revs' r n u :
  h ⊆ h' → revs ⊆ revs' → held h revs r n u → held h' revs' r n u.
Proof. intros Hh Hr [H1' H2']. split; auto. Qed.

(** [Q] asks nothing of a failed result. *)
Definition lax {R} (Q : cl_history → result R → Prop) : Prop := ∀ h e, Q h (inl e).

Lemma wp_get {A} G ns resource kind name (dec : Unstructured → result A) h Q :
  lax Q →
  (∀ u x, dec u = inr x → held (h ++ [ev (ObjectGet resource name) (inr u)]) [revision_of resource name u] resource name u →
     Q (h ++ [ev (ObjectGet resource name) (inr u)]) (inr (x, revision_of resource name u))) →
  wp G Q h (get ns resource kind name dec).
Proof.
  intros Hlax HQ. apply wp_call_bind. intros [e|u] _; apply wp_ret; [apply Hlax|].
  destruct (check_identity _ _ _ _); [apply Hlax|].
  match goal with |- Q _ (if ?b then _ else _) => destruct b end; [apply Hlax|].
  destruct (dec u) as [|x] eqn:Hd; [apply Hlax|]. apply HQ; [done|]. split; [|by left].
  apply elem_of_app. right. by left.
Qed.

Lemma wp_get_providers G ns refs : ∀ providers revs h Q,
  lax Q →
  (∀ ref p, providers !! ref = Some p → decoded (held h revs) "providerconfigs" ref decode_Provider p) →
  (∀ h' providers' revs', h ⊆ h' → revs ⊆ revs' → dom providers' = dom providers ∪ list_to_set refs →
     (∀ ref p, providers' !! ref = Some p → decoded (held h' revs') "providerconfigs" ref decode_Provider p) →
     Q h' (inr (providers', revs'))) →
  wp G Q h (get_providers ns refs providers revs).
Proof.
  induction refs as [|ref refs IH]; intros providers revs h Q Hlax Hp HQ; cbn [get_providers].
  { apply wp_ret, HQ; [done|done|set_solver|done]. }
  destruct (isSome _); [apply wp_ret, Hlax|]. apply wp_bind, wp_get; [intros h' e; apply wp_ret, Hlax|].
  intros u x Hx Hu. apply IH; [done| |].
  - intros ref' p. rewrite lookup_insert. case_decide as Heq.
    + intros [= <-]. subst ref'. exists u. split; [|done]. eapply held_mono; [| |exact Hu]; set_solver.
    + intros Hl. eapply decoded_mono; [|by apply Hp]. intros r n v. apply held_mono; set_solver.
  - intros h' providers' revs' Hh Hr Hdom Hall. apply HQ; [set_solver|set_solver| |done].
    rewrite Hdom, dom_insert_L. simpl. set_solver.
Qed.

Lemma wp_get_optional {A} G ns resource kind ref (dec : Unstructured → result A) revs h Q :
  lax Q →
  (∀ h' revs' x, h ⊆ h' → revs ⊆ revs' →
     match ref with
     | None => x = None
     | Some name => ∃ y, x = Some y ∧ decoded (held h' revs') resource name dec y
     end → Q h' (inr (x, revs'))) →
  wp G Q h (get_optional ns resource kind ref dec revs).
Proof.
  intros Hlax HQ. unfold get_optional. destruct ref as [name|]; [|by apply wp_ret, HQ].
  apply wp_bind, wp_get; [intros h' e; apply wp_ret, Hlax|]. intros u x Hx Hu. apply wp_ret, HQ; [set_solver..|].
  exists x. split; [done|]. exists u. split; [|done]. eapply held_mono; [| |exact Hu]; set_solver.
Qed.

Lemma wp_collect G ns name h Q :
  lax Q → (∀ h' s revs, h ⊆ h' → snapshot_of (held h' revs) name s → Q h' (inr (s, revs))) →
  wp G Q h (collect ns name).
Proof.
  intros Hlax HQ. unfold collect.
  apply wp_try, wp_get; [intros h' e; apply wp_ret, Hlax|]. intros u1 ss Hss Hu1.
  apply wp_try, wp_get; [intros h' e; apply wp_ret, Hlax|]. intros u2 cl Hcl Hu2.
  apply wp_try, wp_get; [intros h' e; apply wp_ret, Hlax|]. intros u3 ca Hca Hu3.
  destruct (_ || _); [apply wp_ret, Hlax|].
  apply wp_try, wp_get_providers; [intros h' e; apply wp_ret, Hlax|set_solver|]. intros h4 provs revs4 Hh4 Hr4 Hdom Hps.
  apply wp_try, wp_get_optional; [intros h' e; apply wp_ret, Hlax|]. intros h5 revs5 net Hh5 Hr5 Hnet.
  apply wp_try, wp_get_optional; [intros h' e; apply wp_ret, Hlax|]. intros h6 revs6 bud Hh6 Hr6 Hbud.
  apply wp_ret, HQ; [set_solver|].
  assert (∀ r n u, held h4 revs4 r n u → held h6 revs6 r n u) as Hm4 by (intros r n u; apply held_mono; set_solver).
  assert (∀ r n u, held h5 revs5 r n u → held h6 revs6 r n u) as Hm5 by (intros r n u; apply held_mono; set_solver).
  split_and!; cbn [sn_ScaleSet sn_Class sn_Catalog sn_Providers sn_Network sn_Budget].
  - exists u1. split; [|done]. eapply Hm4, held_mono; [| |exact Hu1]; set_solver.
  - exists u2. split; [|done]. eapply Hm4, held_mono; [| |exact Hu2]; set_solver.
  - exists u3. split; [|done]. eapply Hm4, held_mono; [| |exact Hu3]; set_solver.
  - set_solver.
  - intros ref p Hp. eapply decoded_mono; [exact Hm4|by apply Hps].
  - destruct (NetworkRef _); [|done]. destruct Hnet as (y & -> & Hy). exists y. split; [done|]. by eapply decoded_mono.
  - done.
Qed.

(** [u'] was read in [h] with the revision recorded. *)
Definition confirmed (h : cl_history) (revs : list Revision) : Prop :=
  ∀ rev, rev ∈ revs → ∃ u', ev (ObjectGet (rev_Resource rev) (rev_Name rev)) (inr u') ∈ h ∧
    om_UID (u_Meta u') = rev_UID rev ∧ om_ResourceVersion (u_Meta u') = rev_ResourceVersion rev.

Lemma wp_Recheck G ns revs : ∀ h Q,
  (∀ h' e, Q h' (Some e)) → (∀ h', confirmed h' revs → Q (h ++ h') None) →
  wp G Q h (Recheck ns revs).
Proof.
  induction revs as [|rev revs IH]; intros h Q He HQ; cbn [Recheck].
  { apply wp_ret. specialize (HQ []). rewrite app_nil_r in HQ. apply HQ. intros rev ?%elem_of_nil. done. }
  apply wp_call_bind. intros [e|u] _; [by apply wp_ret|]. destruct (_ || _) eqn:Hg; [by apply wp_ret|].
  apply IH; [done|]. intros h' Hc. rewrite <- app_assoc. apply HQ. reflect in Hg. destruct Hg as [[[Hu Hv] _] _].
  intros r [->|Hr]%elem_of_cons; [exists u; split_and!; [by left|done..]|].
  destruct (Hc r Hr) as (u' & Hin & ?). exists u'. split; [by right|done].
Qed.

(** ** Secrets *)

(** Each Secret of the cache was read. *)
Definition read_in (h : cl_history) (objects : gmap string Secret) : Prop :=
  ∀ n s, objects !! n = Some s → ev (SecretGet n) (inr s) ∈ h.
Definition cached (objects : gmap string Secret) (n : string) (s : Secret) : Prop := objects !! n = Some s.

Lemma cached_mono objects objects' n s : objects ⊆ objects' → cached objects n s → cached objects' n s.
Proof. intros Ho Hc. by eapply lookup_weaken. Qed.

Lemma read_in_mono h h' objects : h ⊆ h' → read_in h objects → read_in h' objects.
Proof. intros Hh Hr n s Hn. by apply Hh, Hr. Qed.

Lemma wp_read_secret G ns ref objects h Q :
  lax Q → read_in h objects →
  (∀ h' v objects', h ⊆ h' → objects ⊆ objects' → read_in h' objects' →
     secret_value (cached objects') ref v → Q h' (inr (v, objects'))) →
  wp G Q h (read_secret ns ref objects).
Proof.
  intros Hlax Hr HQ. unfold read_secret. destruct (secret ref); [apply wp_ret, Hlax|].
  assert (∀ h' obj objects', h ⊆ h' → objects ⊆ objects' → read_in h' objects' → objects' !! sk_Name ref = Some obj →
    Q h' match sec_Data obj !! sk_Key ref with
         | None => inl (errors_new "referenced Secret key missing or empty")
         | Some value => if strlen value =? 0 then inl (errors_new "referenced Secret key missing or empty")
                         else inr (value, objects')
         end) as Hval.
  { intros h' obj objects' Hh Hs Hr' Ho. destruct (sec_Data obj !! _) as [v|] eqn:Hv; [|apply Hlax].
    destruct (strlen v =? 0) eqn:Hl; [apply Hlax|]. apply HQ; try done. exists obj. split_and!; try done.
    intros ->. done. }
  apply wp_bind. destruct (objects !! sk_Name ref) as [obj|] eqn:Ho; [by apply wp_ret, wp_ret, Hval|].
  apply wp_call_bind. intros [e|obj] _; apply wp_ret, wp_ret; [apply Hlax|].
  match goal with |- Q _ (match (if ?b then _ else _) with _ => _ end) => destruct b end; [apply Hlax|].
  apply Hval; [set_solver|by apply insert_subseteq| |apply lookup_insert_eq].
  intros n s'. rewrite lookup_insert, elem_of_app. case_decide as Heq; [|auto].
  intros [= <-]. subst n. right. by left.
Qed.

(** The values of the variables done so far. *)
Definition values_so_far (objects : gmap string Secret) (refs : gmap string SecretKeyReference)
    (vals : gmap string string) : Prop :=
  dom vals ⊆ dom refs ∧
  ∀ var ref v, refs !! var = Some ref → vals !! var = Some v →
    secret_value (cached objects) ref v ∧ contains_nul v = false.

Lemma values_so_far_mono objects objects' refs vals :
  objects ⊆ objects' → values_so_far objects refs vals → values_so_far objects' refs vals.
Proof.
  intros Ho [Hd Hv]. split; [done|]. intros var ref v Hr Hval. destruct (Hv var ref v Hr Hval) as [(s & Hc & ?) ?].
  split; [|done]. exists s. split; [by eapply cached_mono|done].
Qed.

Lemma wp_provider_secrets G ns kind refs variables : ∀ vals objects h Q,
  lax Q → read_in h objects → values_so_far objects refs vals →
  (∀ h' vals' objects', h ⊆ h' → objects ⊆ objects' → read_in h' objects' → values_so_far objects' refs vals' →
     dom vals ⊆ dom vals' → (∀ var, var ∈ variables → var ∈ dom refs → var ∈ dom vals') →
     Q h' (inr (vals', objects'))) →
  wp G Q h (provider_secrets ns kind refs variables vals objects).
Proof.
  induction variables as [|var variables IH]; intros vals objects h Q Hlax Hr Hv HQ; cbn [provider_secrets].
  { apply wp_ret, HQ; try done. set_solver. }
  destruct (refs !! var) as [ref|] eqn:Href.
  2: { apply IH; try done. intros h' vals' objects' ? ? ? ? Hd Hall. apply HQ; try done.
       intros v [->|Hin]%elem_of_cons Hdom; [|by apply Hall]. apply elem_of_dom in Hdom as [? ?]. congruence. }
  destruct (negb _); [apply wp_ret, Hlax|]. apply wp_bind, wp_read_secret; [intros h' e; apply wp_ret, Hlax|done|].
  intros h1 v objects1 Hh1 Ho1 Hr1 Hval. destruct (contains_nul v) eqn:Hnul; [apply wp_ret, Hlax|].
  apply IH; [done|done| |].
  - destruct (values_so_far_mono _ _ _ _ Ho1 Hv) as [Hd Hall]. split.
    + rewrite dom_insert. apply elem_of_dom_2 in Href. set_solver.
    + intros var' ref' v' Hr' . rewrite lookup_insert. case_decide as Heq; [|by apply Hall].
      intros [= <-]. subst var'. rewrite Href in Hr'. by injection Hr' as <-.
  - intros h' vals' objects' Hh' Ho' Hr' Hv' Hd' Hall. apply HQ; try done.
    + set_solver.
    + by etrans.
    + rewrite dom_insert in Hd'. set_solver.
    + rewrite dom_insert in Hd'. intros x [->|Hx]%elem_of_cons Hdom; [set_solver|by apply Hall].
Qed.

(** The providers done so far. *)
Definition providers_so_far (objects : gmap string Secret) (r : Resolved)
    (providers : gmap string (gmap string string)) : Prop :=
  dom providers ⊆ dom (rs_Credentials r) ∧
  ∀ name refs vals, rs_Credentials r !! name = Some refs → providers !! name = Some vals →
    values_of (cached objects) refs vals.

Lemma wp_all_secrets r names : ∀ providers objects h Q,
  lax Q → read_in h objects → providers_so_far objects r providers →
  (∀ h' providers' objects', h ⊆ h' → objects ⊆ objects' → read_in h' objects' → providers_so_far objects' r providers' →
     dom providers ⊆ dom providers' → (∀ n, n ∈ names → n ∈ dom (rs_Credentials r) → n ∈ dom providers') →
     Q h' (inr (providers', objects'))) →
  wp range_contract Q h (all_secrets r names providers objects).
Proof.
  induction names as [|name names IH]; intros providers objects h Q Hlax Hr Hv HQ; cbn [all_secrets].
  { apply wp_ret, HQ; try done. set_solver. }
  destruct (rs_Credentials r !! name) as [refs|] eqn:Href.
  2: { apply IH; try done. intros h' providers' objects' ? ? ? ? Hd Hall. apply HQ; try done.
       intros v [->|Hin]%elem_of_cons Hdom; [|by apply Hall]. apply elem_of_dom in Hdom as [? ?]. congruence. }
  destruct (cfg_Providers _ !! name) as [config|]; [|apply wp_ret, Hlax].
  apply wp_call_bind. intros variables Hperm. simpl in Hperm.
  apply wp_bind, wp_provider_secrets; [intros h' e; apply wp_ret, Hlax|eapply read_in_mono; [|done]; set_solver| |].
  { split; [set_solver|]. intros ???? Hl. by rewrite lookup_empty in Hl. }
  intros h1 vals objects1 Hh1 Ho1 Hr1 [Hd1 Hv1] _ Hall1. apply IH; [done|done| |].
  - destruct Hv as [Hd Hv]. split.
    + rewrite dom_insert. apply elem_of_dom_2 in Href. set_solver.
    + intros name' refs' vals' Hr' . rewrite lookup_insert. case_decide as Heq.
      * intros [= <-]. subst name'. rewrite Href in Hr'. injection Hr' as <-. split; [|done].
        apply set_eq. intros var. split; [apply Hd1|]. intros Hin. apply Hall1; [|done]. rewrite Hperm.
        apply elem_of_dom in Hin as [x Hx]. apply list_elem_of_fmap. exists (var, x). split; [done|].
        by apply elem_of_map_to_list.
      * intros Hl. eapply values_mono; [|by eapply Hv]. intros n s'. by apply cached_mono.
  - intros h' vals' objects' Hh' Ho' Hr' Hv' Hd' Hall. rewrite dom_insert in Hd'. apply HQ; try done.
    + set_solver.
    + by etrans.
    + set_solver.
    + intros x [->|Hx]%elem_of_cons Hdom; [set_solver|by apply Hall].
Qed.

(** Each Secret of the cache was read again, unchanged. *)
Definition reread (h : cl_history) (objects : gmap string Secret) (names : list string) : Prop :=
  ∀ n s, n ∈ names → objects !! n = Some s →
    ∃ s', ev (SecretGet n) (inr s') ∈ h ∧ sec_UID s' = sec_UID s ∧ sec_ResourceVersion s' = sec_ResourceVersion s.

Lemma wp_recheck_secrets G objects names : ∀ revs h Q,
  lax Q → (∀ h' revs', reread h' objects names → Q (h ++ h') (inr revs')) →
  wp G Q h (recheck_secrets objects names revs).
Proof.
  induction names as [|name names IH]; intros revs h Q Hlax HQ; cbn [recheck_secrets].
  { apply wp_ret. specialize (HQ [] revs). rewrite app_nil_r in HQ. apply HQ. intros n s ?%elem_of_nil. done. }
  destruct (objects !! name) as [old|] eqn:Ho.
  2: { apply IH; [done|]. intros h' revs' Hr. apply HQ. intros n s [->|Hn]%elem_of_cons Hs; [congruence|by apply Hr]. }
  apply wp_call_bind. intros [e|cur] _; [apply wp_ret, Hlax|].
  match goal with |- wp _ _ _ (if ?b then _ else _) => destruct b eqn:Hg end; [apply wp_ret, Hlax|].
  apply IH; [done|]. intros h' revs' Hr. rewrite <- app_assoc. apply HQ. reflect in Hg.
  intros n s [->|Hn]%elem_of_cons Hs.
  - rewrite Ho in Hs. injection Hs as <-. exists cur. split; [by left|]. tauto.
  - destruct (Hr n s Hn Hs) as (s' & ? & ?). exists s'. split; [by right|done].
Qed.

Lemma wp_github_secret G r h Q :
  lax Q →
  (∀ h' token objects, h ⊆ h' → read_in h' objects →
     (∃ v, secret_value (cached objects) (auth_SecretRef (rs_Auth r)) v ∧
        token = if auth_Mode (rs_Auth r) =s "pat" then strings_trim_space v else v) →
     Q h' (inr (token, objects))) →
  wp G Q h (github_secret r).
Proof.
  intros Hlax HQ. apply wp_bind, wp_read_secret; [intros h' e; apply wp_ret, Hlax|by intros n s Hn|].
  intros h' v objects Hh _ Hr Hv. apply wp_ret. destruct (_ =s "pat") eqn:Hp.
  - cbv zeta. destruct (_ || _); [apply Hlax|]. apply HQ; try done. exists v. split; [done|]. by rewrite ?Hp.
  - apply HQ; try done. exists v. split; [done|]. by rewrite ?Hp.
Qed.

Lemma wp_ResolveSecrets r h Q :
  lax Q →
  (∀ h1 h2 objects c, h ⊆ h1 → read_in h1 objects → reread h2 objects (fst <$> map_to_list objects) →
     credentials_of (cached objects) r c → Q (h1 ++ h2) (inr c)) →
  wp range_contract Q h (ResolveSecrets r).
Proof.
  intros Hlax HQ. apply wp_try, wp_github_secret; [intros h' e; apply wp_ret, Hlax|].
  intros h1 token objects1 Hh1 Hr1 (v & (s & Hs & Hkey) & Htok).
  apply wp_call_bind. intros names Hperm. simpl in Hperm.
  apply wp_try, wp_all_secrets; [intros h' e; apply wp_ret, Hlax|eapply read_in_mono; [|done]; set_solver| |].
  { split; [set_solver|]. intros ???? Hl. by rewrite lookup_empty in Hl. }
  intros h2 providers objects2 Hh2 Ho2 Hr2 [Hd2 Hv2] _ Hall2.
  apply wp_call_bind. intros names2 Hperm2. simpl in Hperm2.
  apply wp_try, wp_recheck_secrets; [intros h' e; apply wp_ret, Hlax|]. intros h3 revs Hre. apply wp_ret.
  rewrite <- app_assoc. apply (HQ h2 _ objects2); [set_solver|done| |].
  - intros n x Hn Hx. rewrite <- Hperm2 in Hn. destruct (Hre n x Hn Hx) as (s' & ? & ?). exists s'.
    split; [by right|done].
  - split_and!; [| |done].
    + exists v. split; [|done]. exists s. split; [by eapply cached_mono|done].
    + apply set_eq. intros n. split; [apply Hd2|]. intros Hn. apply Hall2; [|done]. rewrite Hperm.
      apply elem_of_dom in Hn as [x Hx]. apply list_elem_of_fmap. exists (n, x). split; [done|].
      by apply elem_of_map_to_list.
Qed.

(** The history of a successful load splits into the reads and the checks. *)
Definition load_history (name : string) (h : cl_history) (l : Loaded) : Prop :=
  ∃ h1 h2 revs objects, h = h1 ++ h2 ∧ snapshot_of (held h1 revs) name (ld_Snapshot l) ∧
    Compile (ld_Snapshot l) = inr (ld_Resolved l) ∧ credentials_of (cached objects) (ld_Resolved l) (ld_Credentials l) ∧
    read_in h1 objects ∧ reread h2 objects (fst <$> map_to_list objects) ∧ confirmed h2 revs.

Lemma wp_Load ns name h Q :
  lax Q → (∀ h' l, load_history name h' l → Q h' (inr l)) → wp range_contract Q h (Load ns name).
Proof.
  intros Hlax HQ. apply wp_try, wp_try, wp_collect; [intros h' e; apply wp_ret, wp_ret, Hlax|].
  intros h1 s revs Hh1 Hs. apply wp_bind, wp_Recheck; [intros h' e; apply wp_ret, wp_ret, Hlax|].
  intros h2 _. apply wp_ret. destruct (Compile s) as [e|r] eqn:Hc; [apply wp_ret, Hlax|]. rewrite Hc.
  apply wp_try, wp_ResolveSecrets; [intros h' e; apply wp_ret, Hlax|].
  intros h3 h4 objects c Hh3 Hr Hre Hcred. apply wp_bind, wp_Recheck; [intros h' e; apply wp_ret, Hlax|].
  intros h5 Hcf. apply wp_ret, HQ. exists h3, (h4 ++ h5), revs, objects. rewrite app_assoc.
  split_and!; try done.
  - eapply snapshot_mono; [|exact Hs]. intros r' n u. apply held_mono; set_solver.
  - intros n x Hn Hx. destruct (Hre n x Hn Hx) as (s' & ? & ?). exists s'. split; [set_solver|done].
  - intros rev Hrev. destruct (Hcf rev Hrev) as (u' & ? & ?). exists u'. split; [set_solver|done].
Qed.

(** C18: A loaded configuration is a snapshot of one instant.  However the objects
    and Secrets change during the call, what [Load] returns describes the
    cluster at some instant within it: every part of the snapshot is the decoded
    object its referrer names, no dependency is missing or added, the
    configuration is the compiled snapshot, and the credentials are exactly the
    referenced values of the Secrets at that instant. *)
Theorem load_consistent W ns name t t' h l :
  versioned W → trace_of (Load ns name) h (inr l) → served W t h t' →
  ∃ tm, (t ≤ tm ≤ t')%nat ∧
    loaded_of (λ r n u, cs_objects (W tm) !! (r, n) = Some u) (λ n s, cs_secrets (W tm) !! n = Some s) name l.
Proof.
  intros [Hobj Hsec] Ht Hs.
  assert (load_history name h l) as (h1 & h2 & revs & objects & -> & Hsn & Hc & Hcr & Hr & Hre & Hcf).
  { apply (wp_sound range_contract (λ h r, match r with inl _ => True | inr l => load_history name h l end)
      (Load ns name) [] h (inr l)); [|done|by eapply served_range].
    apply wp_Load; [by intros h' e|done]. }
  apply served_app in Hs as (tm & Hs1 & Hs2). exists tm.
  pose proof (served_le _ _ _ _ Hs1). pose proof (served_le _ _ _ _ Hs2). split; [lia|].
  split_and!; [|done|].
  - eapply snapshot_mono; [|exact Hsn]. intros r n u [Hin Hrev].
    destruct (served_elem _ _ _ _ _ Hs1 Hin) as (t1 & Ht1 & Hu).
    destruct (Hcf _ Hrev) as (u' & Hin' & Huid & Hrv).
    destruct (served_elem _ _ _ _ _ Hs2 Hin') as (t2 & Ht2 & Hu').
    apply (Hobj _ t1 t2 u u'); auto; lia.
  - eapply credentials_mono; [|exact Hcr]. intros n s Hn.
    destruct (served_elem _ _ _ _ _ Hs1 (Hr _ _ Hn)) as (t1 & Ht1 & Hu).
    destruct (Hre n s) as (s' & Hin' & Huid & Hrv); [|done|].
    { apply list_elem_of_fmap. exists (n, s). split; [done|]. by apply elem_of_map_to_list. }
    destruct (served_elem _ _ _ _ _ Hs2 Hin') as (t2 & Ht2 & Hu').
    apply (Hsec _ t1 t2 s s'); auto; lia.
Qed.
End load.
