(* ===== verification/Runtime.v ===== *)
(** * The configuration runtime
    (internal/configapi/runtime.go, checks.go)

    One named RunnerScaleSet: its checkpoint, finalizer, status and the worker
    that runs for it.  [Reconcile] runs under the scale set's Lease and never
    concurrently, so its state is passed explicitly; the workers run on their
    own and are driven and observed by calls.  [Factory] is nil, as in
    production. *)
From S2P Require Import Prelude.
From S2P Require Import Effects.
From S2P Require Import Overlay.
From S2P Require Import Provider.
From S2P Require Import Fleet.
From S2P Require Import Recovery.
From S2P Require Import ConfigCheck.
From S2P Require Import Api.
From S2P Require Import Compile.
From S2P Require Import Cluster.
From S2P Require Import Checkpoint.
From S2P Require Import Load.
Import Api.

Definition Finalizer : string := "runnerscout.io/runner-cleanup".

(** [activeWorker]: the handle stands for the worker, its readiness, its
    [done] channel and its cleanup function. *)
Record activeWorker := { aw_worker : Z; aw_key : string; aw_uid : string; aw_mode : WorkerMode }.

Record Runtime := {
  rt_Namespace : string;
  rt_Name : string;
  rt_worker : option activeWorker;
  completedUID : string;
  pendingCleanups : list Z
}.

Definition set_worker (w : option activeWorker) (r : Runtime) : Runtime :=
  {| rt_Namespace := rt_Namespace r; rt_Name := rt_Name r; rt_worker := w; completedUID := completedUID r;
     pendingCleanups := pendingCleanups r |}.
Definition set_completedUID (uid : string) (r : Runtime) : Runtime :=
  {| rt_Namespace := rt_Namespace r; rt_Name := rt_Name r; rt_worker := rt_worker r; completedUID := uid;
     pendingCleanups := pendingCleanups r |}.
Definition set_pendingCleanups (l : list Z) (r : Runtime) : Runtime :=
  {| rt_Namespace := rt_Namespace r; rt_Name := rt_Name r; rt_worker := rt_worker r;
     completedUID := completedUID r; pendingCleanups := l |}.

Definition set_Finalizers (l : list string) (u : Unstructured) : Unstructured :=
  {| u_Meta := {| om_Name := om_Name (u_Meta u); om_Namespace := om_Namespace (u_Meta u);
                  om_UID := om_UID (u_Meta u); om_ResourceVersion := om_ResourceVersion (u_Meta u);
                  om_Generation := om_Generation (u_Meta u);
                  om_DeletionTimestamp := om_DeletionTimestamp (u_Meta u); om_Finalizers := l |};
     u_APIVersion := u_APIVersion u; u_Kind := u_Kind u; u_ObservedGeneration := u_ObservedGeneration u;
     u_Conditions := u_Conditions u; u_Body := u_Body u |}.
Definition set_status (generation : Z) (conditions : list (option RootCondition)) (u : Unstructured) : Unstructured :=
  {| u_Meta := u_Meta u; u_APIVersion := u_APIVersion u; u_Kind := u_Kind u; u_ObservedGeneration := generation;
     u_Conditions := conditions; u_Body := u_Body u |}.

(** A word between double quotes. *)
Definition quoted (s : string) : string := String (ascii_of_N 34) (s +:+ String (ascii_of_N 34) "").

Abbreviation rtM := (λ R, clM (Runtime * R)).

Section runtime.
Context `{NetText} `{NameRules} `{FleetCodec} `{SnapshotCodec} `{ObjectCodec} `{Hashing}.

(** [r.roots().Get] *)
Definition root_get (r : Runtime) : clM (result Unstructured) := call (ObjectGet "runnerscalesets" (rt_Name r)).
Definition checkpoints (r : Runtime) : Checkpoints := {| cp_Namespace := rt_Namespace r; cp_Name := rt_Name r |}.

(** [newWorker]: the handle of the worker and its cleanup function. *)
Definition newWorker (resolved : Resolved) (credentials : Credentials) (mode : WorkerMode) : clM (result Z) :=
  let c := rs_Config resolved in
  e ← (if bool_decide (mode = SessionMode)
       then call (NewGitHub (rs_Auth resolved) (GitHubURL c) (cr_GitHub credentials)) else mret None);
  match e with
  | Some _ => mret (inl (errors_new "GitHub client initialization failed"))
  | None =>
      b ← call (NewWithCredentials resolved credentials);
      match b with
      | inl err => mret (inl err)
      | inr b =>
          if AWSPriceRefresh c && negb (b_AWS b)
          then mret (inl (errors_new ("AWS price refresh requires a configured " +:+ quoted "aws" +:+ " provider")))
          else if AzurePriceRefresh c && negb (b_Azure b)
          then mret (inl (errors_new ("Azure price refresh requires a configured " +:+ quoted "azure" +:+ " provider")))
          else if GCPPriceRefresh c && negb (b_GCPBilling b)
          then mret (inl (errors_new ("GCP price refresh requires a configured " +:+ quoted "gcp" +:+ " provider with a billing API key")))
          else
            e ← (if AzureInterruptionQueueURL c <>s "" then
                   if negb (b_Azure b)
                   then mret (Some (errors_new ("Azure interruption delivery requires a configured " +:+ quoted "azure" +:+ " provider")))
                   else call (InterruptionQueue (b_Worker b) (AzureInterruptionQueueURL c))
                 else mret None);
            match e with
            | Some err => mret (inl err)
            | None =>
                _ ← (if bool_decide (mode = CleanupMode) then call (DrainWorker (b_Worker b))
                     else call (Pause (b_Worker b) (bool_decide (mode = RecoveryMode) || rs_Suspend resolved)));
                mret (inr (b_Worker b))
            end
      end
  end.

(** [stop] *)
Definition stop (r : Runtime) : rtM (option error) :=
  match rt_worker r with
  | None => mret (r, None)
  | Some w =>
      _ ← call (CancelWorker (aw_worker w));
      _ ← call (SetReady false);
      e ← call (CleanupWorker (aw_worker w));
      mret match e with Some err => (r, Some err) | None => (set_worker None r, None) end
  end.

(** [start] *)
Definition start (r : Runtime) (w : Z) (key uid : string) (mode : WorkerMode) : clM Runtime :=
  _ ← call (StartWorker w mode);
  mret (set_worker (Some {| aw_worker := w; aw_key := key; aw_uid := uid; aw_mode := mode |}) r).

Definition sameRootRevision (a b : ObjectMeta) : bool :=
  (om_UID a =s om_UID b) && (om_Generation a =? om_Generation b)
  && bool_decide (om_DeletionTimestamp a = om_DeletionTimestamp b).

(** The loop of [condition] over the old conditions: the ones kept and the
    transition time, or none when nothing has to change. *)
Fixpoint scan_conditions (status reason : string) (generation : Z) (old : list (option RootCondition))
    (conditions : list (option RootCondition)) (transition : string)
    : option (list (option RootCondition) * string) :=
  match old with
  | [] => Some (conditions, transition)
  | None :: old' => scan_conditions status reason generation old' conditions transition
  | Some c :: old' =>
      if rcn_Type c <>s "Ready"
      then scan_conditions status reason generation old' (conditions ++ [Some c]) transition
      else
        let transition :=
          if rcn_Status c =s status
          then match rcn_LastTransitionTime c with Some previous => previous | None => transition end
          else transition in
        if (rcn_Status c =s status) && (rcn_Reason c =s reason) && (rcn_ObservedGeneration c =? generation)
        then None
        else scan_conditions status reason generation old' conditions transition
  end.

(** The body of [condition] for a root: its result and the final [ready]. *)
Definition condition_body (r : Runtime) (root : Unstructured) (ready : bool) (reason : string)
    : clM (option error * bool) :=
  g ← root_get r;
  match g with
  | inl err => mret (if errors_is err APINotFound then (None, false) else (Some err, ready))
  | inr current =>
      if negb (sameRootRevision (u_Meta current) (u_Meta root)) then mret (Some errChanged, ready)
      else
        let status := if ready then "True" else "False" in
        let generation := om_Generation (u_Meta current) in
        now ← call NowText;
        match scan_conditions status reason generation (u_Conditions current) [] now with
        | None => mret (None, ready)
        | Some (conditions, transition) =>
            let c := {| rcn_Type := "Ready"; rcn_Status := status; rcn_Reason := reason; rcn_Message := reason;
                        rcn_ObservedGeneration := generation; rcn_LastTransitionTime := Some transition |} in
            e ← call (RootUpdateStatus (set_status generation (conditions ++ [Some c]) current));
            mret (e, ready)
        end
  end.

(** [condition], with its deferred [setReady]. *)
Definition condition (r : Runtime) (root : option Unstructured) (ready : bool) (reason : string) : clM (option error) :=
  match root with
  | None => _ ← call (SetReady false); mret None
  | Some root =>
      '(e, ready) ← condition_body r root ready reason;
      _ ← call (SetReady (isNone e && ready));
      mret e
  end.

(** [return r.condition(..)] *)
Definition report (r : Runtime) (root : option Unstructured) (ready : bool) (reason : string) : rtM (option error) :=
  e ← condition r root ready reason; mret (r, e).

(** [protect] *)
Definition protect (r : Runtime) (root : Unstructured) : clM (option error) :=
  if isSome (om_DeletionTimestamp (u_Meta root)) then mret (Some errChanged)
  else if slices_contains (om_Finalizers (u_Meta root)) Finalizer then mret None
  else call (RootUpdate (set_Finalizers (om_Finalizers (u_Meta root) ++ [Finalizer]) root)).

(** [finalize] *)
Definition finalize (r : Runtime) (root : option Unstructured) (uid : string) : clM (option error) :=
  match root with
  | None => mret None
  | Some _ =>
      g ← root_get r;
      match g with
      | inl err => mret (if errors_is err APINotFound then None else Some err)
      | inr current =>
          if (om_UID (u_Meta current) <>s uid) || isNone (om_DeletionTimestamp (u_Meta current))
          then mret (Some errCheckpointOwnership)
          else call (RootUpdate (set_Finalizers
                 (List.filter (λ value, value <>s Finalizer) (om_Finalizers (u_Meta current))) current))
      end
  end.

(** The end of [reconcileCleanup] once cleanup is complete. *)
Definition complete (r : Runtime) (root : option Unstructured) (uid : string) : rtM (option error) :=
  if match root with Some u => om_UID (u_Meta u) <>s uid | None => false end
  then report r root false "PreviousOwnershipRetained"
  else
    e ← finalize r root uid;
    match e with Some err => mret (r, Some err) | None => report r root false "CleanupComplete" end.

(** The start of a cleanup worker; [inl] is an early return. *)
Definition start_cleanup (r : Runtime) (root : option Unstructured) (snapshot : Snapshot)
    : clM ((Runtime * option error) + Runtime) :=
  match Compile snapshot with
  | inl err => mret (inl (r, Some err))
  | inr resolved =>
      c ← ResolveCleanupSecrets resolved;
      match c with
      | inl _ => x ← report r root false "CleanupCredentialsUnavailable"; mret (inl x)
      | inr credentials =>
          w ← newWorker resolved credentials CleanupMode;
          match w with
          | inl _ => x ← report r root false "CleanupCredentialsInvalid"; mret (inl x)
          | inr w =>
              _ ← call (DrainWorker w);
              r ← start r w "cleanup" (om_UID (ss_Meta (sn_ScaleSet snapshot))) CleanupMode;
              mret (inr r)
          end
      end
  end.

(** The [select] of [reconcileCleanup]; there is a worker at this point. *)
Definition await_cleanup (r : Runtime) (root : option Unstructured) (uid : string) : rtM (option error) :=
  match rt_worker r with
  | None => mret (r, None)
  | Some w =>
      d ← call (WorkerDone (aw_worker w));
      match d with
      | None => report r root false "CleanupPending"
      | Some (Some _) => '(r, _) ← stop r; report r root false "CleanupPending"
      | Some None =>
          done ← call (WorkerDrained (aw_worker w));
          match done with
          | inr true =>
              '(r, e) ← stop r;
              match e with
              | Some err => mret (r, Some err)
              | None => complete (set_completedUID uid r) root uid
              end
          | _ => report r root false "CleanupPending"
          end
      end
  end.

(** [reconcileCleanup] *)
Definition reconcileCleanup (r : Runtime) (root : option Unstructured) (snapshot : Snapshot) : rtM (option error) :=
  let uid := om_UID (ss_Meta (sn_ScaleSet snapshot)) in
  if completedUID r =s uid then complete r root uid
  else
    '(r, e) ← (match rt_worker r with
               | Some w => if bool_decide (aw_mode w = CleanupMode) && (aw_uid w =s uid) then mret (r, None) else stop r
               | None => mret (r, None)
               end);
    match e with
    | Some err => mret (r, Some err)
    | None =>
        s ← (match rt_worker r with Some _ => mret (inr r) | None => start_cleanup r root snapshot end);
        match s with
        | inl x => mret x
        | inr r => await_cleanup r root uid
        end
    end.

(** [pause] *)
Definition pause_worker (r : Runtime) : clM unit :=
  match rt_worker r with Some w => call (Pause (aw_worker w) true) | None => mret () end.
Definition pause (r : Runtime) : clM unit := _ ← call (SetReady false); pause_worker r.

(** [discard] *)
Definition discard (r : Runtime) (w : Z) : clM Runtime :=
  e ← call (CleanupWorker w);
  mret match e with Some _ => set_pendingCleanups (pendingCleanups r ++ [w]) r | None => r end.

(** [retryCleanups] *)
Fixpoint retry_each (ws : list Z) : clM (list Z) :=
  match ws with
  | [] => mret []
  | w :: ws' =>
      e ← call (CleanupWorker w);
      pending ← retry_each ws';
      mret (if isSome e then w :: pending else pending)
  end.
Definition retryCleanups (r : Runtime) : rtM (option error) :=
  pending ← retry_each (pendingCleanups r);
  mret (set_pendingCleanups pending r,
        reject (negb (length pending =? 0)%nat) "provider credential cache cleanup incomplete").

(** [recoverAccepted] *)
Definition start_recovery (r : Runtime) (root : option Unstructured) (snapshot : Snapshot) : rtM (option error) :=
  match Compile snapshot with
  | inl _ => report r root false "CheckpointInvalid"
  | inr resolved =>
      c ← ResolveCleanupSecrets resolved;
      match c with
      | inl _ => report r root false "RecoveryCredentialsUnavailable"
      | inr credentials =>
          let resolved := {| rs_Config := rs_Config resolved; rs_Auth := rs_Auth resolved;
                             rs_Credentials := rs_Credentials resolved; rs_Suspend := true |} in
          w ← newWorker resolved credentials RecoveryMode;
          match w with
          | inl _ => report r root false "RecoveryCredentialsInvalid"
          | inr w =>
              _ ← call (Pause w true);
              r ← start r w "recovery" (om_UID (ss_Meta (sn_ScaleSet snapshot))) RecoveryMode;
              report r root false "ConfigurationUnavailable"
          end
      end
  end.

Definition recoverAccepted (r : Runtime) (root : option Unstructured) (snapshot : Snapshot) : rtM (option error) :=
  match rt_worker r with
  | None => start_recovery r root snapshot
  | Some w =>
      d ← call (WorkerDone (aw_worker w));
      match d with
      | None =>
          _ ← call (Pause (aw_worker w) true);
          report r root false "ConfigurationUnavailable"
      | Some _ =>
          '(r, e) ← stop r;
          match e with Some err => mret (r, Some err) | None => start_recovery r root snapshot end
      end
  end.

(** ** Reconcile *)

Definition has_finalizer (u : Unstructured) : bool := slices_contains (om_Finalizers (u_Meta u)) Finalizer.

(** The end of [Reconcile] for a new or changed configuration: [current] is the
    verified root, [w] the candidate worker. *)
Definition replace_worker (r : Runtime) (loaded : Loaded) (current : Unstructured) (w : Z) : rtM (option error) :=
  e ← protect r current;
  match e with
  | Some err => r ← discard r w; mret (r, Some err)
  | None =>
      '(r, e) ← stop r;
      match e with
      | Some err => r ← discard r w; mret (r, Some err)
      | None =>
          r ← start r w (Key loaded) (om_UID (u_Meta current)) SessionMode;
          report r (Some current) false "WaitingForSession"
      end
  end.

(** After a saved checkpoint: observe it and the root again. *)
Definition observe_accepted (r : Runtime) (loaded : Loaded) (w : Z) : rtM (option error) :=
  observed ← Checkpoints_Read (checkpoints r);
  if match observed with
     | inl _ => true
     | inr s => om_UID (ss_Meta (sn_ScaleSet s)) <>s om_UID (ss_Meta (sn_ScaleSet (ld_Snapshot loaded)))
     end
  then r ← discard r w; mret (r, Some errChanged)
  else
    g ← root_get r;
    match g with
    | inl _ => r ← discard r w; mret (r, Some errChanged)
    | inr current =>
        if negb (sameRootRevision (u_Meta current) (ss_Meta (sn_ScaleSet (ld_Snapshot loaded))))
        then r ← discard r w; mret (r, Some errChanged)
        else replace_worker r loaded current w
    end.

(** A new or changed configuration. *)
Definition accept (r : Runtime) (root : Unstructured) (checkpoint : result Snapshot) (loaded : Loaded)
    : rtM (option error) :=
  w ← newWorker (ld_Resolved loaded) (ld_Credentials loaded) SessionMode;
  match w with
  | inl _ => _ ← pause_worker r; report r (Some root) false "CredentialsInvalid"
  | inr w =>
      e ← Checkpoints_Save (checkpoints r) (ld_Snapshot loaded);
      match e with
      | Some err =>
          r ← discard r w;
          _ ← pause_worker r;
          match checkpoint with
          | inr accepted =>
              if errors_is err ErrBindingChange && has_finalizer root then
                '(r, e) ← recoverAccepted r (Some root) accepted;
                match e with Some err => mret (r, Some err) | None => report r (Some root) false "BindingRejected" end
              else report r (Some root) false "BindingRejected"
          | inl _ => report r (Some root) false "BindingRejected"
          end
      | None => observe_accepted r loaded w
      end
  end.

(** A worker whose configuration is unchanged. *)
Definition keep_worker (r : Runtime) (root : Unstructured) (w : activeWorker) (loaded : Loaded)
    : rtM (option error) :=
  let suspend := rs_Suspend (ld_Resolved loaded) in
  _ ← call (Pause (aw_worker w) suspend);
  ready ← call (WorkerReady (aw_worker w));
  let ready := ready && negb suspend in
  report r (Some root) ready
    (if ready then "Reconciled" else if suspend then "Suspended" else "WaitingForSession").

(** The branch of a root that is not being deleted. *)
Definition reconcileLive (r : Runtime) (root : Unstructured) (checkpoint : result Snapshot) : rtM (option error) :=
  l ← Load (rt_Namespace r) (rt_Name r);
  match l with
  | inl _ =>
      _ ← pause r;
      match checkpoint with
      | inr accepted =>
          if has_finalizer root then recoverAccepted r (Some root) accepted
          else report r (Some root) false "ConfigurationUnavailable"
      | inl _ => report r (Some root) false "ConfigurationUnavailable"
      end
  | inr loaded =>
      if negb (sameRootRevision (u_Meta root) (ss_Meta (sn_ScaleSet (ld_Snapshot loaded))))
      then _ ← pause r; mret (r, Some errChanged)
      else
        '(r, e) ← (match rt_worker r with
                   | None => mret (r, None)
                   | Some w =>
                       d ← call (WorkerDone (aw_worker w));
                       match d with None => mret (r, None) | Some _ => stop r end
                   end);
        match e with
        | Some err => mret (r, Some err)
        | None =>
            match rt_worker r with
            | Some w =>
                if aw_key w =s Key loaded then keep_worker r root w loaded else accept r root checkpoint loaded
            | None => accept r root checkpoint loaded
            end
        end
  end.

(** [Reconcile] *)
Definition Runtime_Reconcile (r : Runtime) : rtM (option error) :=
  '(r, e) ← retryCleanups r;
  match e with
  | Some err => _ ← pause r; mret (r, Some err)
  | None =>
      g ← root_get r;
      match match g with
            | inl err => if errors_is err APINotFound then inr None else inl err
            | inr u => inr (Some u)
            end with
      | inl err => mret (r, Some err)
      | inr root =>
          checkpoint ← Checkpoints_Read (checkpoints r);
          let absent := match checkpoint with inl err => errors_is err APINotFound | inr _ => false end in
          let failed := match checkpoint with inl _ => true | inr _ => false end in
          if failed && negb absent then _ ← pause r; report r root false "CheckpointInvalid"
          else if failed && (isSome (rt_worker r) || match root with Some u => has_finalizer u | None => false end)
          then _ ← pause r; report r root false "CheckpointUnavailable"
          else
            match root with
            | Some u =>
                let deleting :=
                  isSome (om_DeletionTimestamp (u_Meta u))
                  || match checkpoint with
                     | inr s => om_UID (u_Meta u) <>s om_UID (ss_Meta (sn_ScaleSet s))
                     | inl _ => false
                     end in
                if deleting then
                  match checkpoint with
                  | inl _ => report r root false "CheckpointUnavailable"
                  | inr s => reconcileCleanup r root s
                  end
                else reconcileLive r u checkpoint
            | None =>
                match checkpoint with
                | inl _ => report r root false "CheckpointUnavailable"
                | inr s => reconcileCleanup r root s
                end
            end
      end
  end.

(** The body of the loop of [Run], and what it does when it ends. *)
Definition Run_body (r : Runtime) : clM Runtime :=
  '(r, e) ← Runtime_Reconcile r;
  match e with
  | Some _ => _ ← call (SetReady false); _ ← pause_worker r; mret r
  | None => mret r
  end.

Definition Run_end (r : Runtime) : rtM (option error) :=
  '(r, e1) ← stop r;
  '(r, e2) ← retryCleanups r;
  mret (r, errors_join (omap id [e1; e2])).

(** [Run]: the loop until the leadership ends, and what it does then; the error
    of the lost leadership itself is left out. *)
Fixpoint Run_loop (iterations : nat) (r : Runtime) : clM Runtime :=
  match iterations with
  | O => mret r
  | S n => r ← Run_body r; Run_loop n r
  end.
Definition Run (iterations : nat) (r : Runtime) : rtM (option error) := r ← Run_loop iterations r; Run_end r.

(** ** Checks (checks.go) *)

Definition CheckConfiguration (r : Runtime) : clM (option error) :=
  l ← Load (rt_Namespace r) (rt_Name r);
  mret match l with inl err => Some err | inr _ => None end.

Definition rootAbsent (r : Runtime) : clM (option error) :=
  g ← root_get r;
  mret match g with
       | inl err => if errors_is err APINotFound then None else Some err
       | inr _ => Some (errors_new "delete the RunnerScaleSet and wait for its cleanup finalizer before uninstalling the controller")
       end.

(** What [CheckUninstall] asks of the durable state. *)
Definition check_state (r : Runtime) : clM (option error) :=
  s ← Checkpoints_Read (checkpoints r);
  match s with
  | inl err =>
      if errors_is err APINotFound then
        owned ← call (OwnedMaps (rt_Name r));
        mret match owned with
             | inl err => Some err
             | inr n => reject (negb (n =? 0)) "configuration checkpoint missing while owned state remains; restore cleanup ownership before uninstall"
             end
      else mret (Some err)
  | inr snapshot =>
      match Compile snapshot with
      | inl err => mret (Some err)
      | inr resolved =>
          done ← call (DrainedState (rs_Config resolved));
          mret match done with
               | inl err => Some err
               | inr done => reject (negb done) "cloud cleanup is unresolved; keep the controller running"
               end
      end
  end.

Definition CheckUninstall (r : Runtime) : clM (option error) :=
  e ← rootAbsent r;
  match e with
  | Some err => mret (Some err)
  | None =>
      e ← check_state r;
      match e with Some err => mret (Some err) | None => rootAbsent r end
  end.
End runtime.
