(* ===== verification/RuntimeProps.v ===== *)
(** * Safety of the configuration runtime

    At most one worker runs; a session starts only under a checkpoint and a
    finalizer; recovery and cleanup never admit; the finalizer goes only after
    confirmed cleanup. *)
From S2P Require Import Prelude.
From S2P Require Import Effects.
From S2P Require Import Overlay.
From S2P Require Import Provider.
From S2P Require Import Fleet.
From S2P Require Import ConfigCheck.
From S2P Require Import Api.
From S2P Require Import Compile.
From S2P Require Import CompileProps.
From S2P Require Import Cluster.
From S2P Require Import Checkpoint.
From S2P Require Import CheckpointProps.
From S2P Require Import Load.
From S2P Require Import Runtime.
Import Api.

(** ** Calls that matter *)

(** A call that starts or stops no worker, resumes no admissions and does not
    touch the root's finalizers. *)
Definition neutral (v : event clusterE) : Prop :=
  match v with
  | existT _ (e, _) =>
      match e with
      | StartWorker _ _ | CancelWorker _ | Pause _ false | RootUpdate _ => False
      | _ => True
      end
  end.

Section runtime.
Context `{NetText} `{NameRules} `{FleetCodec} `{SnapshotCodec} `{ObjectCodec} `{Hashing}.

Lemma emits_get {A} ns resource kind name (dec : Unstructured → result A) :
  emits neutral (get ns resource kind name dec).
Proof. unfold get. emit. Qed.
#[local] Hint Resolve emits_get : emits.

Lemma emits_get_providers ns refs : ∀ providers revs, emits neutral (get_providers ns refs providers revs).
Proof. induction refs; intros; cbn [get_providers]; emit. Qed.
Lemma emits_get_optional {A} ns resource kind ref (dec : Unstructured → result A) revs :
  emits neutral (get_optional ns resource kind ref dec revs).
Proof. unfold get_optional. emit. Qed.
Lemma emits_Recheck ns revs : emits neutral (Recheck ns revs).
Proof. induction revs; cbn [Recheck]; emit. Qed.
#[local] Hint Resolve emits_get_providers emits_get_optional emits_Recheck : emits.

Lemma emits_Read ns name : emits neutral (Read ns name).
Proof. unfold Read, collect. emit. Qed.

Lemma emits_read_secret ns ref objects : emits neutral (read_secret ns ref objects).
Proof. unfold read_secret. emit. Qed.
#[local] Hint Resolve emits_read_secret emits_Read : emits.

Lemma emits_provider_secrets ns kind refs variables :
  ∀ vals objects, emits neutral (provider_secrets ns kind refs variables vals objects).
Proof. induction variables; intros; cbn [provider_secrets]; emit. Qed.
#[local] Hint Resolve emits_provider_secrets : emits.
Lemma emits_all_secrets r names : ∀ providers objects, emits neutral (all_secrets r names providers objects).
Proof. induction names; intros; cbn [all_secrets]; emit. Qed.
Lemma emits_recheck_secrets objects names : ∀ revs, emits neutral (recheck_secrets objects names revs).
Proof. induction names; intros; cbn [recheck_secrets]; emit. Qed.
#[local] Hint Resolve emits_all_secrets emits_recheck_secrets : emits.

Lemma emits_resolveSecrets r github : emits neutral (resolveSecrets r github).
Proof. unfold resolveSecrets, github_secret. emit. Qed.
#[local] Hint Resolve emits_resolveSecrets : emits.
Lemma emits_ResolveCleanupSecrets r : emits neutral (ResolveCleanupSecrets r).
Proof. apply emits_resolveSecrets. Qed.
Lemma emits_Load ns name : emits neutral (Load ns name).
Proof. unfold Load, ResolveSecrets. emit. Qed.

Lemma emits_Checkpoints_Read c : emits neutral (Checkpoints_Read c).
Proof. unfold Checkpoints_Read. emit. Qed.
Lemma emits_Checkpoints_Save c s : emits neutral (Checkpoints_Save c s).
Proof. unfold Checkpoints_Save. emit. Qed.

Lemma emits_condition r root ready reason : emits neutral (condition r root ready reason).
Proof. unfold condition, condition_body, root_get. emit. Qed.
#[local] Hint Resolve emits_condition : emits.
Lemma emits_report r root ready reason : emits neutral (report r root ready reason).
Proof. unfold report. emit. Qed.
Lemma emits_retry_each ws : emits neutral (retry_each ws).
Proof. induction ws; cbn [retry_each]; emit. Qed.
Lemma emits_pause r : emits neutral (pause r).
Proof. unfold pause, pause_worker. emit. Qed.
Lemma emits_pause_worker r : emits neutral (pause_worker r).
Proof. unfold pause_worker. emit. Qed.
Lemma emits_discard r w : emits neutral (discard r w).
Proof. unfold discard. emit. Qed.

(** ** The invariant *)

(** The worker that was started and not cancelled since. *)
Definition run_step (o : option (Z * WorkerMode)) (v : event clusterE) : option (Z * WorkerMode) :=
  match v with
  | existT _ (e, _) =>
      match e with StartWorker w mode => Some (w, mode) | CancelWorker _ => None | _ => o end
  end.
Definition running (h : cl_history) : option (Z * WorkerMode) := foldl run_step None h.

(** [w] was built from a checkpoint of the scale set [uid]. *)
Definition built_for (c : Checkpoints) (h : cl_history) (uid : string) (w : Z) : Prop :=
  ∃ cm s r cr b, ev (CheckpointGet (checkpoint_name c)) (inr cm) ∈ h ∧ decode c cm = inr s ∧ uid_of s = uid ∧
    Compile s = inr r ∧ ev (NewWithCredentials r cr) (inr b) ∈ h ∧ b_Worker b = w.

(** The cloud cleanup of [uid] is confirmed: a worker of its checkpoint ended
    without error and reported its durable state drained. *)
Definition cleaned (c : Checkpoints) (h : cl_history) (uid : string) : Prop :=
  ∃ w, built_for c h uid w ∧ ev (WorkerDone w) (Some None) ∈ h ∧ ev (WorkerDrained w) (inr true) ∈ h.

(** A candidate just built for a session that is not suspended. *)
Definition fresh_session (h : cl_history) (w : Z) : Prop :=
  ∃ pre mid r cr b, h = pre ++ ev (NewWithCredentials r cr) (inr b) :: mid ∧ (length mid ≤ 1)%nat ∧
    b_Worker b = w ∧ rs_Suspend r = false.

(** When each of the calls that matter may be made. *)
Definition safe (c : Checkpoints) (pre : cl_history) (v : event clusterE) : Prop :=
  match v with
  | existT _ (e, _) =>
      match e with
      | StartWorker w mode =>
          running pre = None ∧
          match mode with
          | SessionMode => True
          | RecoveryMode => last pre = Some (ev (Pause w true) tt)
          | CleanupMode => last pre = Some (ev (DrainWorker w) tt)
          end
      | Pause w false => fresh_session pre w ∨ running pre = None ∨ running pre = Some (w, SessionMode)
      | RootUpdate u =>
          Finalizer ∈ om_Finalizers (u_Meta u) ∨
          is_Some (om_DeletionTimestamp (u_Meta u)) ∧ cleaned c pre (om_UID (u_Meta u))
      | _ => True
      end
  end.

Definition worker_ok (c : Checkpoints) (h : cl_history) (o : option activeWorker) : Prop :=
  match o with
  | None => running h = None
  | Some w =>
      (running h = None ∨ running h = Some (aw_worker w, aw_mode w)) ∧
      match aw_mode w with
      | SessionMode => True
      | RecoveryMode => aw_key w = "recovery"
      | CleanupMode => aw_key w = "cleanup" ∧ built_for c h (aw_uid w) (aw_worker w)
      end
  end.

Definition good (c : Checkpoints) (r : Runtime) (h : cl_history) : Prop :=
  checkpoints r = c ∧ at_every (safe c) h ∧ worker_ok c h (rt_worker r) ∧
  (completedUID r ≠ "" → cleaned c h (completedUID r)).

Lemma running_app h h' : running (h ++ h') = foldl run_step (running h) h'.
Proof. apply foldl_app. Qed.
Lemma running_neutral h h' : Forall neutral h' → running (h ++ h') = running h.
Proof.
  rewrite running_app. generalize (running h). induction h' as [|[X [e x]] h' IH]; intros o Hn; [done|].
  apply Forall_cons in Hn as [Hv Hn]. simpl. rewrite IH by done. by destruct e.
Qed.

Lemma built_mono c h h' uid w : h ⊆ h' → built_for c h uid w → built_for c h' uid w.
Proof. intros Hh (cm & s & r & cr & b & ? & ? & ? & ? & ? & ?). exists cm, s, r, cr, b. split_and!; auto. Qed.
Lemma cleaned_mono c h h' uid : h ⊆ h' → cleaned c h uid → cleaned c h' uid.
Proof. intros Hh (w & ? & ? & ?). exists w. split_and!; [by eapply built_mono|auto..]. Qed.
Lemma incl_l (h h' : cl_history) : h ⊆ h ++ h'.
Proof. set_solver. Qed.

(** The worker's part survives any call but a start or a cancel. *)
Lemma worker_ok_mono c h h' o : h ⊆ h' → running h' = running h → worker_ok c h o → worker_ok c h' o.
Proof.
  intros Hh Hr. destruct o as [w|]; simpl; rewrite Hr; [|done]. intros [Hw Hm]. split; [done|].
  destruct (aw_mode w); try done. destruct Hm as [? ?]. split; [done|]. by eapply built_mono.
Qed.

Lemma good_snoc c r h v :
  good c r h → safe c h v → run_step (running h) v = running h → good c r (h ++ [v]).
Proof.
  intros (Hc & Hs & Hw & Hu) Hv Hr. split_and!; [done|by apply at_every_snoc| |].
  - eapply worker_ok_mono; [apply incl_l| |exact Hw]. by rewrite running_app.
  - intros Hne. eapply cleaned_mono; [apply incl_l|auto].
Qed.

Lemma good_app c r h h' : good c r h → Forall neutral h' → good c r (h ++ h').
Proof.
  revert h. induction h' as [|v h' IH]; intros h Hg Hn; [by rewrite app_nil_r|].
  apply Forall_cons in Hn as [Hv Hn]. rewrite cons_middle, app_assoc. apply IH; [|done].
  destruct v as [X [e x]]. apply good_snoc; [done| |]; destruct e as [| | | | | | | | | | | | | |? []| | | | | | | | |]; done.
Qed.

(** A program without calls that matter keeps everything. *)
Lemma wp_emits {R} c r (p : clM R) h Q :
  emits neutral p → good c r h → (∀ h' x, good c r h' → h ⊆ h' → Q h' x) → wp no_contract Q h p.
Proof. intros Hp Hg HQ. apply Hp. intros h' x Hn. apply HQ; [by apply good_app|apply incl_l]. Qed.

(** ** The parts of a reconciliation *)

(** [s] was read from the checkpoint. *)
Definition seen (c : Checkpoints) (h : cl_history) (s : Snapshot) : Prop :=
  ∃ cm, ev (CheckpointGet (checkpoint_name c)) (inr cm) ∈ h ∧ decode c cm = inr s.
Lemma seen_mono c h h' s : h ⊆ h' → seen c h s → seen c h' s.
Proof. intros Hh (cm & ? & ?). exists cm. auto. Qed.

(** [Q] holds of every result of a program that keeps the invariant. *)
Definition keeps {R} (c : Checkpoints) (Q : cl_history → Runtime * R → Prop) : Prop :=
  ∀ h r x, good c r h → Q h (r, x).

Lemma wp_Checkpoints_Read c r h Q :
  good c r h → (∀ h' x, good c r h' → h ⊆ h' → (∀ s, x = inr s → seen c h' s) → Q h' x) →
  wp no_contract Q h (Checkpoints_Read c).
Proof.
  intros Hg HQ. apply wp_call_bind. intros x _. apply wp_ret, HQ; [by apply good_snoc|apply incl_l|].
  intros s Hs. destruct x as [|cm]; [done|]. exists cm. split; [|done]. apply elem_of_app. right. by left.
Qed.

Lemma wp_report c r root ready reason h Q :
  good c r h → keeps c Q → wp no_contract Q h (report r root ready reason).
Proof.
  intros Hg HQ. apply wp_bind. eapply wp_emits; [apply emits_condition|done|].
  intros h' x Hg' _. by apply wp_ret, HQ.
Qed.

Lemma wp_stop c r h Q :
  good c r h →
  (∀ h' r' e, good c r' h' → h ⊆ h' → completedUID r' = completedUID r → (e = None → rt_worker r' = None) →
     Q h' (r', e)) →
  wp no_contract Q h (stop r).
Proof.
  intros Hg HQ. unfold stop. destruct (rt_worker r) as [w|] eqn:Hw; [|by apply wp_ret, HQ].
  pose proof Hg as (Hc & Hs & Hok & Hu). rewrite Hw in Hok.
  apply wp_call_bind. intros [] _. set (h1 := h ++ [_]).
  assert (running h1 = None) as Hr1 by (unfold h1; by rewrite running_app).
  assert (h ⊆ h1) as Hsub by apply incl_l.
  assert (∀ o, (o = None ∨ o = Some w) → good c (set_worker o r) h1) as Hg1.
  { intros o Ho. split_and!; [done|by apply at_every_snoc| |intros Hne; by eapply cleaned_mono, Hu].
    destruct Ho as [->| ->]; simpl; [done|]. split; [by left|]. destruct Hok as [_ Hm].
    destruct (aw_mode w); try done. destruct Hm as [? ?]. split; [done|]. by eapply built_mono. }
  assert (set_worker (Some w) r = r) as Hsame by (destruct r; simpl in *; by subst).
  apply wp_call_bind. intros [] _. apply wp_call_bind. intros e _. apply wp_ret.
  destruct e as [err|]; apply HQ; try done; try (unfold h1; set_solver).
  - do 2 (apply good_snoc; [|done|by rewrite ?running_app, ?Hr1]). rewrite <- Hsame. apply Hg1. by right.
  - do 2 (apply good_snoc; [|done|by rewrite ?running_app, ?Hr1]). apply Hg1. by left.
Qed.

Lemma wp_newWorker c r res cr mode h Q :
  good c r h → (∀ h' e, good c r h' → h ⊆ h' → Q h' (inl e)) →
  (∀ h' b, good c r h' → h ⊆ h' → ev (NewWithCredentials res cr) (inr b) ∈ h' → Q h' (inr (b_Worker b))) →
  wp no_contract Q h (newWorker res cr mode).
Proof.
  intros Hg He HQ. unfold newWorker. cbv zeta. apply wp_bind.
  eapply (wp_emits c r); [emit|done|]. intros h1 [e|] Hg1 Hs1; [by apply wp_ret, He|].
  apply wp_call_bind. intros [e|b] _.
  { apply wp_ret, He; [by apply good_snoc|]. set_solver. }
  set (h2 := h1 ++ [_]). assert (good c r h2) as Hg2 by (by apply good_snoc).
  assert (ev (NewWithCredentials res cr) (inr b) ∈ h2) as Hb by (apply elem_of_app; right; by left).
  assert (h ⊆ h2) as Hs2 by (unfold h2; set_solver).
  do 3 (match goal with |- wp _ _ _ (if ?x then _ else _) => destruct x end; [by apply wp_ret, He|]).
  apply wp_bind.
  assert (∀ mid, (length mid ≤ 1)%nat → Forall neutral mid →
    wp no_contract Q (h2 ++ mid)
      (_ ← (if bool_decide (mode = CleanupMode) then call (DrainWorker (b_Worker b))
            else call (Pause (b_Worker b) (bool_decide (mode = RecoveryMode) || rs_Suspend res)));
       mret (inr (b_Worker b)))) as Hend.
  { intros mid Hlen Hmid. assert (good c r (h2 ++ mid)) as Hg3 by (by apply good_app).
    apply wp_bind. case_bool_decide as Hm.
    - apply wp_call. intros [] _. apply wp_ret, HQ; [by apply good_snoc|set_solver..].
    - apply wp_call. intros [] _. apply wp_ret, HQ; [|set_solver..]. apply good_snoc; [done| |done].
      destruct (_ || _) eqn:Hp; [done|]. apply orb_false_iff in Hp as [_ Hsusp]. left.
      exists h1, mid, res, cr, b. split_and!; try done. unfold h2. by rewrite <- app_assoc. }
  destruct (negb _).
  - destruct (negb _); [by apply wp_ret, wp_ret, He|]. apply wp_call. intros [e|] _.
    + apply wp_ret, He; [by apply good_snoc|set_solver].
    + apply Hend; [done|]. by constructor.
  - apply wp_ret. rewrite <- (app_nil_r h2). apply Hend; [simpl; lia|done].
Qed.

Lemma wp_start c r w key uid mode h Q :
  good c r h → running h = None → safe c h (ev (StartWorker w mode) tt) →
  match mode with
  | SessionMode => True
  | RecoveryMode => key = "recovery"
  | CleanupMode => key = "cleanup" ∧ built_for c h uid w
  end →
  (∀ h' r', good c r' h' → h ⊆ h' → completedUID r' = completedUID r →
     rt_worker r' = Some {| aw_worker := w; aw_key := key; aw_uid := uid; aw_mode := mode |} → Q h' r') →
  wp no_contract Q h (start r w key uid mode).
Proof.
  intros (Hc & Hs & Hok & Hu) Hr Hsafe Hm HQ. apply wp_call_bind. intros [] _. apply wp_ret, HQ; try done; [|apply incl_l].
  split_and!; [done|by apply at_every_snoc| |intros Hne; eapply cleaned_mono; [apply incl_l|by apply Hu]].
  simpl. split; [right; by rewrite running_app|]. destruct mode; try done. destruct Hm. split; [done|].
  eapply built_mono; [apply incl_l|done].
Qed.

Lemma wp_protect c r root h Q :
  good c r h →
  (∀ h' e, good c r h' → h ⊆ h' →
     (e = None → om_DeletionTimestamp (u_Meta root) = None ∧
        (Finalizer ∈ om_Finalizers (u_Meta root) ∨
         ev (RootUpdate (set_Finalizers (om_Finalizers (u_Meta root) ++ [Finalizer]) root)) None ∈ h')) →
     Q h' e) →
  wp no_contract Q h (protect r root).
Proof.
  intros Hg HQ. unfold protect. destruct (om_DeletionTimestamp _) eqn:Hd; cbn [isSome isNone negb].
  { apply wp_ret, HQ; [done|done|]. intros [=]. }
  destruct (slices_contains _ _) eqn:Hf.
  { apply slices_contains_spec in Hf. apply wp_ret, HQ; auto. }
  apply wp_call. intros e _. apply HQ; [|apply incl_l|].
  - apply good_snoc; [done| |done]. left. simpl. set_solver.
  - intros ->. split; [done|]. right. apply elem_of_app. right. by left.
Qed.

Lemma wp_finalize c r root uid h Q :
  good c r h → cleaned c h uid → (∀ h' e, good c r h' → Q h' e) → wp no_contract Q h (finalize r root uid).
Proof.
  intros Hg Hcl HQ. unfold finalize. destruct root as [u|]; [|by apply wp_ret, HQ].
  apply wp_call_bind. intros [e|cur] _; [by apply wp_ret, HQ, good_snoc|].
  assert (good c r (h ++ [ev (ObjectGet "runnerscalesets" (rt_Name r)) (inr cur)])) as Hg' by (by apply good_snoc).
  match goal with |- wp _ _ _ (if ?b then _ else _) => destruct b eqn:Hb end; [by apply wp_ret, HQ|].
  reflect in Hb. destruct Hb as [Huid Hdel]. apply wp_call. intros e _. apply HQ, good_snoc; [done| |done].
  right. simpl. split; [by destruct (om_DeletionTimestamp _)|]. rewrite Huid. eapply cleaned_mono; [apply incl_l|done].
Qed.

Lemma wp_complete c r root uid h Q :
  good c r h → cleaned c h uid → keeps c Q → wp no_contract Q h (complete r root uid).
Proof.
  intros Hg Hcl HQ. unfold complete. match goal with |- wp _ _ _ (if ?b then _ else _) => destruct b end.
  { by eapply wp_report. }
  apply wp_bind. eapply wp_finalize; [done|done|]. intros h' [e|] Hg'; [by apply wp_ret, HQ|by eapply wp_report].
Qed.

Lemma wp_start_cleanup c r root s h Q :
  good c r h → rt_worker r = None → seen c h s →
  (∀ h' x, good c (fst x) h' → Q h' (inl x)) →
  (∀ h' r', good c r' h' → completedUID r' = completedUID r →
     (∃ w, rt_worker r' = Some w ∧ aw_mode w = CleanupMode ∧ aw_uid w = uid_of s) → Q h' (inr r')) →
  wp no_contract Q h (start_cleanup r root s).
Proof.
  intros Hg Hw Hs He HQ. unfold start_cleanup. destruct (Compile s) as [e|res] eqn:Hcomp; [by apply wp_ret, He|].
  apply wp_bind. eapply wp_emits; [apply emits_ResolveCleanupSecrets|done|]. intros h1 [e|cr] Hg1 Hs1.
  { apply wp_bind. eapply wp_report; [done|]. intros h' r' x Hg'. by apply wp_ret, He. }
  apply wp_bind. eapply wp_newWorker; [done| |].
  { intros h2 e Hg2 Hs2. apply wp_bind. eapply wp_report; [done|]. intros h' r' x Hg'. by apply wp_ret, He. }
  intros h2 b Hg2 Hs2 Hb. apply wp_call_bind. intros [] _. set (h3 := h2 ++ [_]).
  assert (good c r h3) as Hg3 by (by apply good_snoc).
  assert (running h3 = None) as Hr3 by (destruct Hg3 as (_ & _ & Hok & _); by rewrite Hw in Hok).
  apply wp_bind. eapply wp_start; [done|done| | |].
  - split; [done|]. unfold h3. by rewrite last_snoc.
  - split; [done|]. destruct Hs as (cm & Hcm & Hd). exists cm, s, res, cr, b.
    split_and!; try done; [unfold h3; set_solver..].
  - intros h' r' Hg' _ Hu Hw'. apply wp_ret, HQ; [done|done|]. by eexists.
Qed.

Lemma wp_await_cleanup c r root uid w h Q :
  good c r h → rt_worker r = Some w → aw_mode w = CleanupMode → aw_uid w = uid → keeps c Q →
  wp no_contract Q h (await_cleanup r root uid).
Proof.
  intros Hg Hw Hm Huid HQ. unfold await_cleanup. rewrite Hw. apply wp_call_bind. intros d _.
  assert (good c r (h ++ [ev (WorkerDone (aw_worker w)) d])) as Hg1 by (by apply good_snoc).
  destruct d as [[e|]|]; [| |by eapply wp_report].
  { apply wp_bind. eapply wp_stop; [done|]. intros h' r' e' Hg' _ _ _. by eapply wp_report. }
  apply wp_call_bind. intros d _. set (h2 := _ ++ [ev (WorkerDrained _) d]).
  assert (good c r h2) as Hg2 by (by apply good_snoc).
  destruct d as [e|[]]; [by eapply wp_report| |by eapply wp_report].
  assert (cleaned c h2 uid) as Hcl.
  { exists (aw_worker w). destruct Hg2 as (_ & _ & Hok & _). rewrite Hw in Hok. destruct Hok as [_ Hok].
    rewrite Hm, Huid in Hok. split_and!; [apply Hok|unfold h2; set_solver..]. }
  apply wp_bind. eapply wp_stop; [done|]. intros h' r' [e|] Hg' Hsub _ _; [by apply wp_ret, HQ|].
  apply (cleaned_mono _ _ _ _ Hsub) in Hcl. eapply wp_complete; [|done|done].
  destruct Hg' as (? & ? & ? & ?). split_and!; try done.
Qed.

Lemma wp_reconcileCleanup c r root s h Q :
  good c r h → seen c h s → keeps c Q → wp no_contract Q h (reconcileCleanup r root s).
Proof.
  intros Hg Hs HQ. unfold reconcileCleanup. cbv zeta. fold (uid_of s).
  destruct (completedUID r =s uid_of s) eqn:Hdone.
  { apply String.eqb_eq in Hdone. eapply wp_complete; [done| |done]. rewrite <- Hdone. apply Hg. rewrite Hdone.
    destruct Hs as (cm & _ & Hd). by apply decode_owned in Hd as (_ & _ & _ & _ & _ & ? & _). }
  assert (∀ h1 r1, good c r1 h1 → h ⊆ h1 →
    (∀ w, rt_worker r1 = Some w → aw_mode w = CleanupMode ∧ aw_uid w = uid_of s) →
    wp no_contract Q h1
      (s0 ← (match rt_worker r1 with Some _ => mret (inr r1) | None => start_cleanup r1 root s end);
       match s0 with inl x => mret x | inr r => await_cleanup r root (uid_of s) end)) as Hrest.
  { intros h1 r1 Hg1 Hs1 Hmode. apply wp_bind. destruct (rt_worker r1) as [w|] eqn:Hw.
    - apply wp_ret. destruct (Hmode w eq_refl). by eapply wp_await_cleanup.
    - eapply wp_start_cleanup; [done|done|by eapply seen_mono| |].
      + intros h' [r' x] Hg'. by apply wp_ret, HQ.
      + intros h' r' Hg' _ (w & ? & ? & ?). by eapply wp_await_cleanup. }
  apply wp_bind. destruct (rt_worker r) as [w|] eqn:Hw; [|apply wp_ret, Hrest; [done|done|congruence]].
  destruct (_ && _) eqn:Hb.
  { apply wp_ret, Hrest; [done|done|]. intros w' Hw'. rewrite Hw in Hw'. injection Hw' as <-. by reflect in Hb. }
  eapply wp_stop; [done|]. intros h' r' [e|] Hg' Hsub _ Hnone; [by apply wp_ret, HQ|].
  apply Hrest; [done|done|]. intros w' Hw'. rewrite Hnone in Hw' by done. done.
Qed.

Lemma wp_start_recovery c r root s h Q :
  good c r h → rt_worker r = None → keeps c Q → wp no_contract Q h (start_recovery r root s).
Proof.
  intros Hg Hw HQ. unfold start_recovery. destruct (Compile s) as [e|res]; [by eapply wp_report|].
  apply wp_bind. eapply wp_emits; [apply emits_ResolveCleanupSecrets|done|].
  intros h1 [e|cr] Hg1 Hs1; [by eapply wp_report|]. cbv zeta.
  apply wp_bind. eapply wp_newWorker; [done| |].
  { intros h2 e Hg2 Hs2. by eapply wp_report. }
  intros h2 b Hg2 Hs2 _. apply wp_call_bind. intros [] _. set (h3 := h2 ++ [_]).
  assert (good c r h3) as Hg3 by (by apply good_snoc).
  assert (running h3 = None) as Hr3 by (destruct Hg3 as (_ & _ & Hok & _); by rewrite Hw in Hok).
  apply wp_bind. eapply wp_start; [done|done| |done|].
  - split; [done|]. unfold h3. by rewrite last_snoc.
  - intros h' r' Hg' _ _ _. by eapply wp_report.
Qed.

Lemma wp_recoverAccepted c r root s h Q :
  good c r h → keeps c Q → wp no_contract Q h (recoverAccepted r root s).
Proof.
  intros Hg HQ. unfold recoverAccepted. destruct (rt_worker r) as [w|] eqn:Hw; [|by eapply wp_start_recovery].
  apply wp_call_bind. intros d _.
  assert (good c r (h ++ [ev (WorkerDone (aw_worker w)) d])) as Hg1 by (by apply good_snoc).
  destruct d as [d|].
  - apply wp_bind. eapply wp_stop; [done|]. intros h' r' [e|] Hg' _ _ Hnone; [by apply wp_ret, HQ|].
    eapply wp_start_recovery; [exact Hg'|by apply Hnone|done].
  - apply wp_call_bind. intros [] _. eapply wp_report; [|done]. by apply good_snoc.
Qed.

Lemma wp_discard c r w h Q :
  good c r h →
  (∀ h' r', good c r' h' → h ⊆ h' → rt_worker r' = rt_worker r → Q h' r') → wp no_contract Q h (discard r w).
Proof.
  intros Hg HQ. apply wp_call_bind. intros e _. apply wp_ret.
  assert (good c r (h ++ [ev (CleanupWorker w) e])) as Hg' by (by apply good_snoc).
  destruct e; apply HQ; try done; apply incl_l.
Qed.

(** Give up a candidate with an error. *)
Lemma wp_discard_err c r w (err : error) h Q :
  good c r h → keeps c Q → wp no_contract Q h (r ← discard r w; mret (r, Some err)).
Proof. intros Hg HQ. apply wp_bind. eapply wp_discard; [done|]. intros h' r' Hg' _ _. by apply wp_ret, HQ. Qed.

Lemma wp_replace_worker c r loaded current w h Q :
  good c r h → keeps c Q → wp no_contract Q h (replace_worker r loaded current w).
Proof.
  intros Hg HQ. apply wp_bind. eapply wp_protect; [done|]. intros h1 [e|] Hg1 _ _; [by eapply wp_discard_err|].
  apply wp_bind. eapply wp_stop; [done|]. intros h2 r2 [e|] Hg2 _ _ Hnone; [by eapply wp_discard_err|].
  assert (running h2 = None) as Hr2 by (destruct Hg2 as (_ & _ & Hok & _); by rewrite Hnone in Hok).
  apply wp_bind. eapply wp_start; [done|done|done|done|]. intros h3 r3 Hg3 _ _ _. by eapply wp_report.
Qed.

Lemma wp_observe_accepted c r loaded w h Q :
  good c r h → keeps c Q → wp no_contract Q h (observe_accepted r loaded w).
Proof.
  intros Hg HQ. apply wp_bind. pose proof Hg as (Hc & _). rewrite Hc.
  eapply wp_Checkpoints_Read; [done|]. intros h1 x Hg1 _ _.
  match goal with |- wp _ _ _ (if ?b then _ else _) => destruct b end; [by eapply wp_discard_err|].
  apply wp_call_bind. intros g _. set (h2 := h1 ++ [_]). assert (good c r h2) as Hg2 by (by apply good_snoc).
  destruct g as [e|cur]; [by eapply wp_discard_err|].
  destruct (negb _); [by eapply wp_discard_err|]. by eapply wp_replace_worker.
Qed.

Lemma wp_accept c r root cp loaded h Q :
  good c r h → keeps c Q → wp no_contract Q h (accept r root cp loaded).
Proof.
  intros Hg HQ. apply wp_bind. eapply wp_newWorker; [done| |].
  { intros h1 e Hg1 _. apply wp_bind. eapply wp_emits; [apply emits_pause_worker|done|].
    intros h2 [] Hg2 _. by eapply wp_report. }
  intros h1 b Hg1 _ _. apply wp_bind. eapply wp_emits; [apply emits_Checkpoints_Save|done|].
  intros h2 [err|] Hg2 _; [|by eapply wp_observe_accepted].
  apply wp_bind. eapply wp_discard; [done|]. intros h3 r3 Hg3 _ _.
  apply wp_bind. eapply wp_emits; [apply emits_pause_worker|done|]. intros h4 [] Hg4 _.
  destruct cp as [e|s]; [by eapply wp_report|]. destruct (_ && _); [|by eapply wp_report].
  apply wp_bind. eapply wp_recoverAccepted; [done|]. intros h5 r5 [e|] Hg5; [by apply wp_ret, HQ|by eapply wp_report].
Qed.

(** The key of a loaded configuration is never that of another mode. *)
Lemma key_not_reserved l : Key l ≠ "recovery" ∧ Key l ≠ "cleanup".
Proof. split; intros Hk; pose proof (sha256_hex_length (key_json (key_view l))) as Hlen; fold (Key l) in Hlen; by rewrite Hk in Hlen. Qed.

Lemma wp_keep_worker c r root w loaded h Q :
  good c r h → rt_worker r = Some w → aw_key w = Key loaded → keeps c Q →
  wp no_contract Q h (keep_worker r root w loaded).
Proof.
  intros Hg Hw Hk HQ. unfold keep_worker. cbv zeta. apply wp_call_bind. intros [] _.
  set (h1 := h ++ [_]). assert (good c r h1) as Hg1.
  { apply good_snoc; [done| |done]. destruct (rs_Suspend _); [done|]. right.
    destruct Hg as (_ & _ & Hok & _). rewrite Hw in Hok. destruct Hok as [[Hr|Hr] Hm]; [by left|].
    destruct (aw_mode w); [by right|..]; exfalso.
    - by apply (proj1 (key_not_reserved loaded)); congruence.
    - destruct Hm as [Hm _]. by apply (proj2 (key_not_reserved loaded)); congruence. }
  apply wp_call_bind. intros rd _. eapply wp_report; [|done]. by apply good_snoc.
Qed.

Lemma wp_reconcileLive c r root cp h Q :
  good c r h → keeps c Q → wp no_contract Q h (reconcileLive r root cp).
Proof.
  intros Hg HQ. apply wp_bind. eapply wp_emits; [apply emits_Load|done|]. intros h1 [e|loaded] Hg1 _.
  { apply wp_bind. eapply wp_emits; [apply emits_pause|done|]. intros h2 [] Hg2 _.
    destruct cp as [e'|s]; [by eapply wp_report|]. destruct (has_finalizer root); [|by eapply wp_report].
    by eapply wp_recoverAccepted. }
  destruct (negb _).
  { apply wp_bind. eapply wp_emits; [apply emits_pause|done|]. intros h2 [] Hg2 _. by apply wp_ret, HQ. }
  assert (∀ h2 r2 e, good c r2 h2 →
    wp no_contract Q h2
      match e with
      | Some err => mret (r2, Some err)
      | None =>
          match rt_worker r2 with
          | Some w => if aw_key w =s Key loaded then keep_worker r2 root w loaded else accept r2 root cp loaded
          | None => accept r2 root cp loaded
          end
      end) as Hrest.
  { intros h2 r2 [e|] Hg2; [by apply wp_ret, HQ|]. destruct (rt_worker r2) as [w|] eqn:Hw; [|by eapply wp_accept].
    destruct (_ =s _) eqn:Hk; [|by eapply wp_accept]. apply String.eqb_eq in Hk. by eapply wp_keep_worker. }
  apply wp_bind. destruct (rt_worker r) as [w|] eqn:Hw; [|apply wp_ret; exact (Hrest h1 r None Hg1)].
  apply wp_call_bind. intros d _. set (h2 := h1 ++ [_]). assert (good c r h2) as Hg2 by (by apply good_snoc).
  destruct d as [d|]; [|apply wp_ret; exact (Hrest h2 r None Hg2)]. eapply wp_stop; [done|].
  intros h3 r3 e Hg3 _ _ _. exact (Hrest h3 r3 e Hg3).
Qed.

Lemma wp_retryCleanups c r h Q :
  good c r h → (∀ h' r' e, good c r' h' → rt_worker r' = rt_worker r → Q h' (r', e)) →
  wp no_contract Q h (retryCleanups r).
Proof.
  intros Hg HQ. apply wp_bind. eapply wp_emits; [apply emits_retry_each|done|].
  intros h' pending Hg' _. apply wp_ret. by apply HQ.
Qed.

Lemma wp_Runtime_Reconcile c r h Q :
  good c r h → keeps c Q → wp no_contract Q h (Runtime_Reconcile r).
Proof.
  intros Hg HQ. apply wp_bind. eapply wp_retryCleanups; [done|]. intros h1 r1 [e|] Hg1 _.
  { apply wp_bind. eapply wp_emits; [apply emits_pause|done|]. intros h2 [] Hg2 _. by apply wp_ret, HQ. }
  apply wp_call_bind. intros g _. set (h2 := h1 ++ [_]). assert (good c r1 h2) as Hg2 by (by apply good_snoc).
  match goal with |- wp _ _ _ (match ?x with _ => _ end) => destruct x as [e|root] end; [by apply wp_ret, HQ|].
  apply wp_bind. pose proof Hg2 as (Hc & _). rewrite Hc.
  eapply wp_Checkpoints_Read; [done|]. intros h3 cp Hg3 Hs3 Hseen. cbv zeta.
  do 2 (match goal with |- wp _ _ _ (if ?b then _ else _) => destruct b end;
    [apply wp_bind; eapply wp_emits; [apply emits_pause|done|]; intros h4 [] Hg4 _; by eapply wp_report|]).
  assert (∀ root, wp no_contract Q h3
    match cp with
    | inl _ => report r1 root false "CheckpointUnavailable"
    | inr s => reconcileCleanup r1 root s
    end) as Hclean.
  { intros root'. destruct cp as [e|s]; [by eapply wp_report|]. eapply wp_reconcileCleanup; [done|by apply Hseen|done]. }
  destruct root as [u|]; [|apply Hclean]. destruct (_ || _); [apply Hclean|]. by eapply wp_reconcileLive.
Qed.

Lemma wp_Run_loop c n : ∀ r h Q,
  good c r h → (∀ h' r', good c r' h' → Q h' r') → wp no_contract Q h (Run_loop n r).
Proof.
  induction n as [|n IH]; intros r h Q Hg HQ; cbn [Run_loop]; [by apply wp_ret, HQ|].
  apply wp_bind, wp_bind. eapply wp_Runtime_Reconcile; [done|]. intros h1 r1 [e|] Hg1; [|by apply wp_ret, IH].
  apply wp_call_bind. intros [] _. apply wp_bind. eapply wp_emits; [apply emits_pause_worker|by apply good_snoc|].
  intros h2 [] Hg2 _. by apply wp_ret, IH.
Qed.

(** A runtime that has not run yet. *)
Definition initial (r : Runtime) : Prop := rt_worker r = None ∧ completedUID r = "" ∧ pendingCleanups r = [].

End runtime.
