(* ===== verification/SessionProps.v ===== *)
(** * A session starts protected

    Within one reconciliation, a session worker is started only after the
    configuration was loaded, checkpointed, read back, and the live scale set
    carries the cleanup finalizer. *)
From S2P Require Import Prelude.
From S2P Require Import Effects.
From S2P Require Import Overlay.
From S2P Require Import Provider.
From S2P Require Import Fleet.
From S2P Require Import ConfigCheck.
From S2P Require Import Api.
From S2P Require Import Compile.
From S2P Require Import CompileProps.
From S2P Require Import Cluster.
From S2P Require Import Checkpoint.
From S2P Require Import CheckpointProps.
From S2P Require Import Load.
From S2P Require Import Runtime.
From S2P Require Import RuntimeProps.
Import Api.

(** The worker a session is started with. *)
Definition session_of (v : event clusterE) : option Z :=
  match v with
  | existT _ (e, _) => match e with StartWorker w SessionMode => Some w | _ => None end
  end.
Definition no_session (v : event clusterE) : Prop := session_of v = None.

Lemma neutral_no_session v : neutral v → no_session v.
Proof. destruct v as [X [e x]]. by destruct e. Qed.

Ltac quiet := eapply emits_weaken; [apply neutral_no_session|auto with emits].
Ltac emit_quiet :=
  repeat (cbv beta zeta;
    match goal with
    | |- emits _ (mret _) => apply emits_ret
    | |- emits _ (call _) => apply emits_call; intros; reflexivity
    | |- emits _ (mbind _ _) => apply emits_bind; intros
    | |- emits _ (match ?x with _ => _ end) => destruct x
    | |- emits _ _ => solve [auto with emits]
    | |- emits _ _ => solve [quiet]
    end).

Section session.
Context `{NetText} `{NameRules} `{FleetCodec} `{SnapshotCodec} `{ObjectCodec} `{Hashing}.

#[local] Hint Resolve emits_ResolveCleanupSecrets emits_Load emits_Checkpoints_Read emits_Checkpoints_Save
  emits_condition emits_report emits_retry_each emits_pause emits_pause_worker emits_discard : emits.

Lemma quiet_stop r : emits no_session (stop r).
Proof. unfold stop. emit_quiet. Qed.
Lemma quiet_newWorker res cr mode : emits no_session (newWorker res cr mode).
Proof. unfold newWorker. emit_quiet. Qed.
Lemma quiet_complete r root uid : emits no_session (complete r root uid).
Proof. unfold complete, finalize, root_get. emit_quiet. Qed.
Lemma quiet_protect r root : emits no_session (protect r root).
Proof. unfold protect. emit_quiet. Qed.
#[local] Hint Resolve quiet_stop quiet_newWorker quiet_complete quiet_protect : emits.
Lemma quiet_cleanup r root s : emits no_session (reconcileCleanup r root s).
Proof. unfold reconcileCleanup, start_cleanup, await_cleanup, start. emit_quiet. Qed.
Lemma quiet_recover r root s : emits no_session (recoverAccepted r root s).
Proof. unfold recoverAccepted, start_recovery, start. emit_quiet. Qed.
Lemma quiet_retryCleanups r : emits no_session (retryCleanups r).
Proof. unfold retryCleanups. emit_quiet. Qed.
Lemma quiet_keep r root w l : emits no_session (keep_worker r root w l).
Proof. unfold keep_worker. emit_quiet. Qed.
#[local] Hint Resolve quiet_cleanup quiet_recover quiet_retryCleanups quiet_keep : emits.

(** What precedes the start of the session worker [w] of the scale set [name]:
    the configuration [l] was loaded, [w] was built from it, its checkpoint was
    saved and then read back with the same identity, and the live object, of the
    same revision and not being deleted, carries the finalizer. *)
Definition start_protected (ns name : string) (pre : cl_history) (w : Z) : Prop :=
  let c := {| cp_Namespace := ns; cp_Name := name |} in
  ∃ l h0 hl h1 hs hr h2 cp current b,
    pre = h0 ++ hl ++ h1 ++ hs ++ hr ++ [ev (ObjectGet "runnerscalesets" name) (inr current)] ++ h2 ∧
    trace_of (Load ns name) hl (inr l) ∧
    ev (NewWithCredentials (ld_Resolved l) (ld_Credentials l)) (inr b) ∈ h1 ∧ b_Worker b = w ∧
    trace_of (Checkpoints_Save c (ld_Snapshot l)) hs None ∧
    trace_of (Checkpoints_Read c) hr (inr cp) ∧ uid_of cp = uid_of (ld_Snapshot l) ∧
    sameRootRevision (u_Meta current) (ss_Meta (sn_ScaleSet (ld_Snapshot l))) = true ∧
    om_DeletionTimestamp (u_Meta current) = None ∧
    (Finalizer ∈ om_Finalizers (u_Meta current) ∨
     ev (RootUpdate (set_Finalizers (om_Finalizers (u_Meta current) ++ [Finalizer]) current)) None ∈ h2).

Definition sessions_protected (ns name : string) (h : cl_history) : Prop :=
  at_every (λ pre v, ∀ w, session_of v = Some w → start_protected ns name pre w) h.

Lemma protected_quiet ns name h h' :
  sessions_protected ns name h → Forall no_session h' → sessions_protected ns name (h ++ h').
Proof.
  intros Hh Hq. revert h Hh. induction h' as [|v h' IH]; intros h Hh; [by rewrite app_nil_r|].
  apply Forall_cons in Hq as [Hv Hq]. rewrite cons_middle, app_assoc. apply IH; [done|].
  apply at_every_snoc; [done|]. intros w Hw. unfold no_session in Hv. congruence.
Qed.

(** A part without session start, with its own history. *)
Lemma wp_quiet {R} ns name (p : clM R) h Q :
  emits no_session p → sessions_protected ns name h →
  (∀ h' x, sessions_protected ns name (h ++ h') → trace_of p h' x → Q (h ++ h') x) → wp no_contract Q h p.
Proof.
  intros Hp Hh HQ. apply wp_traces. intros h' x Ht _. apply HQ; [|done].
  apply protected_quiet; [done|]. by eapply emits_trace.
Qed.

(** The whole rest of a program is quiet. *)
Lemma wp_rest {R} ns name (p : clM R) h Q :
  emits no_session p → sessions_protected ns name h → (∀ h' x, sessions_protected ns name h' → Q h' x) →
  wp no_contract Q h p.
Proof. intros Hp Hh HQ. eapply wp_quiet; [done|done|]. auto. Qed.

Ltac rest := eapply wp_rest; [emit_quiet|done|done].
(** One part of a sequence. *)
Ltac part := apply wp_bind; eapply wp_quiet; [emit_quiet|done|].

Lemma newWorker_trace res cr mode h w :
  trace_of (newWorker res cr mode) h (inr w) →
  ∃ b, ev (NewWithCredentials res cr) (inr b) ∈ h ∧ b_Worker b = w.
Proof.
  intros Ht. apply (trace_wp (λ h x, ∀ w, x = inr w → ∃ b, ev (NewWithCredentials res cr) (inr b) ∈ h ∧ b_Worker b = w)
    _ _ _ Ht); [|done].
  unfold newWorker. cbv zeta. wp_explore; intros w' Hw'; try discriminate Hw'; injection Hw' as <-;
    match goal with |- context [b_Worker ?b] => exists b end; (split; [set_solver|done]).
Qed.

Lemma retry_trace r h r' e : trace_of (retryCleanups r) h (r', e) → checkpoints r' = checkpoints r.
Proof.
  intros Ht. apply (trace_wp (λ _ x, checkpoints (fst x) = checkpoints r) _ _ _ Ht).
  apply wp_bind, wp_traces. intros. by apply wp_ret.
Qed.

Lemma stop_trace r h r' e : trace_of (stop r) h (r', e) → checkpoints r' = checkpoints r.
Proof.
  intros Ht. apply (trace_wp (λ _ x, checkpoints (fst x) = checkpoints r) _ _ _ Ht).
  unfold stop. wp_explore; [by destruct ans1|done].
Qed.

(** The check for a worker that has ended. *)
Lemma await_trace r w h r' e :
  trace_of (d ← call (WorkerDone w); match d with None => mret (r, None) | Some _ => stop r end) h (r', e) →
  checkpoints r' = checkpoints r.
Proof.
  intros Ht. apply (trace_wp (λ _ x, checkpoints (fst x) = checkpoints r) _ _ _ Ht).
  apply wp_call_bind. intros [d|] _; [|by apply wp_ret]. apply wp_traces. intros h1 [r1 e1] Ht1 _.
  by eapply stop_trace.
Qed.

Lemma protect_trace r u h :
  trace_of (protect r u) h None →
  om_DeletionTimestamp (u_Meta u) = None ∧
  (Finalizer ∈ om_Finalizers (u_Meta u) ∨
   ev (RootUpdate (set_Finalizers (om_Finalizers (u_Meta u) ++ [Finalizer]) u)) None ∈ h).
Proof.
  intros Ht. apply (trace_wp (λ h e, e = None → om_DeletionTimestamp (u_Meta u) = None ∧
    (Finalizer ∈ om_Finalizers (u_Meta u) ∨
     ev (RootUpdate (set_Finalizers (om_Finalizers (u_Meta u) ++ [Finalizer]) u)) None ∈ h)) _ _ _ Ht); [|done].
  unfold protect. destruct (om_DeletionTimestamp _); cbn [isSome isNone negb]; [by apply wp_ret|].
  destruct (slices_contains _ _) eqn:Hf; [apply wp_ret; apply slices_contains_spec in Hf; auto|].
  apply wp_call. intros e _ ->. split; [done|]. right. by left.
Qed.

Section parts.
Context (ns name : string) (Q : cl_history → Runtime * option error → Prop).
Context (HQ : ∀ h x, sessions_protected ns name h → Q h x).

Lemma wp_replace_protected r l current w h0 hl h1 hs hr cp b h :
  h = h0 ++ hl ++ h1 ++ hs ++ hr ++ [ev (ObjectGet "runnerscalesets" name) (inr current)] →
  sessions_protected ns name h → trace_of (Load ns name) hl (inr l) →
  ev (NewWithCredentials (ld_Resolved l) (ld_Credentials l)) (inr b) ∈ h1 → b_Worker b = w →
  trace_of (Checkpoints_Save {| cp_Namespace := ns; cp_Name := name |} (ld_Snapshot l)) hs None →
  trace_of (Checkpoints_Read {| cp_Namespace := ns; cp_Name := name |}) hr (inr cp) →
  uid_of cp = uid_of (ld_Snapshot l) →
  sameRootRevision (u_Meta current) (ss_Meta (sn_ScaleSet (ld_Snapshot l))) = true →
  wp no_contract Q h (replace_worker r l current w).
Proof using HQ.
  intros Hh Hp Hl Hb Hw Hs Hr Hcp Hrev. unfold replace_worker. part. intros h2 e Hp2 Ht2.
  destruct e as [e|]; [rest|]. part. intros h3 [r3 e] Hp3 _. destruct e as [e|]; [rest|].
  apply wp_bind. unfold start. apply wp_call_bind. intros [] _. apply wp_ret.
  eapply (wp_rest ns name); [emit_quiet| |done]. apply at_every_snoc; [done|]. intros w' [= <-].
  exists l, h0, hl, h1, hs, hr, (h2 ++ h3), cp, current, b. split_and!; try done.
  - rewrite Hh. by rewrite <- !app_assoc.
  - by apply (protect_trace r current h2).
  - destruct (proj2 (protect_trace r current h2 Ht2)); [by left|]. right. set_solver.
Qed.

Lemma wp_accept_protected r root cpt l h0 hl hm h :
  checkpoints r = {| cp_Namespace := ns; cp_Name := name |} → h = h0 ++ hl ++ hm →
  sessions_protected ns name h → trace_of (Load ns name) hl (inr l) →
  wp no_contract Q h (accept r root cpt l).
Proof using HQ.
  intros Hc Hh Hp Hl. unfold accept. part. intros h1 [e|w] Hp1 Ht1; [rest|].
  assert (∃ b, ev (NewWithCredentials (ld_Resolved l) (ld_Credentials l)) (inr b) ∈ h1 ∧ b_Worker b = w) as (b & Hb & Hw).
  { by eapply newWorker_trace. }
  part. intros h2 [e|] Hp2 Ht2; [rest|]. unfold observe_accepted. part. intros h3 cp Hp3 Ht3.
  match goal with |- wp _ _ _ (if ?x then _ else _) => destruct x eqn:Hid end; [rest|].
  destruct cp as [e|cp]; [done|]. reflect in Hid. unfold root_get. apply wp_call_bind. intros g _.
  assert (rt_Name r = name) as Hname by (by injection Hc). rewrite Hname in *.
  set (h4 := _ ++ [_]).
  assert (sessions_protected ns name h4) as Hp4 by (apply protected_quiet; [done|by constructor]).
  destruct g as [e|current]; [rest|]. destruct (sameRootRevision _ _) eqn:Hrev; cbn [negb]; [|rest].
  rewrite Hc in Ht2, Ht3.
  eapply (wp_replace_protected _ l current w h0 hl (hm ++ h1) h2 h3 cp b); try done; [|set_solver].
  unfold h4. rewrite Hh. by rewrite <- !app_assoc.
Qed.
End parts.

(** C16: a session starts protected.  Within a reconciliation a session worker
    is started only after, in this order: the configuration was loaded; the
    worker was built from exactly that configuration and its credentials; the
    checkpoint of that configuration was saved; the checkpoint was read back
    and names the same scale set; the live object was read again, is of the
    loaded revision and is not being deleted; and its cleanup finalizer was
    present or its installation was acknowledged. *)
Theorem session_protected r :
  ensures no_contract (Runtime_Reconcile r) (λ h _, sessions_protected (rt_Namespace r) (rt_Name r) h).
Proof.
  apply wp_ensures. set (ns := rt_Namespace r). set (name := rt_Name r).
  assert (sessions_protected ns name []) as Hp by apply at_every_nil.
  unfold Runtime_Reconcile, root_get. part. intros h1 [r1 e] Hp1 Ht1.
  assert (checkpoints r1 = {| cp_Namespace := ns; cp_Name := name |}) as Hc1 by (by eapply retry_trace).
  destruct e as [e|]; [rest|]. part. intros h2 g Hp2 _.
  match goal with |- wp _ _ _ (match ?x with _ => _ end) => destruct x as [e|root] end; [rest|].
  part. intros h3 cp Hp3 _. cbv zeta.
  do 2 (match goal with |- wp _ _ _ (if ?b then _ else _) => destruct b end; [rest|]).
  destruct root as [u|]; [|rest]. destruct (_ || _); [rest|].
  unfold reconcileLive. assert (rt_Namespace r1 = ns ∧ rt_Name r1 = name) as [-> ->] by (by injection Hc1).
  part. intros hl [e|l] Hpl Hl; [rest|]. destruct (negb _); [rest|].
  apply wp_bind. set (h0 := ((([] ++ h1) ++ h2) ++ h3)) in *.
  assert (∀ hm r2 e, sessions_protected ns name (h0 ++ hl ++ hm) →
    checkpoints r2 = {| cp_Namespace := ns; cp_Name := name |} →
    wp no_contract (λ h _, sessions_protected ns name h) (h0 ++ hl ++ hm)
      match e with
      | Some err => mret (r2, Some err)
      | None =>
          match rt_worker r2 with
          | Some w => if aw_key w =s Key l then keep_worker r2 u w l else accept r2 u cp l
          | None => accept r2 u cp l
          end
      end) as Hrest.
  { intros hm r2 e Hp4 Hc2. destruct e as [e|]; [rest|].
    destruct (rt_worker r2) as [w|]; [destruct (_ =s _); [rest|]|]; by eapply wp_accept_protected. }
  destruct (rt_worker r1) as [w|] eqn:Hw.
  2: { apply wp_ret. specialize (Hrest [] r1 None). rewrite !app_nil_r in Hrest. by apply Hrest. }
  eapply wp_quiet; [emit_quiet|done|]. intros hm [r2 e] Hpm Htm. rewrite <- app_assoc in Hpm |- *.
  apply Hrest; [done|]. rewrite <- Hc1. by eapply await_trace.
Qed.

(** The answer that the scale set is absent. *)
Definition absent_root (name : string) (v : event clusterE) : Prop :=
  ∃ err, v = ev (ObjectGet "runnerscalesets" name) (inl err) ∧ errors_is err APINotFound = true.

(** The durable state leaves nothing to clean up: no checkpoint and no owned
    object, or a checkpoint whose configuration is drained. *)
Definition state_resolved (c : Checkpoints) (h : cl_history) : Prop :=
  (∃ hr err, h = hr ++ [ev (OwnedMaps (cp_Name c)) (inr 0)] ∧ trace_of (Checkpoints_Read c) hr (inl err) ∧
     errors_is err APINotFound = true) ∨
  ∃ cm s r, ev (CheckpointGet (checkpoint_name c)) (inr cm) ∈ h ∧ decode c cm = inr s ∧ Compile s = inr r ∧
    ev (DrainedState (rs_Config r)) (inr true) ∈ h.

Lemma wp_rootAbsent r h Q :
  (∀ v e, (e = None → absent_root (rt_Name r) v) → Q (h ++ [v]) e) → wp no_contract Q h (rootAbsent r).
Proof.
  intros HQ. apply wp_call_bind. intros [err|u] _; apply wp_ret, HQ; [|done].
  destruct (errors_is err APINotFound) eqn:He; [|done]. intros _. by exists err.
Qed.

Lemma read_trace c h s : trace_of (Checkpoints_Read c) h (inr s) → seen c h s.
Proof.
  intros Ht. apply (trace_wp (λ h x, ∀ s, x = inr s → seen c h s) _ _ _ Ht); [|done].
  apply wp_call_bind. intros [e|cm] _; apply wp_ret; intros s' Hs; [done|]. exists cm. split; [by left|done].
Qed.

Lemma wp_check_state r h Q :
  (∀ h' e, (e = None → state_resolved (checkpoints r) h') → Q (h ++ h') e) → wp no_contract Q h (check_state r).
Proof.
  intros HQ. apply wp_traces. intros h' e Ht _. apply HQ. revert Ht. intros Ht.
  apply (trace_wp (λ h e, e = None → state_resolved (checkpoints r) h) _ _ _ Ht). unfold check_state.
  apply wp_bind, wp_traces. intros hr [err|s] Hr _; simpl.
  - destruct (errors_is err APINotFound) eqn:He; [|by apply wp_ret]. apply wp_call_bind.
    intros [e'|n] _; apply wp_ret; [done|]. intros Hn. apply reject_None in Hn. reflect in Hn. subst n. left. by exists hr, err.
  - destruct (Compile s) as [e'|res] eqn:Hc; [by apply wp_ret|].
    apply wp_call_bind. intros [e'|done] _; apply wp_ret; [by intros|]. intros Hn. apply reject_None in Hn.
    apply negb_false_iff in Hn. subst done. right. apply read_trace in Hr as (cm & Hcm & Hd). exists cm, s, res.
    split_and!; [set_solver|done|done|set_solver].
Qed.

(** Uninstalling is allowed only when nothing is left: the scale set was absent
    before and after, and in between there was no checkpoint and no owned
    object, or every allocation of the checkpointed configuration was resolved. *)
Theorem uninstall_checked r :
  ensures no_contract (CheckUninstall r) (λ h e, e = None →
    ∃ v1 h' v2, h = v1 :: h' ++ [v2] ∧ absent_root (rt_Name r) v1 ∧ absent_root (rt_Name r) v2 ∧
      state_resolved (checkpoints r) h').
Proof.
  apply wp_ensures. apply wp_bind, wp_rootAbsent. intros v1 [e|] H1'; [by apply wp_ret|].
  apply wp_bind, wp_check_state. intros h' [e|] H2'; [by apply wp_ret|].
  apply wp_rootAbsent. intros v2 e H3' He. exists v1, h', v2. split_and!; auto.
Qed.
End session.
