(* ===== verification/ConfigExample.v ===== *)
(** * A configuration

    One scale set with an AWS provider, a wireguard network and a budget, on
    which the theorems on configuration are applied. *)
From S2P Require Import Prelude.
From S2P Require Import Effects.
From S2P Require Import Placement.
From S2P Require Import Recovery.
From S2P Require Import Overlay.
From S2P Require Import Provider.
From S2P Require Import Fleet.
From S2P Require Import DemandProps.
From S2P Require Import ConfigCheck.
From S2P Require Import Api.
From S2P Require Import Compile.
From S2P Require Import CompileProps.
Import Api.
Import OverlayExample.

Module ConfigExample.
Definition safe_name (s : string) : bool := negb (isSome (ValidateName s)).

#[export] Instance rules : NameRules := {|
  IsDNS1123Label := safe_name;
  IsDNS1123Subdomain := safe_name;
  IsConfigMapKey := safe_name;
  url_Parse := λ s, inr {| url_Scheme := "https"; url_Host := "github.com"; url_User := false;
                           url_RawQuery := ""; url_Fragment := ""; url_Path := "/org" |}
|}.

Definition meta (name : string) : ObjectMeta :=
  {| om_Name := name; om_Namespace := "ns"; om_UID := "uid-" +:+ name; om_ResourceVersion := "1";
     om_Generation := 1; om_DeletionTimestamp := None; om_Finalizers := [] |}.
Definition status : ConfigurationStatus := {| st_ObservedGeneration := 0; st_Conditions := [] |}.

Definition offering : Offering :=
  {| off_ID := "aws-1"; off_Provider := "aws"; off_Region := "eu"; off_Zone := "eu-a"; off_Machine := "m7";
     off_Image := "ami"; off_CPU := 4; off_MemoryMiB := 8192; off_Architecture := "amd64"; off_Vendor := "intel";
     off_Capabilities := []; off_Spot := true; off_PriceMicros := 40000; off_Currency := "USD";
     off_ObservedAt := PlacementExample.now; off_GCPSkuRefs := None |}.

Definition scale_set (uid : string) (deleted : option time) (finalizers : list string) (generation : Z)
    : RunnerScaleSet :=
  {| ss_Meta := {| om_Name := "set"; om_Namespace := "ns"; om_UID := uid; om_ResourceVersion := "1";
                   om_Generation := generation; om_DeletionTimestamp := deleted; om_Finalizers := finalizers |};
     ss_Spec := {| RunnerClassRef := "class";
                   ss_GitHub := {| gh_URL := "https://github.com/org"; gh_ScaleSetID := 1;
                                   gh_Auth := {| auth_Mode := "pat";
                                                 auth_SecretRef := {| sk_Name := "github"; sk_Key := "token" |};
                                                 AppClientID := ""; AppInstallationID := 0 |} |};
                   ss_MaxRunners := 3; ss_ProvisioningSeconds := 600; ss_MaxLifetimeSeconds := 3600;
                   ss_Suspend := false; BudgetRef := Some "budget" |};
     ss_Status := status |}.

Definition snapshot : Snapshot :=
  {| sn_ScaleSet := scale_set "uid-set" None [] 1;
     sn_Class :=
       {| rc_Meta := meta "class";
          rc_Spec := {| rc_Resources := {| res_CPU := 2; res_MemoryMiB := 4096; res_Architecture := "amd64";
                                           res_Vendor := ""; res_Capabilities := [] |};
                        rc_Placement := {| pp_Policy := "lowest-price"; pp_Regions := ["eu"];
                                           pp_MaxPriceMicros := 100000; pp_AllowOnDemand := false |};
                        rc_Providers := ["aws"]; CatalogRef := "catalog"; NetworkRef := Some "mesh";
                        rc_Retry := {| Enabled := true; MaxRetries := 2; AcknowledgeRepeatedEffects := true |} |};
          rc_Status := status |};
     sn_Catalog :=
       {| cc_Meta := meta "catalog";
          cc_Spec := {| cc_Offerings := [offering]; cc_Complete := {["aws" := true]}; PriceRefresh := ∅ |};
          cc_Status := status |};
     sn_Providers :=
       {["aws" :=
         {| pcf_Meta := meta "aws";
            pcf_Spec := {| Connection := {| pcn_Kind := "aws"; pcn_AccountID := "123456789012";
                                            pcn_Subscription := ""; pcn_ResourceGroup := "";
                                            pcn_SSHPublicKey := ""; pcn_Project := ""; pcn_Profile := "";
                                            pcn_Subnet := "subnet-1"; pcn_SecurityGroup := "sg-1" |};
                           CredentialEnvironment :=
                             {["AWS_ACCESS_KEY_ID" := {| sk_Name := "cloud"; sk_Key := "id" |}]} |};
            pcf_Status := status |}]};
     sn_Network :=
       Some {| np_Meta := meta "mesh";
               np_Spec := {| np_Mode := "wireguard";
                             np_Mappings := [{| nm_ProviderRef := "aws"; nm_Region := "eu"; nm_NetworkID := "vpc-1";
                                                nm_SubnetID := "subnet-1"; nm_CIDRs := ["10.0.0.0/29"] |}];
                             np_AllowedServices := []; np_EnrollmentRef := None |};
               np_Status := status |};
     sn_Budget := Some {| cb_Meta := meta "budget"; DailyBudgetMicros := 5000000; cb_Status := status |} |}.

Definition compiled : option Resolved := match Compile snapshot with inl _ => None | inr r => Some r end.
Definition accepted (s : Snapshot) : bool := match Compile s with inl _ => false | inr _ => true end.
End ConfigExample.

Import ConfigExample.

Lemma accepted_inr s : accepted s = true → ∃ r, Compile s = inr r.
Proof. unfold accepted. destruct (Compile s) as [|r]; [done|]. by exists r. Qed.

Lemma compile_sound_witness :
  ∃ r, Compile snapshot = inr r ∧ config_valid (rs_Config r) ∧ pool_disjoint (NetworkOverlayCIDRs (rs_Config r)).
Proof.
  assert (accepted snapshot = true) as Hs by (vm_compute; reflexivity).
  destruct (accepted_inr _ Hs) as [r Hr]. exists r. split; [exact Hr|].
  destruct (compile_sound snapshot r Hr) as (Hv & _ & _ & _ & _ & _ & Hp & _). by split.
Defined.

