(* ===== verification/RuntimeExample.v ===== *)
(** * Executions of the configuration runtime

    A small cluster with one scale set: a first reconciliation that starts a
    session, a deletion that ends with the finalizer removed, and a candidate
    worker that is dropped without its cleanup. *)
From S2P Require Import Prelude.
From S2P Require Import Effects.
From S2P Require Import Placement.
From S2P Require Import Recovery.
From S2P Require Import Overlay.
From S2P Require Import Provider.
From S2P Require Import State.
From S2P Require Import Fleet.
From S2P Require Import ConfigCheck.
From S2P Require Import Api.
From S2P Require Import Compile.
From S2P Require Import CompileProps.
From S2P Require Import Cluster.
From S2P Require Import Checkpoint.
From S2P Require Import CheckpointProps.
From S2P Require Import Load.
From S2P Require Import LoadProps.
From S2P Require Import Runtime.
From S2P Require Import RuntimeProps.
From S2P Require Import SessionProps.
From S2P Require Import ConfigExample.
Import Api.
Import OverlayExample.
Import ConfigExample.

(** ** Equality of snapshots *)

#[export] Instance ObjectMeta_eq_dec : EqDecision ObjectMeta.
Proof. solve_decision. Defined.
#[export] Instance Condition_eq_dec : EqDecision Condition.
Proof. solve_decision. Defined.
#[export] Instance ConfigurationStatus_eq_dec : EqDecision ConfigurationStatus.
Proof. solve_decision. Defined.
#[export] Instance SecretKeyReference_eq_dec : EqDecision SecretKeyReference.
Proof. solve_decision. Defined.
#[export] Instance ProviderConnection_eq_dec : EqDecision ProviderConnection.
Proof. solve_decision. Defined.
#[export] Instance ProviderConfigSpec_eq_dec : EqDecision ProviderConfigSpec.
Proof. solve_decision. Defined.
#[export] Instance ProviderConfig_eq_dec : EqDecision Api.ProviderConfig.
Proof. solve_decision. Defined.
#[export] Instance ClassResources_eq_dec : EqDecision ClassResources.
Proof. solve_decision. Defined.
#[export] Instance PlacementPolicy_eq_dec : EqDecision PlacementPolicy.
Proof. solve_decision. Defined.
#[export] Instance Policy_eq_dec : EqDecision Policy.
Proof. solve_decision. Defined.
#[export] Instance RunnerClassSpec_eq_dec : EqDecision RunnerClassSpec.
Proof. solve_decision. Defined.
#[export] Instance RunnerClass_eq_dec : EqDecision RunnerClass.
Proof. solve_decision. Defined.
#[export] Instance GitHubAuthentication_eq_dec : EqDecision GitHubAuthentication.
Proof. solve_decision. Defined.
#[export] Instance GitHubScaleSet_eq_dec : EqDecision GitHubScaleSet.
Proof. solve_decision. Defined.
#[export] Instance RunnerScaleSetSpec_eq_dec : EqDecision RunnerScaleSetSpec.
Proof. solve_decision. Defined.
#[export] Instance RunnerScaleSet_eq_dec : EqDecision RunnerScaleSet.
Proof. solve_decision. Defined.
#[export] Instance CapacityCatalogSpec_eq_dec : EqDecision CapacityCatalogSpec.
Proof. solve_decision. Defined.
#[export] Instance CapacityCatalog_eq_dec : EqDecision CapacityCatalog.
Proof. solve_decision. Defined.
#[export] Instance NetworkMapping_eq_dec : EqDecision NetworkMapping.
Proof. solve_decision. Defined.
#[export] Instance NetworkProfileSpec_eq_dec : EqDecision NetworkProfileSpec.
Proof. solve_decision. Defined.
#[export] Instance NetworkProfile_eq_dec : EqDecision NetworkProfile.
Proof. solve_decision. Defined.
#[export] Instance CapacityBudget_eq_dec : EqDecision CapacityBudget.
Proof. solve_decision. Defined.
#[export] Instance Snapshot_eq_dec : EqDecision Snapshot.
Proof. solve_decision. Defined.

Module RuntimeExample.
(** ** The formats *)

#[export] Instance fleets : FleetCodec := {|
  fleet_marshal := λ _, inl (errors_new "unused");
  fleet_unmarshal := λ _, inl (errors_new "unused");
  fingerprint := λ c, cfg_Name c
|}.

(** The text of the one snapshot of the example. *)
#[export] Instance snapshots : SnapshotCodec := {|
  snapshot_marshal := λ s, if bool_decide (strip s = strip snapshot) then inr "snapshot" else inl (errors_new "unused");
  snapshot_unmarshal := λ t, if t =s "snapshot" then inr (strip snapshot) else inl (errors_new "syntax error");
  snapshot_decode := λ t, if t =s "snapshot" then inr (strip snapshot, true) else inl (errors_new "syntax error")
|}.

(** An object is its metadata and, by name, the specification of the example. *)
#[export] Instance object_codec : ObjectCodec := {|
  object_size := λ _, Some 100;
  decode_ScaleSet := λ u, inr {| ss_Meta := u_Meta u; ss_Spec := ss_Spec (sn_ScaleSet snapshot); ss_Status := status |};
  decode_Class := λ u, inr {| rc_Meta := u_Meta u; rc_Spec := rc_Spec (sn_Class snapshot); rc_Status := status |};
  decode_Catalog := λ u, inr {| cc_Meta := u_Meta u; cc_Spec := cc_Spec (sn_Catalog snapshot); cc_Status := status |};
  decode_Provider := λ u, match sn_Providers snapshot !! om_Name (u_Meta u) with
                          | Some p => inr {| pcf_Meta := u_Meta u; pcf_Spec := pcf_Spec p; pcf_Status := status |}
                          | None => inl (errors_new "unknown field")
                          end;
  decode_Network := λ u, match sn_Network snapshot with
                         | Some n => inr {| np_Meta := u_Meta u; np_Spec := np_Spec n; np_Status := status |}
                         | None => inl (errors_new "unknown field")
                         end;
  decode_Budget := λ u, inr {| cb_Meta := u_Meta u; DailyBudgetMicros := 5000000; cb_Status := status |}
|}.

(** Texts of 64 characters. *)
#[export] Instance hashes : Hashing.
Proof.
  refine {| sha256_hex := λ _, "0123456789abcdef0123456789abcdef0123456789abcdef0123456789abcdef"; key_json := λ _, "" |}.
  reflexivity.
Defined.

(** ** The cluster *)

Definition entity (kind : string) (m : ObjectMeta) : Unstructured :=
  {| u_Meta := m; u_APIVersion := apiVersion; u_Kind := kind; u_ObservedGeneration := 0; u_Conditions := [];
     u_Body := "" |}.
Definition root (deleted : option time) (finalizers : list string) : Unstructured :=
  entity "RunnerScaleSet" (ss_Meta (scale_set "uid-set" deleted finalizers 1)).

Definition secret_object (name key value : string) : Secret :=
  {| sec_Namespace := "ns"; sec_Name := name; sec_UID := "uid-" +:+ name; sec_ResourceVersion := "1";
     sec_DeletionTimestamp := None; sec_Data := {[key := value]} |}.

Definition cluster (r : Unstructured) : ClusterState :=
  {| cs_objects :=
       {[("runnerscalesets", "set") := r;
         ("runnerclasses", "class") := entity "RunnerClass" (meta "class");
         ("capacitycatalogs", "catalog") := entity "CapacityCatalog" (meta "catalog");
         ("providerconfigs", "aws") := entity "ProviderConfig" (meta "aws");
         ("networkprofiles", "mesh") := entity "NetworkProfile" (meta "mesh");
         ("capacitybudgets", "budget") := entity "CapacityBudget" (meta "budget")]};
     cs_secrets := {["github" := secret_object "github" "token" "ghp-1"; "cloud" := secret_object "cloud" "id" "AKIA"]} |}.

Definition missing : error := Err "not found" [APINotFound].
Definition checkpointed : CheckpointMap :=
  checkpoint_map {| cp_Namespace := "ns"; cp_Name := "set" |} "uid-set" "snapshot".

(** The cluster and its workers: whether the checkpoint exists, whether workers
    have ended, and the provider clients that candidates have. *)
Definition handler (r : Unstructured) (ended : bool) (aws : bool) (X : Type) (e : clusterE X) (saved : bool) : bool * X :=
  match e in clusterE T return bool * T with
  | ObjectGet resource name =>
      (saved, match cs_objects (cluster r) !! (resource, name) with Some u => inr u | None => inl missing end)
  | RootUpdate _ | RootUpdateStatus _ => (saved, None)
  | SecretGet name => (saved, match cs_secrets (cluster r) !! name with Some s => inr s | None => inl missing end)
  | CheckpointGet _ => (saved, if saved then inr checkpointed else inl missing)
  | CheckpointCreate _ => (true, None)
  | CheckpointUpdate _ | CheckpointDelete _ _ _ => (saved, None)
  | OwnedMaps _ => (saved, inr 0)
  | RangeOrder keys => (saved, keys)
  | NowText => (saved, "2026-01-01T00:00:00Z")
  | NewGitHub _ _ _ => (saved, None)
  | NewWithCredentials _ _ => (saved, inr {| b_Worker := 1; b_AWS := aws; b_Azure := false; b_GCPBilling := false |})
  | InterruptionQueue _ _ => (saved, None)
  | Pause _ _ | DrainWorker _ | StartWorker _ _ | CancelWorker _ | SetReady _ => (saved, tt)
  | CleanupWorker _ => (saved, None)
  | WorkerDone _ => (saved, if ended then Some None else None)
  | WorkerDrained _ => (saved, inr true)
  | WorkerReady _ => (saved, true)
  | DrainedState _ => (saved, inr true)
  end.

Definition runtime : Runtime :=
  {| rt_Namespace := "ns"; rt_Name := "set"; rt_worker := None; completedUID := ""; pendingCleanups := [] |}.

(** The first reconciliation of a live scale set, and that of a deleted one. *)
Definition live_history : cl_history := run_history (handler (root None []) false true) (Run 1 runtime) false.
Definition deleted_history : cl_history :=
  run_history (handler (root (Some 5) [Finalizer; "other"]) true true) (Run 1 runtime) true.

Definition removes_finalizer (v : event clusterE) : bool :=
  match v with
  | existT _ (e, _) =>
      match e with RootUpdate u => bool_decide (om_Finalizers (u_Meta u) = ["other"]) | _ => false end
  end.
Definition starts_session (v : event clusterE) : bool := isSome (session_of v).
End RuntimeExample.

Import RuntimeExample.

(** ** Witnesses *)

Lemma example_initial : initial runtime.
Proof. done. Qed.


Lemma strip_strip s : strip (strip s) = strip s.
Proof.
  unfold strip. cbn [sn_ScaleSet sn_Class sn_Catalog sn_Providers sn_Network sn_Budget]. f_equal.
  - rewrite <- map_fmap_compose. by apply map_fmap_ext.
  - by destruct (sn_Network s).
  - by destruct (sn_Budget s).
Qed.

Lemma snapshots_roundtrip : codec_roundtrips.
Proof.
  intros s0 t s d Hm Hu Hd. unfold snapshot_marshal, snapshot_unmarshal, snapshot_decode, snapshots in *.
  destruct (bool_decide _) in Hm; [|discriminate Hm]. injection Hm as <-. change (_ =s _) with true in Hu.
  injection Hu as <-. rewrite !strip_strip in *. rewrite bool_decide_eq_true_2 in Hd by done.
  by injection Hd as <-.
Qed.

Definition saving : cl_history :=
  run_history (handler (root None []) false true) (Checkpoints_Save (checkpoints runtime) snapshot) false.
Definition saving_result : option error :=
  snd (run (handler (root None []) false true) (Checkpoints_Save (checkpoints runtime) snapshot) false).

Lemma checkpoint_saved_witness :
  saving_result = None ∧
  ∃ new cm, checkpointSnapshot snapshot = inr new ∧ decode (checkpoints runtime) cm = inr new ∧
    (ev (CheckpointGet (checkpoint_name (checkpoints runtime))) (inr cm) ∈ saving ∨
     ∃ v, v ∈ saving ∧ write_of v = Some (cm, None)).
Proof.
  assert (saving_result = None) as Hr by (vm_compute; reflexivity). split; [exact Hr|].
  assert (∀ s, snapshot_marshal s ≠ inr "") as Hne by (intros s'; cbn; by destruct (bool_decide _)).
  destruct (checkpoint_saved (checkpoints runtime) snapshot snapshots_roundtrip Hne saving saving_result) as (new & _ & Hn);
    [apply run_trace|by apply Forall_true|].
  destruct (Hn Hr) as [Hs (cm & Hd & Hv)]. exists new, cm. by split_and!.
Defined.

(** The example's cluster does not change. *)
Definition timeline (t : nat) : ClusterState := cluster (root None []).
Definition loading : cl_history := run_history (handler (root None []) false true) (Load "ns" "set") false.
Definition loading_result : result Loaded := snd (run (handler (root None []) false true) (Load "ns" "set") false).

Lemma timeline_versioned : versioned timeline.
Proof. split; intros; done. Qed.

Lemma handler_answered X (e : clusterE X) w :
  answered (timeline 0) (ev e (snd (handler (root None []) false true X e w))).
Proof.
  destruct e; try exact I; unfold answered, ev, handler, snd, timeline.
  - by destruct (cs_objects _ !! _).
  - by destruct (cs_secrets _ !! _).
  - done.
Qed.

Lemma run_served {R} (p : clM R) w : served timeline 0 (run_history (handler (root None []) false true) p w) 0.
Proof.
  revert w. induction p as [r|X e k IH]; intros w; simpl; [constructor|].
  pose proof (handler_answered X e w) as Ha. destruct (handler _ _ _ X e w) as [w' x].
  apply (served_cons _ _ 0%nat); [done|exact Ha|apply IH].
Qed.

Lemma load_consistent_witness :
  ∃ l, loading_result = inr l ∧
    loaded_of (λ r n u, cs_objects (timeline 0) !! (r, n) = Some u) (λ n s, cs_secrets (timeline 0) !! n = Some s) "set" l.
Proof.
  assert (match loading_result with inl _ => false | inr _ => true end = true) as Hok by (vm_compute; reflexivity).
  destruct loading_result as [e|l] eqn:Hl; [discriminate Hok|]. exists l. split; [reflexivity|].
  assert (trace_of (Load "ns" "set") loading (inr l)) as Ht by (rewrite <- Hl; apply run_trace).
  destruct (load_consistent timeline "ns" "set" 0 0 loading l timeline_versioned Ht (run_served _ _)) as (tm & _ & Hc).
  exact Hc.
Defined.

(** ** A candidate that is dropped *)

Module Dropped.
(** The same configuration, with live Azure prices switched on in the catalog. *)
Definition refreshing_codec : ObjectCodec := {|
  object_size := object_size;
  decode_ScaleSet := decode_ScaleSet;
  decode_Class := decode_Class;
  decode_Catalog := λ u,
    inr {| cc_Meta := u_Meta u;
           cc_Spec := {| cc_Offerings := [offering]; cc_Complete := {["aws" := true]};
                         PriceRefresh := {["azure" := true]} |};
           cc_Status := status |};
  decode_Provider := decode_Provider;
  decode_Network := decode_Network;
  decode_Budget := decode_Budget
|}.
#[local] Existing Instance refreshing_codec.

Definition history : cl_history := run_history (handler (root None []) false true) (Run_body runtime) false.
Definition final : Runtime := snd (run (handler (root None []) false true) (Run_body runtime) false).

Definition builds (v : event clusterE) : bool :=
  match v with existT _ (e, _) => match e with NewWithCredentials _ _ => true | _ => false end end.
Definition cleans (v : event clusterE) : bool :=
  match v with existT _ (e, _) => match e with CleanupWorker _ => true | _ => false end end.
End Dropped.

(** A rejected candidate is dropped without its cleanup.  When the catalog asks
    for live prices of a provider that is not configured, a reconciliation
    builds the worker, with its private credential caches, and then rejects it;
    its cleanup function is not called, and the runtime keeps neither the worker
    nor the cleanup for later, so each further reconciliation repeats this. *)
Lemma rejected_candidate_dropped :
  existsb Dropped.builds Dropped.history = true ∧ existsb Dropped.cleans Dropped.history = false ∧
  rt_worker Dropped.final = None ∧ pendingCleanups Dropped.final = [].
Proof. split_and!; vm_compute; reflexivity. Qed.
